(** * Viewer_Git_Code: LES / eMAP parsers and the XML repeat resolver

    A shallow embedding of the parsing and geometry core of the viewer
    ([les_parser.py], [les_parser_panel_image.py], [xml_parser.py],
    [canvas/xml_drawing.py], [canvas/viewer_canvas_core.py]) together with
    the properties its specification states about it.

    Conventions of the embedding.
    - Python [str] values are [string]s over [ascii]; a character is a
      code point below 256.  The character tests ([isspace], [isdigit],
      the classes [\s] and [\d], the blanks [int] and [float] skip) are
      those of CPython on these code points; [upper] and [lower] act on
      the letters A-Z and a-z.
    - Python exceptions are explicit: a fallible function returns
      [result A], either [Ok a] or [Raise e].
    - Floats of the LES side only meet [+ - * /] and comparisons; they are
      the exact rationals [Q].  Floats of the XML resolver meet [cos],
      [sin] and [atan2]; they are the reals [R].  Rounding, infinities and
      NaN are outside the model.
    - The Python call stack is a fuel argument: a recursive walk that runs
      out of frames raises [RecursionError]. *)

From Stdlib Require Import List String Ascii Bool Arith ZArith QArith Lia.
From Stdlib Require Import DecimalString Reals Lra.
Import ListNotations.

Set Implicit Arguments.

(* ------------------------------------------------------------------ *)
(** * Python exceptions and the error monad *)

Module Py.

Inductive exn : Type :=
| ValueError
| KeyError
| IndexError
| RecursionError.

Inductive result (A : Type) : Type :=
| Ok (a : A)
| Raise (e : exn).

Arguments Ok {A} a.
Arguments Raise {A} e.

Definition bind {A B : Type} (m : result A) (k : A -> result B) : result B :=
  match m with
  | Ok a => k a
  | Raise e => Raise e
  end.


(** [try: m  except E: h] for a handler that catches every exception the
    body can raise. *)
Definition try_except {A : Type} (m : result A) (h : A) : A :=
  match m with
  | Ok a => a
  | Raise _ => h
  end.

(** ** Characters *)

Definition code (c : ascii) : nat := nat_of_ascii c.

(** Whitespace of [str.strip()] and of the regex class [\s]: the
    controls 9 to 13 and 28 to 31, the blank, NEL (133) and the
    no-break space (160). *)
Definition is_space (c : ascii) : bool :=
  let n := code c in
  ((9 <=? n) && (n <=? 13)) || ((28 <=? n) && (n <=? 32))
  || (n =? 133) || (n =? 160).

(** Whitespace skipped by [int()] and [float()]. *)
Definition is_num_space (c : ascii) : bool :=
  let n := code c in
  ((9 <=? n) && (n <=? 13)) || (n =? 32) || (n =? 133) || (n =? 160).

(** A decimal digit: what [int()], [float()] and the regex classes
    [\d] and [[0-9]] accept. *)
Definition is_digit (c : ascii) : bool :=
  let n := code c in (48 <=? n) && (n <=? 57).

(** [ch.isdigit()]: the decimal digits and the superscripts two, three
    and one (178, 179, 185), which [int()] does not accept. *)
Definition is_py_digit (c : ascii) : bool :=
  let n := code c in
  is_digit c || (n =? 178) || (n =? 179) || (n =? 185).

Definition digit_val (c : ascii) : Z := Z.of_nat (code c - 48).

(** ** Strings *)

Open Scope string_scope.

Definition len (s : string) : Z := Z.of_nat (String.length s).

Fixpoint lstrip_by (p : ascii -> bool) (s : string) : string :=
  match s with
  | EmptyString => EmptyString
  | String c r => if p c then lstrip_by p r else s
  end.

Definition rev_string (s : string) : string :=
  string_of_list_ascii (rev (list_ascii_of_string s)).

Definition rstrip_by (p : ascii -> bool) (s : string) : string :=
  rev_string (lstrip_by p (rev_string s)).

Definition strip_by (p : ascii -> bool) (s : string) : string :=
  rstrip_by p (lstrip_by p s).

(** [s.strip()]. *)
Definition strip (s : string) : string := strip_by is_space s.

Fixpoint mem_char (c : ascii) (chars : string) : bool :=
  match chars with
  | EmptyString => false
  | String d r => Ascii.eqb c d || mem_char c r
  end.

(** [s.strip(chars)], [s.lstrip(chars)], [s.rstrip(chars)]. *)
Definition strip_chars (chars s : string) : string :=
  strip_by (fun c => mem_char c chars) s.
Definition lstrip_chars (chars s : string) : string :=
  lstrip_by (fun c => mem_char c chars) s.
Definition rstrip_chars (chars s : string) : string :=
  rstrip_by (fun c => mem_char c chars) s.

(** [s.startswith(p)]. *)
Definition startswith (p s : string) : bool := String.prefix p s.

(** [s.endswith(c)] for a one-character suffix. *)
Definition endswith_char (c : ascii) (s : string) : bool :=
  match rev_string s with
  | String d _ => Ascii.eqb c d
  | EmptyString => false
  end.

(** [sub in s]. *)
Fixpoint contains (sub s : string) : bool :=
  String.prefix sub s ||
  match s with
  | EmptyString => false
  | String _ r => contains sub r
  end.

Definition has_char (c : ascii) (s : string) : bool :=
  mem_char c s.

(** [s.replace(c, '')] for a one-character [c]. *)
Fixpoint remove_char (c : ascii) (s : string) : string :=
  match s with
  | EmptyString => EmptyString
  | String d r =>
      if Ascii.eqb c d then remove_char c r else String d (remove_char c r)
  end.

(** [s.replace(ab, '')] for a two-character [ab]: occurrences are found
    left to right and do not overlap. *)
Fixpoint remove_pair (a b : ascii) (s : string) : string :=
  match s with
  | String c (String d r as t) =>
      if Ascii.eqb c a && Ascii.eqb d b then remove_pair a b r
      else String c (remove_pair a b t)
  | _ => s
  end.

(** [s.split(sep)] for a one-character separator. *)
Fixpoint split (sep : ascii) (s : string) : list string :=
  match s with
  | EmptyString => [EmptyString]
  | String c r =>
      if Ascii.eqb c sep then EmptyString :: split sep r
      else match split sep r with
           | h :: t => String c h :: t
           | [] => [String c EmptyString]
           end
  end.

(** [s.find(c, start)]: the index of the first [c] at or after [start],
    or [-1]. *)
Fixpoint find_from (c : ascii) (s : string) (start pos : nat) : Z :=
  match s with
  | EmptyString => (-1)%Z
  | String d r =>
      if (start <=? pos)%nat && Ascii.eqb c d then Z.of_nat pos
      else find_from c r start (S pos)
  end.

Definition find (c : ascii) (s : string) (start : Z) : Z :=
  find_from c s (Z.to_nat start) 0.

(** Slice bounds as Python clamps them. *)
Definition clamp_index (n i : Z) : Z :=
  let i := if (i <? 0)%Z then (i + n)%Z else i in
  Z.max 0 (Z.min n i).

(** [s[a:b]] and [s[a:]]. *)
Definition slice (s : string) (a b : Z) : string :=
  let a := clamp_index (len s) a in
  let b := clamp_index (len s) b in
  substring (Z.to_nat a) (Z.to_nat (b - a)) s.

Definition slice_from (s : string) (a : Z) : string :=
  slice s a (len s).

(** [s.split(sep, 1)]. *)
Definition split1 (sep : ascii) (s : string) : list string :=
  let i := find sep s 0 in
  if (i <? 0)%Z then [s]
  else [slice s 0 i; slice_from s (i + 1)].

(** [s[i]] for [i >= 0]. *)
Definition char_at (s : string) (i : nat) : result ascii :=
  match String.get i s with
  | Some c => Ok c
  | None => Raise IndexError
  end.

(** Every character is a decimal digit. *)
Fixpoint all_digits (s : string) : bool :=
  match s with
  | EmptyString => true
  | String c r => is_digit c && all_digits r
  end.

Fixpoint all_py_digits (s : string) : bool :=
  match s with
  | EmptyString => true
  | String c r => is_py_digit c && all_py_digits r
  end.

(** [s.isdigit()]: not empty, and [isdigit] holds of every character. *)
Definition isdigit (s : string) : bool :=
  match s with
  | EmptyString => false
  | _ => all_py_digits s
  end.

(** The longest prefix of decimal digits. *)
Fixpoint decimal_prefix (s : string) : string :=
  match s with
  | EmptyString => EmptyString
  | String c r => if is_digit c then String c (decimal_prefix r)
                  else EmptyString
  end.

(** [s.upper()] on the letters a-z. *)
Definition upper_char (c : ascii) : ascii :=
  let n := code c in
  if (97 <=? n)%nat && (n <=? 122)%nat then ascii_of_nat (n - 32) else c.

Fixpoint upper (s : string) : string :=
  match s with
  | EmptyString => EmptyString
  | String c r => String (upper_char c) (upper r)
  end.

(** [s.lower()] on the letters A-Z. *)
Definition lower_char (c : ascii) : ascii :=
  let n := code c in
  if (65 <=? n)%nat && (n <=? 90)%nat then ascii_of_nat (n + 32) else c.

Fixpoint lower (s : string) : string :=
  match s with
  | EmptyString => EmptyString
  | String c r => String (lower_char c) (lower r)
  end.

(** [str(n)] for an integer. *)
Definition str_of_int (n : Z) : string :=
  NilZero.string_of_int (Z.to_int n).

(** ** Numerals *)

(** A digit run in which single underscores may separate digits; the
    result is the value and the number of digits. *)
Fixpoint digits_acc (s : string) (acc : Z) (n : nat) (after_digit : bool)
  : option (Z * nat) :=
  match s with
  | EmptyString => if after_digit then Some (acc, n) else None
  | String c r =>
      if is_digit c then digits_acc r (10 * acc + digit_val c)%Z (S n) true
      else if Ascii.eqb c "_" && after_digit then digits_acc r acc n false
      else None
  end.

Definition digit_run (s : string) : option (Z * nat) :=
  digits_acc s 0%Z 0%nat false.

Definition split_sign (s : string) : bool * string :=
  match s with
  | String "+" r => (false, r)
  | String "-" r => (true, r)
  | _ => (false, s)
  end.

(** [sys.get_int_max_str_digits()] as CPython sets it. *)
Definition int_max_str_digits : Z := 4300.

(** [int(s)] in base 10.  A numeral of more digits than
    [int_max_str_digits] is refused with [ValueError]. *)
Definition int_of_string (s : string) : result Z :=
  let '(neg, body) := split_sign (strip_by is_num_space s) in
  match digit_run body with
  | Some (v, n) =>
      if (int_max_str_digits <? Z.of_nat n)%Z then Raise ValueError
      else Ok (if neg then (- v)%Z else v)
  | None => Raise ValueError
  end.

(** The first index of [e] or [E]. *)
Fixpoint find_exp (s : string) (pos : nat) : option nat :=
  match s with
  | EmptyString => None
  | String c r =>
      if Ascii.eqb c "e" || Ascii.eqb c "E" then Some pos
      else find_exp r (S pos)
  end.

Definition opt_digit_run (s : string) : option (Z * nat) :=
  match s with
  | EmptyString => Some (0%Z, 0%nat)
  | _ => digit_run s
  end.

(** Mantissa [digits [. [digits]] | . digits]: value and number of
    fraction digits. *)
Definition mantissa (s : string) : option (Z * nat) :=
  let i := find "." s 0 in
  if (i <? 0)%Z then
    match digit_run s with
    | Some (v, _) => Some (v, 0%nat)
    | None => None
    end
  else
    let ip := slice s 0 i in
    let fp := slice_from s (i + 1) in
    match ip, fp with
    | EmptyString, EmptyString => None
    | _, _ =>
        match opt_digit_run ip, opt_digit_run fp with
        | Some (vi, _), Some (vf, nf) =>
            Some ((vi * 10 ^ Z.of_nat nf + vf)%Z, nf)
        | _, _ => None
        end
    end.

Definition exponent (s : string) : option Z :=
  let '(neg, body) := split_sign s in
  match digit_run body with
  | Some (v, _) => Some (if neg then (- v)%Z else v)
  | None => None
  end.

Definition scale10 (m k : Z) : Q :=
  if (0 <=? k)%Z then (m * 10 ^ k)%Z # 1
  else m # Z.to_pos (10 ^ (- k)).

(** [float(s)] on decimal numerals.  The literals [inf], [infinity] and
    [nan] have no value in [Q] and are not numerals of the model. *)
Definition float_of_string (s : string) : result Q :=
  let '(neg, body) := split_sign (strip_by is_num_space s) in
  let parsed :=
    match find_exp body 0 with
    | None =>
        match mantissa body with
        | Some (m, nf) => Some (scale10 m (- Z.of_nat nf))
        | None => None
        end
    | Some i =>
        match mantissa (slice body 0 (Z.of_nat i)),
              exponent (slice_from body (Z.of_nat i + 1)) with
        | Some (m, nf), Some e => Some (scale10 m (e - Z.of_nat nf))
        | _, _ => None
        end
    end in
  match parsed with
  | Some q => Ok (if neg then Qopp q else q)
  | None => Raise ValueError
  end.

(** ** Float comparisons, [min] and [max] *)

Definition Qltb (a b : Q) : bool := negb (Qle_bool b a).

(** Truth value of a float: false exactly for zero. *)
Definition truthy (a : Q) : bool := negb (Qeq_bool a 0).

(** [min(a, b)] and [max(a, b)] keep the first argument unless the second
    is strictly better. *)
Definition qmin (a b : Q) : Q := if Qltb b a then b else a.
Definition qmax (a b : Q) : Q := if Qltb a b then b else a.

(** ** Lists *)

(** [xs[-1]] together with its index, when [xs] is not empty. *)
Definition last_indexed {A : Type} (xs : list A) : option (nat * A) :=
  match rev xs with
  | a :: _ => Some (Nat.pred (List.length xs), a)
  | [] => None
  end.

(** [xs[i]] for [i >= 0]. *)
Definition index {A : Type} (xs : list A) (i : nat) : result A :=
  match nth_error xs i with
  | Some a => Ok a
  | None => Raise IndexError
  end.

(** ** Regular expressions ([re.compile(p).match(s)])

    Patterns are matched by derivatives.  [re_prefix] is [match] for a
    pattern without a final [$]; [re_full] is [match] for a pattern that
    ends in [$], which also accepts one trailing newline. *)

Inductive regex : Type :=
| Void
| Eps
| Chr (p : ascii -> bool)
| Cat (r1 r2 : regex)
| Alt (r1 r2 : regex)
| Star (r : regex).

Fixpoint nullable (r : regex) : bool :=
  match r with
  | Void => false
  | Eps => true
  | Chr _ => false
  | Cat r1 r2 => nullable r1 && nullable r2
  | Alt r1 r2 => nullable r1 || nullable r2
  | Star _ => true
  end.

Definition cat (r1 r2 : regex) : regex :=
  match r1, r2 with
  | Void, _ => Void
  | _, Void => Void
  | Eps, _ => r2
  | _, _ => Cat r1 r2
  end.

Definition alt (r1 r2 : regex) : regex :=
  match r1, r2 with
  | Void, _ => r2
  | _, Void => r1
  | _, _ => Alt r1 r2
  end.

Fixpoint deriv (c : ascii) (r : regex) : regex :=
  match r with
  | Void => Void
  | Eps => Void
  | Chr p => if p c then Eps else Void
  | Cat r1 r2 =>
      if nullable r1 then alt (cat (deriv c r1) r2) (deriv c r2)
      else cat (deriv c r1) r2
  | Alt r1 r2 => alt (deriv c r1) (deriv c r2)
  | Star r1 => cat (deriv c r1) (Star r1)
  end.

Fixpoint re_prefix (r : regex) (s : string) : bool :=
  nullable r ||
  match s with
  | EmptyString => false
  | String c t => re_prefix (deriv c r) t
  end.

Fixpoint re_exact (r : regex) (s : string) : bool :=
  match s with
  | EmptyString => nullable r
  | String c t => re_exact (deriv c r) t
  end.

Definition lit (c : ascii) : regex := Chr (Ascii.eqb c).
Definition one_of (chars : string) : regex := Chr (fun c => mem_char c chars).
Definition digit : regex := Chr is_digit.
Definition space : regex := Chr is_space.
(** [.] matches everything but a newline. *)
Definition dot : regex := Chr (fun c => negb (Ascii.eqb c "010")).
Definition plus (r : regex) : regex := Cat r (Star r).
Definition opt (r : regex) : regex := Alt r Eps.

Fixpoint lits (s : string) : regex :=
  match s with
  | EmptyString => Eps
  | String c t => Cat (lit c) (lits t)
  end.

Fixpoint seq (rs : list regex) : regex :=
  match rs with
  | [] => Eps
  | r :: t => Cat r (seq t)
  end.

Definition re_full (r : regex) (s : string) : bool :=
  re_exact (Cat r (opt (lit "010"))) s.

End Py.

Notation "x <- m ;; k" := (Py.bind m (fun x => k))
  (at level 61, m at next level, right associativity).

(* ------------------------------------------------------------------ *)
(** * les_parser.py: data classes *)

Module Aperture.

Import Py.
Local Open Scope string_scope.

Inductive ApertureMode : Type :=
| T  (* round *)
| O  (* rectangular *)
| K  (* annular *)
| U  (* special *)
| F. (* Tooling Hole *)

Definition mode_eqb (a b : ApertureMode) : bool :=
  match a, b with
  | T, T | O, O | K, K | U, U | F, F => true
  | _, _ => false
  end.

(** [Aperture.ApertureMode[name]]. *)
Definition mode_of_name (name : string) : result ApertureMode :=
  if String.eqb name "T" then Ok T
  else if String.eqb name "O" then Ok O
  else if String.eqb name "K" then Ok K
  else if String.eqb name "U" then Ok U
  else if String.eqb name "F" then Ok F
  else Raise KeyError.

Record t : Type := mk {
  index : Z;
  mode : ApertureMode;
  radius : Q;
  inner_radius : Q;
  outer_radius : Q;
  width : Q;
  height : Q;
  angle : Q
}.

(** The fields as [__init__] sets them before it looks at [content]. *)
Definition default : t :=
  {| index := 0; mode := T; radius := 10; inner_radius := 0;
     outer_radius := 0; width := 0; height := 0; angle := 0 |}.

Definition set_mode (m : ApertureMode) (a : t) : t :=
  mk a.(index) m a.(radius) a.(inner_radius) a.(outer_radius)
     a.(width) a.(height) a.(angle).
Definition set_index (i : Z) (a : t) : t :=
  mk i a.(mode) a.(radius) a.(inner_radius) a.(outer_radius)
     a.(width) a.(height) a.(angle).
Definition set_radius (r : Q) (a : t) : t :=
  mk a.(index) a.(mode) r a.(inner_radius) a.(outer_radius)
     a.(width) a.(height) a.(angle).
Definition set_inner_radius (r : Q) (a : t) : t :=
  mk a.(index) a.(mode) a.(radius) r a.(outer_radius)
     a.(width) a.(height) a.(angle).
Definition set_outer_radius (r : Q) (a : t) : t :=
  mk a.(index) a.(mode) a.(radius) a.(inner_radius) r
     a.(width) a.(height) a.(angle).
Definition set_width (w : Q) (a : t) : t :=
  mk a.(index) a.(mode) a.(radius) a.(inner_radius) a.(outer_radius)
     w a.(height) a.(angle).
Definition set_height (h : Q) (a : t) : t :=
  mk a.(index) a.(mode) a.(radius) a.(inner_radius) a.(outer_radius)
     a.(width) h a.(angle).
Definition set_angle (g : Q) (a : t) : t :=
  mk a.(index) a.(mode) a.(radius) a.(inner_radius) a.(outer_radius)
     a.(width) a.(height) g.

(** [parts[i]], raising [IndexError] out of range. *)
Definition part (parts : list string) (i : nat) : result string :=
  Py.index parts i.

(** [Aperture.__init__].  The conversions of [index], of [radius], of
    [width] and [height] and of the two annular radii stand outside any
    [try]; only [angle] is guarded. *)
Definition init (content : option string) : result t :=
  let self := default in
  match content with
  | None => Ok self
  | Some EmptyString => Ok self
  | Some content =>
      let head := slice content 0 1 in
      let self := set_mode (try_except (mode_of_name head) T) self in
      let parts := split ":" content in
      p0 <- part parts 0 ;;
      idx <- (if (1 <? len p0)%Z then int_of_string (slice_from p0 1)
              else Ok 0%Z) ;;
      let self := set_index idx self in
      match self.(mode) with
      | T =>
          if (1 <? List.length parts)%nat then
            p1 <- part parts 1 ;;
            r <- float_of_string p1 ;;
            Ok (set_radius (r / 2) self)
          else Ok (set_radius 10 self)
      | O =>
          self <- (if (3 <=? List.length parts)%nat then
                     p1 <- part parts 1 ;;
                     w <- float_of_string p1 ;;
                     p2 <- part parts 2 ;;
                     h <- float_of_string p2 ;;
                     Ok (set_height h (set_width w self))
                   else Ok self) ;;
          if (4 <=? List.length parts)%nat then
            p3 <- part parts 3 ;;
            Ok (set_angle (try_except (float_of_string p3) 0) self)
          else Ok self
      | K =>
          if (3 <=? List.length parts)%nat then
            p1 <- part parts 1 ;;
            ri <- float_of_string p1 ;;
            p2 <- part parts 2 ;;
            ro <- float_of_string p2 ;;
            Ok (set_outer_radius (ro / 2) (set_inner_radius (ri / 2) self))
          else Ok self
      | _ => Ok self
      end
  end.

End Aperture.

Module Net.

Import Py.
Local Open Scope string_scope.

(** [points] holds references to the points of the document: positions
    in [Les.points]. *)
Record t : Type := mk {
  index : Z;
  image : Z;
  points : list nat;
  is_plain : bool
}.

Definition default : t :=
  {| index := 0; image := 1; points := []; is_plain := false |}.

(** The leading run of digits of [s], as the [for ch in idx_part] loop
    collects it. *)
Fixpoint leading_digits (s : string) : string :=
  match s with
  | EmptyString => EmptyString
  | String c r => if is_py_digit c then String c (leading_digits r)
                  else EmptyString
  end.

(** [Net.__init__]. *)
Definition init (content : option string) : result t :=
  match content with
  | None => Ok default
  | Some EmptyString => Ok default
  | Some content =>
      let plain := has_char "P" content in
      let content := if plain then remove_char "P" content else content in
      let parts := split "C" content in
      p0 <- Py.index parts 0 ;;
      let idx_part := strip (remove_char "@" p0) in
      let digits := leading_digits idx_part in
      idx <- (match digits with
              | EmptyString => Ok 0%Z
              | _ => int_of_string digits
              end) ;;
      img <- (match parts with
              | _ :: p1 :: _ =>
                  if isdigit p1 then int_of_string p1 else Ok 1%Z
              | _ => Ok 1%Z
              end) ;;
      Ok {| index := idx; image := img; points := []; is_plain := plain |}
  end.

Definition add_point (ref : nat) (n : t) : t :=
  mk n.(index) n.(image) (n.(points) ++ [ref]) n.(is_plain).

End Net.

Module PointType.
Inductive t : Type := NONE | S | D | B | P | E.

(** [Point.PointType[name]]. *)
Definition of_name (name : string) : Py.result t :=
  if String.eqb name "NONE" then Py.Ok NONE
  else if String.eqb name "S" then Py.Ok S
  else if String.eqb name "D" then Py.Ok D
  else if String.eqb name "B" then Py.Ok B
  else if String.eqb name "P" then Py.Ok P
  else if String.eqb name "E" then Py.Ok E
  else Py.Raise Py.KeyError.
End PointType.

Module PointStyle.
Inductive t : Type := NORMAL | GLOBAL | LOCAL.

Definition eqb (a b : t) : bool :=
  match a, b with
  | NORMAL, NORMAL | GLOBAL, GLOBAL | LOCAL, LOCAL => true
  | _, _ => false
  end.
End PointStyle.

Module Point.

Import Py.
Local Open Scope string_scope.

(** A point refers to its net: either the net at a position of
    [Les.nets], or a default [Net()] of its own. *)
Inductive net_ref : Type :=
| NetOf (position : nat)
| OwnNet.

Definition color : Type := (Z * Z * Z)%type.

(** [panel_image_name] is an attribute the naming pass adds; [None] is
    a point that does not have it. *)
Record t : Type := mk {
  original : string;
  identifier : Z;
  x : Q;
  y : Q;
  type : PointType.t;
  style : PointStyle.t;
  aperture : Aperture.t;
  index_of_map : list Z;
  content : string;
  net : net_ref;
  layer : Z;
  count_of_layer : Z;
  fill_color : color;
  background_color : color;
  default_opacity : Q;
  opacity : Q;
  logic_mode : bool;
  is_enable : bool;
  is_test : bool;
  is_selected : bool;
  is_visible : bool;
  image : Z;
  panel_image_name : option string
}.

Definition set_xy (x' y' : Q) (p : t) : t :=
  mk p.(original) p.(identifier) x' y' p.(type) p.(style) p.(aperture)
     p.(index_of_map) p.(content) p.(net) p.(layer) p.(count_of_layer)
     p.(fill_color) p.(background_color) p.(default_opacity) p.(opacity)
     p.(logic_mode) p.(is_enable) p.(is_test) p.(is_selected)
     p.(is_visible) p.(image) p.(panel_image_name).

Definition set_image (i : Z) (p : t) : t :=
  mk p.(original) p.(identifier) p.(x) p.(y) p.(type) p.(style) p.(aperture)
     p.(index_of_map) p.(content) p.(net) p.(layer) p.(count_of_layer)
     p.(fill_color) p.(background_color) p.(default_opacity) p.(opacity)
     p.(logic_mode) p.(is_enable) p.(is_test) p.(is_selected)
     p.(is_visible) i p.(panel_image_name).

Definition set_panel_image_name (n : string) (p : t) : t :=
  mk p.(original) p.(identifier) p.(x) p.(y) p.(type) p.(style) p.(aperture)
     p.(index_of_map) p.(content) p.(net) p.(layer) p.(count_of_layer)
     p.(fill_color) p.(background_color) p.(default_opacity) p.(opacity)
     p.(logic_mode) p.(is_enable) p.(is_test) p.(is_selected)
     p.(is_visible) p.(image) (Some n).

(** The punctuation both construction paths delete from the line. *)
Definition clean (content : string) : string :=
  remove_char ","
    (remove_char " "
       (remove_pair "&" "S"
          (remove_pair "&" "M"
             (remove_char "~"
                (remove_char "/"
                   (remove_char "*"
                      (remove_char "]" (remove_char "[" content)))))))).

(** [s.split(sep)[0]]. *)
Definition first_part (sep : ascii) (s : string) : string :=
  match split sep s with h :: _ => h | [] => "" end.

(** [for ap in apertures: if ap.index == i: ...; break]. *)
Fixpoint find_aperture (apertures : list Aperture.t) (i : Z)
  : option Aperture.t :=
  match apertures with
  | [] => None
  | ap :: rest =>
      if (ap.(Aperture.index) =? i)%Z then Some ap
      else find_aperture rest i
  end.

(** [a or b] on floats. *)
Definition or_float (a b : Q) : Q := if truthy a then a else b.

(** The state of [self] when [__init__] reaches [if content:]. *)
Definition fresh (content : option string) (count_of_layer : Z)
    (net : option (nat * Net.t)) (style : option PointStyle.t) : t :=
  {| original := match content with Some c => c | None => "" end;
     identifier := 0;
     x := 0; y := 0;
     type := PointType.NONE;
     style := match style with Some s => s | None => PointStyle.NORMAL end;
     aperture := Aperture.default;
     index_of_map := [];
     content := "";
     net := match net with Some (pos, _) => NetOf pos | None => OwnNet end;
     layer := 1;
     count_of_layer := count_of_layer;
     fill_color := (255, 215, 0)%Z;
     background_color := (0, 100, 0)%Z;
     default_opacity := 6 # 10;
     opacity := 6 # 10;
     logic_mode := false;
     is_enable := true;
     is_test := true;
     is_selected := false;
     is_visible := true;
     image := 1;
     panel_image_name := None |}.

(** [Point._init_tooling_hole]. *)
Definition _init_tooling_hole (self : t) (content : string)
    (apertures : list Aperture.t) (style : PointStyle.t) : result t :=
  let original := content in
  let lead := match original with
              | EmptyString => ""
              | _ => match split1 "," original with
                     | h :: _ => strip h
                     | [] => ""
                     end
              end in
  let ap := Aperture.set_mode
              (if String.eqb lead "F" then Aperture.F else Aperture.K)
              self.(aperture) in
  let cleaned := clean content in
  let i_parts := split "I" cleaned in
  let content' := match i_parts with h :: _ => h | [] => "" end in
  image <- (if PointStyle.eqb style PointStyle.GLOBAL then Ok 0%Z
            else match i_parts with
                 | _ :: p1 :: _ =>
                     if isdigit p1 then int_of_string p1 else Ok 1%Z
                 | _ => Ok 1%Z
                 end) ;;
  let '(x, y, ap) :=
    if has_char "X" content' && has_char "Y" content' then
      let x_start := (find "X" content' 0 + 1)%Z in
      let x_end := find "Y" content' 0 in
      let x := try_except (float_of_string (slice content' x_start x_end)) 0 in
      let y_start := (x_end + 1)%Z in
      let t_pos := find "T" content' y_start in
      if (0 <? t_pos)%Z then
        let y :=
          try_except (float_of_string (slice content' y_start t_pos)) 0 in
        let ap_idx :=
          try_except
            (i <- int_of_string (slice_from content' (t_pos + 1)) ;; Ok (Some i))
            None in
        let ap :=
          match ap_idx with
          | Some i =>
              match find_aperture apertures i with
              | Some found =>
                  if Aperture.mode_eqb ap.(Aperture.mode) Aperture.F
                  then Aperture.set_radius found.(Aperture.radius) ap
                  else Aperture.set_radius
                         (or_float found.(Aperture.outer_radius)
                                   found.(Aperture.radius)) ap
              | None => ap
              end
          | None => ap
          end in
        (x, y, ap)
      else
        let y := try_except (float_of_string (slice_from content' y_start)) 0 in
        (x, y, Aperture.set_radius (or_float ap.(Aperture.radius) 10) ap)
    else
      (0, 0, Aperture.set_radius 10 ap) in
  let ap := Aperture.set_inner_radius ap.(Aperture.inner_radius) ap in
  let ap := Aperture.set_outer_radius ap.(Aperture.outer_radius) ap in
  Ok
  {| original := original;
     identifier := self.(identifier);
     x := x; y := y;
     type := PointType.NONE;
     style := style;
     aperture := ap;
     index_of_map := self.(index_of_map);
     content := content';
     net := OwnNet;
     layer := 1;
     count_of_layer := self.(count_of_layer);
     fill_color := (148, 0, 211)%Z;
     background_color := (0, 100, 0)%Z;
     default_opacity := self.(default_opacity);
     opacity := self.(opacity);
     logic_mode := self.(logic_mode);
     is_enable := false;
     is_test := false;
     is_selected := self.(is_selected);
     is_visible := self.(is_visible);
     image := image;
     panel_image_name := self.(panel_image_name) |}.

(** The [A] section of a regular point: logic flag, then aperture and
    type, both left alone when the guarded block raises. *)
Definition decode_a_section (content' : string) (apertures : list Aperture.t)
    (ap0 : Aperture.t) (ty0 : PointType.t) (lm0 : bool)
  : bool * Aperture.t * PointType.t :=
  if has_char "A" content' then
    match split "A" content' with
    | _ :: a1 :: _ =>
        let ap_part := first_part "M" (first_part "V" (first_part "Z" a1)) in
        let logic_mode := has_char "L" ap_part in
        let guarded : result (Z * string) :=
          if logic_mode then
            i <- int_of_string (slice_from ap_part 3) ;;
            c <- char_at ap_part 1 ;;
            Ok (i, String c "")
          else
            i <- int_of_string (slice_from ap_part 2) ;;
            c <- char_at ap_part 0 ;;
            Ok (i, String c "") in
        match guarded with
        | Ok (ap_index, type_char) =>
            let ap := match find_aperture apertures ap_index with
                      | Some found => found
                      | None => ap0
                      end in
            (logic_mode, ap,
             try_except (PointType.of_name type_char) PointType.NONE)
        | Raise _ => (logic_mode, ap0, ty0)
        end
    | _ => (lm0, ap0, ty0)
    end
  else (lm0, ap0, ty0).

(** The [V] section: the layer number. *)
Definition decode_layer (content' : string) (layer0 : Z) : Z :=
  if has_char "V" content' then
    match split "V" content' with
    | _ :: v1 :: _ =>
        let layer_part :=
          if has_char "N" v1 then first_part "N" v1 else v1 in
        match layer_part with
        | EmptyString => layer0
        | _ => try_except (int_of_string layer_part) 1%Z
        end
    | _ => layer0
    end
  else layer0.

(** [Point._init_regular_point].  [net] is the net handed in, as its
    reference and its [image]. *)
Definition _init_regular_point (self : t) (content : string)
    (count_of_layer : Z) (apertures : list Aperture.t)
    (net : option (nat * Net.t)) : t :=
  let '(net', image) :=
    match net with
    | Some (pos, n) => (NetOf pos, n.(Net.image))
    | None => (OwnNet, Net.default.(Net.image))
    end in
  let content' := clean content in
  let identifier :=
    if startswith "I" content' && has_char "X" content' then
      let id_part :=
        lstrip_chars "I" (first_part "X" content') in
      match id_part with
      | EmptyString => self.(identifier)
      | _ => try_except (int_of_string id_part) 0%Z
      end
    else self.(identifier) in
  if has_char "X" content' && has_char "Y" content' then
    let x_part := split "X" (first_part "Y" content') in
    let x := match x_part with
             | _ :: x1 :: _ => try_except (float_of_string x1) 0
             | _ => self.(x)
             end in
    let y_part := split "Y" (first_part "A" content') in
    let y := match y_part with
             | _ :: y1 :: _ => try_except (float_of_string y1) 0
             | _ => self.(y)
             end in
    let '(logic_mode, ap, ty) :=
      decode_a_section content' apertures self.(aperture) self.(type)
                       self.(logic_mode) in
    let layer := decode_layer content' self.(layer) in
    let is_enable := (layer =? 1)%Z || (layer =? count_of_layer)%Z in
    let is_test := negb (has_char "*" content) in
    let fill :=
      if (layer =? 1)%Z then
        if is_test then (255, 215, 0)%Z else (184, 134, 11)%Z
      else if (layer =? count_of_layer)%Z && (1 <? count_of_layer)%Z then
        if is_test then (0, 255, 0)%Z else (0, 128, 0)%Z
      else
        if is_test then (0, 255, 255)%Z else (70, 130, 180)%Z in
    {| original := content;
       identifier := identifier;
       x := x; y := y;
       type := ty;
       style := PointStyle.NORMAL;
       aperture := ap;
       index_of_map := self.(index_of_map);
       content := content';
       net := net';
       layer := layer;
       count_of_layer := count_of_layer;
       fill_color := fill;
       background_color := (0, 100, 0)%Z;
       default_opacity := self.(default_opacity);
       opacity := self.(opacity);
       logic_mode := logic_mode;
       is_enable := is_enable;
       is_test := is_test;
       is_selected := self.(is_selected);
       is_visible := self.(is_visible);
       image := image;
       panel_image_name := self.(panel_image_name) |}
  else
    {| original := content;
       identifier := identifier;
       x := self.(x); y := self.(y);
       type := self.(type);
       style := PointStyle.NORMAL;
       aperture := self.(aperture);
       index_of_map := self.(index_of_map);
       content := content';
       net := net';
       layer := self.(layer);
       count_of_layer := count_of_layer;
       fill_color := self.(fill_color);
       background_color := self.(background_color);
       default_opacity := self.(default_opacity);
       opacity := self.(opacity);
       logic_mode := self.(logic_mode);
       is_enable := self.(is_enable);
       is_test := self.(is_test);
       is_selected := self.(is_selected);
       is_visible := self.(is_visible);
       image := image;
       panel_image_name := self.(panel_image_name) |}.

(** [Point.__init__].  The default of [count_of_layer] is 1. *)
Definition init (content : option string) (count_of_layer : Z)
    (apertures : list Aperture.t) (net : option (nat * Net.t))
    (style : option PointStyle.t) : result t :=
  let self := fresh content count_of_layer net style in
  match content with
  | None => Ok self
  | Some EmptyString => Ok self
  | Some c =>
      match style with
      | Some PointStyle.GLOBAL =>
          _init_tooling_hole self c apertures PointStyle.GLOBAL
      | Some PointStyle.LOCAL =>
          _init_tooling_hole self c apertures PointStyle.LOCAL
      | _ => Ok (_init_regular_point self c count_of_layer apertures net)
      end
  end.

End Point.

Module LesStep.

Import Py.
Local Open Scope string_scope.

Record t : Type := mk {
  amount : Z;
  operations : string;
  offset_x : Q;
  offset_y : Q;
  distance_x : Q;
  distance_y : Q;
  image : Z;
  tooltip : string
}.

(** [off = s.split(','); if len(off) >= 2: a = float(off[0]); b = float(off[1])]. *)
Definition pair_of (s : string) (a0 b0 : Q) : result (Q * Q) :=
  match split "," s with
  | s0 :: s1 :: _ =>
      a <- float_of_string s0 ;;
      b <- float_of_string s1 ;;
      Ok (a, b)
  | _ => Ok (a0, b0)
  end.

(** [LesStep.__init__].  [amount] and [image] are guarded; the offset and
    distance conversions are not. *)
Definition init (content : string) : result t :=
  let parts := split ":" content in
  match parts with
  | _ :: p1 :: p2 :: p3 :: p4 :: rest =>
      let amount := try_except (int_of_string p1) 0%Z in
      off <- pair_of p3 0 0 ;;
      dist <- pair_of p4 0 0 ;;
      let image :=
        match rest with
        | p5 :: _ =>
            if has_char "I" p5
            then try_except (int_of_string (remove_char "I" p5)) 1%Z
            else 1%Z
        | [] => 1%Z
        end in
      Ok {| amount := amount; operations := p2;
            offset_x := fst off; offset_y := snd off;
            distance_x := fst dist; distance_y := snd dist;
            image := image; tooltip := content |}
  | _ =>
      Ok {| amount := 0; operations := "";
            offset_x := 0; offset_y := 0; distance_x := 0; distance_y := 0;
            image := 1; tooltip := content |}
  end.

(** [LesStep.scale_values]. *)
Definition scale_values (s : Q) (self : t) : t :=
  mk self.(amount) self.(operations)
     (self.(offset_x) * s) (self.(offset_y) * s)
     (self.(distance_x) * s) (self.(distance_y) * s)
     self.(image) self.(tooltip).

(** The body of [for op in self.operations].  A [Point] always has the
    attributes [layer] and [count_of_layer], so both [hasattr] tests
    hold.  The layer written by ['X'] and ['Y'] is computed from
    [point.layer], the layer the point came with. *)
Definition apply_op (point : Point.t) (op : ascii) (s : Q * Q * Z)
  : Q * Q * Z :=
  let '(x, y, layer) := s in
  if Ascii.eqb op "D" then (y, - x, layer)
  else if Ascii.eqb op "X" then
    (x, - y, ((1 - point.(Point.layer)) + point.(Point.count_of_layer))%Z)
  else if Ascii.eqb op "Y" then
    (- x, y, ((1 - point.(Point.layer)) + point.(Point.count_of_layer))%Z)
  else (x, y, layer).

Fixpoint apply_ops (point : Point.t) (ops : string) (s : Q * Q * Z)
  : Q * Q * Z :=
  match ops with
  | EmptyString => s
  | String op rest => apply_ops point rest (apply_op point op s)
  end.

(** [LesStep.apply_transformation]. *)
Definition apply_transformation (self : t) (point : Point.t)
    (step_index : Z) : Q * Q * Z :=
  let '(x, y, layer) :=
    apply_ops point self.(operations)
              (point.(Point.x), point.(Point.y), point.(Point.layer)) in
  (x + (self.(offset_x) + inject_Z step_index * self.(distance_x)),
   y + (self.(offset_y) + inject_Z step_index * self.(distance_y)),
   layer).

End LesStep.

Module ViewImage.

Import Py.

Record t : Type := mk {
  min_x : Q;
  min_y : Q;
  max_x : Q;
  max_y : Q;
  initial : bool
}.

Definition default : t :=
  {| min_x := 0; min_y := 0; max_x := 0; max_y := 0; initial := true |}.

(** [ViewImage.set_size]. *)
Definition set_size (point : Point.t) (self : t) : t :=
  if self.(initial) then
    {| min_x := point.(Point.x); min_y := point.(Point.y);
       max_x := point.(Point.x); max_y := point.(Point.y);
       initial := false |}
  else
    {| min_x := qmin point.(Point.x) self.(min_x);
       min_y := qmin point.(Point.y) self.(min_y);
       max_x := qmax point.(Point.x) self.(max_x);
       max_y := qmax point.(Point.y) self.(max_y);
       initial := false |}.

End ViewImage.

(* ------------------------------------------------------------------ *)
(** * les_parser_panel_image.py *)

Module PanelImage.

Import Py.
Local Open Scope string_scope.
Local Open Scope Z_scope.

(** A Python [dict]: keys in insertion order, one entry per key. *)
Section Dict.
Variables (K V : Type) (keq : K -> K -> bool).

Definition dict : Type := list (K * V).

Fixpoint dict_get (d : dict) (k : K) : option V :=
  match d with
  | [] => None
  | (k', v) :: rest => if keq k k' then Some v else dict_get rest k
  end.

Definition dict_mem (d : dict) (k : K) : bool :=
  match dict_get d k with Some _ => true | None => false end.

(** [d[k] = v]: a present key keeps its place. *)
Fixpoint dict_set (d : dict) (k : K) (v : V) : dict :=
  match d with
  | [] => [(k, v)]
  | (k', v') :: rest =>
      if keq k k' then (k', v) :: rest
      else (k', v') :: dict_set rest k v
  end.
End Dict.

Definition key2_eqb (a b : Z * Z) : bool :=
  (fst a =? fst b) && (snd a =? snd b).

Definition usage : Type := dict Z (list Z).
Definition names : Type := dict (Z * Z) string.

(** [f"Panel {panel} Image {img}"]. *)
Definition label (panel img : Z) : string :=
  "Panel " ++ str_of_int panel ++ " Image " ++ str_of_int img.

(** First loop: [image_usage[step.image].append(panel_index)], panels
    counted from 1. *)
Fixpoint record_steps (steps : list LesStep.t) (panel_index : Z)
    (image_usage : usage) : usage :=
  match steps with
  | [] => image_usage
  | step :: rest =>
      let img := step.(LesStep.image) in
      let panels := match dict_get Z.eqb image_usage img with
                    | Some ps => ps
                    | None => []
                    end in
      record_steps rest (panel_index + 1)
                   (dict_set Z.eqb image_usage img (panels ++ [panel_index])%list)
  end.

(** Second loop: a label for every recorded (panel, image). *)
Definition name_panels (img : Z) (panels : list Z) (acc : names) : names :=
  fold_left (fun acc panel =>
               dict_set key2_eqb acc (panel, img) (label panel img))
            panels acc.

Definition name_all (image_usage : usage) : names :=
  fold_left (fun acc entry => name_panels (fst entry) (snd entry) acc)
            image_usage [].

(** [while next_image_id in image_usage: next_image_id += 1].  The loop
    leaves after at most [len(image_usage)] increments; [fuel] is that
    bound plus one. *)
Fixpoint next_free (image_usage : usage) (next_image_id : Z) (fuel : nat)
  : Z :=
  match fuel with
  | O => next_image_id
  | S fuel' =>
      if dict_mem Z.eqb image_usage next_image_id
      then next_free image_usage (next_image_id + 1) fuel'
      else next_image_id
  end.

Record pass_state : Type := mk_state {
  image_usage : usage;
  panel_image_names : names;
  next_image_id : Z
}.

(** The body of [for pt in points]. *)
Definition name_point (st : pass_state) (pt : Point.t)
  : result (pass_state * Point.t) :=
  let '(st, img, pt) :=
    if (pt.(Point.image) =? 0) then
      let next := next_free st.(image_usage) st.(next_image_id)
                            (S (List.length st.(image_usage))) in
      let img := next in
      (mk_state (dict_set Z.eqb st.(image_usage) img [1])
                (dict_set key2_eqb st.(panel_image_names) (1, img)
                          (label 1 img))
                next,
       img, Point.set_image img pt)
    else (st, pt.(Point.image), pt) in
  let panel_list := match dict_get Z.eqb st.(image_usage) img with
                    | Some ps => ps
                    | None => [1]
                    end in
  match panel_list with
  | panel :: _ =>
      let name := match dict_get key2_eqb st.(panel_image_names) (panel, img) with
                  | Some n => n
                  | None => label panel img
                  end in
      Ok (st, Point.set_panel_image_name name pt)
  | [] => Raise IndexError
  end.

Fixpoint name_points (st : pass_state) (points : list Point.t)
  : result (list Point.t) :=
  match points with
  | [] => Ok []
  | pt :: rest =>
      r <- name_point st pt ;;
      rest' <- name_points (fst r) rest ;;
      Ok (snd r :: rest')
  end.

(** [assign_panel_image_names].  The points are mutated in place; the
    result is the list of points after the pass. *)
Definition assign_panel_image_names (steps : list LesStep.t)
    (points : list Point.t) : result (list Point.t) :=
  let image_usage := record_steps steps 1 [] in
  let panel_image_names := name_all image_usage in
  name_points (mk_state image_usage panel_image_names 1) points.

End PanelImage.

(* ------------------------------------------------------------------ *)
(** * les_parser.py: the document parser *)

Module Les.

Import Py.
Local Open Scope string_scope.
Local Open Scope list_scope.

Record t : Type := mk {
  test : string;
  count_of_layer : Z;
  unit : string;
  scale : Q;
  nets : list Net.t;
  points : list Point.t;
  apertures : list Aperture.t;
  steps : list LesStep.t;
  content : list string;
  outline_points : list (list (Q * Q));
  images : list (option ViewImage.t)  (* 1-based images *)
}.

(** [Les.__init__] before it loads a file. *)
Definition empty : t :=
  {| test := ""; count_of_layer := 0; unit := ""; scale := 1;
     nets := []; points := []; apertures := []; steps := [];
     content := []; outline_points := [];
     images := [None; Some ViewImage.default] |}.

(** ** The patterns *)

(** [^L\s*(\d+)\s*\*?$] *)
Definition layer_pattern (s : string) : bool :=
  re_full (seq [lit "L"; Star space; plus digit; Star space; opt (lit "*")]) s.

(** Group 1 of [layer_pattern]: the run of decimal digits after [L]
    and blanks. *)
Definition layer_group1 (s : string) : string :=
  decimal_prefix (lstrip_by is_space (slice_from s 1)).

(** [^[FTOKU][0-9]+:] *)
Definition aperture_pattern (s : string) : bool :=
  re_prefix (seq [one_of "FTOKU"; plus digit; lit ":"]) s.

(** [^STEP:.*$] *)
Definition step_pattern (s : string) : bool :=
  re_full (seq [lits "STEP:"; Star dot]) s.

(** [^F,X.*$] *)
Definition tooling_pattern (s : string) : bool :=
  re_full (seq [lits "F,X"; Star dot]) s.

(** [^K,X-?\d+Y-?\d+(?:,)?(?:T\d+)?(?:,)?$] *)
Definition outline_pattern (s : string) : bool :=
  re_full (seq [lits "K,X"; opt (lit "-"); plus digit;
                lit "Y"; opt (lit "-"); plus digit;
                opt (lit ","); opt (Cat (lit "T") (plus digit));
                opt (lit ",")]) s.

(** [^I\d+X-?\d+Y-?\d+A.+$] *)
Definition point_pattern (s : string) : bool :=
  re_full (seq [lit "I"; plus digit; lit "X"; opt (lit "-"); plus digit;
                lit "Y"; opt (lit "-"); plus digit; lit "A"; plus dot]) s.

(** ** The line classifier: the tests of the loop body, in its order *)

Inductive line_kind : Type :=
| Blank
| TestName
| LayerCount
| Unit
| Outline
| Tooling
| ApertureDef
| StepDef
| NetHeader
| RegularPoint
| Ignored.

Definition classify (line : string) : line_kind :=
  match line with
  | EmptyString => Blank
  | _ =>
      if contains "#ATFH" line then TestName
      else if layer_pattern line then LayerCount
      else if startswith "UNIT" line then Unit
      else if outline_pattern line then Outline
      else if tooling_pattern line then Tooling
      else if aperture_pattern line then ApertureDef
      else if step_pattern line then StepDef
      else if startswith "@" line && negb (has_char "!" line) then NetHeader
      else if point_pattern (strip (strip_chars "[]" line)) then RegularPoint
      else Ignored
  end.

(** ** The loop state: the document and the two locals of [load_file] *)

Record state : Type := mk_state {
  self : t;
  index_of_step : option nat;  (* [None] is [float('inf')] *)
  current_outline_segment : list (Q * Q)
}.

Definition with_self (st : state) (l : t) : state :=
  mk_state l st.(index_of_step) st.(current_outline_segment).

(** [Les._apply_scale_to_aperture]. *)
Definition _apply_scale_to_aperture (l : t) (ap : Aperture.t) : Aperture.t :=
  Aperture.mk ap.(Aperture.index) ap.(Aperture.mode)
    (ap.(Aperture.radius) * l.(scale))
    (ap.(Aperture.inner_radius) * l.(scale))
    (ap.(Aperture.outer_radius) * l.(scale))
    (ap.(Aperture.width) * l.(scale))
    (ap.(Aperture.height) * l.(scale))
    ap.(Aperture.angle).

(** [while n > len(self.images) - 1: self.images.append(ViewImage())]:
    one append for every unit by which [n] exceeds the last index. *)
Definition grow_images (imgs : list (option ViewImage.t)) (n : Z)
  : list (option ViewImage.t) :=
  imgs ++ repeat (Some ViewImage.default)
                 (Z.to_nat (n - (Z.of_nat (List.length imgs) - 1))).

(** [xs[i]] for an integer [i], negative indices counting from the end. *)
Definition position {A : Type} (xs : list A) (i : Z) : option nat :=
  let n := Z.of_nat (List.length xs) in
  let j := if (i <? 0)%Z then (i + n)%Z else i in
  if (0 <=? j)%Z && (j <? n)%Z then Some (Z.to_nat j) else None.

Fixpoint update {A : Type} (xs : list A) (i : nat) (a : A) : list A :=
  match xs, i with
  | [], _ => []
  | _ :: r, O => a :: r
  | h :: r, S i' => h :: update r i' a
  end.

(** ** The handlers, one per kind of line *)

Definition set_test (l : t) (v : string) : t :=
  mk v l.(count_of_layer) l.(unit) l.(scale) l.(nets) l.(points)
     l.(apertures) l.(steps) l.(content) l.(outline_points) l.(images).
Definition set_count_of_layer (l : t) (v : Z) : t :=
  mk l.(test) v l.(unit) l.(scale) l.(nets) l.(points)
     l.(apertures) l.(steps) l.(content) l.(outline_points) l.(images).
Definition set_unit_scale (l : t) (u : string) (sc : Q) : t :=
  mk l.(test) l.(count_of_layer) u sc l.(nets) l.(points)
     l.(apertures) l.(steps) l.(content) l.(outline_points) l.(images).
Definition set_nets (l : t) (v : list Net.t) : t :=
  mk l.(test) l.(count_of_layer) l.(unit) l.(scale) v l.(points)
     l.(apertures) l.(steps) l.(content) l.(outline_points) l.(images).
Definition set_points (l : t) (v : list Point.t) : t :=
  mk l.(test) l.(count_of_layer) l.(unit) l.(scale) l.(nets) v
     l.(apertures) l.(steps) l.(content) l.(outline_points) l.(images).
Definition set_apertures (l : t) (v : list Aperture.t) : t :=
  mk l.(test) l.(count_of_layer) l.(unit) l.(scale) l.(nets) l.(points)
     v l.(steps) l.(content) l.(outline_points) l.(images).
Definition set_steps (l : t) (v : list LesStep.t) : t :=
  mk l.(test) l.(count_of_layer) l.(unit) l.(scale) l.(nets) l.(points)
     l.(apertures) v l.(content) l.(outline_points) l.(images).
Definition set_content (l : t) (v : list string) : t :=
  mk l.(test) l.(count_of_layer) l.(unit) l.(scale) l.(nets) l.(points)
     l.(apertures) l.(steps) v l.(outline_points) l.(images).
Definition set_outline_points (l : t) (v : list (list (Q * Q))) : t :=
  mk l.(test) l.(count_of_layer) l.(unit) l.(scale) l.(nets) l.(points)
     l.(apertures) l.(steps) l.(content) v l.(images).
Definition set_images (l : t) (v : list (option ViewImage.t)) : t :=
  mk l.(test) l.(count_of_layer) l.(unit) l.(scale) l.(nets) l.(points)
     l.(apertures) l.(steps) l.(content) l.(outline_points) v.

Definition on_test_name (st : state) (line : string) : result state :=
  match split ":" line with
  | _ :: p1 :: _ => Ok (with_self st (set_test st.(self) p1))
  | _ => Ok st
  end.

Definition on_layer_count (st : state) (line : string) : result state :=
  n <- int_of_string (layer_group1 line) ;;
  let l := set_count_of_layer st.(self) n in
  let l := if (List.length l.(images) <? 2)%nat
           then set_images l [None; Some ViewImage.default]
           else l in
  Ok (with_self st l).

Definition on_unit (st : state) (line : string) : result state :=
  match split ":" line with
  | _ :: p1 :: p2 :: _ =>
      let u := upper (strip p1) in
      let res := try_except (float_of_string p2) 1 in
      let sc :=
        if String.eqb u "INCH" then
          (if truthy res then (254 # 10) / res else 1)
        else if String.eqb u "MM" then
          (if truthy res then 1 / res else 1)
        else 1 in
      Ok (with_self st (set_unit_scale st.(self) u sc))
  | _ => Ok st
  end.

Definition on_outline (st : state) (line : string) : result state :=
  let has_comma := endswith_char "," line in
  let work := rstrip_chars "," (slice_from line 2) in
  let coord := match split1 "T" work with h :: _ => h | [] => "" end in
  match split1 "Y" coord with
  | [xs; ys] =>
      let xy :=
        try_except
          (x <- float_of_string (remove_char "X" xs) ;;
           y <- float_of_string ys ;;
           Ok (x * st.(self).(scale), y * st.(self).(scale)))
          (0, 0) in
      let seg := st.(current_outline_segment) ++ [xy] in
      match has_comma, seg with
      | false, _ :: _ =>
          Ok (mk_state
                (set_outline_points st.(self)
                   (st.(self).(outline_points) ++ [seg]))
                st.(index_of_step) [])
      | _, _ => Ok (mk_state st.(self) st.(index_of_step) seg)
      end
  | _ => Raise ValueError
  end.

Definition scale_point (sc : Q) (p : Point.t) : Point.t :=
  Point.set_xy (p.(Point.x) * sc) (p.(Point.y) * sc) p.

Definition on_tooling (st : state) (i : nat) (line : string)
  : result state :=
  let style := match st.(index_of_step) with
               | None => PointStyle.GLOBAL
               | Some k => if (i <? k)%nat then PointStyle.GLOBAL
                           else PointStyle.LOCAL
               end in
  p <- Point.init (Some line) 1 st.(self).(apertures) None (Some style) ;;
  let p := scale_point st.(self).(scale) p in
  Ok (with_self st (set_points st.(self) (st.(self).(points) ++ [p]))).

Definition on_aperture (st : state) (line : string) : result state :=
  ap <- Aperture.init (Some line) ;;
  let ap := _apply_scale_to_aperture st.(self) ap in
  Ok (with_self st (set_apertures st.(self) (st.(self).(apertures) ++ [ap]))).

Definition on_step (st : state) (i : nat) (line : string) : result state :=
  s <- LesStep.init line ;;
  let s := LesStep.scale_values st.(self).(scale) s in
  Ok (mk_state (set_steps st.(self) (st.(self).(steps) ++ [s]))
               (Some i) st.(current_outline_segment)).

Definition on_net (st : state) (line : string) : result state :=
  net <- Net.init (Some line) ;;
  let l := set_nets st.(self) (st.(self).(nets) ++ [net]) in
  let l := set_images l (grow_images l.(images) net.(Net.image)) in
  Ok (with_self st l).

Definition on_point (st : state) (line : string) : result state :=
  let stripped := strip (strip_chars "[]" line) in
  let l := st.(self) in
  let net := last_indexed l.(nets) in
  pt <- Point.init (Some stripped) l.(count_of_layer) l.(apertures) net None ;;
  let pt := scale_point l.(scale) pt in
  let ref := List.length l.(points) in
  let l := set_points l (l.(points) ++ [pt]) in
  let l := match net with
           | Some (pos, n) =>
               set_nets l (update l.(nets) pos (Net.add_point ref n))
           | None => l
           end in
  let l := set_images l (grow_images l.(images) pt.(Point.image)) in
  l <-
   (if (pt.(Point.image) <? Z.of_nat (List.length l.(images)))%Z then
      match position l.(images) pt.(Point.image) with
      | Some k =>
          match nth_error l.(images) k with
          | Some (Some vi) =>
              Ok (set_images l (update l.(images) k
                                       (Some (ViewImage.set_size pt vi))))
          | _ => Ok l
          end
      | None => Raise IndexError
      end
    else Ok l) ;;
  Ok (with_self st l).

(** The body of [for i, raw in enumerate(self.content)]. *)
Definition load_line (st : state) (i : nat) (raw : string) : result state :=
  let line := strip raw in
  match classify line with
  | Blank => Ok st
  | TestName => on_test_name st line
  | LayerCount => on_layer_count st line
  | Unit => on_unit st line
  | Outline => on_outline st line
  | Tooling => on_tooling st i line
  | ApertureDef => on_aperture st line
  | StepDef => on_step st i line
  | NetHeader => on_net st line
  | RegularPoint => on_point st line
  | Ignored => Ok st
  end.

Fixpoint load_lines (st : state) (i : nat) (lines : list string)
  : result state :=
  match lines with
  | [] => Ok st
  | raw :: rest =>
      st' <- load_line st i raw ;;
      load_lines st' (S i) rest
  end.

(** What follows the loop.  The naming pass sits inside the [if] that
    flushes a pending outline segment. *)
Definition finish (st : state) : result t :=
  match st.(current_outline_segment) with
  | _ :: _ =>
      let l := set_outline_points st.(self)
                 (st.(self).(outline_points)
                  ++ [st.(current_outline_segment)]) in
      pts <- PanelImage.assign_panel_image_names l.(steps) l.(points) ;;
      Ok (set_points l pts)
  | [] => Ok st.(self)
  end.

(** [Les.load_file] on the lines the file yields. *)
Definition load_file (l : t) (file_lines : list string) : result t :=
  let content := map (rstrip_chars (String "010" "")) file_lines in
  let l := set_content l content in
  st <- load_lines (mk_state l None []) 0 content ;;
  finish st.

End Les.

(* ------------------------------------------------------------------ *)
(** * xml_parser.py *)

Module Xml.

Import Py.
Local Open Scope string_scope.
Local Open Scope list_scope.

(** An [xml.etree] element: tag, attributes, children in document
    order. *)
#[warnings="-register-all"]
Inductive Element : Type :=
| Elem (tag : string) (attrib : list (string * string))
       (children : list Element).

Definition tag_of (e : Element) : string :=
  match e with Elem t _ _ => t end.
Definition attrib_of (e : Element) : list (string * string) :=
  match e with Elem _ a _ => a end.
Definition children_of (e : Element) : list Element :=
  match e with Elem _ _ c => c end.

(** [e.get(name)]. *)
Fixpoint lookup (a : list (string * string)) (name : string)
  : option string :=
  match a with
  | [] => None
  | (k, v) :: rest => if String.eqb k name then Some v else lookup rest name
  end.

Definition get (e : Element) (name : string) : option string :=
  lookup (attrib_of e) name.

(** [e.get(name, default)]. *)
Definition get_default (e : Element) (name default : string) : string :=
  match get e name with Some v => v | None => default end.

(** [float(e.get(name, 0))]. *)
Definition get_float (e : Element) (name : string) : result R :=
  match get e name with
  | Some v => q <- float_of_string v ;; Ok (Q2R q)
  | None => Ok 0%R
  end.

(** [e.findall(tag)] and [e.find(tag)]: direct children only. *)
Definition findall (e : Element) (tag : string) : list Element :=
  filter (fun c => String.eqb (tag_of c) tag) (children_of e).

Definition find_child (e : Element) (tag : string) : option Element :=
  match findall e tag with
  | c :: _ => Some c
  | [] => None
  end.

(** [for e in es: out.append(f(e))], stopping at the first exception. *)
Fixpoint map_result {A B : Type} (f : A -> result B) (xs : list A)
  : result (list B) :=
  match xs with
  | [] => Ok []
  | a :: rest =>
      b <- f a ;;
      bs <- map_result f rest ;;
      Ok (b :: bs)
  end.

Module Edge.
Record t : Type := mk {
  id : option string;
  type : option string;  (* 'line' or 'arc' *)
  xs : R; ys : R;
  xe : R; ye : R;
  xc : R; yc : R;
  radius : R;
  direction : string
}.

Definition init (e : Element) : result t :=
  xs <- get_float e "xs" ;;
  ys <- get_float e "ys" ;;
  xe <- get_float e "xe" ;;
  ye <- get_float e "ye" ;;
  xc <- get_float e "xc" ;;
  yc <- get_float e "yc" ;;
  radius <- get_float e "radius" ;;
  Ok {| id := get e "id"; type := get e "type";
        xs := xs; ys := ys; xe := xe; ye := ye; xc := xc; yc := yc;
        radius := radius;
        direction := get_default e "direction" "cw" |}.
End Edge.

Module Repeat.
Record t : Type := mk {
  id : option string;
  pos_num : option string;  (* e.g., A3 *)
  step : option string;
  x : R; y : R;
  angle : R;
  number : string
}.

Definition init (e : Element) : result t :=
  x <- get_float e "x" ;;
  y <- get_float e "y" ;;
  angle <- get_float e "angle" ;;
  Ok {| id := get e "id"; pos_num := get e "pos_num"; step := get e "step";
        x := x; y := y; angle := angle;
        number := get_default e "number" "" |}.
End Repeat.

Module Barcode.
Record t : Type := mk {
  num : option string;
  layercode : option string;
  layerface : option string;
  content : option string;
  polarity : option string;
  id : option string;
  x : R; y : R;
  width : R; height : R
}.

Definition init (e : Element) : result t :=
  x <- get_float e "x" ;;
  y <- get_float e "y" ;;
  width <- get_float e "width" ;;
  height <- get_float e "height" ;;
  Ok {| num := get e "num"; layercode := get e "layercode";
        layerface := get e "layerface"; content := get e "content";
        polarity := get e "polarity"; id := get e "id";
        x := x; y := y; width := width; height := height |}.
End Barcode.

Module Layer.
Record t : Type := mk {
  name : option string;
  barcode_list : list Barcode.t
}.

Definition init (e : Element) : result t :=
  bs <- map_result Barcode.init (findall e "barcode") ;;
  Ok {| name := get e "name"; barcode_list := bs |}.
End Layer.

Module Step.
Record t : Type := mk {
  name : option string;
  type : option string;
  x : R; y : R;
  width : R; height : R;
  edges : list Edge.t;
  repeats : list Repeat.t;
  layers : list Layer.t
}.

Definition init (e : Element) : result t :=
  x <- get_float e "x" ;;
  y <- get_float e "y" ;;
  width <- get_float e "width" ;;
  height <- get_float e "height" ;;
  edges <- map_result Edge.init (findall e "edge") ;;
  repeats <- map_result Repeat.init (findall e "repeat") ;;
  layers <- map_result Layer.init (findall e "layer") ;;
  Ok {| name := get e "name"; type := get e "type";
        x := x; y := y; width := width; height := height;
        edges := edges; repeats := repeats; layers := layers |}.
End Step.

(** Keys of [Drawing.steps]: the [name] attribute, [None] when a step
    has none. *)
Definition key_eqb (a b : option string) : bool :=
  match a, b with
  | Some s, Some t => String.eqb s t
  | None, None => true
  | _, _ => false
  end.

(** [Dict[str, Step]]: keys in insertion order, one entry per key. *)
Definition step_dict : Type := list (option string * Step.t).

Fixpoint steps_get (d : step_dict) (k : option string) : option Step.t :=
  match d with
  | [] => None
  | (k', v) :: rest => if key_eqb k k' then Some v else steps_get rest k
  end.

(** [d[k] = v]: a present key keeps its place and takes the new value. *)
Fixpoint steps_set (d : step_dict) (k : option string) (v : Step.t)
  : step_dict :=
  match d with
  | [] => [(k, v)]
  | (k', v') :: rest =>
      if key_eqb k k' then (k', v) :: rest
      else (k', v') :: steps_set rest k v
  end.

(** [os.path.basename] on a POSIX path. *)
Definition basename (path : string) : string :=
  last (split "/" path) "".

Module Drawing.
Record t : Type := mk {
  file_path : string;
  job : string;
  width : R;
  height : R;
  start_step : option string;
  steps : step_dict
}.

(** [for step_element in root.findall('step'): self.steps[st.name] = st]. *)
Fixpoint add_steps (d : step_dict) (es : list Element) : result step_dict :=
  match es with
  | [] => Ok d
  | e :: rest =>
      st <- Step.init e ;;
      add_steps (steps_set d st.(Step.name) st) rest
  end.

(** Truth value of an [Optional[str]]. *)
Definition truthy_name (s : option string) : bool :=
  match s with
  | Some (String _ _) => true
  | _ => false
  end.

(** [Drawing.parse_xml] on the root element [ET.parse] returns;
    [__init__] has set [start_step] to [""] and [steps] to [{}]. *)
Definition parse_xml (file_path : string) (root : Element) : result t :=
  let job := match get root "job" with
             | Some (String c r) => String c r
             | _ => basename file_path
             end in
  width <- get_float root "width" ;;
  height <- get_float root "height" ;;
  let start_step := match find_child root "start" with
                    | Some start_elem => get start_elem "step"
                    | None => Some ""
                    end in
  steps <- add_steps [] (findall root "step") ;;
  let start_step :=
    if negb (truthy_name start_step) then
      match steps with
      | (k, _) :: _ => k
      | [] => start_step
      end
    else start_step in
  Ok {| file_path := file_path; job := job; width := width;
        height := height; start_step := start_step; steps := steps |}.
End Drawing.

End Xml.

(* ------------------------------------------------------------------ *)
(** * canvas/xml_drawing.py: the geometry kernel *)

Module Geometry.

Local Open Scope R_scope.

(** [math.radians] and [math.degrees]. *)
Definition radians (deg : R) : R := deg * PI / 180.
Definition degrees (rad : R) : R := rad * 180 / PI.

Definition floor (x : R) : Z := (up x - 1)%Z.

(** [int(x)]: truncation towards zero. *)
Definition trunc (x : R) : Z :=
  if Rle_dec 0 x then floor x else (- floor (- x))%Z.

(** Float [a % 360.0]: the result carries the sign of the divisor, which
    on exact reals is [a - 360 * floor (a / 360)]. *)
Definition fmod360 (a : R) : R := a - 360 * IZR (floor (a / 360)).

(** [math.atan2]. *)
Definition atan2 (y x : R) : R :=
  if Rlt_dec 0 x then atan (y / x)
  else if Rlt_dec x 0 then
    (if Rle_dec 0 y then atan (y / x) + PI else atan (y / x) - PI)
  else if Rlt_dec 0 y then PI / 2
  else if Rlt_dec y 0 then - (PI / 2)
  else 0.

(** [math.hypot]. *)
Definition hypot (a b : R) : R := sqrt (a * a + b * b).

(** [_normalize_deg]. *)
Definition _normalize_deg (a : R) : R :=
  let a := fmod360 a in
  if Rlt_dec a 0 then a + 360 else a.

(** The two direction strings the resolver passes on, ['cw'] and
    ['ccw']. *)
Inductive direction : Type := CW | CCW.

(** [1e-9]. *)
Definition eps : R := 1 / 1000000000.

(** [_angle_in_sweep]. *)
Definition _angle_in_sweep (a a0 a1 : R) (d : direction) : bool :=
  let a := _normalize_deg a in
  let a0 := _normalize_deg a0 in
  let a1 := _normalize_deg a1 in
  let '(a0, a1) := match d with CW => (a1, a0) | CCW => (a0, a1) end in
  let span := fmod360 (a1 - a0) in
  let rel := fmod360 (a - a0) in
  if Rle_dec rel (span + eps) then true else false.

(** [_angle_deg_math]. *)
Definition _angle_deg_math (cx cy x y : R) : R :=
  fmod360 (degrees (atan2 (cy - y) (x - cx))).

(** [_xml_dir_to_math]: ['ccw'] for ['cw'] in any case, ['cw'] for
    everything else. *)
Definition _xml_dir_to_math (d : string) : direction :=
  if String.eqb (Py.lower d) "cw" then CCW else CW.

(** [rotate_translate]. *)
Definition rotate_translate (x y angle_rad off_x off_y : R) : R * R :=
  let xr := x * cos angle_rad - y * sin angle_rad + off_x in
  let yr := y * cos angle_rad + x * sin angle_rad + off_y in
  (xr, yr).

(** The point of the circle at [a] radians, as the arc code writes it. *)
Definition circle_point (cx cy r a : R) : R * R :=
  (cx + r * cos a, cy - r * sin a).

(** [arc_polyline_world_points]: the signed sweep and the number of
    segments, then the samples. *)
Definition arc_delta_deg (start_deg_math end_deg_math : R) (d : direction)
  : R :=
  match d with
  | CCW => fmod360 (end_deg_math - start_deg_math)
  | CW => - fmod360 (start_deg_math - end_deg_math)
  end.

Definition arc_num_segments (zoom_level r delta_deg : R) : Z :=
  let arc_len_px := Rabs (radians delta_deg) * Rmax (r * zoom_level) 1 in
  let n := Z.max 12 (Z.min 512 (trunc (arc_len_px / 3))) in
  if (n <? 2)%Z then 2%Z else n.

Definition arc_polyline_world_points (zoom_level cx cy r : R)
    (start_deg_math end_deg_math : R) (d : direction) : list (R * R) :=
  let delta_deg := arc_delta_deg start_deg_math end_deg_math d in
  let num_segments := arc_num_segments zoom_level r delta_deg in
  let step_rad := radians delta_deg / IZR num_segments in
  let start_rad := radians start_deg_math in
  map (fun i : nat => circle_point cx cy r (start_rad + INR i * step_rad))
      (List.seq 0 (Z.to_nat num_segments + 1)).

End Geometry.

(* ------------------------------------------------------------------ *)
(** * canvas/xml_drawing.py and canvas/viewer_canvas_core.py: the walks *)

Module XmlDrawing.

Import Py Xml Geometry.
Local Open Scope string_scope.
Local Open Scope list_scope.
Local Open Scope R_scope.

Definition color : Type := (Z * Z * Z)%type.

Definition OUTLINE_COLORS : list color :=
  [(0, 255, 255); (255, 215, 0); (50, 205, 50); (255, 99, 71);
   (65, 105, 225); (255, 105, 180); (138, 43, 226); (32, 178, 170)]%Z.

(** [STEP_TYPE_COLORS.get(step.type, OUTLINE_COLORS[depth % len(OUTLINE_COLORS)])]. *)
Definition step_color (ty : option string) (depth : Z) : color :=
  match ty with
  | Some "panel" => (255, 215, 0)%Z
  | Some "set" => (65, 105, 225)%Z
  | Some "pcs" => (50, 205, 50)%Z
  | Some "kb" => (255, 99, 71)%Z
  | Some "edit" => (138, 43, 226)%Z
  | _ => nth (Z.to_nat (depth mod 8)) OUTLINE_COLORS (0, 0, 0)%Z
  end.

(** The part of the canvas the walks read. *)
Record Canvas : Type := mk_canvas {
  xml_drawings : list Drawing.t;
  current_xml_drawing_idx : Z;
  current_xml_step : option string;
  show_xml_edges : bool;
  show_xml_barcodes : bool;
  show_xml_repeats : bool;
  zoom_level : R;
  pan_offset : R * R
}.

(** [canvas.world_to_screen]. *)
Definition world_to_screen (canvas : Canvas) (x y : R) : R * R :=
  (x * canvas.(zoom_level) + fst canvas.(pan_offset),
   y * canvas.(zoom_level) + snd canvas.(pan_offset)).

(** [canvas.xml_drawings[canvas.current_xml_drawing_idx]]. *)
Definition current_drawing (canvas : Canvas) : result Drawing.t :=
  match Les.position canvas.(xml_drawings) canvas.(current_xml_drawing_idx) with
  | Some k => Py.index canvas.(xml_drawings) k
  | None => Raise IndexError
  end.

(** What the painter is asked to do, in order. *)
Inductive paint : Type :=
| SetPen (c : color) (width : Z)
| SetNoBrush
| SetFont
| DrawLine (a b : R * R)
| DrawPolyline (pts : list (R * R))
| DrawRect (x y w h : R)
| DrawText (x y : R) (text : string).

(** The frame of one level of a walk: the angle in radians and the
    world offset. *)
Definition resolve (angle_rad off_x off_y x y : R) : R * R :=
  rotate_translate x y angle_rad off_x off_y.

(** [math.hypot(sx - cx, sy - cy) or max(e.radius, 0.0)]. *)
Definition arc_radius (sx sy cx cy declared : R) : R :=
  let h := hypot (sx - cx) (sy - cy) in
  if Req_dec_T h 0 then Rmax declared 0 else h.

Definition is_type (ty : option string) (name : string) : bool :=
  match ty with
  | Some s => String.eqb s name
  | None => false
  end.

(** The body of [for e in step.edges] in the draw walk. *)
Definition draw_edge (canvas : Canvas) (angle_rad off_x off_y : R)
    (e : Edge.t) : list paint :=
  if is_type e.(Edge.type) "line" then
    let '(sx, sy) := resolve angle_rad off_x off_y e.(Edge.xs) e.(Edge.ys) in
    let '(ex, ey) := resolve angle_rad off_x off_y e.(Edge.xe) e.(Edge.ye) in
    [DrawLine (world_to_screen canvas sx sy) (world_to_screen canvas ex ey)]
  else if is_type e.(Edge.type) "arc" then
    let '(sx, sy) := resolve angle_rad off_x off_y e.(Edge.xs) e.(Edge.ys) in
    let '(ex, ey) := resolve angle_rad off_x off_y e.(Edge.xe) e.(Edge.ye) in
    let '(cx, cy) := resolve angle_rad off_x off_y e.(Edge.xc) e.(Edge.yc) in
    let r := arc_radius sx sy cx cy e.(Edge.radius) in
    let a0 := _angle_deg_math cx cy sx sy in
    let a1 := _angle_deg_math cx cy ex ey in
    let direction_math := _xml_dir_to_math e.(Edge.direction) in
    let pts_world :=
      arc_polyline_world_points canvas.(zoom_level) cx cy r a0 a1
                                direction_math in
    if (1 <? List.length pts_world)%nat then
      [DrawPolyline
         (map (fun p => world_to_screen canvas (fst p) (snd p)) pts_world)]
    else []
  else [].

(** The body of [for bc in layer.barcode_list] in the draw walk. *)
Definition draw_barcode (canvas : Canvas) (angle_rad off_x off_y : R)
    (bc : Barcode.t) : list paint :=
  let '(b_x, b_y) :=
    resolve angle_rad off_x off_y bc.(Barcode.x) bc.(Barcode.y) in
  let '(x, y) := world_to_screen canvas b_x b_y in
  let w := bc.(Barcode.width) * canvas.(zoom_level) in
  let h := bc.(Barcode.height) * canvas.(zoom_level) in
  DrawRect x y w h ::
  match bc.(Barcode.content) with
  | Some (String c s) =>
      [SetFont; SetPen (150, 150, 150)%Z 1; DrawText x (y - 4) (String c s)]
  | _ => []
  end.

(** [_draw_xml_step_recursive(canvas, qp, step, base_angle_deg,
    world_off_x, world_off_y, color, depth=0)].

    The signature has [color] before [depth].  The recursive call passes
    seven positional arguments, the last of them [depth + 1]: that value
    is bound to [color], and [depth] takes its default 0.  [color] is
    overwritten before it is read. *)
Fixpoint _draw_xml_step_recursive (fuel : nat) (canvas : Canvas)
    (step : Step.t) (base_angle_deg world_off_x world_off_y : R)
    (color : Z) (depth : Z) {struct fuel} : result (list paint) :=
  match fuel with
  | O => Raise RecursionError
  | S fuel' =>
      if (50 <? depth)%Z then Ok []
      else
        let color := step_color step.(Step.type) depth in
        let angle_rad := - base_angle_deg * PI / 180 in
        let edges :=
          if canvas.(show_xml_edges) then
            SetPen color 2 ::
            flat_map (draw_edge canvas angle_rad world_off_x world_off_y)
                     step.(Step.edges)
          else [] in
        let barcodes :=
          if canvas.(show_xml_barcodes) then
            SetPen (200, 200, 200)%Z 1 ::
            flat_map
              (fun layer =>
                 flat_map
                   (draw_barcode canvas angle_rad world_off_x world_off_y)
                   layer.(Layer.barcode_list))
              step.(Step.layers)
          else [] in
        repeats <-
          (if canvas.(show_xml_repeats) then
             (fix each (rpts : list Repeat.t) : result (list paint) :=
                match rpts with
                | [] => Ok []
                | rpt :: rest =>
                    drawing <- current_drawing canvas ;;
                    here <-
                      match steps_get drawing.(Drawing.steps)
                                      rpt.(Repeat.step) with
                      | Some sub =>
                          let '(rx, ry) :=
                            resolve angle_rad world_off_x world_off_y
                                    rpt.(Repeat.x) rpt.(Repeat.y) in
                          _draw_xml_step_recursive
                            fuel' canvas sub
                            (base_angle_deg + rpt.(Repeat.angle)) rx ry
                            (depth + 1)%Z 0%Z
                      | None => Ok []
                      end ;;
                    more <- each rest ;;
                    Ok (here ++ more)
                end) step.(Step.repeats)
           else Ok []) ;;
        Ok (edges ++ barcodes ++ repeats)
  end.

(** Truth value of [canvas.current_xml_step]. *)
Definition has_current_step (canvas : Canvas) : bool :=
  Drawing.truthy_name canvas.(current_xml_step).

(** The guards [draw_xml], [fit_step] and [fit_all] share: a drawing is
    selected and its current step exists. *)
Definition selected (canvas : Canvas) : result (option (Drawing.t * Step.t)) :=
  match canvas.(xml_drawings) with
  | [] => Ok None
  | _ =>
      if (0 <=? canvas.(current_xml_drawing_idx))%Z && has_current_step canvas
      then
        drawing <- current_drawing canvas ;;
        match steps_get drawing.(Drawing.steps) canvas.(current_xml_step) with
        | Some step => Ok (Some (drawing, step))
        | None => Ok None
        end
      else Ok None
  end.

(** [draw_xml]. *)
Definition draw_xml (fuel : nat) (canvas : Canvas) : result (list paint) :=
  sel <- selected canvas ;;
  match sel with
  | None => Ok []
  | Some (drawing, step) =>
      let '(x0, y0) := world_to_screen canvas 0 0 in
      walk <- _draw_xml_step_recursive fuel canvas step 0
                (- step.(Step.x)) (- step.(Step.y)) 0%Z 0%Z ;;
      Ok ([SetPen (80, 80, 100)%Z 2; SetNoBrush;
           DrawRect x0 y0 (drawing.(Drawing.width) * canvas.(zoom_level))
                    (drawing.(Drawing.height) * canvas.(zoom_level))]
          ++ walk)
  end.

(** ** Bounds *)

(** A float that may be [inf] or [-inf]: the entries of [bounds]. *)
Inductive ext : Type :=
| Fin (r : R)
| PosInf
| NegInf.

(** [min(a, b)] and [max(a, b)] for an entry [a] and a finite [b]. *)
Definition emin (a : ext) (b : R) : ext :=
  match a with
  | Fin a => Fin (Rmin a b)
  | PosInf => Fin b
  | NegInf => NegInf
  end.

Definition emax (a : ext) (b : R) : ext :=
  match a with
  | Fin a => Fin (Rmax a b)
  | PosInf => PosInf
  | NegInf => Fin b
  end.

(** [bounds = [minx, miny, maxx, maxy]]. *)
Definition bounds : Type := (ext * ext * ext * ext)%type.
Definition box : Type := (R * R * R * R)%type.

Definition no_bounds : bounds := (PosInf, PosInf, NegInf, NegInf).

(** [add_bounds].  The argument is a tuple of finite floats, so its
    first entry differs from [inf]. *)
Definition add_bounds (b : box) (bs : bounds) : bounds :=
  let '(b0, b1, b2, b3) := b in
  let '(m0, m1, m2, m3) := bs in
  (emin m0 b0, emin m1 b1, emax m2 b2, emax m3 b3).

(** [min(xs)] and [max(xs)] of a list with first element [x]. *)
Definition list_min (x : R) (xs : list R) : R := fold_left Rmin xs x.
Definition list_max (x : R) (xs : list R) : R := fold_left Rmax xs x.

Definition cardinals : list R := [0; 90; 180; 270].

(** The points [arc_bounds] collects: the two end angles, then every
    cardinal angle of the sweep. *)
Definition arc_bounds_points (cx cy r a0 a1 : R) (d : direction)
  : list (R * R) :=
  map (fun ang => circle_point cx cy r (radians ang)) [a0; a1]
  ++ map (fun ang => circle_point cx cy r (radians ang))
         (filter (fun ang => _angle_in_sweep ang a0 a1 d) cardinals).

(** [arc_bounds]. *)
Definition arc_bounds (cx cy r a0 a1 : R) (d : direction) : box :=
  let pts := arc_bounds_points cx cy r a0 a1 d in
  let xs := map fst pts in
  let ys := map snd pts in
  (list_min (hd 0 xs) (tl xs), list_min (hd 0 ys) (tl ys),
   list_max (hd 0 xs) (tl xs), list_max (hd 0 ys) (tl ys)).

(** The body of [for e in st.edges] in the bounds walk. *)
Definition edge_bounds (ang off_x off_y : R) (e : Edge.t) (bs : bounds)
  : bounds :=
  if is_type e.(Edge.type) "line" then
    let '(sx, sy) := resolve ang off_x off_y e.(Edge.xs) e.(Edge.ys) in
    let '(ex, ey) := resolve ang off_x off_y e.(Edge.xe) e.(Edge.ye) in
    add_bounds (Rmin sx ex, Rmin sy ey, Rmax sx ex, Rmax sy ey) bs
  else if is_type e.(Edge.type) "arc" then
    let '(sx, sy) := resolve ang off_x off_y e.(Edge.xs) e.(Edge.ys) in
    let '(ex, ey) := resolve ang off_x off_y e.(Edge.xe) e.(Edge.ye) in
    let '(cx, cy) := resolve ang off_x off_y e.(Edge.xc) e.(Edge.yc) in
    let r := arc_radius sx sy cx cy e.(Edge.radius) in
    let a0 := _angle_deg_math cx cy sx sy in
    let a1 := _angle_deg_math cx cy ex ey in
    let dir_math := _xml_dir_to_math e.(Edge.direction) in
    add_bounds (arc_bounds cx cy r a0 a1 dir_math) bs
  else bs.

(** The body of [for bc in layer.barcode_list] in the bounds walk. *)
Definition barcode_bounds (ang off_x off_y : R) (bc : Barcode.t)
    (bs : bounds) : bounds :=
  let '(b_x, b_y) := resolve ang off_x off_y bc.(Barcode.x) bc.(Barcode.y) in
  add_bounds (b_x, b_y, b_x + bc.(Barcode.width), b_y + bc.(Barcode.height))
             bs.

(** [compute_step_bounds(st, base_angle_deg, off_x, off_y, depth=0)], the
    closure of [fit_step] and of [fit_all].  The two copies differ in the
    test before the repeats only: [include_repeats and
    canvas.show_xml_repeats] in [fit_step], [self.show_xml_repeats] in
    [fit_all]; [descend] is that test.  [depth] is passed on and never
    read.  The closure updates [bounds] in place; here it is threaded. *)
Fixpoint bounds_walk (fuel : nat) (canvas : Canvas) (drawing : Drawing.t)
    (descend : bool) (st : Step.t) (base_angle_deg off_x off_y : R)
    (depth : Z) (bs : bounds) {struct fuel} : result bounds :=
  match fuel with
  | O => Raise RecursionError
  | S fuel' =>
      let ang := - base_angle_deg * PI / 180 in
      let bs :=
        if canvas.(show_xml_edges) then
          fold_left (fun acc e => edge_bounds ang off_x off_y e acc)
                    st.(Step.edges) bs
        else bs in
      let bs :=
        if canvas.(show_xml_barcodes) then
          fold_left
            (fun acc layer =>
               fold_left (fun acc bc => barcode_bounds ang off_x off_y bc acc)
                         layer.(Layer.barcode_list) acc)
            st.(Step.layers) bs
        else bs in
      if descend then
        (fix each (rpts : list Repeat.t) (bs : bounds) : result bounds :=
           match rpts with
           | [] => Ok bs
           | rpt :: rest =>
               bs' <-
                 match steps_get drawing.(Drawing.steps) rpt.(Repeat.step) with
                 | Some sub =>
                     let '(rx, ry) :=
                       resolve ang off_x off_y rpt.(Repeat.x) rpt.(Repeat.y) in
                     bounds_walk fuel' canvas drawing descend sub
                                 (base_angle_deg + rpt.(Repeat.angle)) rx ry
                                 (depth + 1)%Z bs
                 | None => Ok bs
                 end ;;
               each rest bs'
           end) st.(Step.repeats) bs
      else Ok bs
  end.

(** The closure inside [fit_step(canvas, include_repeats)]. *)
Definition fit_step_compute_step_bounds (fuel : nat) (canvas : Canvas)
    (drawing : Drawing.t) (include_repeats : bool) :=
  bounds_walk fuel canvas drawing
              (include_repeats && canvas.(show_xml_repeats)).

(** The closure inside [ViewerCanvasCore.fit_all]. *)
Definition fit_all_compute_step_bounds (fuel : nat) (canvas : Canvas)
    (drawing : Drawing.t) :=
  bounds_walk fuel canvas drawing canvas.(show_xml_repeats).

(** The bounds [fit_step] has computed when it turns to the view. *)
Definition fit_step_bounds (fuel : nat) (canvas : Canvas)
    (include_repeats : bool) : result (option bounds) :=
  sel <- selected canvas ;;
  match sel with
  | None => Ok None
  | Some (drawing, step) =>
      bs <- fit_step_compute_step_bounds fuel canvas drawing include_repeats
              step 0 (- step.(Step.x)) (- step.(Step.y)) 0%Z no_bounds ;;
      Ok (Some bs)
  end.

(** The XML bounds of [fit_all]. *)
Definition fit_all_xml_bounds (fuel : nat) (canvas : Canvas)
  : result (option bounds) :=
  sel <- selected canvas ;;
  match sel with
  | None => Ok None
  | Some (drawing, step) =>
      bs <- fit_all_compute_step_bounds fuel canvas drawing
              step 0 (- step.(Step.x)) (- step.(Step.y)) 0%Z no_bounds ;;
      Ok (Some bs)
  end.

End XmlDrawing.

(* ------------------------------------------------------------------ *)
(** * The step transform as the specification words it *)

Module StepTransformSpec.

(** Section 4.6 describes a state [(x, y, layer)] updated by every
    character: [D] gives [(y, -x)], [X] gives [y := -y] and
    [layer := (1 - layer) + count_of_layer], [Y] gives [x := -x] and the
    same layer rule.  Read as assignments, the layer on the right is the
    running one. *)
Definition step (count_of_layer : Z) (s : Q * Q * Z) (op : ascii)
  : Q * Q * Z :=
  let '(x, y, layer) := s in
  if Ascii.eqb op "D" then (y, - x, layer)
  else if Ascii.eqb op "X" then (x, - y, ((1 - layer) + count_of_layer)%Z)
  else if Ascii.eqb op "Y" then (- x, y, ((1 - layer) + count_of_layer)%Z)
  else (x, y, layer).

Definition apply_transformation (st : LesStep.t) (point : Point.t)
    (i : Z) : Q * Q * Z :=
  let '(x, y, layer) :=
    fold_left (step point.(Point.count_of_layer))
              (list_ascii_of_string st.(LesStep.operations))
              (point.(Point.x), point.(Point.y), point.(Point.layer)) in
  (x + (st.(LesStep.offset_x) + inject_Z i * st.(LesStep.distance_x)),
   y + (st.(LesStep.offset_y) + inject_Z i * st.(LesStep.distance_y)),
   layer).

(** The rule of the code: every mirror writes the flip of the layer the
    point came with. *)
Definition step_from_point (point : Point.t) (s : Q * Q * Z) (op : ascii)
  : Q * Q * Z :=
  let '(x, y, layer) := s in
  if Ascii.eqb op "D" then (y, - x, layer)
  else if Ascii.eqb op "X" then
    (x, - y, ((1 - point.(Point.layer)) + point.(Point.count_of_layer))%Z)
  else if Ascii.eqb op "Y" then
    (- x, y, ((1 - point.(Point.layer)) + point.(Point.count_of_layer))%Z)
  else (x, y, layer).

(** Whether a chain holds a mirror, [X] or [Y]. *)
Fixpoint has_mirror (ops : string) : bool :=
  match ops with
  | EmptyString => false
  | String op rest =>
      Ascii.eqb op "X" || Ascii.eqb op "Y" || has_mirror rest
  end.

(** How many mirrors a chain holds. *)
Fixpoint mirrors (ops : string) : nat :=
  match ops with
  | EmptyString => 0
  | String op rest =>
      ((if Ascii.eqb op "X" || Ascii.eqb op "Y" then 1 else 0)
       + mirrors rest)%nat
  end.

End StepTransformSpec.

(* ------------------------------------------------------------------ *)
(** * The repeat resolver as the specification words it *)

Module Resolver.

Import Py Xml Geometry XmlDrawing.
Local Open Scope string_scope.
Local Open Scope list_scope.
Local Open Scope R_scope.

(** Section 4.9: a walk visits a step with an accumulated angle (in
    degrees) and an accumulated world offset. *)
Record frame : Type := mk_frame {
  at_step : Step.t;
  base_angle_deg : R;
  world_off_x : R;
  world_off_y : R
}.

Definition angle_rad (f : frame) : R := - f.(base_angle_deg) * PI / 180.

(** "For each repeat (if enabled): transform the repeat's (x,y) offset
    through the current frame to get the child's world anchor; recurse
    into the named target step with baseAngle + repeat.angle, the new
    world anchor as offset", a repeat naming an absent step being
    skipped: the frames of a walk, in the order they are visited. *)
Fixpoint frames (fuel : nat) (drawing : Drawing.t) (repeats : bool)
    (st : Step.t) (base off_x off_y : R) {struct fuel}
  : result (list frame) :=
  match fuel with
  | O => Raise RecursionError
  | S fuel' =>
      let here := mk_frame st base off_x off_y in
      below <-
        (if repeats then
           (fix each (rpts : list Repeat.t) : result (list frame) :=
              match rpts with
              | [] => Ok []
              | rpt :: rest =>
                  first <-
                    match steps_get drawing.(Drawing.steps)
                                    rpt.(Repeat.step) with
                    | Some sub =>
                        let '(rx, ry) :=
                          rotate_translate rpt.(Repeat.x) rpt.(Repeat.y)
                                           (angle_rad here) off_x off_y in
                        frames fuel' drawing repeats sub
                               (base + rpt.(Repeat.angle)) rx ry
                    | None => Ok []
                    end ;;
                  others <- each rest ;;
                  Ok (first ++ others)
              end) st.(Step.repeats)
         else Ok []) ;;
      Ok (here :: below)
  end.

(** What the draw walk paints at one frame. *)
Definition draw_level (canvas : Canvas) (f : frame) : list paint :=
  (if canvas.(show_xml_edges) then
     SetPen (step_color f.(at_step).(Step.type) 0) 2 ::
     flat_map (draw_edge canvas (angle_rad f) f.(world_off_x) f.(world_off_y))
              f.(at_step).(Step.edges)
   else [])
  ++
  (if canvas.(show_xml_barcodes) then
     SetPen (200, 200, 200)%Z 1 ::
     flat_map
       (fun layer =>
          flat_map
            (draw_barcode canvas (angle_rad f) f.(world_off_x) f.(world_off_y))
            layer.(Layer.barcode_list))
       f.(at_step).(Step.layers)
   else []).

(** What the bounds walk adds at one frame. *)
Definition bounds_level (canvas : Canvas) (f : frame) (bs : bounds)
  : bounds :=
  let bs :=
    if canvas.(show_xml_edges) then
      fold_left
        (fun acc e =>
           edge_bounds (angle_rad f) f.(world_off_x) f.(world_off_y) e acc)
        f.(at_step).(Step.edges) bs
    else bs in
  if canvas.(show_xml_barcodes) then
    fold_left
      (fun acc layer =>
         fold_left
           (fun acc bc =>
              barcode_bounds (angle_rad f) f.(world_off_x) f.(world_off_y)
                             bc acc)
           layer.(Layer.barcode_list) acc)
      f.(at_step).(Step.layers) bs
  else bs.

(** The screen vertices of what is painted: the ends of a line, the
    points of a polyline, the four corners of a rectangle. *)
Definition vertices (p : paint) : list (R * R) :=
  match p with
  | DrawLine a b => [a; b]
  | DrawPolyline pts => pts
  | DrawRect x y w h => [(x, y); (x + w, y); (x, y + h); (x + w, y + h)]
  | _ => []
  end.


(** A finite box and a point in it. *)
Definition box_contains (b : box) (p : R * R) : Prop :=
  let '(b0, b1, b2, b3) := b in
  b0 <= fst p <= b2 /\ b1 <= snd p <= b3.

(** A point within [bounds = [minx, miny, maxx, maxy]]. *)
Definition lower (m : ext) (v : R) : Prop :=
  match m with
  | Fin a => a <= v
  | PosInf => False
  | NegInf => True
  end.

Definition upper (m : ext) (v : R) : Prop :=
  match m with
  | Fin a => v <= a
  | PosInf => True
  | NegInf => False
  end.

Definition inside (bs : bounds) (p : R * R) : Prop :=
  let '(m0, m1, m2, m3) := bs in
  lower m0 (fst p) /\ lower m1 (snd p)
  /\ upper m2 (fst p) /\ upper m3 (snd p).

(** A screen vertex that comes from a world point within the bounds. *)
Definition covered (canvas : Canvas) (bs : bounds) (v : R * R) : Prop :=
  exists wx wy, v = world_to_screen canvas wx wy /\ inside bs (wx, wy).

(** The repeat graph has no cycle: some rank on step names falls along
    every repeat that names a step of the drawing. *)
Definition acyclic (drawing : Drawing.t) (rank : option string -> nat)
  : Prop :=
  forall k st rpt sub,
    steps_get drawing.(Drawing.steps) k = Some st ->
    In rpt st.(Step.repeats) ->
    steps_get drawing.(Drawing.steps) rpt.(Repeat.step) = Some sub ->
    (rank rpt.(Repeat.step) < rank k)%nat.

(** No barcode of the drawing has a negative width or height. *)
Definition barcode_sizes_ok (st : Step.t) : Prop :=
  forall layer bc,
    In layer st.(Step.layers) ->
    In bc layer.(Layer.barcode_list) ->
    0 <= bc.(Barcode.width) /\ 0 <= bc.(Barcode.height).

Definition barcodes_ok (drawing : Drawing.t) : Prop :=
  forall k st,
    steps_get drawing.(Drawing.steps) k = Some st -> barcode_sizes_ok st.

End Resolver.
(* ------------------------------------------------------------------ *)
(** * Predicates the properties are stated with *)

Module LesProps.

Import Py PanelImage.
Local Open Scope string_scope.
Local Open Scope list_scope.

(** How one line changes the list of points: not at all, or by one
    point appended, decoded on the tooling path or on the regular path
    and then scaled. *)
Inductive appended (st : Les.state) (i : nat) (line : string)
  : Point.t -> Prop :=
| from_tooling (style : PointStyle.t) (p0 : Point.t) :
    Les.classify line = Les.Tooling ->
    style <> PointStyle.NORMAL ->
    Point._init_tooling_hole
      (Point.fresh (Some line) 1 None (Some style)) line
      st.(Les.self).(Les.apertures) style = Ok p0 ->
    appended st i line (Les.scale_point st.(Les.self).(Les.scale) p0)
| from_regular (content : string) (net : option (nat * Net.t)) :
    Les.classify line = Les.RegularPoint ->
    appended st i line
      (Les.scale_point st.(Les.self).(Les.scale)
         (Point._init_regular_point
            (Point.fresh (Some content) st.(Les.self).(Les.count_of_layer)
                         net None)
            content st.(Les.self).(Les.count_of_layer)
            st.(Les.self).(Les.apertures) net)).

(** The rule a point obeys: on the regular path [is_enable] is the layer
    test; a tooling hole is disabled and sits on layer 1. *)
Definition enable_rule (p : Point.t) : Prop :=
  match p.(Point.style) with
  | PointStyle.NORMAL =>
      p.(Point.is_enable)
      = ((p.(Point.layer) =? 1)%Z
         || (p.(Point.layer) =? p.(Point.count_of_layer))%Z)
  | _ => p.(Point.is_enable) = false /\ p.(Point.layer) = 1%Z
  end.

Definition unnamed (p : Point.t) : Prop :=
  p.(Point.panel_image_name) = None.

(** [n] is the smallest positive integer outside [used]. *)
Definition smallest_free (used : list Z) (n : Z) : Prop :=
  (1 <= n)%Z /\ ~ In n used
  /\ forall m, (1 <= m < n)%Z -> In m used.

(** The image ids the naming pass has given to the points before
    position [i] that came without one. *)
Definition assigned_before (points named : list Point.t) (i : nat)
  : list Z :=
  map (fun pp => Point.image (snd pp))
      (filter (fun pp => (Point.image (fst pp) =? 0)%Z)
              (firstn i (combine points named))).

Local Open Scope Z_scope.

(** Every list of panels recorded for an image has a first element. *)
Definition panels_nonempty (u : usage) : Prop :=
  forall k ps, dict_get Z.eqb u k = Some ps -> ps <> [].

(** The entries of [u] whose key is at least [n]. *)
Definition keys_from (u : usage) (n : Z) : nat :=
  List.length (filter (fun e => n <=? fst e) u).

(** What the point loop keeps true: the images in use are those of
    [used]; every positive id below [next_image_id] is in use; every
    recorded panel list has a first element. *)
Definition pass_inv (st : pass_state) (used : list Z) : Prop :=
  (forall m, dict_mem Z.eqb st.(image_usage) m = true <-> In m used)
  /\ 1 <= st.(next_image_id)
  /\ (forall m, 1 <= m < st.(next_image_id) -> In m used)
  /\ panels_nonempty st.(image_usage).

End LesProps.

Module XmlProps.

Import Py Xml.
Local Open Scope string_scope.
Local Open Scope list_scope.


End XmlProps.

Module Angles.

Import Geometry.
Local Open Scope R_scope.

(** Two angles in degrees that differ by whole turns. *)
Definition congr360 (x y : R) : Prop := exists m : Z, x - y = 360 * IZR m.

Definition sign_of (k : Z) : R := if Z.even k then 1 else -1.


(** Cosine and sine of an angle in degrees. *)
Definition cosd (a : R) : R := cos (radians a).
Definition sind (a : R) : R := sin (radians a).

(** Where the cosine on [lo .. hi] can take its extreme values: at the
    two ends and at the multiples of 180 in between. *)
Definition critical (lo hi x : R) : Prop :=
  x = lo \/ x = hi \/ (lo < x < hi /\ exists k : Z, x = 180 * IZR k).

(** The same for the sine: the ends and the odd multiples of 90. *)
Definition critical_sin (lo hi x : R) : Prop :=
  x = lo \/ x = hi \/ (lo < x < hi /\ exists k : Z, x = 90 + 180 * IZR k).

(** The interval of angles an arc sweeps, end angle first for a
    clockwise arc. *)
Definition sweep_lo (a0 a1 : R) (d : direction) : R :=
  match d with
  | CCW => a0
  | CW => a0 - fmod360 (a0 - a1)
  end.

Definition sweep_hi (a0 a1 : R) (d : direction) : R :=
  match d with
  | CCW => a0 + fmod360 (a1 - a0)
  | CW => a0
  end.

End Angles.

(* ------------------------------------------------------------------ *)
(** * Concrete inputs used below *)

Module Samples.

Import Py.
Local Open Scope string_scope.
Local Open Scope list_scope.

Definition sample_point (layer count_of_layer : Z) : Point.t :=
  let p := Point.fresh None count_of_layer None None in
  Point.mk p.(Point.original) p.(Point.identifier) 3 5 p.(Point.type)
    p.(Point.style) p.(Point.aperture) p.(Point.index_of_map)
    p.(Point.content) p.(Point.net) layer count_of_layer
    p.(Point.fill_color) p.(Point.background_color)
    p.(Point.default_opacity) p.(Point.opacity) p.(Point.logic_mode)
    p.(Point.is_enable) p.(Point.is_test) p.(Point.is_selected)
    p.(Point.is_visible) p.(Point.image) p.(Point.panel_image_name).

Definition sample_step (ops : string) : LesStep.t :=
  {| LesStep.amount := 1; LesStep.operations := ops;
     LesStep.offset_x := 0; LesStep.offset_y := 0;
     LesStep.distance_x := 0; LesStep.distance_y := 0;
     LesStep.image := 1; LesStep.tooltip := "" |}.

(** A step declared for image [img]. *)
Definition step_on_image (img : Z) : LesStep.t :=
  {| LesStep.amount := 1; LesStep.operations := "";
     LesStep.offset_x := 0; LesStep.offset_y := 0;
     LesStep.distance_x := 0; LesStep.distance_y := 0;
     LesStep.image := img; LesStep.tooltip := "" |}.

(** A point that came without an image id. *)
Definition unset_point : Point.t :=
  Point.set_image 0 (Point.fresh None 1 None None).

End Samples.


Module XmlSamples.

Import Py Xml Geometry XmlDrawing.
Local Open Scope string_scope.
Local Open Scope list_scope.
Local Open Scope R_scope.



(** A step that repeats itself. *)
Definition self_repeat : Repeat.t :=
  {| Repeat.id := None; Repeat.pos_num := None; Repeat.step := Some "A";
     Repeat.x := 0; Repeat.y := 0; Repeat.angle := 0; Repeat.number := "" |}.

Definition step_A : Step.t :=
  {| Step.name := Some "A"; Step.type := None;
     Step.x := 0; Step.y := 0; Step.width := 0; Step.height := 0;
     Step.edges := []; Step.repeats := [self_repeat]; Step.layers := [] |}.

Definition cyclic_drawing : Drawing.t :=
  {| Drawing.file_path := "c.xml"; Drawing.job := "c";
     Drawing.width := 0; Drawing.height := 0;
     Drawing.start_step := Some "A";
     Drawing.steps := [(Some "A", step_A)] |}.

Definition cyclic_canvas : Canvas :=
  {| xml_drawings := [cyclic_drawing]; current_xml_drawing_idx := 0;
     current_xml_step := Some "A";
     show_xml_edges := true; show_xml_barcodes := true;
     show_xml_repeats := true;
     zoom_level := 1; pan_offset := (0, 0) |}.

(** A step whose only content is a barcode of width -5. *)
Definition narrow_barcode : Barcode.t :=
  {| Barcode.num := None; Barcode.layercode := None;
     Barcode.layerface := None; Barcode.content := None;
     Barcode.polarity := None; Barcode.id := None;
     Barcode.x := 0; Barcode.y := 0;
     Barcode.width := -5; Barcode.height := 1 |}.

Definition barcode_step : Step.t :=
  {| Step.name := Some "A"; Step.type := None;
     Step.x := 0; Step.y := 0; Step.width := 0; Step.height := 0;
     Step.edges := []; Step.repeats := [];
     Step.layers := [{| Layer.name := None;
                        Layer.barcode_list := [narrow_barcode] |}] |}.

Definition barcode_drawing : Drawing.t :=
  {| Drawing.file_path := "b.xml"; Drawing.job := "b";
     Drawing.width := 0; Drawing.height := 0;
     Drawing.start_step := Some "A";
     Drawing.steps := [(Some "A", barcode_step)] |}.

Definition barcode_canvas : Canvas :=
  {| xml_drawings := [barcode_drawing]; current_xml_drawing_idx := 0;
     current_xml_step := Some "A";
     show_xml_edges := true; show_xml_barcodes := true;
     show_xml_repeats := true;
     zoom_level := 1; pan_offset := (0, 0) |}.

(** Step [A] places step [B] at (5, 5), turned by 90 degrees; [B] is one
    line from (0, 0) to (1, 0). *)
Definition unit_line : Edge.t :=
  {| Edge.id := None; Edge.type := Some "line";
     Edge.xs := 0; Edge.ys := 0; Edge.xe := 1; Edge.ye := 0;
     Edge.xc := 0; Edge.yc := 0; Edge.radius := 0;
     Edge.direction := "cw" |}.

Definition step_B : Step.t :=
  {| Step.name := Some "B"; Step.type := None;
     Step.x := 0; Step.y := 0; Step.width := 0; Step.height := 0;
     Step.edges := [unit_line]; Step.repeats := []; Step.layers := [] |}.

Definition place_B : Repeat.t :=
  {| Repeat.id := None; Repeat.pos_num := None; Repeat.step := Some "B";
     Repeat.x := 5; Repeat.y := 5; Repeat.angle := 90;
     Repeat.number := "" |}.

Definition step_A_of_B : Step.t :=
  {| Step.name := Some "A"; Step.type := None;
     Step.x := 0; Step.y := 0; Step.width := 0; Step.height := 0;
     Step.edges := []; Step.repeats := [place_B]; Step.layers := [] |}.

Definition nested_drawing : Drawing.t :=
  {| Drawing.file_path := "n.xml"; Drawing.job := "n";
     Drawing.width := 0; Drawing.height := 0;
     Drawing.start_step := Some "A";
     Drawing.steps := [(Some "A", step_A_of_B); (Some "B", step_B)] |}.

Definition nested_canvas : Canvas :=
  {| xml_drawings := [nested_drawing]; current_xml_drawing_idx := 0;
     current_xml_step := Some "A";
     show_xml_edges := true; show_xml_barcodes := true;
     show_xml_repeats := true;
     zoom_level := 1; pan_offset := (0, 0) |}.

Definition nested_rank (k : option string) : nat :=
  if key_eqb k (Some "A") then 1 else 0.

End XmlSamples.

From Stdlib Require DecimalPos DecimalZ.

(* ------------------------------------------------------------------ *)
(** * canvas/viewer_canvas_core.py, canvas/viewer_canvas.py and the view
      functions of canvas/xml_drawing.py *)

(** The view code raises two kinds of exception the parsers do not: a
    float division by zero and the read of an unbound name. *)
Module PyView.

Inductive exn : Type :=
| ZeroDivisionError
| NameError
| Inner (e : Py.exn).

Inductive result (A : Type) : Type :=
| Done (a : A)
| Fail (e : exn).

Arguments Done {A} a.
Arguments Fail {A} e.

Definition bind {A B : Type} (m : result A) (k : A -> result B) : result B :=
  match m with
  | Done a => k a
  | Fail e => Fail e
  end.

Definition lift {A : Type} (m : Py.result A) : result A :=
  match m with
  | Py.Ok a => Done a
  | Py.Raise e => Fail (Inner e)
  end.

(** [a / b] on floats. *)
Definition div (a b : R) : result R :=
  if Req_dec_T b 0 then Fail ZeroDivisionError else Done (a / b)%R.

End PyView.

Notation "x <~ m ;; k" := (PyView.bind m (fun x => k))
  (at level 61, m at next level, right associativity).

Module ViewerCanvas.

Import Py Xml Geometry XmlDrawing.
Local Open Scope string_scope.
Local Open Scope list_scope.
Local Open Scope R_scope.

(** The canvas object: [xml] holds the attributes the XML walks read
    (drawings, selection, toggles, zoom and pan); the others are the
    LES side, the toolbar heights and the widget size. *)
Record t : Type := mk {
  xml : Canvas;
  les_data : option Les.t;
  show_layers : list (Z * bool);
  layer_mode : string;
  show_steps : bool;
  show_outline : bool;
  selected_point : option nat;
  toolbar_height : Z;
  xml_toolbar_height : Z;
  _w : Z;
  _h : Z
}.

(** [ViewerCanvasCore.__init__]. *)
Definition init : t :=
  {| xml := {| xml_drawings := []; current_xml_drawing_idx := -1;
               current_xml_step := None;
               show_xml_edges := true; show_xml_barcodes := true;
               show_xml_repeats := true;
               zoom_level := 1; pan_offset := (0, 0) |};
     les_data := None; show_layers := []; layer_mode := "both";
     show_steps := false; show_outline := false; selected_point := None;
     toolbar_height := 0; xml_toolbar_height := 0;
     _w := 1200; _h := 800 |}.

Definition set_zoom (z : R) (c : Canvas) : Canvas :=
  mk_canvas c.(xml_drawings) c.(current_xml_drawing_idx)
            c.(current_xml_step) c.(show_xml_edges) c.(show_xml_barcodes)
            c.(show_xml_repeats) z c.(pan_offset).

Definition set_pan (p : R * R) (c : Canvas) : Canvas :=
  mk_canvas c.(xml_drawings) c.(current_xml_drawing_idx)
            c.(current_xml_step) c.(show_xml_edges) c.(show_xml_barcodes)
            c.(show_xml_repeats) c.(zoom_level) p.

Definition set_selection (ds : list Drawing.t) (idx : Z)
    (step : option string) (c : Canvas) : Canvas :=
  mk_canvas ds idx step c.(show_xml_edges) c.(show_xml_barcodes)
            c.(show_xml_repeats) c.(zoom_level) c.(pan_offset).

Definition with_xml (x : Canvas) (c : t) : t :=
  mk x c.(les_data) c.(show_layers) c.(layer_mode) c.(show_steps)
     c.(show_outline) c.(selected_point) c.(toolbar_height)
     c.(xml_toolbar_height) c.(_w) c.(_h).

(** [self.toolbar_height + self.xml_toolbar_height]. *)
Definition top_y (c : t) : Z :=
  (c.(toolbar_height) + c.(xml_toolbar_height))%Z.

(** [screen_to_world]: both coordinates are divided by the zoom. *)
Definition screen_to_world (c : Canvas) (sx sy : R)
  : PyView.result (R * R) :=
  wx <~ PyView.div (sx - fst c.(pan_offset)) c.(zoom_level) ;;
  wy <~ PyView.div (sy - snd c.(pan_offset)) c.(zoom_level) ;;
  PyView.Done (wx, wy).

(** [wheelEvent] for a wheel turn [angle_delta] at the cursor position
    [(mx, my)]. *)
Definition wheelEvent (c : Canvas) (angle_delta : Z) (mx my : R)
  : PyView.result Canvas :=
  if (angle_delta =? 0)%Z then PyView.Done c
  else
    w <~ screen_to_world c mx my ;;
    let factor := if (0 <? angle_delta)%Z then 11 / 10 else 1 / (11 / 10) in
    let zoom := c.(zoom_level) * factor in
    PyView.Done (set_pan (mx - fst w * zoom, my - snd w * zoom)
                         (set_zoom zoom c)).

(** [xml_drawing.reset_xml_view]. *)
Definition reset_xml_view (c : t) : Py.result t :=
  match c.(xml).(xml_drawings) with
  | [] => Ok c
  | _ =>
      if (0 <=? c.(xml).(current_xml_drawing_idx))%Z then
        drawing <- current_drawing c.(xml) ;;
        let w := c.(_w) in
        let h := (c.(_h) - (c.(toolbar_height) + c.(xml_toolbar_height)))%Z in
        if (if Rle_dec drawing.(Drawing.width) 0 then true
            else if Rle_dec drawing.(Drawing.height) 0 then true else false)
        then
          Ok (with_xml
                (set_pan (IZR (w - 400) / 2,
                          IZR (h - 300) / 2
                          + IZR (c.(toolbar_height) + c.(xml_toolbar_height)))
                         (set_zoom 1 c.(xml))) c)
        else
          let zoom :=
            Rmin (IZR w / drawing.(Drawing.width))
                 (IZR h / drawing.(Drawing.height)) * (8 / 10) in
          Ok (with_xml
                (set_pan ((IZR w - drawing.(Drawing.width) * zoom) / 2,
                          (IZR h - drawing.(Drawing.height) * zoom) / 2
                          + IZR (c.(toolbar_height) + c.(xml_toolbar_height)))
                         (set_zoom zoom c.(xml))) c)
      else Ok c
  end.

(** [drawing.start_step or (next(iter(drawing.steps.keys())) if
    drawing.steps else None)]. *)
Definition start_or_first (drawing : Drawing.t) : option string :=
  if Drawing.truthy_name drawing.(Drawing.start_step)
  then drawing.(Drawing.start_step)
  else match drawing.(Drawing.steps) with
       | (k, _) :: _ => k
       | [] => None
       end.

(** [load_xml_file] on the root element of the file.  The info window
    is a dialog and leaves the canvas as it is. *)
Definition load_xml_file (c : t) (file_path : string) (root : Element)
  : Py.result t :=
  drawing <- Drawing.parse_xml file_path root ;;
  let ds := c.(xml).(xml_drawings) ++ [drawing] in
  let c := with_xml
             (set_selection ds (Z.of_nat (List.length ds) - 1)
                            (start_or_first drawing) c.(xml)) c in
  reset_xml_view c.

(** [del xs[i]] for an index in range. *)
Fixpoint delete_at {A : Type} (xs : list A) (i : nat) : list A :=
  match xs, i with
  | [], _ => []
  | _ :: r, O => r
  | h :: r, S i' => h :: delete_at r i'
  end.

(** [unload_current_xml]. *)
Definition unload_current_xml (c : t) : Py.result t :=
  match c.(xml).(xml_drawings) with
  | [] => Ok c
  | _ =>
      let idx := c.(xml).(current_xml_drawing_idx) in
      let ds :=
        if (0 <=? idx)%Z
           && (idx <? Z.of_nat (List.length c.(xml).(xml_drawings)))%Z
        then delete_at c.(xml).(xml_drawings) (Z.to_nat idx)
        else c.(xml).(xml_drawings) in
      c' <-
        match ds with
        | [] => Ok (with_xml (set_selection ds (-1) None c.(xml)) c)
        | _ =>
            let idx' := Z.min idx (Z.of_nat (List.length ds) - 1) in
            let c1 := with_xml (set_selection ds idx'
                                              c.(xml).(current_xml_step)
                                              c.(xml)) c in
            cur <- current_drawing c1.(xml) ;;
            Ok (with_xml (set_selection ds idx' (start_or_first cur)
                                        c.(xml)) c)
        end ;;
      reset_xml_view c'
  end.

(** [ViewerCanvasCore._fit_world_bounds]; the four bounds are floats
    that may be infinite. *)
Definition _fit_world_bounds (c : t) (b : bounds) (padding : Z) : t :=
  match b with
  | (Fin minx, Fin miny, Fin maxx, Fin maxy) =>
      let bw := maxx - minx in
      let bh := maxy - miny in
      if Rle_dec bw 0 then c
      else if Rle_dec bh 0 then c
      else
        let avail_w := (c.(_w) - 2 * padding)%Z in
        let top := top_y c in
        let avail_h := (c.(_h) - top - 2 * padding)%Z in
        if (avail_w <=? 0)%Z || (avail_h <=? 0)%Z then c
        else
          let zx := IZR avail_w / bw in
          let zy := IZR avail_h / bh in
          let zoom := Rmin zx zy in
          let cx := (minx + maxx) / 2 in
          let cy := (miny + maxy) / 2 in
          with_xml
            (set_pan (IZR c.(_w) / 2 - cx * zoom,
                      (IZR top + IZR (c.(_h) - top) / 2) - cy * zoom)
                     (set_zoom zoom c.(xml))) c
  | _ => c
  end.

End ViewerCanvas.

Module XmlView.

Import Py Xml Geometry XmlDrawing ViewerCanvas.
Local Open Scope string_scope.
Local Open Scope list_scope.
Local Open Scope R_scope.

(** [xml_drawing._fit_world_bounds(canvas, minx, miny, maxx, maxy,
    padding)], a function of the module.  After it has stored the zoom,
    the argument of [setX] reads [self.zoom_level]; the module has no
    name [self], so that read raises [NameError] and the pan is never
    written.  The result is the canvas as the call leaves it and the
    exception that escapes, if any. *)
Definition _fit_world_bounds (c : t) (b : bounds) (padding : Z)
  : t * option PyView.exn :=
  match b with
  | (Fin minx, Fin miny, Fin maxx, Fin maxy) =>
      let bw := maxx - minx in
      let bh := maxy - miny in
      if Rle_dec bw 0 then (c, None)
      else if Rle_dec bh 0 then (c, None)
      else
        let avail_w := (c.(_w) - 2 * padding)%Z in
        let avail_h :=
          (c.(_h) - (c.(toolbar_height) + c.(xml_toolbar_height))
           - 2 * padding)%Z in
        if (avail_w <=? 0)%Z || (avail_h <=? 0)%Z then (c, None)
        else
          let zx := IZR avail_w / bw in
          let zy := IZR avail_h / bh in
          (with_xml (set_zoom (Rmin zx zy) c.(xml)) c,
           Some PyView.NameError)
  | _ => (c, None)
  end.

(** [xml_drawing.fit_step(canvas, include_repeats)]. *)
Definition fit_step (fuel : nat) (c : t) (include_repeats : bool)
  : t * option PyView.exn :=
  match fit_step_bounds fuel c.(xml) include_repeats with
  | Raise e => (c, Some (PyView.Inner e))
  | Ok None => (c, None)
  | Ok (Some bs) =>
      match bs with
      | (PosInf, _, _, _) =>
          match reset_xml_view c with
          | Ok c' => (c', None)
          | Raise e => (c, Some (PyView.Inner e))
          end
      | _ => _fit_world_bounds c bs 50
      end
  end.

End XmlView.

(** * The LES side of the canvas: [load_file] and
      [init_layer_visibility] of canvas/viewer_canvas_core.py,
      [auto_zoom] of canvas/les_drawing.py and the left click of
      canvas/viewer_canvas_view.py *)
Module LesView.

Import Py PanelImage Geometry XmlDrawing ViewerCanvas.
Local Open Scope string_scope.
Local Open Scope list_scope.

Definition set_show_layers (d : list (Z * bool)) (c : t) : t :=
  mk c.(xml) c.(les_data) d c.(layer_mode) c.(show_steps)
     c.(show_outline) c.(selected_point) c.(toolbar_height)
     c.(xml_toolbar_height) c.(_w) c.(_h).

Definition set_les_data (ld : option Les.t) (c : t) : t :=
  mk c.(xml) ld c.(show_layers) c.(layer_mode) c.(show_steps)
     c.(show_outline) c.(selected_point) c.(toolbar_height)
     c.(xml_toolbar_height) c.(_w) c.(_h).

(** [selected_point] is kept as the position of the point in
    [les_data.points]. *)
Definition set_selected_point (s : option nat) (c : t) : t :=
  mk c.(xml) c.(les_data) c.(show_layers) c.(layer_mode) c.(show_steps)
     c.(show_outline) s c.(toolbar_height)
     c.(xml_toolbar_height) c.(_w) c.(_h).

(** [canvas.show_layers.get(layer, False)]. *)
Definition shown (c : t) (layer : Z) : bool :=
  match dict_get Z.eqb c.(show_layers) layer with
  | Some b => b
  | None => false
  end.

(** [for p in self.les_data.points: self.show_layers[p.layer] = True]. *)
Definition mark_layers (pts : list Point.t) (d : list (Z * bool))
  : list (Z * bool) :=
  fold_left (fun d p => dict_set Z.eqb d p.(Point.layer) true) pts d.

(** [max([p.layer for p in points] + [1])]. *)
Definition max_layer (pts : list Point.t) : Z :=
  match map Point.layer pts ++ [1%Z] with
  | h :: t => fold_left Z.max t h
  | [] => 1%Z
  end.

(** [count_of_layer if count_of_layer else max(...)]. *)
Definition bottom_layer (ld : Les.t) : Z :=
  if (ld.(Les.count_of_layer) =? 0)%Z then max_layer ld.(Les.points)
  else ld.(Les.count_of_layer).

(** [for layer in list(d.keys()): d[layer] = f(layer)]. *)
Definition set_each (f : Z -> bool) (d : list (Z * bool))
  : list (Z * bool) :=
  fold_left (fun d k => dict_set Z.eqb d k (f k)) (map fst d) d.

(** [ViewerCanvasCore.init_layer_visibility]. *)
Definition init_layer_visibility (c : t) : t :=
  match c.(les_data) with
  | None => c
  | Some ld =>
      let top_layer := 1%Z in
      let bottom := bottom_layer ld in
      let f :=
        if String.eqb c.(layer_mode) "top" then
          fun layer => (layer =? top_layer)%Z
        else if String.eqb c.(layer_mode) "bottom" then
          fun layer => (layer =? bottom)%Z
        else
          fun layer => (layer =? top_layer)%Z || (layer =? bottom)%Z in
      set_show_layers (set_each f c.(show_layers)) c
  end.

Local Open Scope R_scope.

Definition q2 (p : Q * Q) : R * R := (Q2R (fst p), Q2R (snd p)).

(** [range(n)]. *)
Definition range (n : Z) : list Z :=
  map Z.of_nat (List.seq 0 (Z.to_nat n)).

(** [[p for p in ld.points if canvas.show_layers.get(p.layer, False)]]. *)
Definition visible (c : t) (ld : Les.t) : list Point.t :=
  filter (fun p => shown c p.(Point.layer)) ld.(Les.points).

(** The copies one step adds to [xs] and [ys]. *)
Definition step_points (st : LesStep.t) (vis : list Point.t)
  : list (R * R) :=
  flat_map
    (fun i =>
       flat_map
         (fun p =>
            if (p.(Point.image) =? st.(LesStep.image))%Z then
              let '(x, y, _) := LesStep.apply_transformation st p i in
              [q2 (x, y)]
            else [])
         vis)
    (range st.(LesStep.amount)).

(** The lists [xs] and [ys] of [auto_zoom], as one list of pairs. *)
Definition fit_points (c : t) (ld : Les.t) : list (R * R) :=
  let vis := visible c ld in
  let pts :=
    map (fun p => q2 (p.(Point.x), p.(Point.y))) vis
    ++ (if c.(show_steps)
        then flat_map (fun st => step_points st vis) ld.(Les.steps)
        else []) in
  let outline_wanted :=
    match ld.(Les.outline_points) with
    | [] => false
    | _ :: _ => c.(show_outline)
    end in
  let none := match pts with [] => true | _ :: _ => false end in
  if outline_wanted || none
  then pts ++ map q2 (List.concat ld.(Les.outline_points))
  else pts.

(** [les_drawing.auto_zoom]. *)
Definition auto_zoom (c : t) : t :=
  match c.(les_data) with
  | None => c
  | Some ld =>
      match fit_points c ld with
      | [] => c
      | p :: ps =>
          let min_x := fold_left Rmin (map fst ps) (fst p) in
          let max_x := fold_left Rmax (map fst ps) (fst p) in
          let min_y := fold_left Rmin (map snd ps) (snd p) in
          let max_y := fold_left Rmax (map snd ps) (snd p) in
          let bw := max_x - min_x in
          let bh := max_y - min_y in
          if Req_dec_T bw 0 then c
          else if Req_dec_T bh 0 then c
          else
            let zx := IZR (c.(_w) - 100) / bw in
            let zy :=
              IZR (c.(_h) - 100
                   - (c.(toolbar_height) + c.(xml_toolbar_height))) / bh in
            let zoom := Rmin zx zy * (9 / 10) in
            let cx := (min_x + max_x) / 2 in
            let cy := (min_y + max_y) / 2 in
            let top := top_y c in
            with_xml
              (set_pan (IZR c.(_w) / 2 - cx * zoom,
                        (IZR top + IZR (c.(_h) - top) / 2) - cy * zoom)
                       (set_zoom zoom c.(xml))) c
      end
  end.

(** The LES branch of [ViewerCanvasCore.load_file], on the lines of the
    file: the new canvas and the returned flag.  An exception of the
    parser is caught; the canvas is then as it was. *)
Definition load_file (c : t) (file_lines : list string) : t * bool :=
  match Les.load_file Les.empty file_lines with
  | Raise _ => (c, false)
  | Ok ld =>
      let c := set_les_data (Some ld) c in
      let c := set_show_layers (mark_layers ld.(Les.points) []) c in
      let c := init_layer_visibility c in
      (auto_zoom c, true)
  end.

(** The body of the loop of [les_drawing._apply_ops_to_angle]. *)
Definition angle_op (a : R) (op : ascii) : R :=
  if Ascii.eqb op "D" then fmod360 (a + 90)
  else if Ascii.eqb op "X" then fmod360 (360 - a)
  else if Ascii.eqb op "Y" then fmod360 (180 - a)
  else a.

Fixpoint angle_ops (a : R) (operations : string) : R :=
  match operations with
  | EmptyString => a
  | String op rest => angle_ops (angle_op a op) rest
  end.

(** [les_drawing._apply_ops_to_angle]. *)
Definition _apply_ops_to_angle (angle_cw_deg : R) (operations : string) : R :=
  angle_ops (fmod360 angle_cw_deg) operations.

(** The loop of [draw_stepped_data] over [st.operations] that moves the
    marker [(tx, ty)] of a step instance. *)
Definition marker_op (t : R * R) (op : ascii) : R * R :=
  let '(tx, ty) := t in
  if Ascii.eqb op "D" then (ty, - tx)
  else if Ascii.eqb op "X" then (tx, - ty)
  else if Ascii.eqb op "Y" then (- tx, ty)
  else (tx, ty).

Fixpoint marker_ops (t : R * R) (operations : string) : R * R :=
  match operations with
  | EmptyString => t
  | String op rest => marker_ops (marker_op t op) rest
  end.

(** [math.hypot]. *)
Definition hypot (a b : R) : R := sqrt (a * a + b * b).

(** The loop of the left click over [les_data.points]: [k] is the
    position of the next point, [mind] is [None] while it is
    [float('inf')]. *)
Fixpoint hit_loop (c : t) (wx wy : R) (pts : list Point.t) (k : nat)
    (mind : option R) (hit : option nat) : option nat :=
  match pts with
  | [] => hit
  | p :: rest =>
      if negb (shown c p.(Point.layer)) then
        hit_loop c wx wy rest (S k) mind hit
      else
        let d := hypot (Q2R p.(Point.x) - wx) (Q2R p.(Point.y) - wy) in
        if Rlt_dec d (5 / c.(xml).(zoom_level)) then
          match mind with
          | None => hit_loop c wx wy rest (S k) (Some d) (Some k)
          | Some m =>
              if Rlt_dec d m
              then hit_loop c wx wy rest (S k) (Some d) (Some k)
              else hit_loop c wx wy rest (S k) mind hit
          end
        else hit_loop c wx wy rest (S k) mind hit
  end.

(** The left-button branch of [mousePressEvent] for a click at
    [(mx, my)]. *)
Definition left_click (c : t) (mx my : R) : PyView.result t :=
  match c.(les_data) with
  | None => PyView.Done c
  | Some ld =>
      w <~ screen_to_world c.(xml) mx my ;;
      PyView.Done
        (set_selected_point
           (hit_loop c (fst w) (snd w) ld.(Les.points) 0 None None) c)
  end.

End LesView.

(** Predicates of the view properties. *)
Module ViewProps.

Import Py Xml Geometry XmlDrawing ViewerCanvas.
Local Open Scope R_scope.

(** The selection of the canvas points at a drawing, or there is none
    and the index is [-1]. *)
Definition selection_ok (c : t) : Prop :=
  (c.(xml).(xml_drawings) = []
   /\ c.(xml).(current_xml_drawing_idx) = (-1)%Z
   /\ c.(xml).(current_xml_step) = None)
  \/ (0 <= c.(xml).(current_xml_drawing_idx)
      < Z.of_nat (List.length c.(xml).(xml_drawings)))%Z.

(** A screen position inside the widget area under the toolbars, at
    least [margin] pixels from its border. *)
Definition on_screen (c : t) (margin : Z) (s : R * R) : Prop :=
  IZR margin <= fst s <= IZR (c.(_w) - margin)
  /\ IZR (top_y c + margin) <= snd s <= IZR (c.(_h) - margin).

(** Squared distance of two points. *)
Definition dist2 (p q : R * R) : R :=
  (fst p - fst q) * (fst p - fst q) + (snd p - snd q) * (snd p - snd q).

(** The distance the left click measures from the world point [w] to
    a point of the document. *)
Definition click_dist (w : R * R) (p : Point.t) : R :=
  LesView.hypot (Q2R p.(Point.x) - fst w) (Q2R p.(Point.y) - snd w).

(** [hit] is what a click at the world point [w] may select among
    [pts]: nothing when no shown point is nearer than [5 / zoom_level];
    else the position of a shown point nearer than that, no farther
    than any other shown point and nearer than every shown point
    before it. *)
Definition hit_ok (c : t) (w : R * R) (pts : list Point.t)
    (hit : option nat) : Prop :=
  match hit with
  | None =>
      forall q, In q pts -> LesView.shown c q.(Point.layer) = true ->
                ~ click_dist w q < 5 / c.(xml).(zoom_level)
  | Some k =>
      exists p,
        nth_error pts k = Some p
        /\ LesView.shown c p.(Point.layer) = true
        /\ click_dist w p < 5 / c.(xml).(zoom_level)
        /\ (forall q, In q pts -> LesView.shown c q.(Point.layer) = true ->
                      click_dist w p <= click_dist w q)
        /\ (forall j q, (j < k)%nat -> nth_error pts j = Some q ->
                        LesView.shown c q.(Point.layer) = true ->
                        click_dist w p < click_dist w q)
  end.

End ViewProps.
Module ViewSamples.

Import Py Xml Geometry XmlDrawing ViewerCanvas.
Local Open Scope string_scope.
Local Open Scope list_scope.
Local Open Scope R_scope.

(** A board of 100 by 50 whose only step holds one barcode of 10 by 5
    at the origin. *)
Definition label_barcode : Barcode.t :=
  {| Barcode.num := None; Barcode.layercode := None;
     Barcode.layerface := None; Barcode.content := None;
     Barcode.polarity := None; Barcode.id := None;
     Barcode.x := 0; Barcode.y := 0;
     Barcode.width := 10; Barcode.height := 5 |}.

Definition label_step : Step.t :=
  {| Step.name := Some "A"; Step.type := None;
     Step.x := 0; Step.y := 0; Step.width := 0; Step.height := 0;
     Step.edges := []; Step.repeats := [];
     Step.layers := [{| Layer.name := None;
                        Layer.barcode_list := [label_barcode] |}] |}.

Definition board : Drawing.t :=
  {| Drawing.file_path := "board.xml"; Drawing.job := "board";
     Drawing.width := 100; Drawing.height := 50;
     Drawing.start_step := Some "A";
     Drawing.steps := [(Some "A", label_step)] |}.

(** The canvas of [__init__] with [board] loaded and selected. *)
Definition board_canvas : t :=
  with_xml (set_selection [board] 0 (Some "A") (xml ViewerCanvas.init))
           ViewerCanvas.init.

(** The root element of a file with one empty step [A]. *)
Definition one_step_file : Element :=
  Elem "emap" [("job", "J"); ("width", "100"); ("height", "50")]
       [Elem "step" [("name", "A")] []].

(** A document that is one outline segment from (0, 0) to (10, 5), and
    the canvas of [__init__] holding it. *)
Definition outline_doc : Les.t :=
  Les.set_outline_points Les.empty [[(0%Q, 0%Q); (10%Q, 5%Q)]].

Definition outline_canvas : ViewerCanvas.t :=
  LesView.set_les_data (Some outline_doc) ViewerCanvas.init.

(** A document of one point, at (3, 5) on layer 1 of 2, and the canvas
    of [__init__] holding it with layer 1 shown. *)
Definition point_doc : Les.t :=
  Les.set_points Les.empty [Samples.sample_point 1 2].

Definition point_canvas : ViewerCanvas.t :=
  LesView.set_show_layers [(1%Z, true)]
    (LesView.set_les_data (Some point_doc) ViewerCanvas.init).

End ViewSamples.
(* ------------------------------------------------------------------ *)
(** * les_parser.py: the remaining members and the predicates of the
      document properties *)

(** The two read-only properties of [ViewImage]. *)
Module ViewImageSize.

Import Py.

(** [max(self.max_x - self.min_x, 100)]. *)
Definition width (self : ViewImage.t) : Q :=
  qmax (self.(ViewImage.max_x) - self.(ViewImage.min_x)) 100.

(** [max(self.max_y - self.min_y, 100)]. *)
Definition height (self : ViewImage.t) : Q :=
  qmax (self.(ViewImage.max_y) - self.(ViewImage.min_y)) 100.

(** [set_size] called for the points of a list, in order. *)
Definition set_sizes (points : list Point.t) (self : ViewImage.t)
  : ViewImage.t :=
  fold_left (fun vi p => ViewImage.set_size p vi) points self.

End ViewImageSize.

Module LesDoc.

Import Py.
Local Open Scope string_scope.
Local Open Scope list_scope.

(** A position inside the box of a view image. *)
Definition in_box (vi : ViewImage.t) (x y : Q) : Prop :=
  (vi.(ViewImage.min_x) <= x /\ x <= vi.(ViewImage.max_x))%Q
  /\ (vi.(ViewImage.min_y) <= y /\ y <= vi.(ViewImage.max_y))%Q.

(** Squared distance of two positions. *)
Definition dist2 (p q : Q * Q) : Q :=
  ((fst p - fst q) * (fst p - fst q) + (snd p - snd q) * (snd p - snd q))%Q.

(** The position part of a transformed point. *)
Definition xy (s : Q * Q * Z) : Q * Q := (fst (fst s), snd (fst s)).

(** Among the texts [isdigit()] accepts, those [int()] reads: decimal
    digits only, and no more of them than [int_max_str_digits]. *)
Definition int_reads (s : string) : bool :=
  all_digits s
  && (Z.of_nat (String.length s) <=? int_max_str_digits)%Z.

(** [parts] of [Net.__init__]. *)
Definition net_parts (content : string) : list string :=
  split "C" (if has_char "P" content then remove_char "P" content
             else content).

(** The two texts [Net.__init__] hands to [int()]: [digits], and
    [parts[1]] when there is one and [isdigit()] accepts it. *)
Definition net_index_text (content : string) : string :=
  match net_parts content with
  | p0 :: _ => Net.leading_digits (strip (remove_char "@" p0))
  | [] => ""
  end.

Definition net_image_text (content : string) : option string :=
  match net_parts content with
  | _ :: p1 :: _ => if isdigit p1 then Some p1 else None
  | _ => None
  end.

(** [int()] reads both of them. *)
Definition net_reads (content : string) : bool :=
  match net_index_text content with
  | EmptyString => true
  | s => int_reads s
  end
  && match net_image_text content with
     | Some s => int_reads s
     | None => true
     end.

(** The text a tooling hole hands to [int()] for its image: [i_parts[1]]
    of the cleaned text, when there is one and [isdigit()] accepts it. *)
Definition tooling_image_text (content : string) : option string :=
  match split "I" (Point.clean content) with
  | _ :: p1 :: _ => if isdigit p1 then Some p1 else None
  | _ => None
  end.

(** The characters both construction paths of a point delete one by
    one. *)
Definition deleted_chars : string := "[]*/~ ,".

End LesDoc.

(** What the patterns of the document parser accept, as a relation. *)
Module RegexSem.

Import Py.
Local Open Scope string_scope.

Inductive matches : regex -> string -> Prop :=
| m_eps : matches Eps ""
| m_chr (p : ascii -> bool) (c : ascii) :
    p c = true -> matches (Chr p) (String c "")
| m_cat (r1 r2 : regex) (s1 s2 : string) :
    matches r1 s1 -> matches r2 s2 -> matches (Cat r1 r2) (s1 ++ s2)
| m_alt_l (r1 r2 : regex) (s : string) :
    matches r1 s -> matches (Alt r1 r2) s
| m_alt_r (r1 r2 : regex) (s : string) :
    matches r2 s -> matches (Alt r1 r2) s
| m_star_nil (r : regex) : matches (Star r) ""
| m_star_cons (r : regex) (s1 s2 : string) :
    matches r s1 -> matches (Star r) s2 -> matches (Star r) (s1 ++ s2).

End RegexSem.

(** The loop of [Les.load_file], line by line. *)
Module LesLoop.

Import Py.
Local Open Scope string_scope.
Local Open Scope list_scope.

Definition kind_eqb (a b : Les.line_kind) : bool :=
  match a, b with
  | Les.Blank, Les.Blank | Les.TestName, Les.TestName
  | Les.LayerCount, Les.LayerCount | Les.Unit, Les.Unit
  | Les.Outline, Les.Outline | Les.Tooling, Les.Tooling
  | Les.ApertureDef, Les.ApertureDef | Les.StepDef, Les.StepDef
  | Les.NetHeader, Les.NetHeader | Les.RegularPoint, Les.RegularPoint
  | Les.Ignored, Les.Ignored => true
  | _, _ => false
  end.

(** The kind of a raw line: the loop strips it first. *)
Definition kind_of (raw : string) : Les.line_kind :=
  Les.classify (strip raw).

(** How many lines of a kind a file has. *)
Definition count_kind (k : Les.line_kind) (lines : list string) : nat :=
  List.length (filter (fun raw => kind_eqb (kind_of raw) k) lines).

(** Whether a STEP line is among the lines. *)
Definition has_step (lines : list string) : bool :=
  existsb (fun raw => kind_eqb (kind_of raw) Les.StepDef) lines.

(** The state the loop starts from, on a fresh document. *)
Definition start (content : list string) : Les.state :=
  Les.mk_state (Les.set_content Les.empty content) None [].

(** The style a tooling line gets at line [i]. *)
Definition style_at (st : Les.state) (i : nat) : PointStyle.t :=
  match st.(Les.index_of_step) with
  | None => PointStyle.GLOBAL
  | Some k => if (i <? k)%nat then PointStyle.GLOBAL else PointStyle.LOCAL
  end.

(** The regular point a line is decoded to, scaled. *)
Definition point_of (st : Les.state) (line : string) : Point.t :=
  let stripped := strip (strip_chars "[]" line) in
  let l := st.(Les.self) in
  let net := last_indexed l.(Les.nets) in
  Les.scale_point l.(Les.scale)
    (Point._init_regular_point
       (Point.fresh (Some stripped) l.(Les.count_of_layer) net None)
       stripped l.(Les.count_of_layer) l.(Les.apertures) net).

(** The images after a regular point: grown to hold its image, the box
    of that image extended by the point. *)
Definition images_after (imgs : list (option ViewImage.t)) (pt : Point.t)
  : list (option ViewImage.t) :=
  let imgs := Les.grow_images imgs pt.(Point.image) in
  match Les.position imgs pt.(Point.image) with
  | Some k =>
      match nth_error imgs k with
      | Some (Some vi) =>
          Les.update imgs k (Some (ViewImage.set_size pt vi))
      | _ => imgs
      end
  | None => imgs
  end.

(** The nets after a regular point: the last net, when there is one,
    takes a reference to it. *)
Definition nets_after (nets : list Net.t) (ref : nat) : list Net.t :=
  match last_indexed nets with
  | Some (pos, n) => Les.update nets pos (Net.add_point ref n)
  | None => nets
  end.

(** What a line that is processed without an exception does to the
    state of the loop. *)
Inductive effect (st : Les.state) (i : nat) (line : string)
  : Les.state -> Prop :=
| eff_none :
    In (Les.classify line) [Les.Blank; Les.TestName; Les.Unit; Les.Ignored] ->
    effect st i line st
| eff_test (v : string) :
    Les.classify line = Les.TestName ->
    effect st i line (Les.with_self st (Les.set_test st.(Les.self) v))
| eff_layers (n : Z) :
    Les.classify line = Les.LayerCount ->
    int_of_string (Les.layer_group1 line) = Ok n ->
    effect st i line
      (Les.with_self st
         (if (List.length st.(Les.self).(Les.images) <? 2)%nat
          then Les.set_images (Les.set_count_of_layer st.(Les.self) n)
                              [None; Some ViewImage.default]
          else Les.set_count_of_layer st.(Les.self) n))
| eff_unit (u : string) (sc : Q) :
    Les.classify line = Les.Unit ->
    effect st i line (Les.with_self st (Les.set_unit_scale st.(Les.self) u sc))
| eff_outline_open (xy : Q * Q) :
    Les.classify line = Les.Outline ->
    endswith_char "," line = true ->
    effect st i line
      (Les.mk_state st.(Les.self) st.(Les.index_of_step)
                    (st.(Les.current_outline_segment) ++ [xy]))
| eff_outline_close (xy : Q * Q) :
    Les.classify line = Les.Outline ->
    endswith_char "," line = false ->
    effect st i line
      (Les.mk_state
         (Les.set_outline_points st.(Les.self)
            (st.(Les.self).(Les.outline_points)
             ++ [st.(Les.current_outline_segment) ++ [xy]]))
         st.(Les.index_of_step) [])
| eff_tooling (p : Point.t) :
    Les.classify line = Les.Tooling ->
    Point.init (Some line) 1 st.(Les.self).(Les.apertures) None
               (Some (style_at st i)) = Ok p ->
    effect st i line
      (Les.with_self st
         (Les.set_points st.(Les.self)
            (st.(Les.self).(Les.points)
             ++ [Les.scale_point st.(Les.self).(Les.scale) p])))
| eff_aperture (ap : Aperture.t) :
    Les.classify line = Les.ApertureDef ->
    Aperture.init (Some line) = Ok ap ->
    effect st i line
      (Les.with_self st
         (Les.set_apertures st.(Les.self)
            (st.(Les.self).(Les.apertures)
             ++ [Les._apply_scale_to_aperture st.(Les.self) ap])))
| eff_step (s : LesStep.t) :
    Les.classify line = Les.StepDef ->
    LesStep.init line = Ok s ->
    effect st i line
      (Les.mk_state
         (Les.set_steps st.(Les.self)
            (st.(Les.self).(Les.steps)
             ++ [LesStep.scale_values st.(Les.self).(Les.scale) s]))
         (Some i) st.(Les.current_outline_segment))
| eff_net (net : Net.t) :
    Les.classify line = Les.NetHeader ->
    Net.init (Some line) = Ok net ->
    effect st i line
      (Les.with_self st
         (Les.set_images
            (Les.set_nets st.(Les.self) (st.(Les.self).(Les.nets) ++ [net]))
            (Les.grow_images st.(Les.self).(Les.images) net.(Net.image))))
| eff_point :
    Les.classify line = Les.RegularPoint ->
    effect st i line
      (Les.with_self st
         (Les.set_images
            (Les.set_nets
               (Les.set_points st.(Les.self)
                  (st.(Les.self).(Les.points) ++ [point_of st line]))
               (nets_after st.(Les.self).(Les.nets)
                           (List.length st.(Les.self).(Les.points))))
            (images_after st.(Les.self).(Les.images) (point_of st line)))).

(** The images list is sound: entry 0 is [None], every other entry is
    a view image. *)
Definition images_ok (imgs : list (option ViewImage.t)) : Prop :=
  (2 <= List.length imgs)%nat
  /\ nth_error imgs 0 = Some None
  /\ forall k, (1 <= k < List.length imgs)%nat ->
       exists vi, nth_error imgs k = Some (Some vi).

(** A regular point has its image among the images, and lies in the
    box of that image when the image is not 0. *)
Definition boxed (imgs : list (option ViewImage.t)) (p : Point.t) : Prop :=
  p.(Point.style) = PointStyle.NORMAL ->
  (0 <= p.(Point.image) < Z.of_nat (List.length imgs))%Z
  /\ ((1 <= p.(Point.image))%Z ->
      exists vi,
        nth_error imgs (Z.to_nat p.(Point.image)) = Some (Some vi)
        /\ vi.(ViewImage.initial) = false
        /\ LesDoc.in_box vi p.(Point.x) p.(Point.y)).

(** A raw line on which the loop raises [ValueError]: a layer line
    with more digits than [int()] reads, an aperture line whose
    [Aperture] raises it, a STEP line whose [LesStep] does, a net
    header one of whose two numbers [int()] refuses, or, once a STEP
    line has come ([after_step]), a tooling line whose image text
    [int()] refuses. *)
Definition bad_line (after_step : bool) (raw : string) : Prop :=
  (kind_of raw = Les.LayerCount
   /\ (int_max_str_digits
       < Z.of_nat (String.length (Les.layer_group1 (strip raw))))%Z)
  \/ (kind_of raw = Les.ApertureDef
      /\ Aperture.init (Some (strip raw)) = Raise ValueError)
  \/ (kind_of raw = Les.StepDef
      /\ LesStep.init (strip raw) = Raise ValueError)
  \/ (kind_of raw = Les.NetHeader
      /\ LesDoc.net_reads (strip raw) = false)
  \/ (kind_of raw = Les.Tooling
      /\ after_step = true
      /\ exists s, LesDoc.tooling_image_text (strip raw) = Some s
                   /\ LesDoc.int_reads s = false).

(** A run of decimal digits that is not empty: [\d+]. *)
Definition decimal (s : string) : bool :=
  match s with
  | EmptyString => false
  | _ => all_digits s
  end.

(** A numeral of the outline pattern: [-?\d+]. *)
Definition signed_numeral (s : string) : bool :=
  match s with
  | String "-" r => decimal r
  | _ => decimal s
  end.

(** The lines of the outline pattern
    [^K,X-?\d+Y-?\d+(?:,)?(?:T\d+)?(?:,)?$]: the two numerals, whether
    a comma follows them, the digits after [T] if there is a [T], and
    whether a comma ends the line. *)
Definition outline_line (sx sy : string) (comma1 : bool)
    (t : option string) (comma2 : bool) : string :=
  "K,X" ++ sx ++ "Y" ++ sy
  ++ (if comma1 then "," else "")
  ++ match t with Some ds => "T" ++ ds | None => "" end
  ++ (if comma2 then "," else "").

Definition is_some {A : Type} (o : option A) : bool :=
  match o with Some _ => true | None => false end.

End LesLoop.
(* ================================================================== *)
(** * Properties *)

Unset Implicit Arguments.

Section Monad.
Import Py.

Lemma bind_ok {A B : Type} (m : result A) (k : A -> result B) (b : B) :
  Py.bind m k = Ok b -> exists a, m = Ok a /\ k a = Ok b.
Proof.
  destruct m as [a | e]; simpl; intros H.
  - exists a. split; [reflexivity | exact H].
  - discriminate H.
Qed.

End Monad.

(** ** Geometry kernel *)

Section GeometryFacts.

Import Geometry.
Local Open Scope R_scope.

(** C8. [rotate_translate x y a ox oy] is exactly
    [(x cos a - y sin a + ox, y cos a + x sin a + oy)], the left-handed
    screen-frame convention, and with angle 0 and offset (0,0) it returns
    the input point unchanged. *)
Theorem rotate_translate_convention :
  (forall x y a ox oy,
      rotate_translate x y a ox oy
      = (x * cos a - y * sin a + ox, y * cos a + x * sin a + oy))
  /\ (forall x y, rotate_translate x y 0 0 0 = (x, y)).
Proof.
  split.
  - intros; reflexivity.
  - intros x y. unfold rotate_translate.
    rewrite cos_0, sin_0. f_equal; ring.
Qed.

End GeometryFacts.

(** ** LES step transform *)

Section StepTransformFacts.

Import Py.
Local Open Scope string_scope.

Lemma apply_ops_fold (point : Point.t) (ops : string) (s : Q * Q * Z) :
  LesStep.apply_ops point ops s
  = fold_left (StepTransformSpec.step_from_point point)
              (list_ascii_of_string ops) s.
Proof.
  revert s. induction ops as [| op rest IH]; intros s; simpl.
  - reflexivity.
  - rewrite IH. f_equal.
Qed.

(** The chain [XX] on a point of layer 1 in a stack of 2: the code
    answers layer 2; updating the running layer twice gives layer 1. *)
Lemma double_mirror_keeps_flipped_layer :
  LesStep.apply_transformation (Samples.sample_step "XX") (Samples.sample_point 1 2) 0
  <> StepTransformSpec.apply_transformation
       (Samples.sample_step "XX") (Samples.sample_point 1 2) 0.
Proof.
  vm_compute. intro H. discriminate H.
Qed.

Lemma running_fold_xy (point : Point.t) (ops : list ascii) :
  forall x y l l',
    fst (fold_left (StepTransformSpec.step_from_point point) ops (x, y, l))
    = fst (fold_left (StepTransformSpec.step (Point.count_of_layer point))
                     ops (x, y, l')).
Proof.
  induction ops as [| op rest IH]; intros x y l l'.
  - reflexivity.
  - cbn [fold_left].
    unfold StepTransformSpec.step_from_point at 2.
    unfold StepTransformSpec.step at 2.
    destruct (Ascii.eqb op "D"); [apply IH |].
    destruct (Ascii.eqb op "X"); [apply IH |].
    destruct (Ascii.eqb op "Y"); apply IH.
Qed.

Lemma running_fold_layer (c : Z) (ops : string) :
  forall x y l,
    snd (fold_left (StepTransformSpec.step c) (list_ascii_of_string ops)
                   (x, y, l))
    = if Nat.even (StepTransformSpec.mirrors ops) then l
      else ((1 - l) + c)%Z.
Proof.
  induction ops as [| op rest IH]; intros x y l.
  - reflexivity.
  - cbn [list_ascii_of_string fold_left StepTransformSpec.mirrors].
    unfold StepTransformSpec.step at 2.
    destruct (Ascii.eqb op "D") eqn:ED.
    + apply Ascii.eqb_eq in ED. subst op. rewrite IH. reflexivity.
    + assert (Hm : forall x' y',
                 snd (fold_left (StepTransformSpec.step c)
                        (list_ascii_of_string rest)
                        (x', y', ((1 - l) + c)%Z))
                 = if Nat.even (1 + StepTransformSpec.mirrors rest) then l
                   else ((1 - l) + c)%Z).
      { intros x' y'. rewrite IH.
        change (1 + StepTransformSpec.mirrors rest)%nat
          with (S (StepTransformSpec.mirrors rest)).
        rewrite Nat.even_succ, <- Nat.negb_even.
        destruct (Nat.even (StepTransformSpec.mirrors rest)); cbn [negb];
          [reflexivity | lia]. }
      destruct (Ascii.eqb op "X"); [apply Hm |].
      destruct (Ascii.eqb op "Y"); [apply Hm |].
      rewrite IH. reflexivity.
Qed.

Lemma apply_ops_layer (point : Point.t) (ops : string) :
  forall x y layer,
    snd (LesStep.apply_ops point ops (x, y, layer))
    = if StepTransformSpec.has_mirror ops
      then ((1 - point.(Point.layer)) + point.(Point.count_of_layer))%Z
      else layer.
Proof.
  induction ops as [| op rest IH]; intros x y layer.
  - reflexivity.
  - cbn [LesStep.apply_ops StepTransformSpec.has_mirror LesStep.apply_op].
    destruct (Ascii.eqb op "D") eqn:ED.
    + apply Ascii.eqb_eq in ED. subst op. rewrite IH. reflexivity.
    + destruct (Ascii.eqb op "X").
      * rewrite IH. simpl. destruct (StepTransformSpec.has_mirror rest);
          reflexivity.
      * destruct (Ascii.eqb op "Y"); rewrite IH; simpl;
          destruct (StepTransformSpec.has_mirror rest); reflexivity.
Qed.

(** X27.  What [LesStep.apply_transformation] computes.
    [apply_transformation point i] starts from the point's
    [(x, y)] and layer and applies the characters of [operations] left to
    right: [D] maps [(x, y)] to [(y, -x)]; [X] negates [y], [Y] negates
    [x], and both set the layer to [(1 - point.layer) +
    point.count_of_layer], computed from the layer the point came with;
    any other character changes nothing.  Then [offset + i * distance] is
    added to [(x, y)].  So the layer returned is the point's when the
    chain has no mirror and [(1 - point.layer) + point.count_of_layer]
    when it has one or more; and with an empty chain only the additive
    term is applied. *)
Theorem apply_transformation_chain :
  (forall (st : LesStep.t) (point : Point.t) (i : Z),
      LesStep.apply_transformation st point i
      = let '(x, y, layer) :=
          fold_left (StepTransformSpec.step_from_point point)
                    (list_ascii_of_string st.(LesStep.operations))
                    (point.(Point.x), point.(Point.y), point.(Point.layer)) in
        (x + (st.(LesStep.offset_x) + inject_Z i * st.(LesStep.distance_x)),
         y + (st.(LesStep.offset_y) + inject_Z i * st.(LesStep.distance_y)),
         layer)%Q)
  /\ (forall (st : LesStep.t) (point : Point.t) (i : Z),
         snd (LesStep.apply_transformation st point i)
         = if StepTransformSpec.has_mirror st.(LesStep.operations)
           then ((1 - point.(Point.layer)) + point.(Point.count_of_layer))%Z
           else point.(Point.layer))
  /\ (forall (st : LesStep.t) (point : Point.t) (i : Z),
         st.(LesStep.operations) = "" ->
         LesStep.apply_transformation st point i
         = (point.(Point.x)
            + (st.(LesStep.offset_x) + inject_Z i * st.(LesStep.distance_x)),
            point.(Point.y)
            + (st.(LesStep.offset_y) + inject_Z i * st.(LesStep.distance_y)),
            point.(Point.layer))%Q).
Proof.
  split; [| split].
  - intros st point i. unfold LesStep.apply_transformation.
    rewrite apply_ops_fold. reflexivity.
  - intros st point i. unfold LesStep.apply_transformation.
    pose proof (apply_ops_layer point (LesStep.operations st)
                  (Point.x point) (Point.y point) (Point.layer point)) as H.
    destruct (LesStep.apply_ops _ _ _) as [[x y] layer]. exact H.
  - intros st point i Hops. unfold LesStep.apply_transformation.
    rewrite Hops. reflexivity.
Qed.

Lemma apply_transformation_chain_witness :
  LesStep.apply_transformation (Samples.sample_step "") (Samples.sample_point 1 2) 4
  = (3 + (0 + inject_Z 4 * 0), 5 + (0 + inject_Z 4 * 0), 1%Z)%Q.
Proof.
  exact (proj2 (proj2 apply_transformation_chain)
               (Samples.sample_step "") (Samples.sample_point 1 2) 4%Z eq_refl).
Defined.

(** C6.  [apply_transformation] against the rule as it is worded,
    [layer := (1 - layer) + count_of_layer] at every [X] and [Y].  The
    two agree on [(x, y)] for every step, point and index.  They part on
    the layer: the code writes [(1 - point.layer) + point.count_of_layer]
    at every mirror, so it returns the flipped layer as soon as the chain
    holds a mirror; the rule on the running layer flips back at every
    second mirror and returns the flipped layer only for an odd number
    of mirrors.  On the chain [XX] and a point of layer 1 in a stack of
    2 the code returns layer 2, the rule layer 1. *)
Theorem mirror_reads_point_layer :
  (forall (st : LesStep.t) (point : Point.t) (i : Z),
      fst (LesStep.apply_transformation st point i)
      = fst (StepTransformSpec.apply_transformation st point i)
      /\ snd (LesStep.apply_transformation st point i)
         = (if StepTransformSpec.has_mirror st.(LesStep.operations)
            then ((1 - point.(Point.layer)) + point.(Point.count_of_layer))%Z
            else point.(Point.layer))
      /\ snd (StepTransformSpec.apply_transformation st point i)
         = (if Nat.even (StepTransformSpec.mirrors st.(LesStep.operations))
            then point.(Point.layer)
            else ((1 - point.(Point.layer))
                  + point.(Point.count_of_layer))%Z))
  /\ snd (LesStep.apply_transformation
            (Samples.sample_step "XX") (Samples.sample_point 1 2) 0) = 2%Z
  /\ snd (StepTransformSpec.apply_transformation
            (Samples.sample_step "XX") (Samples.sample_point 1 2) 0) = 1%Z.
Proof.
  split; [| split; reflexivity].
  intros st point i. split; [| split].
  - unfold LesStep.apply_transformation,
      StepTransformSpec.apply_transformation.
    rewrite apply_ops_fold.
    pose proof (running_fold_xy point
                  (list_ascii_of_string (LesStep.operations st))
                  (Point.x point) (Point.y point)
                  (Point.layer point) (Point.layer point)) as H.
    destruct (fold_left (StepTransformSpec.step_from_point point) _ _)
      as [[x y] l].
    destruct (fold_left (StepTransformSpec.step _) _ _) as [[x' y'] l'].
    simpl in H. inversion H; subst. reflexivity.
  - unfold LesStep.apply_transformation.
    pose proof (apply_ops_layer point (LesStep.operations st)
                  (Point.x point) (Point.y point) (Point.layer point)) as H.
    destruct (LesStep.apply_ops _ _ _) as [[x y] layer]. exact H.
  - unfold StepTransformSpec.apply_transformation.
    pose proof (running_fold_layer (Point.count_of_layer point)
                  (LesStep.operations st)
                  (Point.x point) (Point.y point) (Point.layer point)) as H.
    destruct (fold_left _ _ _) as [[x y] layer]. exact H.
Qed.

End StepTransformFacts.
Section LesFailures.
Import Py.
Local Open Scope string_scope.

(** C3.  The line [O5:abc:2.0] is an aperture definition for the
    classifier, and decoding it raises: the width conversion
    [float("abc")] is not guarded, so [Aperture.__init__] ends in
    [ValueError] and so does [Les.load_file] on a file that holds the
    line.  The same happens to the diameter of a round aperture.  Only
    the angle, the fourth field, is recovered to 0.0. *)
Theorem aperture_bad_width_raises :
  Les.aperture_pattern "O5:abc:2.0" = true
  /\ Aperture.init (Some "O5:abc:2.0") = Raise ValueError
  /\ Les.load_file Les.empty ["O5:abc:2.0"] = Raise ValueError
  /\ Les.load_file Les.empty ["T3:abc"] = Raise ValueError
  /\ (exists ap, Aperture.init (Some "O5:1.5:2.0:abc") = Ok ap
                 /\ ap.(Aperture.angle) = 0%Q).
Proof.
  split; [vm_compute; reflexivity |].
  split; [vm_compute; reflexivity |].
  split; [vm_compute; reflexivity |].
  split; [vm_compute; reflexivity |].
  eexists. split; [vm_compute; reflexivity | reflexivity].
Qed.

(** The call of the naming pass sits inside the [if] that flushes a
    pending outline segment.  On the one-line file [F,X1Y1] the document
    comes back with its point still on image 0 and without a
    [panel_image_name]: the pass has not run.  With an unterminated
    outline segment after it, [K,X0Y0,], the pass runs and the point
    gets image 1 and the label [Panel 1 Image 1]. *)
Lemma naming_pass_skipped :
  (exists l p,
      Les.load_file Les.empty ["F,X1Y1"] = Ok l
      /\ l.(Les.points) = [p]
      /\ p.(Point.image) = 0%Z
      /\ p.(Point.panel_image_name) = None)
  /\ (exists l p,
         Les.load_file Les.empty ["F,X1Y1"; "K,X0Y0,"] = Ok l
         /\ l.(Les.points) = [p]
         /\ p.(Point.image) = 1%Z
         /\ p.(Point.panel_image_name) = Some "Panel 1 Image 1").
Proof.
  split; do 2 eexists;
    (split; [vm_compute; reflexivity |]);
    (split; [reflexivity |]);
    (split; reflexivity).
Qed.
End LesFailures.
Section LesInvariants.
Import Py LesProps.
Local Open Scope string_scope.
Local Open Scope list_scope.

Lemma classify_nonempty (line : string) :
  Les.classify line <> Les.Blank -> line <> "".
Proof.
  intros H E. subst line. apply H. reflexivity.
Qed.

Lemma point_pattern_nonempty (s : string) :
  Les.point_pattern s = true -> s <> "".
Proof.
  intros H E. subst s. vm_compute in H. discriminate H.
Qed.

Lemma classify_regular (line : string) :
  Les.classify line = Les.RegularPoint ->
  Les.point_pattern (strip (strip_chars "[]" line)) = true.
Proof.
  unfold Les.classify. destruct line as [| c r]; [discriminate |].
  repeat match goal with
         | |- context [if ?b then _ else _] =>
             destruct b eqn:?; try discriminate
         end.
  intros _. reflexivity.
Qed.

Lemma load_line_points (st st' : Les.state) (i : nat) (raw : string) :
  Les.load_line st i raw = Ok st' ->
  st'.(Les.self).(Les.points) = st.(Les.self).(Les.points)
  \/ exists p, appended st i (strip raw) p
               /\ st'.(Les.self).(Les.points)
                  = st.(Les.self).(Les.points) ++ [p].
Proof.
  unfold Les.load_line.
  destruct (Les.classify (strip raw)) eqn:Hk; intros H.
  - inversion H; subst. left; reflexivity.
  - unfold Les.on_test_name in H.
    destruct (split ":" (strip raw)) as [| ? [| ? ?]];
      inversion H; subst; left; reflexivity.
  - unfold Les.on_layer_count in H.
    apply bind_ok in H. destruct H as (n & _ & H).
    inversion H; subst. left.
    destruct (_ <? _)%nat; reflexivity.
  - unfold Les.on_unit in H.
    destruct (split ":" (strip raw)) as [| ? [| ? [| ? ?]]];
      inversion H; subst; left; reflexivity.
  - unfold Les.on_outline in H.
    destruct (split1 "Y" _) as [| ? [| ? [| ? ?]]]; try discriminate H.
    destruct (endswith_char "," (strip raw));
      destruct (Les.current_outline_segment st ++ _);
      inversion H; subst; left; reflexivity.
  - right. unfold Les.on_tooling in H.
    apply bind_ok in H. destruct H as (p & Hp & H).
    inversion H; subst; clear H. simpl.
    exists (Les.scale_point (Les.scale (Les.self st)) p). split; [| reflexivity].
    assert (Hne : strip raw <> "").
    { apply classify_nonempty. rewrite Hk. discriminate. }
    unfold Point.init in Hp.
    destruct (strip raw) as [| c r] eqn:Hline; [contradiction Hne; reflexivity |].
    rewrite <- Hline in *.
    destruct (Les.index_of_step st) as [k |]; [destruct (i <? k)%nat |].
    + apply from_tooling with (style := PointStyle.GLOBAL);
        [exact Hk | discriminate | exact Hp].
    + apply from_tooling with (style := PointStyle.LOCAL);
        [exact Hk | discriminate | exact Hp].
    + apply from_tooling with (style := PointStyle.GLOBAL);
        [exact Hk | discriminate | exact Hp].
  - unfold Les.on_aperture in H.
    apply bind_ok in H. destruct H as (ap & _ & H).
    inversion H; subst. left; reflexivity.
  - unfold Les.on_step in H.
    apply bind_ok in H. destruct H as (s & _ & H).
    inversion H; subst. left; reflexivity.
  - unfold Les.on_net in H.
    apply bind_ok in H. destruct H as (n & _ & H).
    inversion H; subst. left; reflexivity.
  - right. unfold Les.on_point in H.
    apply bind_ok in H. destruct H as (pt & Hpt & H).
    apply bind_ok in H. destruct H as (l & Hl & H).
    inversion H; subst; clear H. simpl.
    exists (Les.scale_point (Les.scale (Les.self st)) pt). split.
    + pose proof (point_pattern_nonempty _ (classify_regular _ Hk)) as Hne.
      unfold Point.init in Hpt.
      destruct (strip (strip_chars "[]" (strip raw))) as [| c r] eqn:Hs;
        [contradiction Hne; reflexivity |].
      inversion Hpt; subst. apply from_regular. exact Hk.
    + destruct (Point.image _ <? _)%Z.
      * destruct (Les.position _ _); [| discriminate Hl].
        destruct (nth_error _ _) as [[vi |] |];
          inversion Hl; subst; simpl;
          destruct (last_indexed _) as [[? ?] |]; reflexivity.
      * inversion Hl; subst; simpl.
        destruct (last_indexed _) as [[? ?] |]; reflexivity.
  - inversion H; subst. left; reflexivity.
Qed.

End LesInvariants.
Section Numerals.
Import Py LesDoc.
Local Open Scope string_scope.
Local Open Scope list_scope.

Lemma rev_string_involutive (s : string) : rev_string (rev_string s) = s.
Proof.
  unfold rev_string.
  rewrite list_ascii_of_string_of_list_ascii, rev_involutive.
  apply string_of_list_ascii_of_string.
Qed.

Lemma all_digits_list (s : string) :
  all_digits s = true <->
  Forall (fun c => is_digit c = true) (list_ascii_of_string s).
Proof.
  induction s as [| c r IH]; simpl.
  - split; intros; [constructor | reflexivity].
  - rewrite andb_true_iff, IH. split.
    + intros [Hc Hr]. constructor; assumption.
    + intros H. inversion H; subst. split; assumption.
Qed.

Lemma all_digits_rev (s : string) :
  all_digits s = true -> all_digits (rev_string s) = true.
Proof.
  rewrite !all_digits_list. unfold rev_string.
  rewrite list_ascii_of_string_of_list_ascii.
  intros H. apply Forall_rev. exact H.
Qed.

Lemma digit_not_space (c : ascii) :
  is_digit c = true -> is_num_space c = false.
Proof.
  intros H.
  destruct c as [[] [] [] [] [] [] [] []]; try reflexivity;
    vm_compute in H; discriminate H.
Qed.

Lemma lstrip_digits (s : string) :
  all_digits s = true -> lstrip_by is_num_space s = s.
Proof.
  destruct s as [| c r]; simpl; [reflexivity |].
  intros H. apply andb_true_iff in H. destruct H as [Hc _].
  rewrite (digit_not_space c Hc). reflexivity.
Qed.

Lemma strip_digits (s : string) :
  all_digits s = true -> strip_by is_num_space s = s.
Proof.
  intros H. unfold strip_by, rstrip_by.
  rewrite (lstrip_digits s H).
  rewrite (lstrip_digits _ (all_digits_rev s H)).
  apply rev_string_involutive.
Qed.

(** A run of decimal digits is read whole: the count is its length. *)
Lemma digits_acc_count (s : string) :
  all_digits s = true ->
  forall acc n,
    exists v,
      digits_acc s acc n true = Some (v, (n + String.length s)%nat)
      /\ ((0 <= acc)%Z -> (0 <= v)%Z).
Proof.
  induction s as [| c r IH]; cbn [all_digits digits_acc String.length];
    intros H acc n.
  - exists acc. rewrite Nat.add_0_r. split; [reflexivity | auto].
  - apply andb_true_iff in H. destruct H as [Hc Hr].
    rewrite Hc.
    destruct (IH Hr (10 * acc + digit_val c)%Z (S n)) as (v & Hv & Hv0).
    exists v. split.
    + rewrite Hv. f_equal. f_equal. lia.
    + intros Ha. apply Hv0. unfold digit_val. lia.
Qed.

Lemma digits_acc_total (s : string) :
  all_digits s = true ->
  forall acc n, exists v k, digits_acc s acc n true = Some (v, k).
Proof.
  intros H acc n. destruct (digits_acc_count s H acc n) as (v & Hv & _).
  eauto.
Qed.

Lemma digit_run_count (s : string) :
  all_digits s = true -> s <> "" ->
  exists v, digit_run s = Some (v, String.length s) /\ (0 <= v)%Z.
Proof.
  destruct s as [| c r]; [intros _ H; contradiction H; reflexivity |].
  cbn [all_digits]. intros H _.
  apply andb_true_iff in H. destruct H as [Hc Hr].
  unfold digit_run. cbn [digits_acc String.length]. rewrite Hc.
  destruct (digits_acc_count r Hr (10 * 0 + digit_val c)%Z 1%nat)
    as (v & Hv & Hv0).
  exists v. split; [exact Hv |]. apply Hv0. unfold digit_val. lia.
Qed.

Lemma digit_not_sign (c : ascii) (r : string) :
  is_digit c = true -> split_sign (String c r) = (false, String c r).
Proof.
  intros H. unfold split_sign.
  destruct c as [[] [] [] [] [] [] [] []]; try reflexivity;
    vm_compute in H; discriminate H.
Qed.

Lemma digits_not_sign (s : string) :
  all_digits s = true -> split_sign s = (false, s).
Proof.
  destruct s as [| c r]; [reflexivity |].
  cbn [all_digits]. intros H. apply andb_true_iff in H.
  apply digit_not_sign. tauto.
Qed.

(** [int] raises nothing but [ValueError]. *)
Lemma int_raises_value_error (s : string) (e : exn) :
  int_of_string s = Raise e -> e = ValueError.
Proof.
  unfold int_of_string.
  destruct (split_sign _) as [neg body].
  destruct (digit_run body) as [[v k] |]; [| intros H; inversion H; reflexivity].
  destruct (int_max_str_digits <? Z.of_nat k)%Z; intros H; inversion H.
  reflexivity.
Qed.

(** [int] reads a run of 1 to 4300 decimal digits, as a natural
    number ... *)
Lemma int_of_decimal (s : string) :
  all_digits s = true -> s <> "" ->
  (Z.of_nat (String.length s) <= int_max_str_digits)%Z ->
  exists v, int_of_string s = Ok v /\ (0 <= v)%Z.
Proof.
  intros H Hne Hlen. unfold int_of_string.
  rewrite (strip_digits _ H), (digits_not_sign _ H).
  destruct (digit_run_count s H Hne) as (v & Hv & Hv0). rewrite Hv.
  destruct (Z.ltb_spec int_max_str_digits (Z.of_nat (String.length s)));
    [lia |].
  exists v. split; [reflexivity | exact Hv0].
Qed.

(** ... and refuses a longer one. *)
Lemma int_of_long (s : string) :
  all_digits s = true ->
  (int_max_str_digits < Z.of_nat (String.length s))%Z ->
  int_of_string s = Raise ValueError.
Proof.
  intros H Hlen. unfold int_of_string.
  rewrite (strip_digits _ H), (digits_not_sign _ H).
  assert (Hne : s <> "").
  { intros E. subst s. cbn in Hlen. unfold int_max_str_digits in Hlen. lia. }
  destruct (digit_run_count s H Hne) as (v & Hv & _). rewrite Hv.
  destruct (Z.ltb_spec int_max_str_digits (Z.of_nat (String.length s)));
    [reflexivity | lia].
Qed.

(** The characters [isdigit] accepts. *)
Lemma py_digit_facts (c : ascii) :
  is_py_digit c = true ->
  is_num_space c = false /\ is_space c = false
  /\ Ascii.eqb c "_" = false
  /\ c <> "+"%char /\ c <> "-"%char.
Proof.
  intros H.
  destruct c as [[] [] [] [] [] [] [] []]; vm_compute in H;
    try discriminate H; repeat split; discriminate.
Qed.

Lemma digit_is_py_digit (c : ascii) : is_digit c = true -> is_py_digit c = true.
Proof. unfold is_py_digit. intros ->. reflexivity. Qed.

Lemma all_digits_py (s : string) :
  all_digits s = true -> all_py_digits s = true.
Proof.
  induction s as [| c r IH]; cbn [all_digits all_py_digits];
    [reflexivity |].
  intros H. apply andb_true_iff in H. destruct H as [Hc Hr].
  rewrite (digit_is_py_digit c Hc), (IH Hr). reflexivity.
Qed.

Lemma all_py_digits_list (s : string) :
  all_py_digits s = true <->
  Forall (fun c => is_py_digit c = true) (list_ascii_of_string s).
Proof.
  induction s as [| c r IH]; simpl.
  - split; intros; [constructor | reflexivity].
  - rewrite andb_true_iff, IH. split.
    + intros [Hc Hr]. constructor; assumption.
    + intros H. inversion H; subst. split; assumption.
Qed.

Lemma strip_py_digits (s : string) :
  all_py_digits s = true -> strip_by is_num_space s = s.
Proof.
  intros H.
  assert (L : forall t, all_py_digits t = true ->
                        lstrip_by is_num_space t = t).
  { intros [| c r]; cbn [lstrip_by all_py_digits]; [reflexivity |].
    intros Ht. apply andb_true_iff in Ht. destruct Ht as [Hc _].
    destruct (py_digit_facts c Hc) as (-> & _). reflexivity. }
  unfold strip_by, rstrip_by. rewrite (L s H).
  rewrite L.
  - apply rev_string_involutive.
  - apply all_py_digits_list. unfold rev_string.
    rewrite list_ascii_of_string_of_list_ascii. apply Forall_rev.
    apply all_py_digits_list. exact H.
Qed.

Lemma digits_acc_superscript (s : string) :
  all_py_digits s = true -> all_digits s = false ->
  forall acc n b, digits_acc s acc n b = None.
Proof.
  induction s as [| c r IH]; cbn [all_py_digits all_digits digits_acc];
    [discriminate |].
  intros Hp Hd acc n b.
  apply andb_true_iff in Hp. destruct Hp as [Hc Hr].
  destruct (is_digit c) eqn:Ec.
  - cbn [andb] in Hd. apply IH; assumption.
  - destruct (py_digit_facts c Hc) as (_ & _ & -> & _). reflexivity.
Qed.

(** [int] refuses a text [isdigit] accepts that holds a superscript
    digit. *)
Lemma int_of_superscript (s : string) :
  all_py_digits s = true -> all_digits s = false ->
  int_of_string s = Raise ValueError.
Proof.
  intros Hp Hd. unfold int_of_string. rewrite (strip_py_digits _ Hp).
  assert (Hs : split_sign s = (false, s)).
  { destruct s as [| c r]; [reflexivity |].
    cbn [all_py_digits] in Hp. apply andb_true_iff in Hp.
    destruct Hp as [Hc _].
    destruct (py_digit_facts c Hc) as (_ & _ & _ & Hplus & Hminus).
    unfold split_sign.
    destruct c as [[] [] [] [] [] [] [] []]; try reflexivity;
      [contradiction Hplus | contradiction Hminus]; reflexivity. }
  rewrite Hs. unfold digit_run.
  rewrite (digits_acc_superscript s Hp Hd). reflexivity.
Qed.

(** Among the texts [isdigit] accepts, [int] reads exactly those
    [int_reads] describes. *)
Lemma int_of_isdigit (s : string) :
  isdigit s = true ->
  (int_reads s = true -> exists v, int_of_string s = Ok v /\ (0 <= v)%Z)
  /\ (int_reads s = false -> int_of_string s = Raise ValueError).
Proof.
  intros Hd.
  assert (Hne : s <> "") by (intros E; subst s; discriminate Hd).
  assert (Hp : all_py_digits s = true).
  { destruct s; [discriminate Hd | exact Hd]. }
  unfold int_reads. split; intros H.
  - apply andb_true_iff in H. destruct H as [Ha Hl].
    apply Z.leb_le in Hl. apply int_of_decimal; assumption.
  - apply andb_false_iff in H. destruct H as [Ha | Hl].
    + apply int_of_superscript; assumption.
    + destruct (all_digits s) eqn:Ha;
        [| apply int_of_superscript; [exact Hp | exact Ha]].
      apply int_of_long; [exact Ha |]. apply Z.leb_gt in Hl. exact Hl.
Qed.

End Numerals.

Section PointFacts.
Import Py LesDoc.
Local Open Scope string_scope.
Local Open Scope list_scope.

(** The image of a tooling hole, as [_init_tooling_hole] computes it. *)
Lemma tooling_image_cases (content : string) (style : PointStyle.t) :
  let m := if PointStyle.eqb style PointStyle.GLOBAL then Ok 0%Z
           else match split "I" (Point.clean content) with
                | _ :: p1 :: _ =>
                    if isdigit p1 then int_of_string p1 else Ok 1%Z
                | _ => Ok 1%Z
                end in
  (exists v, m = Ok v /\ (0 <= v)%Z
             /\ (style = PointStyle.GLOBAL -> v = 0%Z)
             /\ (style = PointStyle.GLOBAL
                 \/ match tooling_image_text content with
                    | Some s => int_reads s = true
                    | None => True
                    end))
  \/ (m = Raise ValueError
      /\ style <> PointStyle.GLOBAL
      /\ exists s, tooling_image_text content = Some s
                   /\ int_reads s = false).
Proof.
  intros m. subst m. unfold tooling_image_text.
  destruct (PointStyle.eqb style PointStyle.GLOBAL) eqn:Hg.
  { left. exists 0%Z. split; [reflexivity |]. split; [lia |].
    split; [reflexivity |]. left. destruct style; try discriminate Hg.
    reflexivity. }
  assert (Hs : style <> PointStyle.GLOBAL).
  { intros E. subst style. discriminate Hg. }
  assert (D : exists v, @Ok Z 1%Z = Ok v /\ (0 <= v)%Z
                        /\ (style = PointStyle.GLOBAL -> v = 0%Z)).
  { exists 1%Z. split; [reflexivity |]. split; [lia |].
    intros E. contradiction (Hs E). }
  destruct (split "I" (Point.clean content)) as [| p0 [| p1 rest]].
  - left. destruct D as (v & ? & ? & ?). exists v. repeat split; auto.
  - left. destruct D as (v & ? & ? & ?). exists v. repeat split; auto.
  - destruct (isdigit p1) eqn:Hd.
    + destruct (int_of_isdigit p1 Hd) as (Hyes & Hno).
      destruct (int_reads p1) eqn:Hr.
      * left. destruct (Hyes eq_refl) as (v & Hv & Hv0).
        exists v. split; [exact Hv |]. split; [exact Hv0 |].
        split; [intros E; contradiction (Hs E) | right; reflexivity].
      * right. split; [exact (Hno eq_refl) |]. split; [exact Hs |].
        exists p1. split; [reflexivity | exact Hr].
    + left. destruct D as (v & ? & ? & ?). exists v. repeat split; auto.
Qed.

(** What the tooling path returns: it disables the point and puts it
    on layer 1. *)
Lemma tooling_hole_fields (self : Point.t) (content : string)
    (apertures : list Aperture.t) (style : PointStyle.t) (p : Point.t) :
  Point._init_tooling_hole self content apertures style = Ok p ->
  p.(Point.is_enable) = false
  /\ p.(Point.layer) = 1%Z
  /\ p.(Point.style) = style
  /\ p.(Point.count_of_layer) = self.(Point.count_of_layer)
  /\ p.(Point.panel_image_name) = self.(Point.panel_image_name).
Proof.
  unfold Point._init_tooling_hole.
  match goal with
  | |- context [Py.bind ?m _] => destruct m as [v | e]
  end; [| discriminate].
  cbv zeta. cbn [Py.bind].
  destruct (has_char "X" _ && has_char "Y" _);
    [destruct (0 <? find "T" _ _)%Z |];
    intros H; injection H as <-; simpl; repeat split.
Qed.

(** When the tooling path returns and when it raises. *)
Lemma tooling_hole_result (self : Point.t) (content : string)
    (apertures : list Aperture.t) (style : PointStyle.t) :
  (exists p,
      Point._init_tooling_hole self content apertures style = Ok p
      /\ (style = PointStyle.GLOBAL
          \/ match tooling_image_text content with
             | Some s => int_reads s = true
             | None => True
             end))
  \/ (Point._init_tooling_hole self content apertures style
      = Raise ValueError
      /\ style <> PointStyle.GLOBAL
      /\ exists s, tooling_image_text content = Some s
                   /\ int_reads s = false).
Proof.
  unfold Point._init_tooling_hole.
  destruct (tooling_image_cases content style)
    as [(v & Hv & _ & _ & Hc) | (Hr & Hs & Hbad)]; cbv zeta in *.
  - left. rewrite Hv. cbn [Py.bind].
    destruct (has_char "X" _ && has_char "Y" _);
      [destruct (0 <? find "T" _ _)%Z |];
      (eexists; split; [reflexivity | exact Hc]).
  - right. rewrite Hr. cbn [Py.bind]. auto.
Qed.

(** The regular path computes [is_enable] from the layer it ends with. *)
Lemma regular_point_fields (self : Point.t) (content : string)
    (count_of_layer : Z) (apertures : list Aperture.t)
    (net : option (nat * Net.t)) :
  let p := Point._init_regular_point self content count_of_layer
                                     apertures net in
  p.(Point.style) = PointStyle.NORMAL
  /\ p.(Point.count_of_layer) = count_of_layer
  /\ p.(Point.panel_image_name) = self.(Point.panel_image_name)
  /\ (self.(Point.is_enable) = true -> self.(Point.layer) = 1%Z ->
      p.(Point.is_enable)
      = ((p.(Point.layer) =? 1)%Z || (p.(Point.layer) =? count_of_layer)%Z)).
Proof.
  unfold Point._init_regular_point.
  destruct net as [[pos n] |];
    destruct (has_char "X" (Point.clean content)
              && has_char "Y" (Point.clean content));
    try (destruct (Point.decode_a_section _ _ _ _ _) as [[lm ap] ty]);
    simpl; repeat split; intros He Hl; rewrite ?He, ?Hl; reflexivity.
Qed.

End PointFacts.
Section LesDocument.
Import Py LesProps.
Local Open Scope string_scope.
Local Open Scope list_scope.

Lemma appended_rule (st : Les.state) (i : nat) (line : string) (p : Point.t) :
  appended st i line p -> enable_rule p /\ unnamed p.
Proof.
  intros H. destruct H as [style p0 Hk Hs Hp | content net Hk].
  - destruct (tooling_hole_fields
                (Point.fresh (Some line) 1 None (Some style)) line
                (Les.apertures (Les.self st)) style p0 Hp)
      as (He & Hl & Hst & _ & Hn).
    unfold enable_rule, unnamed. simpl.
    rewrite Hst, He, Hl, Hn. split; [| reflexivity].
    destruct style; [contradiction Hs; reflexivity | |]; split; reflexivity.
  - pose proof (regular_point_fields
                  (Point.fresh (Some content)
                     (Les.count_of_layer (Les.self st)) net None)
                  content (Les.count_of_layer (Les.self st))
                  (Les.apertures (Les.self st)) net) as H.
    cbv zeta in H. destruct H as (Hst & Hc & Hn & He).
    unfold enable_rule, unnamed. simpl.
    rewrite Hst, Hc, Hn. split; [| reflexivity].
    apply He; reflexivity.
Qed.

Lemma load_lines_points (P : Point.t -> Prop)
    (HP : forall st i line p, appended st i line p -> P p)
    (lines : list string) :
  forall (st st' : Les.state) (i : nat),
    Les.load_lines st i lines = Ok st' ->
    Forall P st.(Les.self).(Les.points) ->
    Forall P st'.(Les.self).(Les.points).
Proof.
  induction lines as [| raw rest IH]; simpl; intros st st' i H Hst.
  - inversion H; subst. exact Hst.
  - apply bind_ok in H. destruct H as (st1 & H1 & H).
    apply (IH st1 st' (S i) H).
    destruct (load_line_points st st1 i raw H1) as [E | (p & Hp & E)];
      rewrite E.
    + exact Hst.
    + apply Forall_app. split; [exact Hst |].
      constructor; [| constructor]. exact (HP _ _ _ _ Hp).
Qed.

(** The naming pass touches [image] and [panel_image_name] only. *)
Lemma name_point_rule (st st' : PanelImage.pass_state) (p p' : Point.t) :
  PanelImage.name_point st p = Ok (st', p') ->
  enable_rule p -> enable_rule p' /\ p'.(Point.panel_image_name) <> None.
Proof.
  unfold PanelImage.name_point. intros H Hp.
  destruct (Point.image p =? 0)%Z.
  - match type of H with
    | context [match ?d with Some _ => _ | None => _ end] =>
        destruct d as [[| panel ?] |]
    end; inversion H; subst; split; try exact Hp; discriminate.
  - match type of H with
    | context [match ?d with Some _ => _ | None => _ end] =>
        destruct d as [[| panel ?] |]
    end; inversion H; subst; split; try exact Hp; discriminate.
Qed.

Lemma name_points_rule (pts : list Point.t) :
  forall (st : PanelImage.pass_state) (pts' : list Point.t),
    PanelImage.name_points st pts = Ok pts' ->
    Forall enable_rule pts ->
    Forall (fun p => enable_rule p /\ p.(Point.panel_image_name) <> None)
           pts'.
Proof.
  induction pts as [| p rest IH]; simpl; intros st pts' H Hall.
  - inversion H; subst. constructor.
  - apply bind_ok in H. destruct H as ([st1 p1] & H1 & H).
    apply bind_ok in H. destruct H as (rest' & Hr & H).
    inversion H; subst; clear H. inversion Hall; subst.
    constructor.
    + exact (name_point_rule st st1 p p1 H1 H2).
    + exact (IH st1 rest' Hr H3).
Qed.

Lemma load_file_rule (l0 l : Les.t) (file_lines : list string) :
  Les.load_file l0 file_lines = Ok l ->
  Forall enable_rule l0.(Les.points) ->
  Forall enable_rule l.(Les.points).
Proof.
  unfold Les.load_file. intros H H0.
  apply bind_ok in H. destruct H as (st & Hst & H).
  assert (Hpts : Forall enable_rule (Les.points (Les.self st))).
  { apply (load_lines_points enable_rule
             (fun st i line p Hp => proj1 (appended_rule st i line p Hp))
             _ _ _ _ Hst).
    exact H0. }
  unfold Les.finish in H.
  destruct (Les.current_outline_segment st).
  - inversion H; subst. exact Hpts.
  - apply bind_ok in H. destruct H as (pts & Hn & H).
    inversion H; subst; clear H. simpl.
    unfold PanelImage.assign_panel_image_names in Hn. simpl in Hn.
    apply name_points_rule in Hn; [| exact Hpts].
    apply Forall_impl with (2 := Hn). intros q [Hq _]. exact Hq.
Qed.

(** When no outline segment is pending after the last line, no point of
    the document has a [panel_image_name]. *)
Lemma load_file_without_pending_segment (file_lines : list string)
    (st : Les.state) :
  let content := map (rstrip_chars (String "010" "")) file_lines in
  Les.load_lines
    (Les.mk_state (Les.set_content Les.empty content) None []) 0 content
  = Ok st ->
  st.(Les.current_outline_segment) = [] ->
  Les.load_file Les.empty file_lines = Ok st.(Les.self)
  /\ Forall unnamed st.(Les.self).(Les.points).
Proof.
  intros content Hst Hseg. split.
  - unfold Les.load_file. fold content. rewrite Hst. simpl.
    unfold Les.finish. rewrite Hseg. reflexivity.
  - apply (load_lines_points unnamed
             (fun st i line p Hp => proj2 (appended_rule st i line p Hp))
             _ _ _ _ Hst).
    constructor.
Qed.

(** C5, as stated: the tooling hole of the one-line file [F,X1Y1] is on
    layer 1 and is not enabled. *)
Lemma tooling_hole_is_disabled_on_layer_1 :
  exists l p,
    Les.load_file Les.empty ["F,X1Y1"] = Ok l
    /\ In p l.(Les.points)
    /\ ~ (p.(Point.is_enable) = true
          <-> (p.(Point.layer) = 1%Z
               \/ p.(Point.layer) = p.(Point.count_of_layer))).
Proof.
  eexists. eexists. split; [vm_compute; reflexivity |].
  split; [left; reflexivity |].
  simpl. intros [_ H]. specialize (H (or_introl eq_refl)). discriminate H.
Qed.

(** C5, amended.  For every point of a document [Les.load_file] returns:
    a point of the regular path (style NORMAL) has [is_enable] true if
    and only if its layer is 1 or its [count_of_layer]; a tooling hole
    (style GLOBAL or LOCAL) has [is_enable] false and layer 1. *)
Theorem is_enable_rule (file_lines : list string) (l : Les.t) (p : Point.t) :
  Les.load_file Les.empty file_lines = Ok l ->
  In p l.(Les.points) ->
  (p.(Point.style) = PointStyle.NORMAL ->
   (p.(Point.is_enable) = true
    <-> (p.(Point.layer) = 1%Z
         \/ p.(Point.layer) = p.(Point.count_of_layer))))
  /\ (p.(Point.style) <> PointStyle.NORMAL ->
      p.(Point.is_enable) = false /\ p.(Point.layer) = 1%Z).
Proof.
  intros Hl Hin.
  pose proof (load_file_rule Les.empty l file_lines Hl (Forall_nil _)) as Hall.
  rewrite Forall_forall in Hall. specialize (Hall p Hin).
  unfold enable_rule in Hall.
  destruct (Point.style p); split; intros Hs;
    try discriminate Hs; try (contradiction Hs; reflexivity);
    try exact Hall.
  rewrite Hall, orb_true_iff, !Z.eqb_eq. reflexivity.
Qed.

Lemma is_enable_rule_witness :
  exists l p,
    Les.load_file Les.empty ["L2"; "T3:20"; "I1X100Y-200AS03V2"] = Ok l
    /\ In p l.(Les.points)
    /\ p.(Point.style) = PointStyle.NORMAL
    /\ (p.(Point.is_enable) = true
        <-> (p.(Point.layer) = 1%Z
             \/ p.(Point.layer) = p.(Point.count_of_layer))).
Proof.
  eexists. eexists.
  split; [vm_compute; reflexivity |].
  split; [left; reflexivity |].
  split; [reflexivity |].
  refine (proj1 (is_enable_rule
                   ["L2"; "T3:20"; "I1X100Y-200AS03V2"] _ _ _ _) _).
  - vm_compute. reflexivity.
  - left. reflexivity.
  - reflexivity.
Defined.

End LesDocument.
Section LesImages.
Import Py LesProps LesDoc.
Local Open Scope string_scope.
Local Open Scope list_scope.

Lemma update_length {A : Type} (xs : list A) (i : nat) (a : A) :
  List.length (Les.update xs i a) = List.length xs.
Proof.
  revert i. induction xs as [| h r IH]; intros [| i]; simpl;
    try reflexivity.
  rewrite IH. reflexivity.
Qed.

Lemma grow_images_length (imgs : list (option ViewImage.t)) (n : Z) :
  (List.length imgs <= List.length (Les.grow_images imgs n))%nat.
Proof.
  unfold Les.grow_images. rewrite length_app. lia.
Qed.

(** A tooling line appends one point and leaves every other field of
    the document as it was; or [int()] refuses the image text of a
    hole that follows a STEP line, and [ValueError] leaves the loop. *)
Lemma on_tooling_result (st : Les.state) (i : nat) (line : string) :
  line <> "" ->
  (exists p,
      Les.on_tooling st i line
      = Ok (Les.with_self st
              (Les.set_points st.(Les.self)
                 (st.(Les.self).(Les.points) ++ [p]))))
  \/ (Les.on_tooling st i line = Raise ValueError
      /\ Les.index_of_step st <> None
      /\ exists s, tooling_image_text line = Some s
                   /\ int_reads s = false).
Proof.
  intros Hne. unfold Les.on_tooling.
  set (style := match Les.index_of_step st with
                | Some k => if (i <? k)%nat then PointStyle.GLOBAL
                            else PointStyle.LOCAL
                | None => PointStyle.GLOBAL
                end).
  assert (Hs : style = PointStyle.GLOBAL \/ style = PointStyle.LOCAL).
  { unfold style. destruct (Les.index_of_step st) as [k |];
      [destruct (i <? k)%nat |]; auto. }
  assert (Hinit : Point.init (Some line) 1 (Les.apertures (Les.self st))
                             None (Some style)
                  = Point._init_tooling_hole
                      (Point.fresh (Some line) 1 None (Some style)) line
                      (Les.apertures (Les.self st)) style).
  { unfold Point.init.
    destruct line as [| c r]; [contradiction Hne; reflexivity |].
    destruct Hs as [Hs | Hs]; rewrite Hs; reflexivity. }
  rewrite Hinit.
  destruct (tooling_hole_result
              (Point.fresh (Some line) 1 None (Some style)) line
              (Les.apertures (Les.self st)) style)
    as [(p & Hp & _) | (Hr & Hg & Hbad)].
  - left. rewrite Hp. cbn [Py.bind]. eexists. reflexivity.
  - right. rewrite Hr. cbn [Py.bind]. split; [reflexivity |].
    split; [| exact Hbad].
    intros E. apply Hg. unfold style. rewrite E. reflexivity.
Qed.





End LesImages.
Section NamingPass.
Import Py LesProps PanelImage.
Local Open Scope string_scope.
Local Open Scope list_scope.
Local Open Scope Z_scope.

Lemma dict_get_set_same {V : Type} (d : dict Z V) (k : Z) (v : V) :
  dict_get Z.eqb (dict_set Z.eqb d k v) k = Some v.
Proof.
  induction d as [| [k0 v0] rest IH]; simpl.
  - rewrite Z.eqb_refl. reflexivity.
  - destruct (k =? k0) eqn:E; simpl; rewrite E; [reflexivity | exact IH].
Qed.

Lemma dict_get_set_other {V : Type} (d : dict Z V) (k k' : Z) (v : V) :
  k' <> k ->
  dict_get Z.eqb (dict_set Z.eqb d k v) k' = dict_get Z.eqb d k'.
Proof.
  intros Hne. induction d as [| [k0 v0] rest IH]; simpl.
  - destruct (Z.eqb_spec k' k); [contradiction | reflexivity].
  - destruct (Z.eqb_spec k k0) as [E | E]; simpl.
    + subst k0. destruct (Z.eqb_spec k' k); [contradiction | reflexivity].
    + rewrite IH. reflexivity.
Qed.

Lemma dict_mem_set {V : Type} (d : dict Z V) (k k' : Z) (v : V) :
  dict_mem Z.eqb (dict_set Z.eqb d k v) k'
  = (k' =? k) || dict_mem Z.eqb d k'.
Proof.
  unfold dict_mem. destruct (Z.eqb_spec k' k) as [E | E].
  - subst k'. rewrite dict_get_set_same. reflexivity.
  - rewrite dict_get_set_other by exact E. reflexivity.
Qed.

Lemma names_get_set_same (d : names) (k : Z * Z) (v : string) :
  dict_get key2_eqb (dict_set key2_eqb d k v) k = Some v.
Proof.
  assert (R : key2_eqb k k = true).
  { unfold key2_eqb. rewrite !Z.eqb_refl. reflexivity. }
  induction d as [| [k0 v0] rest IH]; simpl.
  - rewrite R. reflexivity.
  - destruct (key2_eqb k k0) eqn:E; simpl; rewrite E; [reflexivity | exact IH].
Qed.

Lemma panels_nonempty_set (u : usage) (k : Z) (ps : list Z) :
  panels_nonempty u -> ps <> [] ->
  panels_nonempty (dict_set Z.eqb u k ps).
Proof.
  intros Hu Hps k' ps' H.
  destruct (Z.eq_dec k' k) as [E | E].
  - subst k'. rewrite dict_get_set_same in H. inversion H; subst. exact Hps.
  - rewrite dict_get_set_other in H by exact E. exact (Hu k' ps' H).
Qed.

Lemma record_steps_spec (steps : list LesStep.t) :
  forall (i : Z) (u : usage),
    panels_nonempty u ->
    panels_nonempty (record_steps steps i u)
    /\ forall m, dict_mem Z.eqb (record_steps steps i u) m = true
                 <-> (dict_mem Z.eqb u m = true
                      \/ In m (map LesStep.image steps)).
Proof.
  induction steps as [| s rest IH]; simpl; intros i u Hu.
  - split; [exact Hu |]. intros m. tauto.
  - match goal with
    | |- context [record_steps rest _ ?u'] =>
        assert (Hu' : panels_nonempty u')
    end.
    { apply panels_nonempty_set; [exact Hu |].
      destruct (dict_get Z.eqb u (LesStep.image s)); intros E;
        apply app_eq_nil in E; destruct E as [_ E]; discriminate E. }
    destruct (IH (i + 1) _ Hu') as (Hne & Hmem).
    split; [exact Hne |].
    intros m. rewrite Hmem, dict_mem_set.
    rewrite orb_true_iff, Z.eqb_eq. intuition.
Qed.

Lemma keys_from_le (u : usage) (n : Z) :
  (keys_from u n <= List.length u)%nat.
Proof. apply filter_length_le. Qed.

Lemma keys_from_succ (u : usage) (n : Z) :
  dict_mem Z.eqb u n = true ->
  (keys_from u (n + 1) < keys_from u n)%nat.
Proof.
  unfold keys_from, dict_mem.
  induction u as [| [k v] rest IH]; simpl; [discriminate |].
  destruct (Z.eqb_spec n k) as [E | E].
  - subst k. intros _.
    destruct (Z.leb_spec (n + 1) n); [lia |].
    destruct (Z.leb_spec n n); [| lia]. simpl.
    clear IH. apply Nat.lt_succ_r.
    induction rest as [| [k' v'] rest' IH']; simpl; [lia |].
    destruct (Z.leb_spec (n + 1) k'); destruct (Z.leb_spec n k');
      simpl; lia.
  - intros H. specialize (IH H).
    destruct (Z.leb_spec (n + 1) k); destruct (Z.leb_spec n k);
      simpl; lia.
Qed.

(** The search for a free image id ends on one: the result is not in
    use and everything it passed is. *)
Lemma next_free_spec (u : usage) :
  forall (fuel : nat) (n : Z),
    (keys_from u n < fuel)%nat ->
    let r := next_free u n fuel in
    n <= r
    /\ dict_mem Z.eqb u r = false
    /\ forall m, n <= m < r -> dict_mem Z.eqb u m = true.
Proof.
  induction fuel as [| fuel IH]; intros n Hf; [lia |].
  cbn [next_free]. destruct (dict_mem Z.eqb u n) eqn:Hn.
  - pose proof (keys_from_succ u n Hn) as Hlt.
    destruct (IH (n + 1)) as (H1 & H2 & H3); [lia |].
    cbv zeta. split; [lia |]. split; [exact H2 |].
    intros m Hm. destruct (Z.eq_dec m n) as [E | E].
    + subst m. exact Hn.
    + apply H3. lia.
  - cbv zeta. split; [lia |]. split; [exact Hn |]. intros m Hm. lia.
Qed.

Lemma name_point_spec (st : pass_state) (used : list Z) (p : Point.t) :
  pass_inv st used ->
  exists st' p',
    name_point st p = Ok (st', p')
    /\ p'.(Point.panel_image_name) <> None
    /\ (p.(Point.image) <> 0 ->
        p'.(Point.image) = p.(Point.image) /\ pass_inv st' used)
    /\ (p.(Point.image) = 0 ->
        smallest_free used p'.(Point.image)
        /\ p'.(Point.panel_image_name)
           = Some (label 1 p'.(Point.image))
        /\ pass_inv st' (used ++ [p'.(Point.image)])).
Proof.
  intros (Hmem & Hnext & Hbelow & Hne).
  unfold name_point. destruct (Z.eqb_spec (Point.image p) 0) as [E | E].
  - (* no image yet *)
    set (n := next_free (image_usage st) (next_image_id st)
                        (S (List.length (image_usage st)))).
    destruct (next_free_spec (image_usage st)
                (S (List.length (image_usage st))) (next_image_id st))
      as (H1 & H2 & H3).
    { pose proof (keys_from_le (image_usage st) (next_image_id st)). lia. }
    fold n in H1, H2, H3.
    cbn [image_usage panel_image_names].
    rewrite dict_get_set_same, names_get_set_same.
    eexists. eexists. split; [reflexivity |].
    split; [discriminate |].
    split; [intros C; contradiction (C E) |].
    intros _. cbn [Point.image Point.set_image Point.set_panel_image_name
                   Point.panel_image_name].
    split; [| split; [reflexivity |]].
    + split; [lia |]. split.
      * intros Hin. apply Hmem in Hin. rewrite H2 in Hin. discriminate Hin.
      * intros m Hm. destruct (Z_lt_le_dec m (next_image_id st)).
        -- apply Hbelow. lia.
        -- apply Hmem. apply H3. lia.
    + split; [| split; [| split]]; cbn [image_usage next_image_id].
      * intros m. rewrite dict_mem_set, orb_true_iff, Z.eqb_eq, in_app_iff.
        rewrite Hmem. simpl. intuition.
      * lia.
      * intros m Hm. apply in_app_iff. left.
        destruct (Z_lt_le_dec m (next_image_id st)).
        -- apply Hbelow. lia.
        -- apply Hmem. apply H3. lia.
      * apply panels_nonempty_set; [exact Hne | discriminate].
  - (* an image of its own *)
    destruct (dict_get Z.eqb (image_usage st) (Point.image p))
      as [ps |] eqn:Hps.
    + destruct ps as [| panel ps'].
      * exfalso. exact (Hne _ _ Hps eq_refl).
      * eexists. eexists. split; [reflexivity |].
        split; [discriminate |]. split.
        -- intros _. split; [reflexivity |].
           split; [exact Hmem |]. split; [exact Hnext |].
           split; [exact Hbelow | exact Hne].
        -- intros C. contradiction (E C).
    + eexists. eexists. split; [reflexivity |].
      split; [discriminate |]. split.
      * intros _. split; [reflexivity |].
        split; [exact Hmem |]. split; [exact Hnext |].
        split; [exact Hbelow | exact Hne].
      * intros C. contradiction (E C).
Qed.

Lemma smallest_free_ext (used used' : list Z) (n : Z) :
  (forall m, In m used <-> In m used') ->
  smallest_free used n -> smallest_free used' n.
Proof.
  intros Hx (H1 & H2 & H3). split; [exact H1 |]. split.
  - intros Hin. apply H2. apply Hx. exact Hin.
  - intros m Hm. apply Hx. apply H3. exact Hm.
Qed.

Lemma name_points_spec (points : list Point.t) :
  forall (st : pass_state) (used : list Z),
    pass_inv st used ->
    exists named,
      name_points st points = Ok named
      /\ List.length named = List.length points
      /\ forall i p p',
           nth_error points i = Some p ->
           nth_error named i = Some p' ->
           p'.(Point.panel_image_name) <> None
           /\ (p.(Point.image) <> 0 -> p'.(Point.image) = p.(Point.image))
           /\ (p.(Point.image) = 0 ->
               smallest_free (used ++ assigned_before points named i)
                             p'.(Point.image)
               /\ p'.(Point.panel_image_name)
                  = Some (label 1 p'.(Point.image))).
Proof.
  induction points as [| p rest IH]; intros st used Hinv.
  - exists []. split; [reflexivity |]. split; [reflexivity |].
    intros [| i] q q' H; discriminate H.
  - destruct (name_point_spec st used p Hinv)
      as (st1 & p1 & Hp & Hname & Hset & Hunset).
    cbn [name_points]. rewrite Hp. cbn [Py.bind fst snd].
    destruct (Z.eq_dec (Point.image p) 0) as [E | E].
    + destruct (Hunset E) as (Hsm & Hlab & Hinv1).
      destruct (IH st1 _ Hinv1) as (named & Hn & Hlen & Hall).
      rewrite Hn. cbn [Py.bind].
      exists (p1 :: named). split; [reflexivity |].
      split; [simpl; rewrite Hlen; reflexivity |].
      intros [| i] q q' Hq Hq'.
      * simpl in Hq, Hq'. inversion Hq; inversion Hq'; subst q q'.
        split; [exact Hname |]. split; [intros C; contradiction (C E) |].
        intros _. unfold assigned_before. simpl. rewrite app_nil_r.
        split; assumption.
      * simpl in Hq, Hq'.
        destruct (Hall i q q' Hq Hq') as (A & B & C).
        split; [exact A |]. split; [exact B |].
        intros Hz. destruct (C Hz) as (C1 & C2). split; [| exact C2].
        revert C1. apply smallest_free_ext. intros m.
        unfold assigned_before. cbn [combine firstn filter fst snd].
        apply Z.eqb_eq in E. rewrite E. cbn [map snd].
        rewrite <- app_assoc. reflexivity.
    + destruct (Hset E) as (Himg & Hinv1).
      destruct (IH st1 _ Hinv1) as (named & Hn & Hlen & Hall).
      rewrite Hn. cbn [Py.bind].
      exists (p1 :: named). split; [reflexivity |].
      split; [simpl; rewrite Hlen; reflexivity |].
      intros [| i] q q' Hq Hq'.
      * simpl in Hq, Hq'. inversion Hq; inversion Hq'; subst q q'.
        split; [exact Hname |]. split; [intros _; exact Himg |].
        intros C. contradiction (E C).
      * simpl in Hq, Hq'.
        destruct (Hall i q q' Hq Hq') as (A & B & C).
        split; [exact A |]. split; [exact B |].
        intros Hz. destruct (C Hz) as (C1 & C2). split; [| exact C2].
        revert C1. apply smallest_free_ext. intros m.
        unfold assigned_before. cbn [combine firstn filter fst snd].
        apply Z.eqb_neq in E. rewrite E. reflexivity.
Qed.

(** Two tooling holes before any step, then an unterminated outline
    segment, so that the naming pass runs.  No step is declared, so the
    smallest positive image id not used by a declared step is 1; the
    second hole is given image 2. *)
Lemma second_unset_point_gets_next_id :
  exists l p1 p2,
    Les.load_file Les.empty ["F,X1Y1"; "F,X2Y2"; "K,X0Y0,"] = Ok l
    /\ l.(Les.steps) = []
    /\ l.(Les.points) = [p1; p2]
    /\ p1.(Point.image) = 1
    /\ p2.(Point.image) = 2
    /\ p2.(Point.panel_image_name) = Some "Panel 1 Image 2".
Proof.
  do 3 eexists.
  split; [vm_compute; reflexivity |].
  split; [reflexivity |]. split; [reflexivity |].
  split; [reflexivity |]. split; reflexivity.
Qed.

(** X28.  The naming pass never raises and names every point.
    A point that has an image id keeps it.  A point whose image id is
    0/unset is assigned the smallest positive image id used neither by
    a declared step nor by an unset point before it, with the label
    [Panel 1 Image {id}].  When an outline segment is pending after the
    last line, [Les.load_file] runs the pass exactly once, over the
    steps and points parsed. *)
Theorem naming_pass_assigns :
  (forall (steps : list LesStep.t) (points : list Point.t),
      exists named,
        assign_panel_image_names steps points = Ok named
        /\ List.length named = List.length points
        /\ forall i p p',
             nth_error points i = Some p ->
             nth_error named i = Some p' ->
             p'.(Point.panel_image_name) <> None
             /\ (p.(Point.image) <> 0 -> p'.(Point.image) = p.(Point.image))
             /\ (p.(Point.image) = 0 ->
                 smallest_free
                   (map LesStep.image steps
                    ++ assigned_before points named i)
                   p'.(Point.image)
                 /\ p'.(Point.panel_image_name)
                    = Some (label 1 p'.(Point.image))))
  /\ (forall (st : Les.state) (v : Q * Q) (seg : list (Q * Q)),
         st.(Les.current_outline_segment) = v :: seg ->
         exists named,
           assign_panel_image_names st.(Les.self).(Les.steps)
                                    st.(Les.self).(Les.points) = Ok named
           /\ Les.finish st
              = Ok (Les.set_points
                      (Les.set_outline_points st.(Les.self)
                         (st.(Les.self).(Les.outline_points)
                          ++ [v :: seg]))
                      named)).
Proof.
  assert (Hpass : forall steps points,
             exists named,
               assign_panel_image_names steps points = Ok named
               /\ List.length named = List.length points
               /\ forall i p p',
                    nth_error points i = Some p ->
                    nth_error named i = Some p' ->
                    p'.(Point.panel_image_name) <> None
                    /\ (p.(Point.image) <> 0 ->
                        p'.(Point.image) = p.(Point.image))
                    /\ (p.(Point.image) = 0 ->
                        smallest_free
                          (map LesStep.image steps
                           ++ assigned_before points named i)
                          p'.(Point.image)
                        /\ p'.(Point.panel_image_name)
                           = Some (label 1 p'.(Point.image)))).
  { intros steps points. unfold assign_panel_image_names.
    apply name_points_spec.
    destruct (record_steps_spec steps 1 []) as (Hne & Hmem).
    { intros k ps H. discriminate H. }
    split; [| split; [| split]]; cbn [image_usage next_image_id].
    - intros m. rewrite Hmem. unfold dict_mem. simpl. intuition discriminate.
    - lia.
    - intros m Hm. lia.
    - exact Hne. }
  split; [exact Hpass |].
  intros st v seg Hseg.
  destruct (Hpass (Les.steps (Les.self st)) (Les.points (Les.self st)))
    as (named & Hnamed & _).
  exists named. split; [exact Hnamed |].
  unfold Les.finish. rewrite Hseg. cbn [Les.steps Les.points Les.set_outline_points].
  rewrite Hnamed. reflexivity.
Qed.

Lemma naming_pass_assigns_witness :
  exists named p',
    assign_panel_image_names
      [Samples.step_on_image 1; Samples.step_on_image 2]
      [Samples.unset_point] = Ok named
    /\ named = [p']
    /\ smallest_free [1; 2] p'.(Point.image)
    /\ p'.(Point.panel_image_name) = Some (label 1 p'.(Point.image)).
Proof.
  destruct (proj1 naming_pass_assigns
                  [Samples.step_on_image 1; Samples.step_on_image 2]
                  [Samples.unset_point])
    as (named & Hnamed & Hlen & Hall).
  destruct named as [| p' [| q rest]]; try discriminate Hlen.
  exists [p'], p'. split; [exact Hnamed |]. split; [reflexivity |].
  exact (proj2 (proj2 (Hall 0%nat Samples.unset_point p' eq_refl eq_refl))
               eq_refl).
Defined.

(** C1.  The call of the naming pass sits inside the [if] that flushes
    a pending outline segment, so [Les.load_file] does not run it after
    every file.  Whenever the loop over the lines ends with no outline
    segment pending, [Les.load_file] returns the document as the loop
    left it, the pass has not run, and no point of the document has a
    [panel_image_name].  The one-line file [F,X1Y1] is such a file: its
    point comes back on image 0 and without a [panel_image_name]. *)
Theorem naming_pass_needs_pending_outline :
  (forall (file_lines : list string) (st : Les.state),
      Les.load_lines
        (Les.mk_state
           (Les.set_content Les.empty
              (map (rstrip_chars (String "010" "")) file_lines))
           None [])
        0 (map (rstrip_chars (String "010" "")) file_lines)
      = Ok st ->
      st.(Les.current_outline_segment) = [] ->
      Les.load_file Les.empty file_lines = Ok st.(Les.self)
      /\ Les.finish st = Ok st.(Les.self)
      /\ Forall unnamed st.(Les.self).(Les.points))
  /\ (exists l p,
         Les.load_file Les.empty ["F,X1Y1"] = Ok l
         /\ l.(Les.points) = [p]
         /\ p.(Point.image) = 0
         /\ p.(Point.panel_image_name) = None).
Proof.
  split.
  - intros file_lines st Hst Hseg.
    destruct (load_file_without_pending_segment file_lines st Hst Hseg)
      as (Hl & Hu).
    split; [exact Hl |]. split; [| exact Hu].
    unfold Les.finish. rewrite Hseg. reflexivity.
  - do 2 eexists.
    split; [vm_compute; reflexivity |].
    split; [reflexivity |]. split; reflexivity.
Qed.

Lemma naming_pass_needs_pending_outline_witness :
  exists l,
    Les.load_file Les.empty ["F,X1Y1"] = Ok l
    /\ Forall unnamed l.(Les.points).
Proof.
  eexists.
  destruct (proj1 naming_pass_needs_pending_outline ["F,X1Y1"] _
                  ltac:(vm_compute; reflexivity) eq_refl)
    as (Hl & _ & Hu).
  split; [exact Hl | exact Hu].
Defined.

End NamingPass.
Section XmlParse.
Import Py Xml XmlProps XmlSamples.
Local Open Scope string_scope.
Local Open Scope list_scope.










(** A present first key stays first. *)
Lemma steps_set_head (d : step_dict) (k0 k : option string) (v0 v : Step.t) :
  exists v' tl, steps_set ((k0, v0) :: d) k v = (k0, v') :: tl.
Proof.
  simpl. destruct (key_eqb k k0); eauto.
Qed.



End XmlParse.
Section XmlParseWitness.
Import Py Xml XmlProps XmlSamples.
Local Open Scope string_scope.
Local Open Scope list_scope.

End XmlParseWitness.
Section RecursionCap.
Import Py Xml Geometry XmlDrawing XmlSamples.
Local Open Scope string_scope.
Local Open Scope list_scope.
Local Open Scope R_scope.

(** Every level of the draw walk runs with [depth = 0]: the guard
    [depth > 50] is never taken. *)
Lemma draw_walk_cycle (fuel : nat) :
  forall (base ox oy : R) (color : Z),
    _draw_xml_step_recursive fuel cyclic_canvas step_A base ox oy color 0
    = Raise RecursionError.
Proof.
  induction fuel as [| fuel IH]; intros base ox oy color.
  - reflexivity.
  - cbn -[resolve].
    destruct (resolve _ _ _ _ _) as [rx ry].
    rewrite IH. reflexivity.
Qed.

Lemma bounds_walk_cycle (fuel : nat) :
  forall (base ox oy : R) (depth : Z) (bs : bounds),
    bounds_walk fuel cyclic_canvas cyclic_drawing true step_A base ox oy
                depth bs
    = Raise RecursionError.
Proof.
  induction fuel as [| fuel IH]; intros base ox oy depth bs.
  - reflexivity.
  - cbn -[resolve].
    destruct (resolve _ _ _ _ _) as [rx ry].
    rewrite IH. reflexivity.
Qed.

(** C2.  On a drawing whose step [A] repeats [A], with repeats shown,
    neither walk stops at depth 50: whatever the size of the call stack,
    [draw_xml], the bounds of [fit_all] and the bounds of [fit_step] end
    in [RecursionError].  The guard of the draw walk is there and works
    when it is reached with a depth above 50. *)
Theorem walks_overrun_on_cycle :
  (forall fuel, draw_xml fuel cyclic_canvas = Raise RecursionError)
  /\ (forall fuel, fit_all_xml_bounds fuel cyclic_canvas = Raise RecursionError)
  /\ (forall fuel,
         fit_step_bounds fuel cyclic_canvas true = Raise RecursionError)
  /\ (forall fuel canvas step base ox oy color depth,
         (50 < depth)%Z ->
         _draw_xml_step_recursive (S fuel) canvas step base ox oy color depth
         = Ok []).
Proof.
  repeat split.
  - intros fuel. unfold draw_xml. cbn -[_draw_xml_step_recursive].
    rewrite draw_walk_cycle. reflexivity.
  - intros fuel. unfold fit_all_xml_bounds, fit_all_compute_step_bounds.
    cbn -[bounds_walk]. rewrite bounds_walk_cycle. reflexivity.
  - intros fuel. unfold fit_step_bounds, fit_step_compute_step_bounds.
    cbn -[bounds_walk]. rewrite bounds_walk_cycle. reflexivity.
  - intros fuel canvas step base ox oy color depth Hd.
    cbn [_draw_xml_step_recursive].
    apply Z.ltb_lt in Hd. rewrite Hd. reflexivity.
Qed.

Lemma walks_overrun_on_cycle_witness :
  _draw_xml_step_recursive 1 cyclic_canvas step_A 0 0 0 0%Z 51%Z = Ok [].
Proof.
  exact (proj2 (proj2 (proj2 walks_overrun_on_cycle))
               0%nat cyclic_canvas step_A 0 0 0 0%Z 51%Z eq_refl).
Defined.

End RecursionCap.
Section Angles.
Import Geometry Angles.
Local Open Scope R_scope.

Lemma floor_bounds (x : R) : IZR (floor x) <= x < IZR (floor x) + 1.
Proof.
  unfold floor. rewrite minus_IZR.
  destruct (archimed x) as [H1 H2]. lra.
Qed.

Lemma floor_unique (x : R) (z : Z) : IZR z <= x < IZR z + 1 -> floor x = z.
Proof.
  intros [H1 H2]. unfold floor.
  assert (H : (z + 1)%Z = up x).
  { apply up_tech; [exact H1 | rewrite plus_IZR; exact H2]. }
  lia.
Qed.

Lemma fmod360_range (x : R) : 0 <= fmod360 x < 360.
Proof.
  unfold fmod360.
  destruct (floor_bounds (x / 360)) as [H1 H2].
  assert (E : x = 360 * (x / 360)) by (field).
  split; lra.
Qed.

Lemma congr360_refl (x : R) : congr360 x x.
Proof. exists 0%Z. lra. Qed.

Lemma congr360_sym (x y : R) : congr360 x y -> congr360 y x.
Proof.
  intros (m & H). exists (- m)%Z. rewrite opp_IZR. lra.
Qed.

Lemma congr360_trans (x y z : R) :
  congr360 x y -> congr360 y z -> congr360 x z.
Proof.
  intros (m & H1) (n & H2). exists (m + n)%Z. rewrite plus_IZR. lra.
Qed.

Lemma congr360_sub (x y u v : R) :
  congr360 x y -> congr360 u v -> congr360 (x - u) (y - v).
Proof.
  intros (m & H1) (n & H2). exists (m - n)%Z. rewrite minus_IZR. lra.
Qed.

Lemma fmod360_congr (x : R) : congr360 (fmod360 x) x.
Proof.
  exists (- floor (x / 360))%Z. unfold fmod360. rewrite opp_IZR. lra.
Qed.

Lemma fmod360_unique (x y : R) :
  0 <= y < 360 -> congr360 x y -> fmod360 x = y.
Proof.
  intros Hy (m & H). unfold fmod360.
  rewrite (floor_unique (x / 360) m).
  - lra.
  - assert (E : x / 360 = IZR m + y / 360) by (field_simplify_eq; lra).
    rewrite E. lra.
Qed.

Lemma fmod360_of_congr (x y : R) :
  congr360 x y -> fmod360 x = fmod360 y.
Proof.
  intros H. apply fmod360_unique.
  - apply fmod360_range.
  - apply congr360_trans with y; [exact H |].
    apply congr360_sym, fmod360_congr.
Qed.

Lemma normalize_deg_fmod (x : R) : _normalize_deg x = fmod360 x.
Proof.
  unfold _normalize_deg. destruct (Rlt_dec (fmod360 x) 0) as [H | H].
  - destruct (fmod360_range x). lra.
  - reflexivity.
Qed.

(** ** Cosine over whole half-turns *)

Lemma sign_of_succ (k : Z) : sign_of (Z.succ k) = - sign_of k.
Proof.
  unfold sign_of. rewrite Z.even_succ, <- Z.negb_even.
  destruct (Z.even k); simpl; lra.
Qed.

Lemma sign_of_pred (k : Z) : sign_of (Z.pred k) = - sign_of k.
Proof.
  unfold sign_of. rewrite Z.even_pred, <- Z.negb_even.
  destruct (Z.even k); simpl; lra.
Qed.

Lemma cos_half_turns (k : Z) :
  forall x, cos (x + IZR k * PI) = sign_of k * cos x.
Proof.
  induction k as [| k IH | k IH] using Z.peano_ind; intros x.
  - unfold sign_of. simpl. replace (x + 0 * PI) with x by ring. ring.
  - rewrite succ_IZR, sign_of_succ.
    replace (x + (IZR k + 1) * PI) with ((x + IZR k * PI) + PI) by ring.
    rewrite neg_cos, IH. ring.
  - unfold Z.pred at 1. rewrite plus_IZR, sign_of_pred.
    replace (x + (IZR k + IZR (-1)) * PI) with ((x - PI) + IZR k * PI)
      by (simpl; ring).
    rewrite IH.
    replace (cos x) with (cos ((x - PI) + PI)) by (f_equal; ring).
    rewrite neg_cos. ring.
Qed.

Lemma sign_of_sq (k : Z) : sign_of k * sign_of k = 1.
Proof. unfold sign_of. destruct (Z.even k); ring. Qed.

Lemma sign_of_double (m : Z) : sign_of (2 * m) = 1.
Proof. unfold sign_of. rewrite Z.even_mul. reflexivity. Qed.

Lemma radians_half_turns (a : R) (k : Z) :
  radians (a + 180 * IZR k) = radians a + IZR k * PI.
Proof. unfold radians. field. Qed.

Lemma cosd_half_turns (a : R) (k : Z) :
  cosd (a + 180 * IZR k) = sign_of k * cosd a.
Proof.
  unfold cosd. rewrite radians_half_turns. apply cos_half_turns.
Qed.

Lemma cosd_congr (x y : R) : congr360 x y -> cosd x = cosd y.
Proof.
  intros (m & H).
  replace x with (y + 180 * IZR (2 * m)) by (rewrite mult_IZR; lra).
  rewrite cosd_half_turns, sign_of_double. ring.
Qed.

Lemma sind_cosd (x : R) : sind x = cosd (x - 90).
Proof.
  unfold sind, cosd, radians.
  replace ((x - 90) * PI / 180) with (- (PI / 2 - x * PI / 180)) by field.
  rewrite cos_neg, cos_shift. reflexivity.
Qed.

Lemma sind_congr (x y : R) : congr360 x y -> sind x = sind y.
Proof.
  intros H. rewrite !sind_cosd. apply cosd_congr.
  apply congr360_sub; [exact H | apply congr360_refl].
Qed.

(** On one half-turn [180k .. 180(k+1)] the cosine is monotone. *)
Lemma cosd_monotone (k : Z) (x y : R) :
  180 * IZR k <= x -> x <= y -> y <= 180 * IZR k + 180 ->
  sign_of k * cosd y <= sign_of k * cosd x.
Proof.
  intros Hx Hxy Hy.
  replace x with ((x - 180 * IZR k) + 180 * IZR k) by ring.
  replace y with ((y - 180 * IZR k) + 180 * IZR k) by ring.
  rewrite !cosd_half_turns.
  rewrite <- !Rmult_assoc, !sign_of_sq, !Rmult_1_l.
  unfold cosd, radians. pose proof PI_RGT_0 as Hpi.
  apply cos_decr_1; nra.
Qed.

End Angles.
Section ArcBox.
Import Geometry XmlDrawing Angles Resolver.
Local Open Scope R_scope.

Lemma cosd_between (lo hi t : R) :
  lo <= t <= hi ->
  exists a b, critical lo hi a /\ critical lo hi b
              /\ cosd a <= cosd t <= cosd b.
Proof.
  intros [Hlo Hhi].
  set (k := floor (t / 180)).
  destruct (floor_bounds (t / 180)) as [Hk1 Hk2]. fold k in Hk1, Hk2.
  assert (Hm1 : 180 * IZR k <= t) by lra.
  assert (Hm2 : t < 180 * IZR k + 180) by lra.
  assert (HL : exists L, critical lo hi L /\ 180 * IZR k <= L <= t).
  { destruct (Rle_dec (180 * IZR k) lo) as [H | H].
    - exists lo. split; [left; reflexivity | lra].
    - destruct (Rlt_dec (180 * IZR k) hi) as [H' | H'].
      + exists (180 * IZR k). split; [| lra].
        right; right. split; [lra | exists k; reflexivity].
      + exists hi. split; [right; left; reflexivity | lra]. }
  assert (HH : exists H, critical lo hi H /\ t <= H <= 180 * IZR k + 180).
  { destruct (Rle_dec hi (180 * IZR k + 180)) as [H | H].
    - exists hi. split; [right; left; reflexivity | lra].
    - exists (180 * IZR (k + 1)). rewrite plus_IZR. split; [| lra].
      right; right. split; [lra | exists (k + 1)%Z; rewrite plus_IZR; reflexivity]. }
  destruct HL as (L & HcL & HL1 & HL2).
  destruct HH as (H & HcH & HH1 & HH2).
  pose proof (cosd_monotone k L t HL1 HL2 (Rlt_le _ _ Hm2)) as M1.
  pose proof (cosd_monotone k t H Hm1 HH1 HH2) as M2.
  unfold sign_of in M1, M2. destruct (Z.even k).
  - exists H, L. repeat split; try assumption; lra.
  - exists L, H. repeat split; try assumption; lra.
Qed.

Lemma sind_between (lo hi t : R) :
  lo <= t <= hi ->
  exists a b, critical_sin lo hi a /\ critical_sin lo hi b
              /\ sind a <= sind t <= sind b.
Proof.
  intros Ht.
  destruct (cosd_between (lo - 90) (hi - 90) (t - 90)) as (a & b & Ha & Hb & Hc);
    [lra |].
  assert (shift : forall x, critical (lo - 90) (hi - 90) x ->
                            critical_sin lo hi (x + 90)).
  { intros x [E | [E | (Hx & k & E)]].
    - left. lra.
    - right; left. lra.
    - right; right. split; [lra | exists k; lra]. }
  exists (a + 90), (b + 90).
  split; [exact (shift a Ha) |]. split; [exact (shift b Hb) |].
  rewrite !sind_cosd.
  replace (a + 90 - 90) with a by ring.
  replace (b + 90 - 90) with b by ring.
  exact Hc.
Qed.

Lemma sweep_ends (a0 a1 : R) (d : direction) :
  (sweep_lo a0 a1 d = a0 \/ congr360 (sweep_lo a0 a1 d) a1)
  /\ (sweep_hi a0 a1 d = a0 \/ congr360 (sweep_hi a0 a1 d) a1)
  /\ 0 <= sweep_hi a0 a1 d - sweep_lo a0 a1 d < 360.
Proof.
  destruct d; simpl.
  - destruct (fmod360_congr (a0 - a1)) as (m & Hm).
    pose proof (fmod360_range (a0 - a1)).
    split; [right; exists (- m)%Z; rewrite opp_IZR; lra |].
    split; [left; reflexivity | lra].
  - destruct (fmod360_congr (a1 - a0)) as (m & Hm).
    pose proof (fmod360_range (a1 - a0)).
    split; [left; reflexivity |].
    split; [right; exists m; lra | lra].
Qed.

(** A cardinal angle strictly inside the sweep passes [_angle_in_sweep]. *)
Lemma in_sweep_interior (a0 a1 : R) (d : direction) (x c : R) :
  sweep_lo a0 a1 d < x < sweep_hi a0 a1 d ->
  congr360 x c ->
  _angle_in_sweep c a0 a1 d = true.
Proof.
  intros Hx Hc. unfold _angle_in_sweep.
  rewrite !normalize_deg_fmod.
  assert (Heps : 0 < eps) by (unfold eps; lra).
  destruct d; simpl in Hx |- *.
  - (* CW: the sweep runs from a1 up to a0 *)
    pose proof (fmod360_range (a0 - a1)) as HD.
    destruct (fmod360_congr (a0 - a1)) as (m & Hm).
    assert (Hspan : fmod360 (fmod360 a0 - fmod360 a1) = fmod360 (a0 - a1)).
    { apply fmod360_of_congr.
      apply congr360_sub; apply fmod360_congr. }
    assert (Hrel : fmod360 (fmod360 c - fmod360 a1)
                   = x - (a0 - fmod360 (a0 - a1))).
    { apply fmod360_unique; [lra |].
      apply congr360_trans with (c - a1).
      - apply congr360_sub; apply fmod360_congr.
      - destruct Hc as (n & Hn). exists (- n - m)%Z.
        rewrite minus_IZR, opp_IZR. lra. }
    rewrite Hspan, Hrel.
    destruct (Rle_dec _ _) as [H | H]; [reflexivity | lra].
  - (* CCW: the sweep runs from a0 up to a1 *)
    pose proof (fmod360_range (a1 - a0)) as HD.
    assert (Hspan : fmod360 (fmod360 a1 - fmod360 a0) = fmod360 (a1 - a0)).
    { apply fmod360_of_congr.
      apply congr360_sub; apply fmod360_congr. }
    assert (Hrel : fmod360 (fmod360 c - fmod360 a0) = x - a0).
    { apply fmod360_unique; [lra |].
      apply congr360_trans with (c - a0).
      - apply congr360_sub; apply fmod360_congr.
      - apply congr360_sub; [apply congr360_sym; exact Hc
                            | apply congr360_refl]. }
    rewrite Hspan, Hrel.
    destruct (Rle_dec _ _) as [H | H]; [reflexivity | lra].
Qed.

Lemma arc_bounds_points_cons (cx cy r a0 a1 : R) (d : direction) :
  arc_bounds_points cx cy r a0 a1 d
  = circle_point cx cy r (radians a0)
    :: circle_point cx cy r (radians a1)
    :: map (fun ang => circle_point cx cy r (radians ang))
           (filter (fun ang => _angle_in_sweep ang a0 a1 d) cardinals).
Proof. reflexivity. Qed.

Lemma cardinal_point_in (cx cy r a0 a1 : R) (d : direction) (c : R) :
  In c cardinals ->
  _angle_in_sweep c a0 a1 d = true ->
  In (circle_point cx cy r (radians c)) (arc_bounds_points cx cy r a0 a1 d).
Proof.
  intros Hc Hs. rewrite arc_bounds_points_cons.
  right; right.
  apply (in_map (fun ang => circle_point cx cy r (radians ang))).
  apply filter_In. split; assumption.
Qed.

(** Every critical angle of the cosine is the angle of a collected
    point, up to whole turns. *)
Lemma critical_attained (cx cy r a0 a1 : R) (d : direction) (x : R) :
  critical (sweep_lo a0 a1 d) (sweep_hi a0 a1 d) x ->
  exists p, In p (arc_bounds_points cx cy r a0 a1 d)
            /\ fst p = cx + r * cosd x.
Proof.
  destruct (sweep_ends a0 a1 d) as (Hlo & Hhi & _).
  assert (ends : forall y, y = a0 \/ congr360 y a1 ->
            exists p, In p (arc_bounds_points cx cy r a0 a1 d)
                      /\ fst p = cx + r * cosd y).
  { intros y [E | E]; rewrite arc_bounds_points_cons.
    - subst y. eexists. split; [left; reflexivity | reflexivity].
    - eexists. split; [right; left; reflexivity |].
      simpl. rewrite (cosd_congr y a1 E). reflexivity. }
  intros [E | [E | (Hx & k & E)]].
  - subst x. apply ends. exact Hlo.
  - subst x. apply ends. exact Hhi.
  - set (c := if Z.even k then 0 else 180).
    assert (Hc : congr360 x c).
    { unfold c. destruct (Z.even k) eqn:Ek.
      - apply Z.even_spec in Ek. destruct Ek as (j & Ej).
        exists j. rewrite E, Ej, mult_IZR. lra.
      - rewrite <- Z.negb_odd in Ek. apply negb_false_iff in Ek.
        apply Z.odd_spec in Ek. destruct Ek as (j & Ej).
        exists j. rewrite E, Ej, plus_IZR, mult_IZR. lra. }
    exists (circle_point cx cy r (radians c)). split.
    + apply cardinal_point_in.
      * unfold c, cardinals. destruct (Z.even k); simpl; auto.
      * exact (in_sweep_interior a0 a1 d x c Hx Hc).
    + simpl. rewrite (cosd_congr x c Hc). reflexivity.
Qed.

Lemma critical_sin_attained (cx cy r a0 a1 : R) (d : direction) (x : R) :
  critical_sin (sweep_lo a0 a1 d) (sweep_hi a0 a1 d) x ->
  exists p, In p (arc_bounds_points cx cy r a0 a1 d)
            /\ snd p = cy - r * sind x.
Proof.
  destruct (sweep_ends a0 a1 d) as (Hlo & Hhi & _).
  assert (ends : forall y, y = a0 \/ congr360 y a1 ->
            exists p, In p (arc_bounds_points cx cy r a0 a1 d)
                      /\ snd p = cy - r * sind y).
  { intros y [E | E]; rewrite arc_bounds_points_cons.
    - subst y. eexists. split; [left; reflexivity | reflexivity].
    - eexists. split; [right; left; reflexivity |].
      simpl. rewrite (sind_congr y a1 E). reflexivity. }
  intros [E | [E | (Hx & k & E)]].
  - subst x. apply ends. exact Hlo.
  - subst x. apply ends. exact Hhi.
  - set (c := if Z.even k then 90 else 270).
    assert (Hc : congr360 x c).
    { unfold c. destruct (Z.even k) eqn:Ek.
      - apply Z.even_spec in Ek. destruct Ek as (j & Ej).
        exists j. rewrite E, Ej, mult_IZR. lra.
      - rewrite <- Z.negb_odd in Ek. apply negb_false_iff in Ek.
        apply Z.odd_spec in Ek. destruct Ek as (j & Ej).
        exists j. rewrite E, Ej, plus_IZR, mult_IZR. lra. }
    exists (circle_point cx cy r (radians c)). split.
    + apply cardinal_point_in.
      * unfold c, cardinals. destruct (Z.even k); simpl; auto.
      * exact (in_sweep_interior a0 a1 d x c Hx Hc).
    + simpl. rewrite (sind_congr x c Hc). reflexivity.
Qed.

(** ** Minimum and maximum of a list *)

Lemma list_min_le (xs : list R) :
  forall x0 v, In v (x0 :: xs) -> list_min x0 xs <= v.
Proof.
  unfold list_min.
  induction xs as [| x rest IH]; simpl; intros x0 v Hv.
  - destruct Hv as [E | []]. subst. lra.
  - destruct Hv as [E | [E | Hv]].
    + subst v. apply Rle_trans with (Rmin x0 x).
      * apply IH. left. reflexivity.
      * apply Rmin_l.
    + subst v. apply Rle_trans with (Rmin x0 x).
      * apply IH. left. reflexivity.
      * apply Rmin_r.
    + apply IH. right. exact Hv.
Qed.

Lemma list_max_ge (xs : list R) :
  forall x0 v, In v (x0 :: xs) -> v <= list_max x0 xs.
Proof.
  unfold list_max.
  induction xs as [| x rest IH]; simpl; intros x0 v Hv.
  - destruct Hv as [E | []]. subst. lra.
  - destruct Hv as [E | [E | Hv]].
    + subst v. apply Rle_trans with (Rmax x0 x).
      * apply Rmax_l.
      * apply IH. left. reflexivity.
    + subst v. apply Rle_trans with (Rmax x0 x).
      * apply Rmax_r.
      * apply IH. left. reflexivity.
    + apply IH. right. exact Hv.
Qed.

Lemma arc_bounds_x (cx cy r a0 a1 : R) (d : direction) (p : R * R) :
  In p (arc_bounds_points cx cy r a0 a1 d) ->
  let '(b0, _, b2, _) := arc_bounds cx cy r a0 a1 d in
  b0 <= fst p <= b2.
Proof.
  intros Hp. unfold arc_bounds.
  rewrite arc_bounds_points_cons in *.
  set (rest := map _ (filter _ cardinals)) in *.
  apply (in_map fst) in Hp. cbn [map hd tl] in *.
  split; [apply list_min_le | apply list_max_ge]; exact Hp.
Qed.

Lemma arc_bounds_y (cx cy r a0 a1 : R) (d : direction) (p : R * R) :
  In p (arc_bounds_points cx cy r a0 a1 d) ->
  let '(_, b1, _, b3) := arc_bounds cx cy r a0 a1 d in
  b1 <= snd p <= b3.
Proof.
  intros Hp. unfold arc_bounds.
  rewrite arc_bounds_points_cons in *.
  set (rest := map _ (filter _ cardinals)) in *.
  apply (in_map snd) in Hp. cbn [map hd tl] in *.
  split; [apply list_min_le | apply list_max_ge]; exact Hp.
Qed.


(** Every point of the circle at an angle of the sweep lies in the box
    of the arc. *)
Lemma swept_point_in_box (cx cy r a0 a1 : R) (d : direction) (t : R) :
  0 <= r ->
  sweep_lo a0 a1 d <= t <= sweep_hi a0 a1 d ->
  box_contains (arc_bounds cx cy r a0 a1 d)
               (circle_point cx cy r (radians t)).
Proof.
  intros Hr Ht.
  destruct (cosd_between _ _ _ Ht) as (a & b & Ha & Hb & Hab).
  destruct (sind_between _ _ _ Ht) as (a' & b' & Ha' & Hb' & Hab').
  destruct (critical_attained cx cy r a0 a1 d a Ha) as (pa & Hpa & Epa).
  destruct (critical_attained cx cy r a0 a1 d b Hb) as (pb & Hpb & Epb).
  destruct (critical_sin_attained cx cy r a0 a1 d a' Ha') as (qa & Hqa & Eqa).
  destruct (critical_sin_attained cx cy r a0 a1 d b' Hb') as (qb & Hqb & Eqb).
  pose proof (arc_bounds_x cx cy r a0 a1 d pa Hpa) as Xa.
  pose proof (arc_bounds_x cx cy r a0 a1 d pb Hpb) as Xb.
  pose proof (arc_bounds_y cx cy r a0 a1 d qa Hqa) as Ya.
  pose proof (arc_bounds_y cx cy r a0 a1 d qb Hqb) as Yb.
  unfold box_contains.
  destruct (arc_bounds cx cy r a0 a1 d) as [[[b0 b1] b2] b3].
  unfold circle_point. simpl. fold (cosd t). fold (sind t).
  rewrite Epa in Xa. rewrite Epb in Xb. rewrite Eqa in Ya. rewrite Eqb in Yb.
  split; split; nra.
Qed.

End ArcBox.
Section Polar.
Import Geometry XmlDrawing Angles Resolver.
Local Open Scope R_scope.

Lemma hypot_scaled (x y : R) :
  x <> 0 -> hypot x y = Rabs x * sqrt (1 + (y / x)²).
Proof.
  intros Hx. unfold hypot.
  replace (x * x + y * y) with (x² * (1 + (y / x)²))
    by (unfold Rsqr; field; exact Hx).
  rewrite sqrt_mult; [| apply Rle_0_sqr |].
  - rewrite sqrt_Rsqr_abs. reflexivity.
  - pose proof (Rle_0_sqr (y / x)). lra.
Qed.

Lemma sqrt_one_plus_sq_pos (t : R) : 0 < sqrt (1 + t²).
Proof.
  apply sqrt_lt_R0. pose proof (Rle_0_sqr t). lra.
Qed.

(** [atan2] gives the angle of a vector: radius times cosine and sine
    give the vector back. *)
Lemma atan2_polar (x y : R) :
  hypot x y * cos (atan2 y x) = x /\ hypot x y * sin (atan2 y x) = y.
Proof.
  unfold atan2.
  destruct (Rlt_dec 0 x) as [Hx | Hx].
  - rewrite hypot_scaled by lra. rewrite Rabs_right by lra.
    rewrite cos_atan, sin_atan.
    pose proof (sqrt_one_plus_sq_pos (y / x)) as Hs.
    split; field; lra.
  - destruct (Rlt_dec x 0) as [Hx' | Hx'].
    + rewrite hypot_scaled by lra. rewrite Rabs_left by lra.
      pose proof (sqrt_one_plus_sq_pos (y / x)) as Hs.
      destruct (Rle_dec 0 y) as [Hy | Hy].
      * rewrite neg_cos, neg_sin, cos_atan, sin_atan. split; field; lra.
      * replace (atan (y / x) - PI) with (- (PI - atan (y / x))) by ring.
        rewrite cos_neg, sin_neg, Rtrigo_facts.cos_pi_minus, sin_PI_x.
        rewrite cos_atan, sin_atan. split; field; lra.
    + assert (E : x = 0) by lra. subst x.
      assert (Hh : hypot 0 y = Rabs y).
      { unfold hypot. replace (0 * 0 + y * y) with (y²) by (unfold Rsqr; ring).
        apply sqrt_Rsqr_abs. }
      rewrite Hh.
      destruct (Rlt_dec 0 y) as [Hy | Hy].
      * rewrite cos_PI2, sin_PI2, Rabs_right by lra. split; ring.
      * destruct (Rlt_dec y 0) as [Hy' | Hy'].
        -- rewrite cos_neg, sin_neg, cos_PI2, sin_PI2, Rabs_left by lra.
           split; ring.
        -- assert (E : y = 0) by lra. subst y.
           rewrite Rabs_R0. split; ring.
Qed.

Lemma radians_degrees (t : R) : radians (degrees t) = t.
Proof.
  unfold radians, degrees. field. apply PI_neq0.
Qed.

(** The circle point at the angle [_angle_deg_math] measures, at the
    distance of the point from the centre, is the point itself. *)
Lemma circle_point_at_angle (cx cy px py : R) :
  circle_point cx cy (hypot (px - cx) (py - cy))
               (radians (_angle_deg_math cx cy px py))
  = (px, py).
Proof.
  unfold circle_point, _angle_deg_math.
  set (t := atan2 (cy - py) (px - cx)).
  assert (Ec : cos (radians (fmod360 (degrees t))) = cos t).
  { change (cosd (fmod360 (degrees t)) = cos t).
    rewrite (cosd_congr _ _ (fmod360_congr (degrees t))).
    unfold cosd. rewrite radians_degrees. reflexivity. }
  assert (Es : sin (radians (fmod360 (degrees t))) = sin t).
  { change (sind (fmod360 (degrees t)) = sin t).
    rewrite (sind_congr _ _ (fmod360_congr (degrees t))).
    unfold sind. rewrite radians_degrees. reflexivity. }
  rewrite Ec, Es.
  assert (Eh : hypot (px - cx) (py - cy) = hypot (px - cx) (cy - py)).
  { unfold hypot. f_equal. ring. }
  rewrite Eh.
  destruct (atan2_polar (px - cx) (cy - py)) as (Hc & Hs).
  fold t in Hc, Hs. rewrite Hc, Hs. f_equal; ring.
Qed.

End Polar.
Section LevelBounds.
Import Py Xml Geometry XmlDrawing Angles Resolver.
Local Open Scope string_scope.
Local Open Scope list_scope.
Local Open Scope R_scope.

Lemma arc_radius_nonneg (sx sy cx cy declared : R) :
  0 <= arc_radius sx sy cx cy declared.
Proof.
  unfold arc_radius, hypot.
  destruct (Req_dec_T _ 0); [apply Rmax_r | apply sqrt_pos].
Qed.

Lemma arc_num_segments_pos (zoom r delta : R) :
  (2 <= arc_num_segments zoom r delta)%Z.
Proof.
  unfold arc_num_segments.
  destruct (Z.ltb_spec (Z.max 12 (Z.min 512 (trunc (Rabs (radians delta) * Rmax (r * zoom) 1 / 3)))) 2); lia.
Qed.

(** Every sample of the polyline of an arc lies in the box of the arc. *)
Lemma polyline_in_box (zoom cx cy r a0 a1 : R) (d : direction) (p : R * R) :
  0 <= r ->
  In p (arc_polyline_world_points zoom cx cy r a0 a1 d) ->
  box_contains (arc_bounds cx cy r a0 a1 d) p.
Proof.
  intros Hr Hp. unfold arc_polyline_world_points in Hp.
  apply in_map_iff in Hp. destruct Hp as (i & Ep & Hi).
  apply in_seq in Hi.
  set (n := arc_num_segments zoom r (arc_delta_deg a0 a1 d)) in *.
  pose proof (arc_num_segments_pos zoom r (arc_delta_deg a0 a1 d)) as Hn.
  fold n in Hn.
  assert (Hn0 : 0 < IZR n) by (apply IZR_lt; lia).
  assert (Hin : 0 <= INR i <= IZR n).
  { split; [apply pos_INR |]. rewrite INR_IZR_INZ. apply IZR_le. lia. }
  set (q := INR i / IZR n).
  assert (Hq : 0 <= q <= 1).
  { unfold q. split.
    - apply Rmult_le_pos; [lra | left; apply Rinv_0_lt_compat; exact Hn0].
    - apply Rmult_le_reg_r with (IZR n); [exact Hn0 |].
      unfold Rdiv. rewrite Rmult_assoc, Rinv_l; lra. }
  assert (Eang : radians a0 + INR i * (radians (arc_delta_deg a0 a1 d) / IZR n)
                 = radians (a0 + q * arc_delta_deg a0 a1 d)).
  { unfold radians, q. field. lra. }
  rewrite Eang in Ep. subst p.
  apply swept_point_in_box; [exact Hr |].
  destruct d; simpl.
  - pose proof (fmod360_range (a0 - a1)). nra.
  - pose proof (fmod360_range (a1 - a0)). nra.
Qed.

(** ** Growing the bounds *)

Lemma add_bounds_keeps (b : box) (bs : bounds) (p : R * R) :
  inside bs p -> inside (add_bounds b bs) p.
Proof.
  destruct b as [[[b0 b1] b2] b3], bs as [[[m0 m1] m2] m3].
  unfold inside, add_bounds. intros (H0 & H1 & H2 & H3).
  repeat split.
  - destruct m0; simpl in *; try tauto.
    apply Rle_trans with r; [apply Rmin_l | exact H0].
  - destruct m1; simpl in *; try tauto.
    apply Rle_trans with r; [apply Rmin_l | exact H1].
  - destruct m2; simpl in *; try tauto.
    apply Rle_trans with r; [exact H2 | apply Rmax_l].
  - destruct m3; simpl in *; try tauto.
    apply Rle_trans with r; [exact H3 | apply Rmax_l].
Qed.

Lemma add_bounds_adds (b : box) (bs : bounds) (p : R * R) :
  box_contains b p -> inside (add_bounds b bs) p.
Proof.
  destruct b as [[[b0 b1] b2] b3], bs as [[[m0 m1] m2] m3].
  unfold inside, add_bounds, box_contains.
  intros ((H0 & H2) & (H1 & H3)).
  repeat split.
  - destruct m0; simpl; try exact I; try assumption.
    apply Rle_trans with b0; [apply Rmin_r | exact H0].
  - destruct m1; simpl; try exact I; try assumption.
    apply Rle_trans with b1; [apply Rmin_r | exact H1].
  - destruct m2; simpl; try exact I; try assumption.
    apply Rle_trans with b2; [exact H2 | apply Rmax_r].
  - destruct m3; simpl; try exact I; try assumption.
    apply Rle_trans with b3; [exact H3 | apply Rmax_r].
Qed.

(** ** One edge, one barcode *)

Lemma edge_bounds_keeps (ang ox oy : R) (e : Edge.t) (bs : bounds)
    (p : R * R) :
  inside bs p -> inside (edge_bounds ang ox oy e bs) p.
Proof.
  intros H. unfold edge_bounds.
  destruct (is_type (Edge.type e) "line").
  - destruct (resolve ang ox oy (Edge.xs e) (Edge.ys e)) as [sx sy].
    destruct (resolve ang ox oy (Edge.xe e) (Edge.ye e)) as [ex ey].
    apply add_bounds_keeps. exact H.
  - destruct (is_type (Edge.type e) "arc"); [| exact H].
    destruct (resolve ang ox oy (Edge.xs e) (Edge.ys e)) as [sx sy].
    destruct (resolve ang ox oy (Edge.xe e) (Edge.ye e)) as [ex ey].
    destruct (resolve ang ox oy (Edge.xc e) (Edge.yc e)) as [cx cy].
    apply add_bounds_keeps. exact H.
Qed.

Lemma barcode_bounds_keeps (ang ox oy : R) (bc : Barcode.t) (bs : bounds)
    (p : R * R) :
  inside bs p -> inside (barcode_bounds ang ox oy bc bs) p.
Proof.
  intros H. unfold barcode_bounds.
  destruct (resolve ang ox oy (Barcode.x bc) (Barcode.y bc)) as [b_x b_y].
  apply add_bounds_keeps. exact H.
Qed.

Lemma covered_keeps (canvas : Canvas) (bs bs' : bounds) (v : R * R) :
  (forall p, inside bs p -> inside bs' p) ->
  covered canvas bs v -> covered canvas bs' v.
Proof.
  intros Hk (wx & wy & E & Hin). exists wx, wy. split; [exact E | auto].
Qed.

(** What the draw walk paints for an edge lies within what the bounds
    walk adds for it. *)
Lemma edge_covered (canvas : Canvas) (ang ox oy : R) (e : Edge.t)
    (bs : bounds) (v : R * R) :
  In v (flat_map vertices (draw_edge canvas ang ox oy e)) ->
  covered canvas (edge_bounds ang ox oy e bs) v.
Proof.
  unfold draw_edge, edge_bounds.
  destruct (is_type (Edge.type e) "line").
  - destruct (resolve ang ox oy (Edge.xs e) (Edge.ys e)) as [sx sy].
    destruct (resolve ang ox oy (Edge.xe e) (Edge.ye e)) as [ex ey].
    intros Hv. simpl in Hv. destruct Hv as [E | [E | []]]; subst v.
    + exists sx, sy. split; [reflexivity |].
      apply add_bounds_adds. unfold box_contains. simpl.
      repeat split; try apply Rmin_l; try apply Rmax_l.
    + exists ex, ey. split; [reflexivity |].
      apply add_bounds_adds. unfold box_contains. simpl.
      repeat split; try apply Rmin_r; try apply Rmax_r.
  - destruct (is_type (Edge.type e) "arc"); [| intros []].
    destruct (resolve ang ox oy (Edge.xs e) (Edge.ys e)) as [sx sy].
    destruct (resolve ang ox oy (Edge.xe e) (Edge.ye e)) as [ex ey].
    destruct (resolve ang ox oy (Edge.xc e) (Edge.yc e)) as [cx cy].
    destruct (1 <? _)%nat; [| intros []].
    intros Hv. simpl in Hv. rewrite app_nil_r in Hv.
    apply in_map_iff in Hv. destruct Hv as ([wx wy] & E & Hw).
    exists wx, wy. split; [symmetry; exact E |].
    apply add_bounds_adds.
    apply polyline_in_box with (zoom := zoom_level canvas);
      [apply arc_radius_nonneg | exact Hw].
Qed.

Lemma barcode_covered (canvas : Canvas) (ang ox oy : R) (bc : Barcode.t)
    (bs : bounds) (v : R * R) :
  0 <= Barcode.width bc -> 0 <= Barcode.height bc ->
  In v (flat_map vertices (draw_barcode canvas ang ox oy bc)) ->
  covered canvas (barcode_bounds ang ox oy bc bs) v.
Proof.
  intros Hw Hh. unfold draw_barcode, barcode_bounds.
  destruct (resolve ang ox oy (Barcode.x bc) (Barcode.y bc)) as [b_x b_y].
  unfold world_to_screen at 1.
  assert (Hv : forall u,
             In u [(b_x, b_y); (b_x + Barcode.width bc, b_y);
                   (b_x, b_y + Barcode.height bc);
                   (b_x + Barcode.width bc, b_y + Barcode.height bc)] ->
             inside (add_bounds (b_x, b_y, b_x + Barcode.width bc,
                                 b_y + Barcode.height bc) bs) u).
  { intros u Hu. apply add_bounds_adds. unfold box_contains.
    simpl in Hu.
    destruct Hu as [E | [E | [E | [E | []]]]]; subst u; simpl; lra. }
  intros Hin.
  assert (Hrect : In v [(b_x * zoom_level canvas + fst (pan_offset canvas),
                         b_y * zoom_level canvas + snd (pan_offset canvas));
                        (b_x * zoom_level canvas + fst (pan_offset canvas)
                         + Barcode.width bc * zoom_level canvas,
                         b_y * zoom_level canvas + snd (pan_offset canvas));
                        (b_x * zoom_level canvas + fst (pan_offset canvas),
                         b_y * zoom_level canvas + snd (pan_offset canvas)
                         + Barcode.height bc * zoom_level canvas);
                        (b_x * zoom_level canvas + fst (pan_offset canvas)
                         + Barcode.width bc * zoom_level canvas,
                         b_y * zoom_level canvas + snd (pan_offset canvas)
                         + Barcode.height bc * zoom_level canvas)]).
  { destruct (Barcode.content bc) as [[| c s] |]; simpl in Hin |- *;
      rewrite ?app_nil_r in Hin; tauto. }
  clear Hin. unfold covered, world_to_screen.
  destruct Hrect as [E | [E | [E | [E | []]]]]; subst v.
  - exists b_x, b_y. split; [reflexivity |]. apply Hv. simpl; auto.
  - exists (b_x + Barcode.width bc), b_y. split; [f_equal; ring |].
    apply Hv. simpl; auto.
  - exists b_x, (b_y + Barcode.height bc). split; [f_equal; ring |].
    apply Hv. simpl; auto.
  - exists (b_x + Barcode.width bc), (b_y + Barcode.height bc).
    split; [f_equal; ring |]. apply Hv. simpl; auto.
Qed.

End LevelBounds.
Section WalkFrames.
Import Py Xml Geometry XmlDrawing Angles Resolver.
Local Open Scope string_scope.
Local Open Scope list_scope.
Local Open Scope R_scope.

Lemma bind_assoc_ok {A B : Type} (m : result A) (f : A -> B) :
  (x <- m ;; Ok (f x)) = match m with Ok a => Ok (f a) | Raise e => Raise e end.
Proof. destruct m; reflexivity. Qed.

(** The draw walk paints, frame after frame, what [draw_level] paints at
    the frames of the resolver. *)
Lemma draw_walk_frames (canvas : Canvas) (d : Drawing.t) :
  current_drawing canvas = Ok d ->
  forall (fuel : nat) (st : Step.t) (base ox oy : R) (color : Z),
    _draw_xml_step_recursive fuel canvas st base ox oy color 0
    = (fs <- frames fuel d canvas.(show_xml_repeats) st base ox oy ;;
       Ok (flat_map (draw_level canvas) fs)).
Proof.
  intros Hd. induction fuel as [| fuel IH]; intros st base ox oy color.
  - reflexivity.
  - cbn [_draw_xml_step_recursive frames]. cbn [Z.ltb Z.compare].
    unfold draw_level at 1. cbn [at_step world_off_x world_off_y].
    unfold angle_rad. cbn [base_angle_deg].
    set (ang := - base * PI / 180).
    set (E := if show_xml_edges canvas then _ else []).
    set (B := if show_xml_barcodes canvas then _ else []).
    destruct (show_xml_repeats canvas) eqn:Hrep.
    + rewrite Hd. cbn [Py.bind].
      match goal with
      | |- Py.bind (?L1 (Step.repeats st)) _
           = Py.bind (Py.bind (?L2 (Step.repeats st)) _) _ =>
          assert (Hloop : forall rpts,
                     L1 rpts
                     = (fs <- L2 rpts ;; Ok (flat_map (draw_level canvas) fs)))
      end.
      { induction rpts as [| rpt rest IHr].
        - reflexivity.
        - cbn beta iota fix match. rewrite IHr.
          unfold resolve.
          destruct (steps_get (Drawing.steps d) (Repeat.step rpt)) as [sub |].
          + destruct (rotate_translate _ _ _ _ _) as [rx ry].
            rewrite IH.
            destruct (frames fuel d true sub _ rx ry) as [fs1 | e1];
              [| reflexivity].
            cbn [Py.bind].
            match goal with
            | |- context [Py.bind (?L rest) _] => destruct (L rest) as [fs2 | e2]
            end; [| reflexivity].
            cbn [Py.bind]. rewrite flat_map_app. reflexivity.
          + cbn [Py.bind].
            match goal with
            | |- context [Py.bind (?L rest) _] => destruct (L rest) as [fs2 | e2]
            end; reflexivity. }
      rewrite Hloop.
      match goal with
      | |- context [Py.bind (?L (Step.repeats st)) _] =>
          destruct (L (Step.repeats st)) as [fs | e]
      end; [| reflexivity].
      cbn [Py.bind flat_map]. unfold draw_level at 1.
      cbn [at_step world_off_x world_off_y]. unfold angle_rad.
      cbn [base_angle_deg]. fold ang. fold E. fold B.
      rewrite <- !app_assoc. reflexivity.
    + cbn [Py.bind flat_map]. unfold draw_level.
      cbn [at_step world_off_x world_off_y]. unfold angle_rad.
      cbn [base_angle_deg]. fold ang. fold E. fold B.
      rewrite !app_nil_r. reflexivity.
Qed.

End WalkFrames.
Section WalkFrames2.
Import Py Xml Geometry XmlDrawing Angles Resolver.
Local Open Scope string_scope.
Local Open Scope list_scope.
Local Open Scope R_scope.

(** The bounds walk adds, frame after frame, what [bounds_level] adds at
    the frames of the resolver. *)
Lemma bounds_walk_frames (canvas : Canvas) (d : Drawing.t) (descend : bool) :
  forall (fuel : nat) (st : Step.t) (base ox oy : R) (depth : Z)
         (bs : bounds),
    bounds_walk fuel canvas d descend st base ox oy depth bs
    = (fs <- frames fuel d descend st base ox oy ;;
       Ok (fold_left (fun acc f => bounds_level canvas f acc) fs bs)).
Proof.
  induction fuel as [| fuel IH]; intros st base ox oy depth bs.
  - reflexivity.
  - cbn [bounds_walk frames].
    unfold angle_rad. cbn [base_angle_deg].
    set (ang := - base * PI / 180).
    assert (Hlevel :
      (if show_xml_barcodes canvas
       then
         fold_left
           (fun acc layer =>
              fold_left (fun acc0 bc => barcode_bounds ang ox oy bc acc0)
                        (Layer.barcode_list layer) acc)
           (Step.layers st)
           (if show_xml_edges canvas
            then fold_left (fun acc e => edge_bounds ang ox oy e acc)
                           (Step.edges st) bs
            else bs)
       else
         if show_xml_edges canvas
         then fold_left (fun acc e => edge_bounds ang ox oy e acc)
                        (Step.edges st) bs
         else bs)
      = bounds_level canvas (mk_frame st base ox oy) bs).
    { reflexivity. }
    rewrite Hlevel. clear Hlevel.
    set (bs1 := bounds_level canvas (mk_frame st base ox oy) bs).
    destruct descend.
    + match goal with
      | |- ?L1 (Step.repeats st) bs1
           = Py.bind (Py.bind (?L2 (Step.repeats st)) _) _ =>
          assert (Hloop : forall rpts b,
                     L1 rpts b
                     = (fs <- L2 rpts ;;
                        Ok (fold_left
                              (fun acc f => bounds_level canvas f acc) fs b)))
      end.
      { induction rpts as [| rpt rest IHr]; intros b.
        - reflexivity.
        - cbn beta iota fix match. unfold resolve.
          destruct (steps_get (Drawing.steps d) (Repeat.step rpt)) as [sub |].
          + destruct (rotate_translate _ _ _ _ _) as [rx ry].
            rewrite IH.
            destruct (frames fuel d true sub _ rx ry) as [fs1 | e1];
              [| reflexivity].
            cbn [Py.bind]. rewrite IHr.
            match goal with
            | |- context [Py.bind (?L rest) _] =>
                destruct (L rest) as [fs2 | e2]
            end; [| reflexivity].
            cbn [Py.bind]. rewrite fold_left_app. reflexivity.
          + cbn [Py.bind]. rewrite IHr.
            match goal with
            | |- context [Py.bind (?L rest) _] =>
                destruct (L rest) as [fs2 | e2]
            end; reflexivity. }
      rewrite Hloop.
      match goal with
      | |- context [Py.bind (?L (Step.repeats st)) _] =>
          destruct (L (Step.repeats st)) as [fs | e]
      end; reflexivity.
    + reflexivity.
Qed.

(** Every frame of a walk holds the root step or a step of the
    drawing. *)
Lemma frames_steps (d : Drawing.t) (repeats : bool) :
  forall (fuel : nat) (st : Step.t) (base ox oy : R) (fs : list frame),
    frames fuel d repeats st base ox oy = Ok fs ->
    forall f, In f fs ->
              at_step f = st
              \/ exists k, steps_get (Drawing.steps d) k = Some (at_step f).
Proof.
  induction fuel as [| fuel IH]; intros st base ox oy fs H f Hf.
  - discriminate H.
  - cbn [frames] in H.
    destruct repeats.
    + match type of H with
      | Py.bind (?L (Step.repeats st)) _ = _ =>
          assert (Hloop : forall rpts below,
                     L rpts = Ok below ->
                     forall g, In g below ->
                       exists k, steps_get (Drawing.steps d) k
                                 = Some (at_step g))
      end.
      { induction rpts as [| rpt rest IHr]; intros below Hb g Hg.
        - inversion Hb; subst. destruct Hg.
        - cbn beta iota fix match in Hb.
          destruct (steps_get (Drawing.steps d) (Repeat.step rpt))
            as [sub |] eqn:Hsub.
          + destruct (rotate_translate _ _ _ _ _) as [rx ry].
            destruct (frames fuel d true sub _ rx ry) as [fs1 | e1] eqn:Hfs1;
              [| discriminate Hb].
            cbn [Py.bind] in Hb.
            match type of Hb with
            | context [Py.bind (?L rest) _] =>
                destruct (L rest) as [fs2 | e2] eqn:Hfs2
            end; [| discriminate Hb].
            inversion Hb; subst below. apply in_app_or in Hg.
            destruct Hg as [Hg | Hg].
            * destruct (IH _ _ _ _ _ Hfs1 g Hg) as [E | E].
              -- exists (Repeat.step rpt). rewrite E. exact Hsub.
              -- exact E.
            * exact (IHr fs2 eq_refl g Hg).
          + cbn [Py.bind] in Hb.
            match type of Hb with
            | context [Py.bind (?L rest) _] =>
                destruct (L rest) as [fs2 | e2] eqn:Hfs2
            end; [| discriminate Hb].
            inversion Hb; subst below. exact (IHr fs2 eq_refl g Hg). }
      match type of H with
      | Py.bind (?L (Step.repeats st)) _ = _ =>
          destruct (L (Step.repeats st)) as [below | e] eqn:Hb
      end; [| discriminate H].
      inversion H; subst fs. destruct Hf as [E | Hf].
      * left. subst f. reflexivity.
      * right. exact (Hloop _ _ Hb f Hf).
    + inversion H; subst fs. destruct Hf as [E | []].
      left. subst f. reflexivity.
Qed.

(** On an acyclic repeat graph the resolver ends: a call stack deeper
    than the rank of the root is enough. *)
Lemma frames_total (d : Drawing.t) (repeats : bool)
    (rank : option string -> nat) :
  acyclic d rank ->
  forall (fuel : nat) (k : option string) (st : Step.t) (base ox oy : R),
    steps_get (Drawing.steps d) k = Some st ->
    (rank k < fuel)%nat ->
    exists fs, frames fuel d repeats st base ox oy = Ok fs
               /\ hd_error fs = Some (mk_frame st base ox oy).
Proof.
  intros Hacyc.
  induction fuel as [| fuel IH]; intros k st base ox oy Hk Hr.
  - lia.
  - cbn [frames]. destruct repeats; [| eexists; split; reflexivity].
    match goal with
    | |- exists fs, Py.bind (?L (Step.repeats st)) _ = _ /\ _ =>
        assert (Hloop : forall rpts,
                   (forall rpt, In rpt rpts -> In rpt (Step.repeats st)) ->
                   exists below, L rpts = Ok below)
    end.
    { induction rpts as [| rpt rest IHr]; intros Hsub.
      - eexists. reflexivity.
      - cbn beta iota fix match.
        destruct (IHr (fun r Hr' => Hsub r (or_intror Hr'))) as (fs2 & Hfs2).
        rewrite Hfs2.
        destruct (steps_get (Drawing.steps d) (Repeat.step rpt))
          as [sub |] eqn:Hs.
        + destruct (rotate_translate _ _ _ _ _) as [rx ry].
          assert (Hlt : (rank (Repeat.step rpt) < fuel)%nat).
          { pose proof (Hacyc k st rpt sub Hk (Hsub rpt (or_introl eq_refl)) Hs).
            lia. }
          destruct (IH (Repeat.step rpt) sub (base + Repeat.angle rpt) rx ry
                       Hs Hlt) as (fs1 & Hfs1 & _).
          rewrite Hfs1. eexists. reflexivity.
        + eexists. reflexivity. }
    destruct (Hloop (Step.repeats st) (fun r H => H)) as (below & Hb).
    rewrite Hb. eexists. split; reflexivity.
Qed.

End WalkFrames2.
Section WalkContainment.
Import Py Xml Geometry XmlDrawing Angles Resolver.
Local Open Scope string_scope.
Local Open Scope list_scope.
Local Open Scope R_scope.

Lemma fold_keeps {A : Type} (g : bounds -> A -> bounds) (p : R * R) :
  (forall a x, inside a p -> inside (g a x) p) ->
  forall xs acc, inside acc p -> inside (fold_left g xs acc) p.
Proof.
  intros Hg. induction xs as [| x rest IH]; simpl; intros acc H.
  - exact H.
  - apply IH. apply Hg. exact H.
Qed.

Lemma bounds_level_keeps (canvas : Canvas) (f : frame) (bs : bounds)
    (p : R * R) :
  inside bs p -> inside (bounds_level canvas f bs) p.
Proof.
  intros H. unfold bounds_level.
  assert (H1 : inside
                 (if show_xml_edges canvas
                  then fold_left
                         (fun acc e =>
                            edge_bounds (angle_rad f) (world_off_x f)
                                        (world_off_y f) e acc)
                         (Step.edges (at_step f)) bs
                  else bs) p).
  { destruct (show_xml_edges canvas); [| exact H].
    apply fold_keeps; [| exact H].
    intros a x Ha. apply edge_bounds_keeps. exact Ha. }
  destruct (show_xml_barcodes canvas); [| exact H1].
  apply fold_keeps; [| exact H1].
  intros a layer Ha. apply fold_keeps; [| exact Ha].
  intros a' bc Ha'. apply barcode_bounds_keeps. exact Ha'.
Qed.

(** If one step of a fold covers a vertex and every step keeps what is
    covered, the fold covers it. *)
Lemma fold_covers {A : Type} (g : bounds -> A -> bounds) (C : bounds -> Prop)
    (x : A) :
  (forall a, C (g a x)) ->
  (forall a y, C a -> C (g a y)) ->
  forall xs acc, In x xs -> C (fold_left g xs acc).
Proof.
  intros Hx Hk. induction xs as [| y rest IH]; simpl; intros acc Hin.
  - destruct Hin.
  - destruct Hin as [E | Hin].
    + subst y. clear IH. generalize (g acc x) (Hx acc).
      induction rest as [| z rest IH]; simpl; intros a Ha.
      * exact Ha.
      * apply IH. apply Hk. exact Ha.
    + apply IH. exact Hin.
Qed.

Lemma covered_keeps_level (canvas : Canvas) (f : frame) (bs : bounds)
    (v : R * R) :
  covered canvas bs v -> covered canvas (bounds_level canvas f bs) v.
Proof.
  apply covered_keeps. intros p. apply bounds_level_keeps.
Qed.

Lemma level_covered (canvas : Canvas) (f : frame) (bs : bounds) (v : R * R) :
  barcode_sizes_ok (at_step f) ->
  In v (flat_map vertices (draw_level canvas f)) ->
  covered canvas (bounds_level canvas f bs) v.
Proof.
  intros Hsz Hv. unfold draw_level in Hv. rewrite flat_map_app in Hv.
  apply in_app_or in Hv. unfold bounds_level.
  destruct Hv as [Hv | Hv].
  - (* an edge *)
    destruct (show_xml_edges canvas); [| destruct Hv].
    simpl in Hv. apply in_flat_map in Hv. destruct Hv as (pt & Hpt & Hv).
    apply in_flat_map in Hpt. destruct Hpt as (e & He & Hpt).
    assert (Hc : covered canvas
                   (fold_left
                      (fun acc e0 =>
                         edge_bounds (angle_rad f) (world_off_x f)
                                     (world_off_y f) e0 acc)
                      (Step.edges (at_step f)) bs) v).
    { apply fold_covers with (x := e); [| | exact He].
      - intros a. apply edge_covered.
        apply in_flat_map. exists pt. split; assumption.
      - intros a y. apply covered_keeps. intros p.
        apply edge_bounds_keeps. }
    destruct (show_xml_barcodes canvas); [| exact Hc].
    revert Hc. apply covered_keeps. intros p Hp.
    apply fold_keeps; [| exact Hp].
    intros a layer Ha. apply fold_keeps; [| exact Ha].
    intros a' bc Ha'. apply barcode_bounds_keeps. exact Ha'.
  - (* a barcode *)
    destruct (show_xml_barcodes canvas); [| destruct Hv].
    simpl in Hv. apply in_flat_map in Hv. destruct Hv as (pt & Hpt & Hv).
    apply in_flat_map in Hpt. destruct Hpt as (layer & Hl & Hpt).
    apply in_flat_map in Hpt. destruct Hpt as (bc & Hbc & Hpt).
    destruct (Hsz layer bc Hl Hbc) as (Hw & Hh).
    apply fold_covers with (x := layer); [| | exact Hl].
    + intros a. apply fold_covers with (x := bc); [| | exact Hbc].
      * intros a'. apply barcode_covered; try assumption.
        apply in_flat_map. exists pt. split; assumption.
      * intros a' y. apply covered_keeps. intros p.
        apply barcode_bounds_keeps.
    + intros a y. apply covered_keeps. intros p Hp.
      apply fold_keeps; [| exact Hp].
      intros a' bc' Ha'. apply barcode_bounds_keeps. exact Ha'.
Qed.

Lemma levels_covered (canvas : Canvas) (v : R * R) :
  forall (fs : list frame) (bs : bounds),
    (forall f, In f fs -> barcode_sizes_ok (at_step f)) ->
    In v (flat_map vertices (flat_map (draw_level canvas) fs)) ->
    covered canvas
      (fold_left (fun acc f => bounds_level canvas f acc) fs bs) v.
Proof.
  intros fs bs Hsz Hv.
  apply in_flat_map in Hv. destruct Hv as (pt & Hpt & Hv).
  apply in_flat_map in Hpt. destruct Hpt as (f & Hf & Hpt).
  apply fold_covers with (x := f); [| | exact Hf].
  - intros a. apply level_covered; [exact (Hsz f Hf) |].
    apply in_flat_map. exists pt. split; assumption.
  - intros a y. apply covered_keeps_level.
Qed.

Lemma selected_some (canvas : Canvas) (d : Drawing.t) (root : Step.t) :
  selected canvas = Ok (Some (d, root)) ->
  current_drawing canvas = Ok d
  /\ steps_get (Drawing.steps d) (current_xml_step canvas) = Some root.
Proof.
  unfold selected. intros H.
  destruct (xml_drawings canvas) eqn:Hx; [discriminate H |].
  destruct ((0 <=? current_xml_drawing_idx canvas)%Z && has_current_step canvas);
    [| discriminate H].
  destruct (current_drawing canvas) as [d' | e]; [| discriminate H].
  cbn [Py.bind] in H.
  destruct (steps_get (Drawing.steps d') (current_xml_step canvas))
    as [st |] eqn:Hs; [| discriminate H].
  inversion H; subst. split; [reflexivity | exact Hs].
Qed.

(** C4, amended.  Take a canvas whose selected drawing has an acyclic
    repeat graph and no barcode of negative width or height, with
    [include_repeats] on whenever repeats are shown, and a call stack
    deeper than the rank of the current step.  Then [draw_xml] and the
    bounds of [fit_step] (and of [fit_all]) return.  Both walks start at
    the root call, [base_angle_deg = 0] and offset [(-step.x, -step.y)],
    and both go through the same frames, composed as
    [rotate_translate(rpt.x, rpt.y, -base * pi / 180, off)] and
    [base + rpt.angle]: the draw walk paints frame by frame, the bounds
    walk adds frame by frame.  Every vertex the draw walk paints (line
    ends, arc samples, barcode corners) is the screen image of a world
    point inside the bounds. *)
Theorem bounds_contain_drawing (canvas : Canvas) (d : Drawing.t)
    (rank : option string -> nat) (root : Step.t)
    (include_repeats : bool) (fuel : nat) :
  selected canvas = Ok (Some (d, root)) ->
  acyclic d rank ->
  barcodes_ok d ->
  (include_repeats && show_xml_repeats canvas)%bool = show_xml_repeats canvas ->
  (rank (current_xml_step canvas) < fuel)%nat ->
  exists fs cmds bs,
    frames fuel d (show_xml_repeats canvas) root 0
           (- Step.x root) (- Step.y root) = Ok fs
    /\ hd_error fs
       = Some (mk_frame root 0 (- Step.x root) (- Step.y root))
    /\ cmds = flat_map (draw_level canvas) fs
    /\ bs = fold_left (fun acc f => bounds_level canvas f acc) fs no_bounds
    /\ _draw_xml_step_recursive fuel canvas root 0
         (- Step.x root) (- Step.y root) 0 0 = Ok cmds
    /\ draw_xml fuel canvas
       = Ok ([SetPen (80, 80, 100)%Z 2; SetNoBrush;
              DrawRect (fst (world_to_screen canvas 0 0))
                       (snd (world_to_screen canvas 0 0))
                       (Drawing.width d * zoom_level canvas)
                       (Drawing.height d * zoom_level canvas)]
             ++ cmds)
    /\ fit_step_compute_step_bounds fuel canvas d include_repeats root 0
         (- Step.x root) (- Step.y root) 0 no_bounds = Ok bs
    /\ fit_step_bounds fuel canvas include_repeats = Ok (Some bs)
    /\ fit_all_xml_bounds fuel canvas = Ok (Some bs)
    /\ forall v, In v (flat_map vertices cmds) -> covered canvas bs v.
Proof.
  intros Hsel Hacyc Hsz Hflag Hfuel.
  destruct (selected_some canvas d root Hsel) as (Hd & Hroot).
  destruct (frames_total d (show_xml_repeats canvas) rank Hacyc fuel
              (current_xml_step canvas)
              root 0 (- Step.x root) (- Step.y root) Hroot Hfuel)
    as (fs & Hfs & Hhd).
  assert (Hdraw : _draw_xml_step_recursive fuel canvas root 0
                    (- Step.x root) (- Step.y root) 0 0
                  = Ok (flat_map (draw_level canvas) fs)).
  { rewrite (draw_walk_frames canvas d Hd), Hfs. reflexivity. }
  assert (Hwalk : forall descend,
             descend = show_xml_repeats canvas ->
             bounds_walk fuel canvas d descend root 0
               (- Step.x root) (- Step.y root) 0 no_bounds
             = Ok (fold_left (fun acc f => bounds_level canvas f acc)
                             fs no_bounds)).
  { intros descend E. rewrite bounds_walk_frames, E, Hfs. reflexivity. }
  exists fs, (flat_map (draw_level canvas) fs),
    (fold_left (fun acc f => bounds_level canvas f acc) fs no_bounds).
  split; [exact Hfs |]. split; [exact Hhd |].
  split; [reflexivity |]. split; [reflexivity |].
  split; [exact Hdraw |].
  split.
  { unfold draw_xml. rewrite Hsel. cbn [Py.bind].
    unfold world_to_screen at 1. rewrite Hdraw. reflexivity. }
  split; [exact (Hwalk _ Hflag) |].
  split.
  { unfold fit_step_bounds. rewrite Hsel. cbn [Py.bind].
    unfold fit_step_compute_step_bounds. rewrite (Hwalk _ Hflag).
    reflexivity. }
  split.
  { unfold fit_all_xml_bounds. rewrite Hsel. cbn [Py.bind].
    unfold fit_all_compute_step_bounds. rewrite (Hwalk _ eq_refl).
    reflexivity. }
  intros v Hv. apply levels_covered; [| exact Hv].
  intros f Hf.
  destruct (frames_steps d _ fuel root _ _ _ fs Hfs f Hf) as [E | (k & E)].
  - rewrite E. exact (Hsz _ root Hroot).
  - exact (Hsz k _ E).
Qed.

End WalkContainment.
Section WalkExamples.
Import Py Xml Geometry XmlDrawing Angles Resolver XmlSamples.
Local Open Scope string_scope.
Local Open Scope list_scope.
Local Open Scope R_scope.

(** C4, as stated: a drawing of one step, no repeats, one barcode of
    width -5 at the origin.  The draw walk paints its rectangle; the
    bounds walk ends with [minx = 0] and [maxx = -5], and no point is
    inside such bounds, the anchor of the barcode included. *)
Lemma negative_barcode_outside_bounds :
  exists cmds bs x y w h,
    _draw_xml_step_recursive 1 barcode_canvas barcode_step 0
      (- Step.x barcode_step) (- Step.y barcode_step) 0 0 = Ok cmds
    /\ fit_step_compute_step_bounds 1 barcode_canvas barcode_drawing true
         barcode_step 0 (- Step.x barcode_step) (- Step.y barcode_step) 0
         no_bounds = Ok bs
    /\ In (DrawRect x y w h) cmds
    /\ ~ covered barcode_canvas bs (x, y).
Proof.
  do 6 eexists. split; [reflexivity |]. split; [reflexivity |].
  split; [right; right; left; reflexivity |].
  intros (wx & wy & _ & Hin).
  unfold inside in Hin. cbn in Hin.
  destruct Hin as (H0 & _ & H2 & _).
  unfold rotate_translate in *. cbn in H0, H2.
  lra.
Qed.

End WalkExamples.
Section WalkWitness.
Import Py Xml Geometry XmlDrawing Angles Resolver XmlSamples.
Local Open Scope string_scope.
Local Open Scope list_scope.
Local Open Scope R_scope.

Lemma nested_acyclic : acyclic nested_drawing nested_rank.
Proof.
  intros k st rpt sub Hk Hin Hsub.
  unfold nested_drawing in Hk. cbn [Drawing.steps steps_get] in Hk.
  unfold nested_rank.
  destruct (key_eqb k (Some "A")) eqn:EA.
  - inversion Hk; subst st. destruct Hin as [E | []]. subst rpt.
    cbn. lia.
  - destruct (key_eqb k (Some "B")); [| discriminate Hk].
    inversion Hk; subst st. destruct Hin.
Qed.

Lemma nested_barcodes_ok : barcodes_ok nested_drawing.
Proof.
  intros k st Hk layer bc Hl Hbc.
  unfold nested_drawing in Hk. cbn [Drawing.steps steps_get] in Hk.
  destruct (key_eqb k (Some "A")).
  - inversion Hk; subst st. destruct Hl.
  - destruct (key_eqb k (Some "B")); [| discriminate Hk].
    inversion Hk; subst st. destruct Hl.
Qed.

Lemma bounds_contain_drawing_witness :
  exists cmds bs,
    _draw_xml_step_recursive 2 nested_canvas step_A_of_B 0
      (- Step.x step_A_of_B) (- Step.y step_A_of_B) 0 0 = Ok cmds
    /\ fit_step_bounds 2 nested_canvas true = Ok (Some bs)
    /\ forall v, In v (flat_map vertices cmds) ->
                 covered nested_canvas bs v.
Proof.
  destruct (bounds_contain_drawing
              nested_canvas nested_drawing nested_rank
              step_A_of_B true 2
              eq_refl nested_acyclic nested_barcodes_ok eq_refl
              (le_n 2))
    as (fs & cmds & bs & _ & _ & _ & _ & Hdraw & _ & _ & Hfit & _ & Hin).
  exists cmds, bs. split; [exact Hdraw |]. split; [exact Hfit |].
  exact Hin.
Defined.

End WalkWitness.
Section ArcCardinals.
Import Py Xml Geometry XmlDrawing Angles Resolver XmlSamples.
Local Open Scope string_scope.
Local Open Scope list_scope.
Local Open Scope R_scope.









End ArcCardinals.
(* ------------------------------------------------------------------ *)
(** * The geometry kernel: further properties *)

Section FrameAlgebra.
Import Py Xml Geometry XmlDrawing Angles Resolver ViewProps.
Local Open Scope R_scope.

Lemma sq_sum_rot (u v a : R) :
  (u * cos a - v * sin a) * (u * cos a - v * sin a)
  + (v * cos a + u * sin a) * (v * cos a + u * sin a)
  = u * u + v * v.
Proof.
  pose proof (sin2_cos2 a) as H. unfold Rsqr in H.
  transitivity ((u * u + v * v) * (sin a * sin a + cos a * cos a)).
  - ring.
  - rewrite H. ring.
Qed.

(** X1.  Frames compose.  Rotating and translating a point by one frame
    and the result by a second is one [rotate_translate] by the sum of
    the angles, with the first offset carried through the second frame.
    For the walks: the frame of a repeated step (angle
    [base + rpt.angle], offset the resolved anchor of the repeat) puts a
    point of the sub-step where the parent frame puts that point placed
    at the repeat by [rpt.angle]. *)
Theorem rotate_translate_compose :
  (forall x y a b rx ry ox oy,
      let inner := rotate_translate x y a rx ry in
      let anchor := rotate_translate rx ry b ox oy in
      rotate_translate (fst inner) (snd inner) b ox oy
      = rotate_translate x y (a + b) (fst anchor) (snd anchor))
  /\ (forall base angle ox oy rx ry x y,
         let anchor := resolve (- base * PI / 180) ox oy rx ry in
         let placed := rotate_translate x y (- angle * PI / 180) rx ry in
         resolve (- (base + angle) * PI / 180) (fst anchor) (snd anchor) x y
         = resolve (- base * PI / 180) ox oy (fst placed) (snd placed)).
Proof.
  assert (H : forall x y a b rx ry ox oy,
             rotate_translate
               (fst (rotate_translate x y a rx ry))
               (snd (rotate_translate x y a rx ry)) b ox oy
             = rotate_translate x y (a + b)
                 (fst (rotate_translate rx ry b ox oy))
                 (snd (rotate_translate rx ry b ox oy))).
  { intros. unfold rotate_translate. cbn [fst snd].
    rewrite cos_plus, sin_plus. f_equal; ring. }
  split.
  - intros. apply H.
  - intros. unfold resolve. subst anchor placed. unfold resolve.
    rewrite H. f_equal.
    replace (- (base + angle) * PI / 180)
      with (- angle * PI / 180 + - base * PI / 180) by field.
    reflexivity.
Qed.

(** X2.  [rotate_translate] keeps distances: two points moved by the
    same frame are as far apart as before.  So the radius the walks
    take for an arc, [hypot(sx - cx, sy - cy)] on the resolved start
    and centre, is the distance of start and centre in the step's own
    coordinates, whatever the frame. *)
Theorem rotate_translate_isometry :
  (forall a ox oy x1 y1 x2 y2,
      dist2 (rotate_translate x1 y1 a ox oy) (rotate_translate x2 y2 a ox oy)
      = dist2 (x1, y1) (x2, y2))
  /\ (forall ang ox oy (e : Edge.t),
         let s := resolve ang ox oy (Edge.xs e) (Edge.ys e) in
         let c := resolve ang ox oy (Edge.xc e) (Edge.yc e) in
         hypot (fst s - fst c) (snd s - snd c)
         = hypot (Edge.xs e - Edge.xc e) (Edge.ys e - Edge.yc e)
         /\ arc_radius (fst s) (snd s) (fst c) (snd c) (Edge.radius e)
            = arc_radius (Edge.xs e) (Edge.ys e) (Edge.xc e) (Edge.yc e)
                         (Edge.radius e)).
Proof.
  assert (H : forall a ox oy x1 y1 x2 y2,
             dist2 (rotate_translate x1 y1 a ox oy)
                   (rotate_translate x2 y2 a ox oy)
             = dist2 (x1, y1) (x2, y2)).
  { intros. unfold dist2, rotate_translate. cbn [fst snd].
    rewrite <- (sq_sum_rot (x1 - x2) (y1 - y2) a). ring. }
  split; [exact H |].
  intros ang ox oy e s c.
  assert (E : hypot (fst s - fst c) (snd s - snd c)
              = hypot (Edge.xs e - Edge.xc e) (Edge.ys e - Edge.yc e)).
  { unfold hypot. f_equal.
    specialize (H ang ox oy (Edge.xs e) (Edge.ys e) (Edge.xc e) (Edge.yc e)).
    unfold dist2 in H. cbn [fst snd] in H. exact H. }
  split; [exact E |].
  unfold arc_radius. rewrite E. reflexivity.
Qed.

End FrameAlgebra.

Section AngleFacts.
Import Py Xml Geometry XmlDrawing Angles Resolver ViewProps.
Local Open Scope R_scope.

Lemma congr360_turns (a : R) (k : Z) : congr360 (a + 360 * IZR k) a.
Proof. exists k. lra. Qed.

(** X3.  [_normalize_deg] returns the representative of its argument in
    [0, 360): the result lies in that range and differs from the
    argument by whole turns; it is the float remainder itself (the
    branch that adds 360 is never taken); normalising twice changes
    nothing, and whole turns added to the argument are dropped. *)
Theorem normalize_deg_canonical (a : R) :
  0 <= _normalize_deg a < 360
  /\ congr360 (_normalize_deg a) a
  /\ _normalize_deg a = fmod360 a
  /\ _normalize_deg (_normalize_deg a) = _normalize_deg a
  /\ forall k : Z, _normalize_deg (a + 360 * IZR k) = _normalize_deg a.
Proof.
  rewrite !normalize_deg_fmod.
  split; [apply fmod360_range |].
  split; [apply fmod360_congr |].
  split; [reflexivity |].
  split.
  - apply fmod360_unique.
    + apply fmod360_range.
    + apply congr360_refl.
  - intros k. rewrite normalize_deg_fmod.
    apply fmod360_of_congr, congr360_turns.
Qed.

Lemma in_sweep_congr (a a' a0 a0' a1 a1' : R) (d : direction) :
  congr360 a a' -> congr360 a0 a0' -> congr360 a1 a1' ->
  _angle_in_sweep a a0 a1 d = _angle_in_sweep a' a0' a1' d.
Proof.
  intros Ha H0 H1. unfold _angle_in_sweep.
  rewrite !normalize_deg_fmod.
  rewrite (fmod360_of_congr a a' Ha), (fmod360_of_congr a0 a0' H0),
          (fmod360_of_congr a1 a1' H1).
  reflexivity.
Qed.

(** X4.  [_angle_in_sweep]: both end angles of a sweep lie in it, for
    either direction; a clockwise sweep from [a0] to [a1] is the
    counter-clockwise sweep from [a1] to [a0]; and the answer depends
    on the three angles only up to whole turns. *)
Theorem angle_in_sweep_ends (a0 a1 : R) (d : direction) :
  _angle_in_sweep a0 a0 a1 d = true
  /\ _angle_in_sweep a1 a0 a1 d = true
  /\ (forall a, _angle_in_sweep a a0 a1 CW = _angle_in_sweep a a1 a0 CCW)
  /\ (forall a (k m n : Z),
         _angle_in_sweep (a + 360 * IZR k) (a0 + 360 * IZR m)
                         (a1 + 360 * IZR n) d
         = _angle_in_sweep a a0 a1 d).
Proof.
  assert (Heps : 0 < eps) by (unfold eps; lra).
  assert (Hzero : forall x, fmod360 (x - x) = 0).
  { intros x. apply fmod360_unique; [lra |]. exists 0%Z. lra. }
  split; [| split; [| split]].
  - unfold _angle_in_sweep. rewrite !normalize_deg_fmod.
    destruct d.
    + (* CW: the start is the upper end *)
      destruct (Rle_dec _ _) as [H | H]; [reflexivity | lra].
    + rewrite Hzero.
      pose proof (fmod360_range (fmod360 a1 - fmod360 a0)).
      destruct (Rle_dec _ _) as [H' | H']; [reflexivity | lra].
  - unfold _angle_in_sweep. rewrite !normalize_deg_fmod.
    destruct d.
    + rewrite Hzero.
      pose proof (fmod360_range (fmod360 a0 - fmod360 a1)).
      destruct (Rle_dec _ _) as [H' | H']; [reflexivity | lra].
    + destruct (Rle_dec _ _) as [H | H]; [reflexivity | lra].
  - intros a. reflexivity.
  - intros a k m n. apply in_sweep_congr; apply congr360_turns.
Qed.

(** X5.  [_angle_deg_math] gives the polar angle of a point around a
    centre, in [0, 360): the point of the circle through it at that
    angle, as the arc code writes circle points, is the point itself.
    The angle of the centre is 0. *)
Theorem angle_deg_math_polar (cx cy px py : R) :
  0 <= _angle_deg_math cx cy px py < 360
  /\ circle_point cx cy (hypot (px - cx) (py - cy))
                  (radians (_angle_deg_math cx cy px py)) = (px, py)
  /\ _angle_deg_math cx cy cx cy = 0.
Proof.
  split; [apply fmod360_range |].
  split; [apply circle_point_at_angle |].
  unfold _angle_deg_math, atan2.
  replace (cy - cy) with 0 by ring. replace (cx - cx) with 0 by ring.
  destruct (Rlt_dec 0 0) as [H | _]; [lra |].
  unfold degrees. replace (0 * 180 / PI) with 0.
  - apply fmod360_unique; [lra | apply congr360_refl].
  - unfold Rdiv. ring.
Qed.

End AngleFacts.
Section Polyline.
Import Py Xml Geometry XmlDrawing Angles Resolver ViewProps.
Local Open Scope R_scope.

Lemma arc_num_segments_range (zoom r delta : R) :
  (12 <= arc_num_segments zoom r delta <= 512)%Z.
Proof.
  unfold arc_num_segments.
  destruct (Z.ltb_spec (Z.max 12 (Z.min 512 (trunc (Rabs (radians delta) * Rmax (r * zoom) 1 / 3)))) 2); lia.
Qed.

Lemma arc_delta_congr (a0 a1 : R) (d : direction) :
  congr360 (a0 + arc_delta_deg a0 a1 d) a1.
Proof.
  destruct d; simpl.
  - destruct (fmod360_congr (a0 - a1)) as (m & Hm).
    exists (- m)%Z. rewrite opp_IZR. lra.
  - destruct (fmod360_congr (a1 - a0)) as (m & Hm).
    exists m. lra.
Qed.

(** X6.  The polyline [arc_polyline_world_points] returns for an arc
    has one point more than it has segments, between 13 and 513 points
    whatever the radius and the zoom; it starts at the circle point of
    the start angle and ends at the circle point of the end angle, for
    either direction; every point of it is at distance [|r|] from the
    centre. *)
Theorem arc_polyline_shape (zoom cx cy r a0 a1 : R) (d : direction) :
  let pts := arc_polyline_world_points zoom cx cy r a0 a1 d in
  (13 <= List.length pts <= 513)%nat
  /\ hd (0, 0) pts = circle_point cx cy r (radians a0)
  /\ last pts (0, 0) = circle_point cx cy r (radians a1)
  /\ forall p, In p pts -> dist2 p (cx, cy) = r * r.
Proof.
  intros pts. subst pts. unfold arc_polyline_world_points.
  set (delta := arc_delta_deg a0 a1 d).
  set (n := arc_num_segments zoom r delta).
  pose proof (arc_num_segments_range zoom r delta) as Hn. fold n in Hn.
  split; [| split; [| split]].
  - rewrite length_map, length_seq. lia.
  - rewrite Nat.add_1_r. cbn [List.seq map hd].
    f_equal. simpl INR. ring.
  - rewrite Nat.add_1_r, seq_S, map_app. cbn [map Nat.add].
    rewrite last_last.
    assert (En : INR (Z.to_nat n) = IZR n).
    { rewrite INR_IZR_INZ, Z2Nat.id by lia. reflexivity. }
    assert (Hn0 : IZR n <> 0).
    { apply not_0_IZR. lia. }
    rewrite En.
    replace (radians a0 + IZR n * (radians delta / IZR n))
      with (radians (a0 + delta)) by (unfold radians; field; exact Hn0).
    unfold circle_point.
    change (cos (radians (a0 + delta))) with (cosd (a0 + delta)).
    change (sin (radians (a0 + delta))) with (sind (a0 + delta)).
    pose proof (arc_delta_congr a0 a1 d) as Hc. fold delta in Hc.
    rewrite (cosd_congr _ _ Hc), (sind_congr _ _ Hc).
    reflexivity.
  - intros p Hp. apply in_map_iff in Hp. destruct Hp as (i & Ep & _).
    subst p. unfold dist2, circle_point. cbn [fst snd].
    set (t := radians a0 + INR i * (radians delta / IZR n)).
    pose proof (sin2_cos2 t) as H. unfold Rsqr in H.
    transitivity (r * r * (sin t * sin t + cos t * cos t)).
    + ring.
    + rewrite H. ring.
Qed.

End Polyline.

Section ViewTransforms.
Import Py Xml Geometry XmlDrawing Angles Resolver ViewerCanvas ViewProps.
Local Open Scope R_scope.

Lemma div_done (a b : R) :
  b <> 0 -> PyView.div a b = PyView.Done (a / b).
Proof.
  intros Hb. unfold PyView.div.
  destruct (Req_dec_T b 0) as [E | _]; [contradiction | reflexivity].
Qed.

Lemma screen_to_world_done (c : Canvas) (sx sy : R) :
  zoom_level c <> 0 ->
  screen_to_world c sx sy
  = PyView.Done ((sx - fst (pan_offset c)) / zoom_level c,
                 (sy - snd (pan_offset c)) / zoom_level c).
Proof.
  intros Hz. unfold screen_to_world.
  rewrite !div_done by exact Hz. reflexivity.
Qed.

(** X7.  [screen_to_world] undoes [world_to_screen] and the other way
    round, on a canvas whose zoom is not 0; on a canvas with zoom 0 it
    raises [ZeroDivisionError] for every position. *)
Theorem screen_world_round_trip (c : Canvas) :
  (zoom_level c <> 0 ->
   (forall x y,
       screen_to_world c (fst (world_to_screen c x y))
                         (snd (world_to_screen c x y))
       = PyView.Done (x, y))
   /\ (forall sx sy, exists w,
          screen_to_world c sx sy = PyView.Done w
          /\ world_to_screen c (fst w) (snd w) = (sx, sy)))
  /\ (zoom_level c = 0 ->
      forall sx sy,
        screen_to_world c sx sy = PyView.Fail PyView.ZeroDivisionError).
Proof.
  split.
  - intros Hz. split.
    + intros x y. rewrite screen_to_world_done by exact Hz.
      unfold world_to_screen. cbn [fst snd]. f_equal. f_equal; field; exact Hz.
    + intros sx sy. eexists. split.
      * apply screen_to_world_done. exact Hz.
      * unfold world_to_screen. cbn [fst snd]. f_equal; field; exact Hz.
  - intros Hz sx sy. unfold screen_to_world, PyView.div. rewrite Hz.
    destruct (Req_dec_T 0 0) as [_ | H]; [reflexivity | contradiction].
Qed.

Lemma screen_world_round_trip_witness :
  zoom_level (xml ViewerCanvas.init) <> 0
  /\ screen_to_world (xml ViewerCanvas.init)
       (fst (world_to_screen (xml ViewerCanvas.init) 3 4))
       (snd (world_to_screen (xml ViewerCanvas.init) 3 4))
     = PyView.Done (3, 4).
Proof.
  assert (H : zoom_level (xml ViewerCanvas.init) <> 0).
  { simpl. lra. }
  split; [exact H |].
  exact (proj1 (proj1 (screen_world_round_trip (xml ViewerCanvas.init)) H) 3 4).
Defined.

(** X8.  A wheel turn zooms about the cursor.  On a canvas whose zoom
    is not 0, [wheelEvent] returns; the zoom is multiplied by 1.1 or
    divided by it and stays different from 0; the world point that was
    under the cursor is still under the cursor; and a turn one way
    followed by a turn the other way at the same position restores
    zoom and pan.  A turn of 0 changes nothing; on a canvas with zoom
    0 every other turn raises [ZeroDivisionError]. *)
Theorem wheel_zoom_keeps_cursor (c : Canvas) (mx my : R) :
  wheelEvent c 0 mx my = PyView.Done c
  /\ (zoom_level c = 0 ->
      forall delta, delta <> 0%Z ->
        wheelEvent c delta mx my = PyView.Fail PyView.ZeroDivisionError)
  /\ (zoom_level c <> 0 ->
      forall delta, delta <> 0%Z ->
      exists c' w,
        wheelEvent c delta mx my = PyView.Done c'
        /\ screen_to_world c mx my = PyView.Done w
        /\ zoom_level c'
           = zoom_level c * (if (0 <? delta)%Z then 11 / 10 else 1 / (11 / 10))
        /\ zoom_level c' <> 0
        /\ world_to_screen c' (fst w) (snd w) = (mx, my)
        /\ forall back, (back <> 0)%Z -> ((0 <? back) = negb (0 <? delta))%Z ->
           exists c'',
             wheelEvent c' back mx my = PyView.Done c''
             /\ zoom_level c'' = zoom_level c
             /\ pan_offset c'' = pan_offset c).
Proof.
  split; [reflexivity |]. split.
  - intros Hz delta Hd. unfold wheelEvent.
    destruct (Z.eqb_spec delta 0) as [E | _]; [contradiction |].
    unfold screen_to_world, PyView.div. rewrite Hz.
    destruct (Req_dec_T 0 0) as [_ | H]; [reflexivity | contradiction].
  - intros Hz delta Hd.
    assert (Hf : forall b : bool,
               (if b then 11 / 10 else 1 / (11 / 10)) <> 0).
    { intros [|]; [lra |]. unfold Rdiv. rewrite Rmult_1_l.
      apply Rinv_neq_0_compat. lra. }
    unfold wheelEvent.
    destruct (Z.eqb_spec delta 0) as [E | _]; [contradiction |].
    rewrite screen_to_world_done by exact Hz. cbn [PyView.bind fst snd].
    set (f := if (0 <? delta)%Z then 11 / 10 else 1 / (11 / 10)).
    assert (Hf0 : f <> 0) by apply Hf.
    eexists. eexists. split; [reflexivity |]. split; [reflexivity |].
    cbn [zoom_level set_pan set_zoom pan_offset fst snd].
    split; [reflexivity |].
    assert (Hz' : zoom_level c * f <> 0).
    { apply Rmult_integral_contrapositive_currified; assumption. }
    split; [exact Hz' |].
    split.
    + unfold world_to_screen.
      cbn [zoom_level set_pan set_zoom pan_offset fst snd].
      f_equal; field; exact Hz.
    + intros back Hb Hopp.
      destruct (Z.eqb_spec back 0) as [E | _]; [contradiction |].
      rewrite screen_to_world_done
        by (cbn [zoom_level set_pan set_zoom]; exact Hz').
      cbn [PyView.bind zoom_level set_pan set_zoom pan_offset fst snd].
      eexists. split; [reflexivity |].
      cbn [zoom_level set_pan set_zoom pan_offset fst snd].
      rewrite Hopp. unfold f.
      destruct (0 <? delta)%Z; cbn [negb].
      * split; [field |].
        destruct (pan_offset c) as [px py]. cbn [fst snd].
        f_equal; field; exact Hz.
      * split; [field |].
        destruct (pan_offset c) as [px py]. cbn [fst snd].
        f_equal; field; exact Hz.
Qed.

Lemma wheel_zoom_keeps_cursor_witness :
  exists c',
    wheelEvent (xml ViewerCanvas.init) 120 10 20 = PyView.Done c'
    /\ zoom_level c' = 1 * (11 / 10).
Proof.
  assert (H : zoom_level (xml ViewerCanvas.init) <> 0) by (simpl; lra).
  assert (Hd : 120%Z <> 0%Z) by lia.
  destruct (proj2 (proj2 (wheel_zoom_keeps_cursor (xml ViewerCanvas.init) 10 20))
              H 120%Z Hd) as (c' & w & E & _ & Ez & _).
  exists c'. split; [exact E | exact Ez].
Defined.

End ViewTransforms.
Section Fitting.
Import Py Xml Geometry XmlDrawing Angles Resolver ViewerCanvas ViewProps.
Import ViewSamples.
Local Open Scope string_scope.
Local Open Scope list_scope.
Local Open Scope R_scope.

Lemma Rmin_scaled_le (a b k : R) : 0 < k -> k * Rmin a b <= k * a.
Proof.
  intros Hk. apply Rmult_le_compat_l; [lra | apply Rmin_l].
Qed.

Lemma fit_zoom_facts (aw ah bw bh : R) :
  0 < aw -> 0 < ah -> 0 < bw -> 0 < bh ->
  let zoom := Rmin (aw / bw) (ah / bh) in
  0 < zoom /\ bw * zoom <= aw /\ bh * zoom <= ah
  /\ (bw * zoom = aw \/ bh * zoom = ah).
Proof.
  intros Haw Hah Hbw Hbh zoom.
  assert (Hx : 0 < aw / bw) by (apply Rdiv_lt_0_compat; assumption).
  assert (Hy : 0 < ah / bh) by (apply Rdiv_lt_0_compat; assumption).
  assert (Ex : bw * (aw / bw) = aw) by (field; lra).
  assert (Ey : bh * (ah / bh) = ah) by (field; lra).
  subst zoom. unfold Rmin.
  destruct (Rle_dec (aw / bw) (ah / bh)) as [H | H].
  - split; [exact Hx |]. split; [lra |]. split; [| left; exact Ex].
    rewrite <- Ey. apply Rmult_le_compat_l; lra.
  - split; [exact Hy |]. split; [| split; [lra | right; exact Ey]].
    rewrite <- Ex. apply Rmult_le_compat_l; lra.
Qed.

(** X9.  [ViewerCanvasCore._fit_world_bounds] on a box of positive
    width and height, on a widget with room left inside the padding:
    the new zoom is positive, the centre of the box is shown at the
    centre of the area under the toolbars, the box fills the padded
    area in one direction, and every world point of the box is shown
    inside the widget, at least [padding] pixels from its border and
    from the toolbars.  A box without width or height leaves the
    canvas as it is. *)
Theorem fit_world_bounds_on_screen (c : t) (minx miny maxx maxy : R)
    (padding : Z) :
  (minx < maxx -> miny < maxy ->
   (2 * padding < _w c)%Z -> (2 * padding < _h c - top_y c)%Z ->
   let c' := _fit_world_bounds c (Fin minx, Fin miny, Fin maxx, Fin maxy)
                               padding in
   0 < zoom_level (xml c')
   /\ world_to_screen (xml c') ((minx + maxx) / 2) ((miny + maxy) / 2)
      = (IZR (_w c) / 2, IZR (top_y c) + IZR (_h c - top_y c) / 2)
   /\ ((maxx - minx) * zoom_level (xml c') = IZR (_w c - 2 * padding)
       \/ (maxy - miny) * zoom_level (xml c')
          = IZR (_h c - top_y c - 2 * padding))
   /\ forall x y,
        minx <= x <= maxx -> miny <= y <= maxy ->
        on_screen c' padding (world_to_screen (xml c') x y))
  /\ (maxx <= minx \/ maxy <= miny ->
      _fit_world_bounds c (Fin minx, Fin miny, Fin maxx, Fin maxy) padding
      = c).
Proof.
  split.
  - intros Hx Hy Hw Hh.
    unfold _fit_world_bounds.
    destruct (Rle_dec (maxx - minx) 0) as [H | _]; [lra |].
    destruct (Rle_dec (maxy - miny) 0) as [H | _]; [lra |].
    destruct (Z.leb_spec (_w c - 2 * padding) 0) as [H | _]; [lia |].
    destruct (Z.leb_spec (_h c - top_y c - 2 * padding) 0) as [H | _];
      [lia |].
    cbn [orb].
    set (aw := IZR (_w c - 2 * padding)).
    set (ah := IZR (_h c - top_y c - 2 * padding)).
    assert (Haw : 0 < aw) by (apply IZR_lt; lia).
    assert (Hah : 0 < ah) by (apply IZR_lt; lia).
    destruct (fit_zoom_facts aw ah (maxx - minx) (maxy - miny))
      as (Hz & Hbw & Hbh & Hfill); try assumption; try lra.
    set (zoom := Rmin (aw / (maxx - minx)) (ah / (maxy - miny))) in *.
    assert (Eaw : aw = IZR (_w c) - 2 * IZR padding).
    { unfold aw. rewrite minus_IZR, mult_IZR. reflexivity. }
    assert (Eah : ah = IZR (_h c) - IZR (top_y c) - 2 * IZR padding).
    { unfold ah. rewrite !minus_IZR, mult_IZR. reflexivity. }
    cbn [xml with_xml set_pan set_zoom zoom_level pan_offset].
    split; [exact Hz |].
    split.
    { unfold world_to_screen.
      cbn [zoom_level pan_offset set_pan set_zoom fst snd].
      f_equal; field. }
    split; [exact Hfill |].
    intros x y Hxr Hyr. unfold on_screen, world_to_screen.
    cbn [xml with_xml set_pan set_zoom zoom_level pan_offset fst snd
         _w _h top_y toolbar_height xml_toolbar_height].
    change (top_y (with_xml _ c)) with (top_y c).
    rewrite !minus_IZR, plus_IZR.
    assert (Hxc : - ((maxx - minx) * zoom) / 2
                  <= (x - (minx + maxx) / 2) * zoom
                  <= (maxx - minx) * zoom / 2) by (split; nra).
    assert (Hyc : - ((maxy - miny) * zoom) / 2
                  <= (y - (miny + maxy) / 2) * zoom
                  <= (maxy - miny) * zoom / 2) by (split; nra).
    split; split; lra.
  - intros Hd. unfold _fit_world_bounds.
    destruct (Rle_dec (maxx - minx) 0) as [_ | H]; [reflexivity |].
    destruct (Rle_dec (maxy - miny) 0) as [_ | H']; [reflexivity |].
    lra.
Qed.

Lemma fit_world_bounds_on_screen_witness :
  on_screen (_fit_world_bounds ViewerCanvas.init
               (Fin 0, Fin 0, Fin 10, Fin 10) 50) 50
    (world_to_screen
       (xml (_fit_world_bounds ViewerCanvas.init
               (Fin 0, Fin 0, Fin 10, Fin 10) 50)) 5 5).
Proof.
  assert (Hx : 0 < 10) by lra.
  assert (Hw : (2 * 50 < _w ViewerCanvas.init)%Z) by (simpl; lia).
  assert (Hh : (2 * 50 < _h ViewerCanvas.init - top_y ViewerCanvas.init)%Z)
    by (unfold top_y; simpl; lia).
  apply (proj1 (fit_world_bounds_on_screen ViewerCanvas.init 0 0 10 10 50)
           Hx Hx Hw Hh); lra.
Defined.

(** X10.  The module function [xml_drawing._fit_world_bounds], and with
    it [fit_step]: it never writes the pan.  It either leaves the
    canvas as it is and returns, or stores a zoom and raises
    [NameError].  On a box of positive width and height and a widget
    with room inside a padding of 50 it raises: whenever [fit_step] has
    found such bounds, it ends in [NameError] with the zoom changed
    and the pan as before. *)
Theorem fit_step_name_error :
  (forall c b padding,
      let r := XmlView._fit_world_bounds c b padding in
      pan_offset (xml (fst r)) = pan_offset (xml c)
      /\ ((snd r = None /\ fst r = c)
          \/ (snd r = Some PyView.NameError
              /\ exists z, fst r = with_xml (set_zoom z (xml c)) c)))
  /\ (forall fuel c include_repeats minx miny maxx maxy,
         fit_step_bounds fuel (xml c) include_repeats
         = Ok (Some (Fin minx, Fin miny, Fin maxx, Fin maxy)) ->
         minx < maxx -> miny < maxy ->
         (100 < _w c)%Z -> (100 < _h c - top_y c)%Z ->
         XmlView.fit_step fuel c include_repeats
         = (with_xml
              (set_zoom (Rmin (IZR (_w c - 100) / (maxx - minx))
                              (IZR (_h c - top_y c - 100) / (maxy - miny)))
                        (xml c)) c,
            Some PyView.NameError)).
Proof.
  split.
  - intros c b padding r. subst r. unfold XmlView._fit_world_bounds.
    destruct b as [[[[minx | |] [miny | |]] [maxx | |]] [maxy | |]];
      cbn [fst snd]; try (split; [reflexivity | left; split; reflexivity]).
    destruct (Rle_dec (maxx - minx) 0);
      [split; [reflexivity | left; split; reflexivity] |].
    destruct (Rle_dec (maxy - miny) 0);
      [split; [reflexivity | left; split; reflexivity] |].
    destruct (_ || _);
      [split; [reflexivity | left; split; reflexivity] |].
    cbn [fst snd]. split; [reflexivity |].
    right. split; [reflexivity |]. eexists. reflexivity.
  - intros fuel c inc minx miny maxx maxy Hb Hx Hy Hw Hh.
    unfold XmlView.fit_step. rewrite Hb.
    unfold XmlView._fit_world_bounds.
    destruct (Rle_dec (maxx - minx) 0) as [H | _]; [lra |].
    destruct (Rle_dec (maxy - miny) 0) as [H | _]; [lra |].
    destruct (Z.leb_spec (_w c - 2 * 50) 0) as [H | _]; [lia |].
    unfold top_y in Hh |- *.
    destruct (Z.leb_spec (_h c - (toolbar_height c + xml_toolbar_height c)
                          - 2 * 50) 0) as [H | _]; [lia |].
    cbn [orb]. reflexivity.
Qed.

Lemma fit_step_name_error_witness :
  snd (XmlView.fit_step 5 board_canvas true) = Some PyView.NameError.
Proof.
  set (a := - 0 * PI / 180).
  set (bx := 0 * cos a - 0 * sin a + - 0).
  set (by_ := 0 * cos a + 0 * sin a + - 0).
  assert (Hb : fit_step_bounds 5 (xml board_canvas) true
               = Ok (Some (Fin bx, Fin by_, Fin (bx + 10), Fin (by_ + 5))))
    by reflexivity.
  rewrite (proj2 fit_step_name_error 5%nat board_canvas true _ _ _ _ Hb);
    [reflexivity | lra | lra | simpl; lia | unfold top_y; simpl; lia].
Defined.

End Fitting.
Section XmlSelection.
Import Py Xml Geometry XmlDrawing Angles Resolver ViewerCanvas ViewProps.
Import ViewSamples.
Local Open Scope string_scope.
Local Open Scope list_scope.
Local Open Scope R_scope.

Lemma current_drawing_nonempty (x : Canvas) (d : Drawing.t) :
  current_drawing x = Ok d -> xml_drawings x <> [].
Proof.
  unfold current_drawing, Les.position. intros H E. rewrite E in H.
  cbn [List.length Z.of_nat] in H.
  destruct (current_xml_drawing_idx x <? 0)%Z;
    destruct (_ && _) eqn:Hc; try discriminate H; lia.
Qed.

Lemma reset_xml_view_sized (c : t) (d : Drawing.t) :
  current_drawing (xml c) = Ok d ->
  (0 <= current_xml_drawing_idx (xml c))%Z ->
  0 < Drawing.width d -> 0 < Drawing.height d ->
  reset_xml_view c
  = Ok (with_xml
          (set_pan
             ((IZR (_w c)
               - Drawing.width d
                 * (Rmin (IZR (_w c) / Drawing.width d)
                         (IZR (_h c - top_y c) / Drawing.height d)
                    * (8 / 10))) / 2,
              (IZR (_h c - top_y c)
               - Drawing.height d
                 * (Rmin (IZR (_w c) / Drawing.width d)
                         (IZR (_h c - top_y c) / Drawing.height d)
                    * (8 / 10))) / 2
              + IZR (top_y c))
             (set_zoom (Rmin (IZR (_w c) / Drawing.width d)
                             (IZR (_h c - top_y c) / Drawing.height d)
                        * (8 / 10))
                       (xml c))) c).
Proof.
  intros Hd Hidx Hw Hh. unfold reset_xml_view.
  pose proof (current_drawing_nonempty _ _ Hd) as Hne.
  destruct (xml_drawings (xml c)) as [| d0 ds]; [contradiction |].
  destruct (Z.leb_spec 0 (current_xml_drawing_idx (xml c))) as [_ | H];
    [| lia].
  rewrite Hd. cbn [Py.bind].
  destruct (Rle_dec (Drawing.width d) 0) as [H | _]; [lra |].
  destruct (Rle_dec (Drawing.height d) 0) as [H | _]; [lra |].
  reflexivity.
Qed.

(** X11.  [reset_xml_view] on a selected drawing of positive width and
    height: the board rectangle, which [draw_xml] paints from the
    screen image of the world origin with the drawing's size times the
    zoom, takes at most 80 percent of the widget width and of the
    height under the toolbars, exactly 80 percent of one of them, and
    its centre is the centre of the area under the toolbars. *)
Theorem reset_view_centres_board (c : t) (d : Drawing.t) :
  current_drawing (xml c) = Ok d ->
  (0 <= current_xml_drawing_idx (xml c))%Z ->
  0 < Drawing.width d -> 0 < Drawing.height d ->
  exists c',
    reset_xml_view c = Ok c'
    /\ let x0 := fst (world_to_screen (xml c') 0 0) in
       let y0 := snd (world_to_screen (xml c') 0 0) in
       let rw := Drawing.width d * zoom_level (xml c') in
       let rh := Drawing.height d * zoom_level (xml c') in
       x0 + rw / 2 = IZR (_w c) / 2
       /\ y0 + rh / 2 = IZR (top_y c) + IZR (_h c - top_y c) / 2
       /\ rw <= 8 / 10 * IZR (_w c)
       /\ rh <= 8 / 10 * IZR (_h c - top_y c)
       /\ (rw = 8 / 10 * IZR (_w c) \/ rh = 8 / 10 * IZR (_h c - top_y c))
       /\ forall fuel ps,
            draw_xml fuel (xml c') = Ok ps ->
            ps = []
            \/ exists walk,
                ps = SetPen (80, 80, 100)%Z 2 :: SetNoBrush
                     :: DrawRect x0 y0 rw rh :: walk.
Proof.
  intros Hd Hidx Hw Hh.
  eexists. split; [apply reset_xml_view_sized; eassumption |].
  cbn [xml with_xml]. unfold world_to_screen.
  cbn [zoom_level pan_offset set_pan set_zoom fst snd].
  set (w := IZR (_w c)). set (h := IZR (_h c - top_y c)).
  set (dw := Drawing.width d) in *. set (dh := Drawing.height d) in *.
  set (m := Rmin (w / dw) (h / dh)).
  assert (Ew : dw * (w / dw) = w) by (field; lra).
  assert (Eh : dh * (h / dh) = h) by (field; lra).
  assert (Hm : dw * m <= w /\ dh * m <= h /\ (dw * m = w \/ dh * m = h)).
  { unfold m, Rmin. destruct (Rle_dec (w / dw) (h / dh)) as [H | H].
    - split; [lra |]. split; [| left; exact Ew].
      rewrite <- Eh. apply Rmult_le_compat_l; lra.
    - split; [| split; [lra | right; exact Eh]].
      rewrite <- Ew. apply Rmult_le_compat_l; lra. }
  destruct Hm as (Hmw & Hmh & Hfill).
  split; [lra |]. split; [lra |]. split; [lra |]. split; [lra |].
  split; [destruct Hfill; [left | right]; lra |].
  intros fuel ps Hps. unfold draw_xml in Hps.
  match type of Hps with
  | Py.bind (selected ?x) _ = _ =>
      change (selected x) with (selected (xml c)) in Hps
  end.
  destruct (selected (xml c)) as [[[d' root] |] | e] eqn:Hsel;
    cbn [Py.bind] in Hps.
  - apply selected_some in Hsel. destruct Hsel as (Hd' & _).
    rewrite Hd in Hd'. inversion Hd'; subst d'.
    unfold world_to_screen in Hps.
    cbn [zoom_level pan_offset set_pan set_zoom fst snd] in Hps.
    destruct (_draw_xml_step_recursive _ _ _ _ _ _ _ _) as [walk | e];
      cbn [Py.bind] in Hps; [| discriminate Hps].
    inversion Hps. right. exists walk. cbn [app].
    fold dw dh w h m. reflexivity.
  - inversion Hps. left. reflexivity.
  - discriminate Hps.
Qed.

Lemma reset_view_centres_board_witness :
  exists c', reset_xml_view board_canvas = Ok c'
             /\ Drawing.width board * zoom_level (xml c')
                <= 8 / 10 * IZR (_w board_canvas).
Proof.
  assert (Hd : current_drawing (xml board_canvas) = Ok board) by reflexivity.
  assert (Hi : (0 <= current_xml_drawing_idx (xml board_canvas))%Z)
    by (simpl; lia).
  assert (Hw : 0 < Drawing.width board) by (simpl; lra).
  assert (Hh : 0 < Drawing.height board) by (simpl; lra).
  destruct (reset_view_centres_board board_canvas board Hd Hi Hw Hh)
    as (c' & E & _ & _ & H & _).
  exists c'. split; [exact E | exact H].
Defined.

(** ** Loading and unloading drawings *)

Lemma position_last {A : Type} (xs : list A) (a : A) :
  Les.position (xs ++ [a]) (Z.of_nat (List.length (xs ++ [a])) - 1)
  = Some (List.length xs).
Proof.
  unfold Les.position. rewrite length_app. cbn [List.length].
  destruct (Z.ltb_spec (Z.of_nat (List.length xs + 1) - 1) 0); [lia |].
  destruct (Z.leb_spec 0 (Z.of_nat (List.length xs + 1) - 1)); [| lia].
  destruct (Z.ltb_spec (Z.of_nat (List.length xs + 1) - 1)
                       (Z.of_nat (List.length xs + 1))); [| lia].
  cbn [andb]. f_equal. lia.
Qed.

Lemma position_in_range {A : Type} (xs : list A) (i : Z) :
  (0 <= i < Z.of_nat (List.length xs))%Z ->
  Les.position xs i = Some (Z.to_nat i)
  /\ exists a, nth_error xs (Z.to_nat i) = Some a.
Proof.
  intros Hi. unfold Les.position.
  destruct (Z.ltb_spec i 0); [lia |].
  destruct (Z.leb_spec 0 i); [| lia].
  destruct (Z.ltb_spec i (Z.of_nat (List.length xs))); [| lia].
  split; [reflexivity |].
  destruct (nth_error xs (Z.to_nat i)) as [a |] eqn:E.
  - exists a. reflexivity.
  - apply nth_error_None in E. lia.
Qed.

Lemma current_drawing_in_range (x : Canvas) :
  (0 <= current_xml_drawing_idx x < Z.of_nat (List.length (xml_drawings x)))%Z ->
  exists d, current_drawing x = Ok d
            /\ nth_error (xml_drawings x)
                         (Z.to_nat (current_xml_drawing_idx x)) = Some d.
Proof.
  intros Hi. unfold current_drawing.
  destruct (position_in_range _ _ Hi) as (Hp & a & Ha).
  rewrite Hp. unfold Py.index. rewrite Ha. exists a. split; reflexivity.
Qed.

Lemma reset_xml_view_selection (c c' : t) :
  reset_xml_view c = Ok c' ->
  xml_drawings (xml c') = xml_drawings (xml c)
  /\ current_xml_drawing_idx (xml c') = current_xml_drawing_idx (xml c)
  /\ current_xml_step (xml c') = current_xml_step (xml c).
Proof.
  unfold reset_xml_view. intros H.
  destruct (xml_drawings (xml c)) eqn:Hx.
  - inversion H; subst. rewrite Hx. repeat split.
  - destruct (0 <=? current_xml_drawing_idx (xml c))%Z.
    + destruct (current_drawing (xml c)) as [d |]; [| discriminate H].
      cbn [Py.bind] in H.
      destruct (if Rle_dec (Drawing.width d) 0 then true
                else if Rle_dec (Drawing.height d) 0 then true else false);
        inversion H; subst; cbn; rewrite Hx; repeat split.
    + inversion H; subst. rewrite Hx. repeat split.
Qed.

Lemma reset_xml_view_total (c : t) :
  selection_ok c -> exists c', reset_xml_view c = Ok c'.
Proof.
  intros Hs. unfold reset_xml_view.
  destruct (xml_drawings (xml c)) eqn:Hx; [eexists; reflexivity |].
  destruct (0 <=? current_xml_drawing_idx (xml c))%Z;
    [| eexists; reflexivity].
  destruct Hs as [(E & _) | Hr]; [rewrite Hx in E; discriminate E |].
  destruct (current_drawing_in_range _ Hr) as (d & Hd & _).
  rewrite Hd. cbn [Py.bind].
  destruct (if Rle_dec (Drawing.width d) 0 then true
            else if Rle_dec (Drawing.height d) 0 then true else false);
    eexists; reflexivity.
Qed.

Lemma delete_at_length {A : Type} (xs : list A) (i : nat) :
  (i < List.length xs)%nat ->
  List.length (delete_at xs i) = Nat.pred (List.length xs).
Proof.
  revert i. induction xs as [| a xs IH]; intros i Hi; [simpl in Hi; lia |].
  destruct i as [| i]; [reflexivity |].
  cbn [delete_at List.length]. rewrite IH by (simpl in Hi; lia).
  simpl in Hi. destruct xs; [simpl in Hi; lia | reflexivity].
Qed.

(** X12.  The selection of XML drawings stays sound.  The canvas of
    [__init__] has no drawing and index -1.  [load_xml_file] succeeds
    exactly when the file parses; it then appends the drawing, selects
    it as the last one and takes its start step, or its first step, as
    the current step.  [unload_current_xml], on a canvas with a sound
    selection, never raises: it removes the selected drawing and no
    other, and leaves either no drawing, index -1 and no step, or an
    index in range with the start step of the drawing now selected. *)
Theorem xml_selection_invariant :
  selection_ok ViewerCanvas.init
  /\ (forall c path root,
         (forall e, load_xml_file c path root = Raise e
                    <-> Drawing.parse_xml path root = Raise e)
         /\ forall d, Drawing.parse_xml path root = Ok d ->
              exists c',
                load_xml_file c path root = Ok c'
                /\ selection_ok c'
                /\ xml_drawings (xml c') = xml_drawings (xml c) ++ [d]
                /\ current_drawing (xml c') = Ok d
                /\ current_xml_step (xml c') = start_or_first d)
  /\ (forall c,
         selection_ok c ->
         exists c',
           unload_current_xml c = Ok c'
           /\ selection_ok c'
           /\ (xml_drawings (xml c) = [] -> c' = c)
           /\ (xml_drawings (xml c) <> [] ->
               xml_drawings (xml c')
               = delete_at (xml_drawings (xml c))
                           (Z.to_nat (current_xml_drawing_idx (xml c)))
               /\ List.length (xml_drawings (xml c'))
                  = Nat.pred (List.length (xml_drawings (xml c)))
               /\ forall d, current_drawing (xml c') = Ok d ->
                    current_xml_step (xml c') = start_or_first d)).
Proof.
  split; [left; repeat split |]. split.
  - intros c path root.
    assert (Hload : forall d, Drawing.parse_xml path root = Ok d ->
              exists c',
                load_xml_file c path root = Ok c'
                /\ selection_ok c'
                /\ xml_drawings (xml c') = xml_drawings (xml c) ++ [d]
                /\ current_drawing (xml c') = Ok d
                /\ current_xml_step (xml c') = start_or_first d).
    { intros d Hd. unfold load_xml_file. rewrite Hd. cbn [Py.bind].
      set (ds := xml_drawings (xml c) ++ [d]).
      set (c1 := with_xml
                   (set_selection ds (Z.of_nat (List.length ds) - 1)
                                  (start_or_first d) (xml c)) c).
      assert (Hlen : List.length ds = S (List.length (xml_drawings (xml c)))).
      { unfold ds. rewrite length_app. simpl. lia. }
      assert (Hok1 : selection_ok c1).
      { right. unfold c1. cbn. lia. }
      assert (Hcur : current_drawing (xml c1) = Ok d).
      { unfold current_drawing, c1. cbn [xml with_xml set_selection
          xml_drawings current_xml_drawing_idx].
        unfold ds. rewrite position_last. unfold Py.index.
        rewrite nth_error_app2 by lia. rewrite Nat.sub_diag. reflexivity. }
      destruct (reset_xml_view_total c1 Hok1) as (c' & Hc').
      destruct (reset_xml_view_selection _ _ Hc') as (E1 & E2 & E3).
      exists c'. split; [exact Hc' |].
      split.
      { right. rewrite E1, E2. unfold c1. cbn. lia. }
      split; [rewrite E1; reflexivity |].
      split.
      { unfold current_drawing in Hcur |- *. rewrite E1, E2. exact Hcur. }
      rewrite E3. reflexivity. }
    split; [| exact Hload].
    intros e. split.
    + intros H. destruct (Drawing.parse_xml path root) as [d | e'] eqn:Hp.
      * destruct (Hload d eq_refl) as (c' & Hc' & _).
        rewrite Hc' in H. discriminate H.
      * unfold load_xml_file in H. rewrite Hp in H. cbn [Py.bind] in H.
        inversion H. reflexivity.
    + intros H. unfold load_xml_file. rewrite H. reflexivity.
  - intros c Hs. unfold unload_current_xml.
    destruct (xml_drawings (xml c)) as [| d0 ds0] eqn:Hx.
    { exists c. split; [reflexivity |]. split; [exact Hs |].
      split; [reflexivity |]. intros H. contradiction. }
    destruct Hs as [(E & _) | Hr]; [rewrite Hx in E; discriminate E |].
    rewrite Hx in Hr.
    set (idx := current_xml_drawing_idx (xml c)) in *.
    destruct (Z.leb_spec 0 idx) as [_ | H]; [| lia].
    destruct (Z.ltb_spec idx (Z.of_nat (List.length (d0 :: ds0))))
      as [_ | H]; [| lia].
    cbn [andb].
    set (ds := delete_at (d0 :: ds0) (Z.to_nat idx)).
    assert (Hlen : List.length ds = Nat.pred (List.length (d0 :: ds0))).
    { apply delete_at_length. lia. }
    destruct ds as [| d1 ds1] eqn:Hds.
    + cbn [Py.bind].
      set (c1 := with_xml (set_selection [] (-1) None (xml c)) c).
      assert (Hok1 : selection_ok c1) by (left; repeat split).
      destruct (reset_xml_view_total c1 Hok1) as (c' & Hc').
      destruct (reset_xml_view_selection _ _ Hc') as (E1 & E2 & E3).
      exists c'. split; [exact Hc' |].
      split; [left; rewrite E1, E2, E3; repeat split |].
      split; [intros H; discriminate H |].
      intros _. rewrite E1. cbn [xml with_xml set_selection xml_drawings].
      split; [reflexivity |]. split; [exact Hlen |].
      intros d Hd. unfold current_drawing in Hd. rewrite E1, E2 in Hd.
      discriminate Hd.
    + set (idx' := Z.min idx (Z.of_nat (List.length (d1 :: ds1)) - 1)) in *.
      assert (Hr' : (0 <= idx' < Z.of_nat (List.length (d1 :: ds1)))%Z).
      { unfold idx'. cbn [List.length] in *. lia. }
      set (c0 := with_xml (set_selection (d1 :: ds1) idx'
                                         (current_xml_step (xml c)) (xml c)) c).
      destruct (current_drawing_in_range (xml c0) Hr') as (cur & Hcur & _).
      rewrite Hcur. cbn [Py.bind].
      set (c1 := with_xml (set_selection (d1 :: ds1) idx'
                                         (start_or_first cur) (xml c)) c).
      assert (Hok1 : selection_ok c1) by (right; exact Hr').
      destruct (reset_xml_view_total c1 Hok1) as (c' & Hc').
      destruct (reset_xml_view_selection _ _ Hc') as (E1 & E2 & E3).
      exists c'. split; [exact Hc' |].
      split; [right; rewrite E1, E2; exact Hr' |].
      split; [intros H; discriminate H |].
      intros _. rewrite E1, E3.
      cbn [xml with_xml set_selection xml_drawings current_xml_step].
      split; [reflexivity |]. split; [exact Hlen |].
      intros d Hd. unfold current_drawing in Hd. rewrite E1, E2 in Hd.
      unfold current_drawing in Hcur.
      cbn [xml with_xml set_selection xml_drawings current_xml_drawing_idx
           c0 c1] in Hd, Hcur.
      rewrite Hcur in Hd. injection Hd as <-. reflexivity.
Qed.

Lemma xml_selection_invariant_witness :
  exists c',
    load_xml_file ViewerCanvas.init "one.xml" one_step_file = Ok c'
    /\ selection_ok c'
    /\ exists c'', unload_current_xml c' = Ok c'' /\ selection_ok c''.
Proof.
  destruct (Drawing.parse_xml "one.xml" one_step_file) as [d | e] eqn:Hd;
    [| vm_compute in Hd; discriminate Hd].
  destruct (proj2 (proj1 (proj2 xml_selection_invariant)
                     ViewerCanvas.init "one.xml" one_step_file) d Hd)
    as (c' & Hl & Hok & _).
  exists c'. split; [exact Hl |]. split; [exact Hok |].
  destruct (proj2 (proj2 xml_selection_invariant) c' Hok)
    as (c'' & Hu & Hok' & _).
  exists c''. split; [exact Hu | exact Hok'].
Defined.

End XmlSelection.
(* ------------------------------------------------------------------ *)
(** * The LES data classes: further properties *)

Section ViewImageFacts.
Import Py LesDoc ViewImageSize.
Local Open Scope list_scope.
Local Open Scope Q_scope.

Lemma Qltb_true (a b : Q) : Qltb a b = true <-> a < b.
Proof.
  unfold Qltb. rewrite negb_true_iff. split.
  - intros H. apply Qnot_le_lt. intros Hle.
    apply Qle_bool_iff in Hle. congruence.
  - intros H. destruct (Qle_bool b a) eqn:E; [| reflexivity].
    apply Qle_bool_iff in E. exfalso. apply (Qlt_not_le _ _ H E).
Qed.

Lemma Qltb_false (a b : Q) : Qltb a b = false <-> b <= a.
Proof.
  unfold Qltb. rewrite negb_false_iff. apply Qle_bool_iff.
Qed.

Lemma qmin_spec (a b : Q) :
  qmin a b <= a /\ qmin a b <= b /\ (qmin a b = a \/ qmin a b = b).
Proof.
  unfold qmin. destruct (Qltb b a) eqn:E.
  - apply Qltb_true in E. split; [apply Qlt_le_weak; exact E |].
    split; [apply Qle_refl | right; reflexivity].
  - apply Qltb_false in E. split; [apply Qle_refl |].
    split; [exact E | left; reflexivity].
Qed.

Lemma qmax_spec (a b : Q) :
  a <= qmax a b /\ b <= qmax a b /\ (qmax a b = a \/ qmax a b = b).
Proof.
  unfold qmax. destruct (Qltb a b) eqn:E.
  - apply Qltb_true in E. split; [apply Qlt_le_weak; exact E |].
    split; [apply Qle_refl | right; reflexivity].
  - apply Qltb_false in E. split; [apply Qle_refl |].
    split; [exact E | left; reflexivity].
Qed.

Lemma set_size_box (p : Point.t) (vi : ViewImage.t) :
  ViewImage.initial (ViewImage.set_size p vi) = false
  /\ in_box (ViewImage.set_size p vi) (Point.x p) (Point.y p)
  /\ (ViewImage.initial vi = false ->
      forall x y, in_box vi x y -> in_box (ViewImage.set_size p vi) x y).
Proof.
  unfold ViewImage.set_size, in_box.
  destruct (ViewImage.initial vi) eqn:Hi; cbn [ViewImage.initial
    ViewImage.min_x ViewImage.max_x ViewImage.min_y ViewImage.max_y].
  - split; [reflexivity |]. split; [| discriminate].
    repeat split; apply Qle_refl.
  - destruct (qmin_spec (Point.x p) (ViewImage.min_x vi)) as (A1 & A2 & _).
    destruct (qmin_spec (Point.y p) (ViewImage.min_y vi)) as (B1 & B2 & _).
    destruct (qmax_spec (Point.x p) (ViewImage.max_x vi)) as (C1 & C2 & _).
    destruct (qmax_spec (Point.y p) (ViewImage.max_y vi)) as (D1 & D2 & _).
    split; [reflexivity |]. split; [repeat split; assumption |].
    intros _ x y ((X1 & X2) & (Y1 & Y2)).
    repeat split; eapply Qle_trans; eassumption.
Qed.

(** The corners of the box are coordinates of points seen. *)
Lemma set_size_corners (P : Q -> Prop) (R : Q -> Prop) (p : Point.t)
    (vi : ViewImage.t) :
  P (Point.x p) -> R (Point.y p) ->
  (ViewImage.initial vi = false ->
   P (ViewImage.min_x vi) /\ P (ViewImage.max_x vi)
   /\ R (ViewImage.min_y vi) /\ R (ViewImage.max_y vi)) ->
  P (ViewImage.min_x (ViewImage.set_size p vi))
  /\ P (ViewImage.max_x (ViewImage.set_size p vi))
  /\ R (ViewImage.min_y (ViewImage.set_size p vi))
  /\ R (ViewImage.max_y (ViewImage.set_size p vi)).
Proof.
  intros Hx Hy Hvi. unfold ViewImage.set_size.
  destruct (ViewImage.initial vi) eqn:Hi; cbn [ViewImage.initial
    ViewImage.min_x ViewImage.max_x ViewImage.min_y ViewImage.max_y].
  - repeat split; assumption.
  - destruct (Hvi eq_refl) as (H1 & H2 & H3 & H4).
    destruct (qmin_spec (Point.x p) (ViewImage.min_x vi)) as (_ & _ & [E | E]);
    destruct (qmin_spec (Point.y p) (ViewImage.min_y vi)) as (_ & _ & [F | F]);
    destruct (qmax_spec (Point.x p) (ViewImage.max_x vi)) as (_ & _ & [G | G]);
    destruct (qmax_spec (Point.y p) (ViewImage.max_y vi)) as (_ & _ & [K | K]);
    rewrite E, F, G, K; repeat split; assumption.
Qed.

(** X13.  A [ViewImage] is the bounding box of the points handed to
    [set_size].  After any calls, starting from any image: when there
    was a call the image is no longer initial; every point handed in
    lies in the box; a position that was in the box of a non-initial
    image stays in it; starting from a fresh image, each of the four
    bounds is the coordinate of one of the points; and [width] and
    [height] are at least 100 and at least the extent of the box. *)
Theorem view_image_is_bounding_box (points : list Point.t)
    (vi : ViewImage.t) :
  let vi' := set_sizes points vi in
  (points <> [] -> ViewImage.initial vi' = false)
  /\ (forall p, In p points -> in_box vi' (Point.x p) (Point.y p))
  /\ (ViewImage.initial vi = false ->
      forall x y, in_box vi x y -> in_box vi' x y)
  /\ (ViewImage.initial vi = true -> points <> [] ->
      (exists p, In p points /\ ViewImage.min_x vi' = Point.x p)
      /\ (exists p, In p points /\ ViewImage.max_x vi' = Point.x p)
      /\ (exists p, In p points /\ ViewImage.min_y vi' = Point.y p)
      /\ (exists p, In p points /\ ViewImage.max_y vi' = Point.y p))
  /\ 100 <= width vi' /\ 100 <= height vi'
  /\ ViewImage.max_x vi' - ViewImage.min_x vi' <= width vi'
  /\ ViewImage.max_y vi' - ViewImage.min_y vi' <= height vi'.
Proof.
  cbv zeta. unfold set_sizes.
  assert (Hkeep : forall ps v,
             ViewImage.initial v = false ->
             ViewImage.initial
               (fold_left (fun vi p => ViewImage.set_size p vi) ps v) = false
             /\ forall x y, in_box v x y ->
                  in_box (fold_left (fun vi p => ViewImage.set_size p vi) ps v)
                         x y).
  { induction ps as [| p ps IH]; intros v Hv; cbn [fold_left].
    - split; [exact Hv | intros; assumption].
    - destruct (set_size_box p v) as (H1 & _ & H3).
      destruct (IH _ H1) as (I1 & I2).
      split; [exact I1 |]. intros x y Hxy. apply I2, H3; assumption. }
  split; [| split; [| split; [| split]]].
  - destruct points as [| p ps]; [intros H; contradiction |].
    intros _. cbn [fold_left].
    apply (Hkeep ps). apply set_size_box.
  - revert vi. induction points as [| q ps IH]; intros vi p Hp;
      [contradiction |].
    cbn [fold_left]. destruct Hp as [<- | Hp].
    + destruct (set_size_box q vi) as (H1 & H2 & _).
      apply (Hkeep ps _ H1). exact H2.
    + apply IH. exact Hp.
  - intros Hv x y. apply (Hkeep points vi Hv).
  - intros Hi Hne.
    assert (Hgen : forall ps v (seen : list Point.t),
               (ViewImage.initial v = false ->
                (exists p, In p seen /\ ViewImage.min_x v = Point.x p)
                /\ (exists p, In p seen /\ ViewImage.max_x v = Point.x p)
                /\ (exists p, In p seen /\ ViewImage.min_y v = Point.y p)
                /\ (exists p, In p seen /\ ViewImage.max_y v = Point.y p)) ->
               ViewImage.initial v = false \/ ps <> [] ->
               let v' := fold_left (fun vi p => ViewImage.set_size p vi) ps v in
               (exists p, In p (seen ++ ps) /\ ViewImage.min_x v' = Point.x p)
               /\ (exists p, In p (seen ++ ps) /\ ViewImage.max_x v' = Point.x p)
               /\ (exists p, In p (seen ++ ps) /\ ViewImage.min_y v' = Point.y p)
               /\ (exists p, In p (seen ++ ps) /\ ViewImage.max_y v' = Point.y p)).
    { induction ps as [| p ps IH]; intros v seen Hv Hor; cbn [fold_left].
      - rewrite app_nil_r. destruct Hor as [Hf | Hf]; [| contradiction].
        apply Hv. exact Hf.
      - replace (seen ++ p :: ps) with ((seen ++ [p]) ++ ps)
          by (rewrite <- app_assoc; reflexivity).
        apply IH.
        + intros _.
          apply (set_size_corners
                   (fun q => exists p0, In p0 (seen ++ [p]) /\ q = Point.x p0)
                   (fun q => exists p0, In p0 (seen ++ [p]) /\ q = Point.y p0)).
          * exists p. split; [apply in_or_app; right; left |]; reflexivity.
          * exists p. split; [apply in_or_app; right; left |]; reflexivity.
          * intros Hf. destruct (Hv Hf) as (A & B & C & D).
            repeat split;
              match goal with
              | H : exists p0, In p0 seen /\ ?q = _ |- exists p0, _ /\ ?q = _ =>
                  destruct H as (p0 & Hin & E); exists p0;
                  split; [apply in_or_app; left; exact Hin | exact E]
              end.
        + left. apply set_size_box. }
    apply (Hgen points vi []).
    + intros Hf. congruence.
    + right. exact Hne.
  - unfold width, height.
    set (v' := fold_left (fun vi0 p => ViewImage.set_size p vi0) points vi).
    destruct (qmax_spec (ViewImage.max_x v' - ViewImage.min_x v') 100)
      as (A & B & _).
    destruct (qmax_spec (ViewImage.max_y v' - ViewImage.min_y v') 100)
      as (C & D & _).
    repeat split; assumption.
Qed.

Lemma view_image_is_bounding_box_witness :
  ViewImage.initial
    (set_sizes [Samples.unset_point] ViewImage.default) = false.
Proof.
  apply (proj1 (view_image_is_bounding_box [Samples.unset_point]
                                           ViewImage.default)).
  discriminate.
Defined.

End ViewImageFacts.

Section StepIsometry.
Import Py LesDoc.
Local Open Scope string_scope.
Local Open Scope Q_scope.

Lemma apply_op_dist (p q : Point.t) (op : ascii) (s1 s2 : Q * Q * Z) :
  dist2 (xy (LesStep.apply_op p op s1)) (xy (LesStep.apply_op q op s2))
  == dist2 (xy s1) (xy s2).
Proof.
  destruct s1 as [[x1 y1] l1]. destruct s2 as [[x2 y2] l2].
  unfold LesStep.apply_op.
  destruct (Ascii.eqb op "D"); [unfold dist2, xy; cbn [fst snd]; ring |].
  destruct (Ascii.eqb op "X"); [unfold dist2, xy; cbn [fst snd]; ring |].
  destruct (Ascii.eqb op "Y"); unfold dist2, xy; cbn [fst snd]; ring.
Qed.

Lemma apply_ops_dist (p q : Point.t) (ops : string) :
  forall s1 s2,
    dist2 (xy (LesStep.apply_ops p ops s1)) (xy (LesStep.apply_ops q ops s2))
    == dist2 (xy s1) (xy s2).
Proof.
  induction ops as [| op rest IH]; intros s1 s2; cbn [LesStep.apply_ops].
  - reflexivity.
  - rewrite IH. apply apply_op_dist.
Qed.

Lemma apply_op_scaled (p p' : Point.t) (op : ascii) (k : Q)
    (s s' : Q * Q * Z) :
  fst (xy s') == fst (xy s) * k -> snd (xy s') == snd (xy s) * k ->
  fst (xy (LesStep.apply_op p' op s')) == fst (xy (LesStep.apply_op p op s)) * k
  /\ snd (xy (LesStep.apply_op p' op s'))
     == snd (xy (LesStep.apply_op p op s)) * k.
Proof.
  destruct s as [[x y] l]. destruct s' as [[x' y'] l'].
  unfold xy. cbn [fst snd]. intros Hx Hy. unfold LesStep.apply_op.
  destruct (Ascii.eqb op "D"); [cbn [fst snd]; rewrite Hx, Hy; split; ring |].
  destruct (Ascii.eqb op "X"); [cbn [fst snd]; rewrite Hx, Hy; split; ring |].
  destruct (Ascii.eqb op "Y"); cbn [fst snd]; rewrite Hx, Hy; split; ring.
Qed.

Lemma apply_ops_scaled (p p' : Point.t) (ops : string) (k : Q) :
  forall s s',
    fst (xy s') == fst (xy s) * k -> snd (xy s') == snd (xy s) * k ->
    fst (xy (LesStep.apply_ops p' ops s'))
    == fst (xy (LesStep.apply_ops p ops s)) * k
    /\ snd (xy (LesStep.apply_ops p' ops s'))
       == snd (xy (LesStep.apply_ops p ops s)) * k.
Proof.
  induction ops as [| op rest IH]; intros s s' Hx Hy; cbn [LesStep.apply_ops].
  - split; assumption.
  - destruct (apply_op_scaled p p' op k s s' Hx Hy) as (Hx' & Hy').
    apply IH; assumption.
Qed.

Lemma apply_transformation_xy (st : LesStep.t) (p : Point.t) (i : Z) :
  xy (LesStep.apply_transformation st p i)
  = (fst (xy (LesStep.apply_ops p (LesStep.operations st)
                 (Point.x p, Point.y p, Point.layer p)))
     + (LesStep.offset_x st + inject_Z i * LesStep.distance_x st),
     snd (xy (LesStep.apply_ops p (LesStep.operations st)
                 (Point.x p, Point.y p, Point.layer p)))
     + (LesStep.offset_y st + inject_Z i * LesStep.distance_y st)).
Proof.
  unfold LesStep.apply_transformation.
  destruct (LesStep.apply_ops p (LesStep.operations st) _) as [[x y] l].
  reflexivity.
Qed.

(** X14.  A step copy is a rigid motion: [apply_transformation] of two
    points by the same step and the same step index leaves their
    distance as it was, whatever the operations string holds, and two
    copies of one point at step indices [i] and [j] lie [j - i] times
    the step distance apart. *)
Theorem apply_transformation_rigid (st : LesStep.t) (p q : Point.t)
    (i j : Z) :
  dist2 (xy (LesStep.apply_transformation st p i))
        (xy (LesStep.apply_transformation st q i))
  == dist2 (Point.x p, Point.y p) (Point.x q, Point.y q)
  /\ fst (xy (LesStep.apply_transformation st p j))
     - fst (xy (LesStep.apply_transformation st p i))
     == inject_Z (j - i) * LesStep.distance_x st
  /\ snd (xy (LesStep.apply_transformation st p j))
     - snd (xy (LesStep.apply_transformation st p i))
     == inject_Z (j - i) * LesStep.distance_y st.
Proof.
  rewrite !apply_transformation_xy.
  pose proof (apply_ops_dist p q (LesStep.operations st)
                (Point.x p, Point.y p, Point.layer p)
                (Point.x q, Point.y q, Point.layer q)) as H.
  unfold dist2 in *. cbn [fst snd] in *.
  split; [| split].
  - rewrite <- H. ring.
  - unfold Z.sub. rewrite inject_Z_plus, inject_Z_opp. ring.
  - unfold Z.sub. rewrite inject_Z_plus, inject_Z_opp. ring.
Qed.

(** X15.  The step transform commutes with the unit scale:
    [apply_transformation] of a step whose values went through
    [scale_values(s)], on a point whose coordinates were multiplied by
    [s] (as [load_file] does for both), gives the coordinates of the
    unscaled transform multiplied by [s], and the same layer.  And
    [scale_values] composes: scaling by [s] and then by [t] scales
    by [s * t]. *)
Theorem apply_transformation_scales (st : LesStep.t) (p : Point.t)
    (s t : Q) (i : Z) :
  let r := LesStep.apply_transformation st p i in
  let r' := LesStep.apply_transformation (LesStep.scale_values s st)
                                         (Les.scale_point s p) i in
  fst (xy r') == fst (xy r) * s
  /\ snd (xy r') == snd (xy r) * s
  /\ snd r' = snd r
  /\ LesStep.offset_x (LesStep.scale_values t (LesStep.scale_values s st))
     == LesStep.offset_x (LesStep.scale_values (s * t) st)
  /\ LesStep.offset_y (LesStep.scale_values t (LesStep.scale_values s st))
     == LesStep.offset_y (LesStep.scale_values (s * t) st)
  /\ LesStep.distance_x (LesStep.scale_values t (LesStep.scale_values s st))
     == LesStep.distance_x (LesStep.scale_values (s * t) st)
  /\ LesStep.distance_y (LesStep.scale_values t (LesStep.scale_values s st))
     == LesStep.distance_y (LesStep.scale_values (s * t) st).
Proof.
  cbv zeta.
  split; [| split; [| split]].
  - rewrite !apply_transformation_xy. cbn [fst snd].
    destruct (apply_ops_scaled p (Les.scale_point s p)
                (LesStep.operations st) s
                (Point.x p, Point.y p, Point.layer p)
                (Point.x p * s, Point.y p * s, Point.layer p))
      as (Hx & _); [reflexivity | reflexivity |].
    cbn [LesStep.scale_values LesStep.operations LesStep.offset_x
         LesStep.distance_x Les.scale_point Point.set_xy Point.x Point.y
         Point.layer].
    rewrite Hx. ring.
  - rewrite !apply_transformation_xy. cbn [fst snd].
    destruct (apply_ops_scaled p (Les.scale_point s p)
                (LesStep.operations st) s
                (Point.x p, Point.y p, Point.layer p)
                (Point.x p * s, Point.y p * s, Point.layer p))
      as (_ & Hy); [reflexivity | reflexivity |].
    cbn [LesStep.scale_values LesStep.operations LesStep.offset_y
         LesStep.distance_y Les.scale_point Point.set_xy Point.x Point.y
         Point.layer].
    rewrite Hy. ring.
  - assert (E : forall st' p',
               snd (LesStep.apply_transformation st' p' i)
               = snd (LesStep.apply_ops p' (LesStep.operations st')
                        (Point.x p', Point.y p', Point.layer p'))).
    { intros st' p'. unfold LesStep.apply_transformation.
      destruct (LesStep.apply_ops p' _ _) as [[x y] l]. reflexivity. }
    rewrite !E, !apply_ops_layer. reflexivity.
  - cbn [LesStep.scale_values LesStep.offset_x LesStep.offset_y
         LesStep.distance_x LesStep.distance_y].
    repeat split; ring.
Qed.

End StepIsometry.
Section DecimalRoundTrip.
Import Py.
Local Open Scope string_scope.
Local Open Scope list_scope.
Local Open Scope Z_scope.

Lemma uint_all_digits (d : Decimal.uint) :
  all_digits (NilEmpty.string_of_uint d) = true.
Proof.
  induction d; cbn [NilEmpty.string_of_uint all_digits];
    try reflexivity; rewrite IHd; reflexivity.
Qed.

Lemma digits_acc_uint_pos (d : Decimal.uint) :
  forall (acc : positive) (n : nat) (b : bool),
    b = true \/ d <> Decimal.Nil ->
    exists k,
      digits_acc (NilEmpty.string_of_uint d) (Z.pos acc) n b
      = Some (Z.pos (Pos.of_uint_acc d acc), k).
Proof.
  induction d; intros acc n b Hb;
    cbn [NilEmpty.string_of_uint digits_acc Pos.of_uint_acc].
  - destruct Hb as [-> | Hb]; [| contradiction Hb; reflexivity].
    exists n. reflexivity.
  - change (is_digit "0") with true. cbv iota.
    replace (10 * Z.pos acc + digit_val "0") with (Z.pos (10 * acc))
      by (change (digit_val "0") with 0; lia).
    apply IHd. left; reflexivity.
  - change (is_digit "1") with true. cbv iota.
    replace (10 * Z.pos acc + digit_val "1") with (Z.pos (1 + 10 * acc))
      by (change (digit_val "1") with 1; lia).
    apply IHd. left; reflexivity.
  - change (is_digit "2") with true. cbv iota.
    replace (10 * Z.pos acc + digit_val "2") with (Z.pos (2 + 10 * acc))
      by (change (digit_val "2") with 2; lia).
    apply IHd. left; reflexivity.
  - change (is_digit "3") with true. cbv iota.
    replace (10 * Z.pos acc + digit_val "3") with (Z.pos (3 + 10 * acc))
      by (change (digit_val "3") with 3; lia).
    apply IHd. left; reflexivity.
  - change (is_digit "4") with true. cbv iota.
    replace (10 * Z.pos acc + digit_val "4") with (Z.pos (4 + 10 * acc))
      by (change (digit_val "4") with 4; lia).
    apply IHd. left; reflexivity.
  - change (is_digit "5") with true. cbv iota.
    replace (10 * Z.pos acc + digit_val "5") with (Z.pos (5 + 10 * acc))
      by (change (digit_val "5") with 5; lia).
    apply IHd. left; reflexivity.
  - change (is_digit "6") with true. cbv iota.
    replace (10 * Z.pos acc + digit_val "6") with (Z.pos (6 + 10 * acc))
      by (change (digit_val "6") with 6; lia).
    apply IHd. left; reflexivity.
  - change (is_digit "7") with true. cbv iota.
    replace (10 * Z.pos acc + digit_val "7") with (Z.pos (7 + 10 * acc))
      by (change (digit_val "7") with 7; lia).
    apply IHd. left; reflexivity.
  - change (is_digit "8") with true. cbv iota.
    replace (10 * Z.pos acc + digit_val "8") with (Z.pos (8 + 10 * acc))
      by (change (digit_val "8") with 8; lia).
    apply IHd. left; reflexivity.
  - change (is_digit "9") with true. cbv iota.
    replace (10 * Z.pos acc + digit_val "9") with (Z.pos (9 + 10 * acc))
      by (change (digit_val "9") with 9; lia).
    apply IHd. left; reflexivity.
Qed.

Lemma digits_acc_uint_zero (d : Decimal.uint) :
  forall (n : nat) (b : bool),
    b = true \/ d <> Decimal.Nil ->
    exists k,
      digits_acc (NilEmpty.string_of_uint d) 0 n b
      = Some (Z.of_N (Pos.of_uint d), k).
Proof.
  induction d; intros n b Hb;
    cbn [NilEmpty.string_of_uint digits_acc Pos.of_uint];
    try (match goal with
         | |- context [is_digit ?c] => change (is_digit c) with true
         end; cbv iota;
         match goal with
         | |- context [(10 * 0 + digit_val ?c)%Z] =>
             let v := eval vm_compute in (10 * 0 + digit_val c)%Z in
             change (10 * 0 + digit_val c)%Z with v
         end).
  - destruct Hb as [-> | Hb]; [| contradiction Hb; reflexivity].
    exists n. reflexivity.
  - apply IHd. left; reflexivity.
  - apply (digits_acc_uint_pos d 1). left; reflexivity.
  - apply (digits_acc_uint_pos d 2). left; reflexivity.
  - apply (digits_acc_uint_pos d 3). left; reflexivity.
  - apply (digits_acc_uint_pos d 4). left; reflexivity.
  - apply (digits_acc_uint_pos d 5). left; reflexivity.
  - apply (digits_acc_uint_pos d 6). left; reflexivity.
  - apply (digits_acc_uint_pos d 7). left; reflexivity.
  - apply (digits_acc_uint_pos d 8). left; reflexivity.
  - apply (digits_acc_uint_pos d 9). left; reflexivity.
Qed.

Lemma str_of_int_digits (n : Z) :
  0 <= n ->
  all_digits (str_of_int n) = true
  /\ str_of_int n <> ""%string
  /\ exists k, digit_run (str_of_int n) = Some (n, k).
Proof.
  intros Hn. unfold str_of_int, digit_run.
  destruct n as [| p | p];
    [split; [reflexivity | split; [discriminate | eexists; reflexivity]]
    | | lia].
  cbn [Z.to_int NilZero.string_of_int]. unfold NilZero.string_of_uint.
  pose proof (DecimalPos.Unsigned.to_uint_nonnil p) as Hnil.
  pose proof (DecimalPos.Unsigned.of_to p) as Hof.
  destruct (Pos.to_uint p) as [| d | d | d | d | d | d | d | d | d | d] eqn:E;
    [contradiction Hnil; reflexivity | | | | | | | | | | ];
    (split;
     [ match goal with
       | |- context [NilEmpty.string_of_uint ?u] =>
           pose proof (uint_all_digits u) as Ha;
           cbn [NilEmpty.string_of_uint] in Ha |- *; exact Ha
       end
     | split;
       [ cbn [NilEmpty.string_of_uint]; discriminate
       | match goal with
         | |- context [NilEmpty.string_of_uint ?u] =>
             destruct (digits_acc_uint_zero u 0%nat false) as (k & Hk);
             [right; discriminate |];
             exists k; rewrite Hk, Hof; reflexivity
         end ] ]).
Qed.

(** [int(str(n)) == n] for a natural number of at most 4300 digits. *)
Lemma int_of_str_of_int (n : Z) :
  0 <= n ->
  Z.of_nat (String.length (str_of_int n)) <= int_max_str_digits ->
  int_of_string (str_of_int n) = Ok n.
Proof.
  intros Hn Hlen. destruct (str_of_int_digits n Hn) as (Hd & Hne & k & Hk).
  destruct (digit_run_count _ Hd Hne) as (v & Hv & _).
  rewrite Hk in Hv. injection Hv as <- ->.
  unfold int_of_string.
  rewrite (strip_digits _ Hd), (digits_not_sign _ Hd), Hk.
  destruct (Z.ltb_spec int_max_str_digits
                       (Z.of_nat (String.length (str_of_int n))));
    [lia | reflexivity].
Qed.

Lemma digits_acc_nonneg (s : string) :
  forall acc n b v k,
    digits_acc s acc n b = Some (v, k) -> 0 <= acc -> 0 <= v.
Proof.
  induction s as [| c r IH]; intros acc n b v k; cbn [digits_acc].
  - destruct b; [| discriminate]. intros H; inversion H; subst. auto.
  - destruct (is_digit c).
    + intros H Hacc. apply (IH _ _ _ _ _ H).
      unfold digit_val. lia.
    + destruct (Ascii.eqb c "_" && b); [| discriminate].
      intros H Hacc. apply (IH _ _ _ _ _ H Hacc).
Qed.

End DecimalRoundTrip.

Section StringFacts.
Import Py.
Local Open Scope string_scope.
Local Open Scope list_scope.

Lemma split_nonempty (sep : ascii) (s : string) : split sep s <> [].
Proof.
  induction s as [| c r IH]; cbn [split]; [discriminate |].
  destruct (Ascii.eqb c sep); [discriminate |].
  destruct (split sep r); discriminate.
Qed.

Lemma split_no_sep (sep : ascii) (s : string) :
  mem_char sep s = false -> split sep s = [s].
Proof.
  induction s as [| c r IH]; cbn [split mem_char]; [reflexivity |].
  intros H. apply orb_false_iff in H. destruct H as [Hc Hr].
  rewrite Ascii.eqb_sym, Hc, (IH Hr). reflexivity.
Qed.

Lemma split_app (sep : ascii) (a b : string) :
  mem_char sep a = false ->
  split sep (a ++ String sep b)%string = a :: split sep b.
Proof.
  induction a as [| c r IH]; cbn [split mem_char String.append].
  - intros _. rewrite Ascii.eqb_refl. reflexivity.
  - intros H. apply orb_false_iff in H. destruct H as [Hc Hr].
    rewrite Ascii.eqb_sym, Hc, (IH Hr). reflexivity.
Qed.

Lemma all_digits_no_char (c : ascii) (s : string) :
  is_digit c = false -> all_digits s = true -> mem_char c s = false.
Proof.
  intros Hc. induction s as [| d r IH]; cbn [all_digits mem_char];
    [reflexivity |].
  intros H. apply andb_true_iff in H. destruct H as [Hd Hr].
  rewrite (IH Hr), orb_false_r.
  destruct (Ascii.eqb_spec c d) as [-> | _]; [congruence | reflexivity].
Qed.

Lemma remove_char_absent (c : ascii) (s : string) :
  mem_char c s = false -> remove_char c s = s.
Proof.
  induction s as [| d r IH]; cbn [remove_char mem_char]; [reflexivity |].
  intros H. apply orb_false_iff in H. destruct H as [Hc Hr].
  rewrite Hc, (IH Hr). reflexivity.
Qed.

Lemma digit_not_blank (c : ascii) : is_digit c = true -> is_space c = false.
Proof.
  intros H.
  destruct c as [[] [] [] [] [] [] [] []]; try reflexivity;
    vm_compute in H; discriminate H.
Qed.

Lemma strip_blank_digits (s : string) : all_digits s = true -> strip s = s.
Proof.
  intros H. unfold strip, strip_by, rstrip_by.
  assert (L : forall t, all_digits t = true -> lstrip_by is_space t = t).
  { intros [| c r]; cbn [lstrip_by all_digits]; [reflexivity |].
    intros Ht. apply andb_true_iff in Ht. destruct Ht as [Hc _].
    rewrite (digit_not_blank c Hc). reflexivity. }
  rewrite (L s H), (L _ (all_digits_rev s H)).
  apply rev_string_involutive.
Qed.

Lemma leading_digits_all (s : string) :
  all_py_digits (Net.leading_digits s) = true.
Proof.
  induction s as [| c r IH]; cbn [Net.leading_digits]; [reflexivity |].
  destruct (is_py_digit c) eqn:Hc; [| reflexivity].
  cbn [all_py_digits]. rewrite Hc, IH. reflexivity.
Qed.

Lemma leading_digits_id (s : string) :
  all_digits s = true -> Net.leading_digits s = s.
Proof.
  induction s as [| c r IH]; cbn [Net.leading_digits all_digits];
    [reflexivity |].
  intros H. apply andb_true_iff in H. destruct H as [Hc Hr].
  rewrite (digit_is_py_digit c Hc), (IH Hr). reflexivity.
Qed.

Lemma decimal_isdigit (s : string) :
  all_digits s = true -> s <> ""%string -> isdigit s = true.
Proof.
  intros H Hne. destruct s as [| c r]; [contradiction Hne; reflexivity |].
  unfold isdigit. apply all_digits_py. exact H.
Qed.

End StringFacts.

Section NetFacts.
Import Py LesDoc.
Local Open Scope string_scope.
Local Open Scope list_scope.

(** What [Net.__init__] returns when it returns. *)
Lemma net_init_fields (content : option string) (n : Net.t) :
  Net.init content = Ok n ->
  (0 <= Net.index n)%Z /\ (0 <= Net.image n)%Z /\ Net.points n = [].
Proof.
  unfold Net.init.
  destruct content as [[| c r] |];
    try (intros H; injection H as <-; cbn; repeat split; lia).
  set (content := String c r).
  set (body := if has_char "P" content then remove_char "P" content
               else content).
  destruct (split "C" body) as [| p0 rest] eqn:Hs;
    [unfold Py.index; cbn [nth_error Py.bind]; discriminate |].
  unfold Py.index. cbn [nth_error Py.bind].
  set (digits := Net.leading_digits (strip (remove_char "@" p0))).
  intros H.
  apply bind_ok in H. destruct H as (idx & Hidx & H).
  apply bind_ok in H. destruct H as (img & Himg & H).
  injection H as <-. cbn [Net.index Net.image Net.points].
  split; [| split; [| reflexivity]].
  - destruct digits as [| d ds] eqn:Hd; [injection Hidx as <-; lia |].
    assert (Hdig : isdigit (String d ds) = true).
    { unfold isdigit. rewrite <- Hd. apply leading_digits_all. }
    destruct (int_of_isdigit _ Hdig) as (Hyes & Hno).
    destruct (int_reads (String d ds)).
    + destruct (Hyes eq_refl) as (v & Hv & Hv0).
      rewrite Hv in Hidx. injection Hidx as <-. exact Hv0.
    + rewrite (Hno eq_refl) in Hidx. discriminate Hidx.
  - destruct rest as [| p1 ?]; [injection Himg as <-; lia |].
    destruct (isdigit p1) eqn:Hdig; [| injection Himg as <-; lia].
    destruct (int_of_isdigit _ Hdig) as (Hyes & Hno).
    destruct (int_reads p1).
    + destruct (Hyes eq_refl) as (v & Hv & Hv0).
      rewrite Hv in Himg. injection Himg as <-. exact Hv0.
    + rewrite (Hno eq_refl) in Himg. discriminate Himg.
Qed.

(** When [Net.__init__] returns and when it raises. *)
Lemma net_init_result (content : string) :
  content <> "" ->
  (net_reads content = true -> exists n, Net.init (Some content) = Ok n)
  /\ (net_reads content = false ->
      Net.init (Some content) = Raise ValueError).
Proof.
  intros Hne. unfold net_reads, net_index_text, net_image_text, net_parts.
  unfold Net.init.
  destruct content as [| c r]; [contradiction Hne; reflexivity |].
  set (content := String c r).
  set (body := if has_char "P" content then remove_char "P" content
               else content).
  pose proof (split_nonempty "C" body) as Hsp.
  destruct (split "C" body) as [| p0 rest] eqn:Hs; [contradiction |].
  unfold Py.index. cbn [nth_error Py.bind].
  set (digits := Net.leading_digits (strip (remove_char "@" p0))).
  assert (Hidx : match digits with
                 | "" => True
                 | _ => isdigit digits = true
                 end).
  { destruct digits as [| d ds] eqn:Hd; [exact I |].
    unfold isdigit. rewrite <- Hd. apply leading_digits_all. }
  destruct digits as [| d ds].
  - cbn [Py.bind andb].
    destruct rest as [| p1 ?];
      [split; [intros _; eexists; reflexivity | discriminate] |].
    destruct (isdigit p1) eqn:Hdig;
      [| split; [intros _; eexists; reflexivity | discriminate]].
    destruct (int_of_isdigit _ Hdig) as (Hyes & Hno).
    split; intros H.
    + destruct (Hyes H) as (v & Hv & _). rewrite Hv. eexists. reflexivity.
    + rewrite (Hno H). reflexivity.
  - destruct (int_of_isdigit _ Hidx) as (Hyes & Hno).
    destruct (int_reads (String d ds)).
    + destruct (Hyes eq_refl) as (v & Hv & _). rewrite Hv.
      cbn [Py.bind andb].
      destruct rest as [| p1 ?];
        [split; [intros _; eexists; reflexivity | discriminate] |].
      destruct (isdigit p1) eqn:Hdig;
        [| split; [intros _; eexists; reflexivity | discriminate]].
      destruct (int_of_isdigit _ Hdig) as (Hyes1 & Hno1).
      split; intros H.
      * destruct (Hyes1 H) as (v1 & Hv1 & _). rewrite Hv1.
        eexists. reflexivity.
      * rewrite (Hno1 H). reflexivity.
    + rewrite (Hno eq_refl). cbn [Py.bind andb].
      split; [discriminate | reflexivity].
Qed.

Lemma net_raises_value_error (content : option string) (e : exn) :
  Net.init content = Raise e -> e = ValueError.
Proof.
  destruct content as [[| c r] |]; try discriminate.
  destruct (net_init_result (String c r)) as (Hyes & Hno); [discriminate |].
  destruct (net_reads (String c r)).
  - destruct (Hyes eq_refl) as (n & ->). discriminate.
  - rewrite (Hno eq_refl). intros H. injection H as <-. reflexivity.
Qed.

(** X16.  [Net.__init__] decodes a header, and can raise
    [ValueError]: the digit tests before its two [int()] calls use
    [isdigit()], which accepts the superscripts two, three and one
    that [int()] refuses, and [int()] refuses more than 4300 digits.
    It raises nothing else, and raises exactly when one of the two
    texts it hands to [int()] is of that kind ([net_reads] is false).
    When it returns, index and image are natural numbers and the net
    has no points.  It reads back what a header writes: [@{i}C{m}]
    gives index [i] and image [m], [@{i}] gives index [i] and image 1,
    for numbers of at most 4300 digits; no text gives the default
    net. *)
Theorem net_header_decodes :
  (forall content n,
      Net.init content = Ok n ->
      (0 <= Net.index n)%Z /\ (0 <= Net.image n)%Z /\ Net.points n = [])
  /\ (forall content e, Net.init content = Raise e -> e = ValueError)
  /\ (forall content,
         content <> ""%string ->
         (net_reads content = true ->
          exists n, Net.init (Some content) = Ok n)
         /\ (net_reads content = false ->
             Net.init (Some content) = Raise ValueError))
  /\ (forall i m,
         (0 <= i)%Z -> (0 <= m)%Z ->
         (Z.of_nat (String.length (str_of_int i)) <= int_max_str_digits)%Z ->
         (Z.of_nat (String.length (str_of_int m)) <= int_max_str_digits)%Z ->
         Net.init (Some ("@" ++ str_of_int i ++ "C" ++ str_of_int m)%string)
         = Ok {| Net.index := i; Net.image := m; Net.points := [];
                 Net.is_plain := false |})
  /\ (forall i,
         (0 <= i)%Z ->
         (Z.of_nat (String.length (str_of_int i)) <= int_max_str_digits)%Z ->
         Net.init (Some ("@" ++ str_of_int i)%string)
         = Ok {| Net.index := i; Net.image := 1; Net.points := [];
                 Net.is_plain := false |})
  /\ (forall ds,
         all_digits ds = true ->
         (int_max_str_digits < Z.of_nat (String.length ds))%Z ->
         Net.init (Some (String "@" ds)) = Raise ValueError)
  /\ Net.init (Some (String "@" (String "1" (String "C"
                       (String "178" ""))))) = Raise ValueError
  /\ Net.init None = Ok Net.default
  /\ Net.init (Some "") = Ok Net.default.
Proof.
  split; [exact net_init_fields |].
  split; [exact net_raises_value_error |].
  split; [exact net_init_result |].
  assert (Hdigits : forall i, (0 <= i)%Z ->
            (Z.of_nat (String.length (str_of_int i)) <= int_max_str_digits)%Z ->
            all_digits (str_of_int i) = true
            /\ str_of_int i <> ""
            /\ int_of_string (str_of_int i) = Ok i).
  { intros i Hi Hlen. destruct (str_of_int_digits i Hi) as (Hd & Hne & _).
    split; [exact Hd |]. split; [exact Hne |].
    apply int_of_str_of_int; assumption. }
  assert (Hindex : forall ds,
            all_digits ds = true ->
            Net.leading_digits (strip (remove_char "@" (String "@" ds)))
            = ds).
  { intros ds Hds. cbn [remove_char]. change (Ascii.eqb "@" "@") with true.
    cbv iota.
    rewrite (remove_char_absent "@" ds)
      by (apply all_digits_no_char; [reflexivity | exact Hds]).
    rewrite (strip_blank_digits ds Hds). apply leading_digits_id. exact Hds. }
  split; [| split; [| split; [| split; [| split; reflexivity]]]].
  - intros i m Hi Hm Hli Hlm.
    destruct (Hdigits i Hi Hli) as (Hdi & Hni & Hii).
    destruct (Hdigits m Hm Hlm) as (Hdm & Hnm & Him).
    unfold Net.init. cbn [String.append].
    set (si := str_of_int i) in *. set (sm := str_of_int m) in *.
    assert (HP : has_char "P" (String "@" (si ++ String "C" sm)%string) = false).
    { unfold has_char. cbn [mem_char]. change (Ascii.eqb "P" "@") with false.
      cbn [orb].
      assert (G : forall a b, mem_char "P" a = false ->
                  mem_char "P" b = false ->
                  mem_char "P" (a ++ String "C" b)%string = false).
      { induction a as [| c r IH]; intros b Ha Hb; cbn [String.append mem_char].
        - change (Ascii.eqb "P" "C") with false. exact Hb.
        - cbn [mem_char] in Ha. apply orb_false_iff in Ha.
          destruct Ha as [Hc Hr]. rewrite Hc. cbn [orb]. apply IH; assumption. }
      apply G; apply all_digits_no_char; try reflexivity; assumption. }
    rewrite HP.
    change (String "@" (si ++ String "C" sm)%string)
      with ((String "@" si) ++ String "C" sm)%string.
    rewrite split_app.
    2:{ cbn [mem_char]. change (Ascii.eqb "C" "@") with false. cbn [orb].
        apply all_digits_no_char; [reflexivity | exact Hdi]. }
    rewrite (split_no_sep "C" sm)
      by (apply all_digits_no_char; [reflexivity | exact Hdm]).
    unfold Py.index. cbn [nth_error Py.bind].
    rewrite (Hindex si Hdi).
    destruct si as [| c r] eqn:Esi; [contradiction Hni; reflexivity |].
    rewrite Hii. cbn [Py.bind].
    rewrite (decimal_isdigit sm Hdm Hnm), Him. reflexivity.
  - intros i Hi Hli.
    destruct (Hdigits i Hi Hli) as (Hdi & Hni & Hii).
    unfold Net.init. cbn [String.append].
    set (si := str_of_int i) in *.
    assert (HP : has_char "P" (String "@" si) = false).
    { unfold has_char. cbn [mem_char]. change (Ascii.eqb "P" "@") with false.
      cbn [orb]. apply all_digits_no_char; [reflexivity | exact Hdi]. }
    rewrite HP.
    rewrite (split_no_sep "C" (String "@" si)).
    2:{ cbn [mem_char]. change (Ascii.eqb "C" "@") with false. cbn [orb].
        apply all_digits_no_char; [reflexivity | exact Hdi]. }
    unfold Py.index. cbn [nth_error Py.bind].
    rewrite (Hindex si Hdi).
    destruct si as [| c r] eqn:Esi; [contradiction Hni; reflexivity |].
    rewrite Hii. reflexivity.
  - intros ds Hds Hlen.
    assert (Hne : ds <> "").
    { intros E. subst ds. cbn in Hlen. unfold int_max_str_digits in Hlen.
      lia. }
    unfold Net.init.
    assert (HP : has_char "P" (String "@" ds) = false).
    { unfold has_char. cbn [mem_char]. change (Ascii.eqb "P" "@") with false.
      cbn [orb]. apply all_digits_no_char; [reflexivity | exact Hds]. }
    rewrite HP.
    rewrite (split_no_sep "C" (String "@" ds)).
    2:{ cbn [mem_char]. change (Ascii.eqb "C" "@") with false. cbn [orb].
        apply all_digits_no_char; [reflexivity | exact Hds]. }
    unfold Py.index. cbn [nth_error Py.bind].
    rewrite (Hindex ds Hds).
    destruct ds as [| c r] eqn:Eds; [contradiction Hne; reflexivity |].
    rewrite (int_of_long (String c r) Hds Hlen). reflexivity.
  - vm_compute. reflexivity.
Qed.

Lemma net_header_decodes_witness :
  Net.init (Some ("@" ++ str_of_int 12 ++ "C" ++ str_of_int 3)%string)
  = Ok {| Net.index := 12; Net.image := 3; Net.points := [];
          Net.is_plain := false |}.
Proof.
  apply (proj1 (proj2 (proj2 (proj2 net_header_decodes))));
    try lia; vm_compute; discriminate.
Defined.

End NetFacts.

Section ToolingFields.
Import Py LesDoc.
Local Open Scope string_scope.
Local Open Scope list_scope.

(** More fields of a tooling hole: its content is the cleaned text up
    to the first [I], its image is a natural number, 0 for a GLOBAL
    hole. *)
Lemma tooling_hole_more (self : Point.t) (content : string)
    (apertures : list Aperture.t) (style : PointStyle.t) (p : Point.t) :
  Point._init_tooling_hole self content apertures style = Ok p ->
  Point.content p
  = match split "I" (Point.clean content) with h :: _ => h | [] => "" end
  /\ Point.is_test p = false
  /\ Point.net p = Point.OwnNet
  /\ (0 <= Point.image p)%Z
  /\ (style = PointStyle.GLOBAL -> Point.image p = 0%Z).
Proof.
  unfold Point._init_tooling_hole.
  destruct (tooling_image_cases content style)
    as [(v & Hv & Hv0 & Hvg & _) | (Hr & _)]; cbv zeta in *.
  - rewrite Hv. cbn [Py.bind].
    destruct (has_char "X" _ && has_char "Y" _);
      [destruct (0 <? find "T" _ _)%Z |];
      intros H; injection H as <-;
      cbn [Point.content Point.is_test Point.net Point.image];
      (split; [reflexivity |]; split; [reflexivity |];
       split; [reflexivity |]; split; assumption).
  - rewrite Hr. cbn [Py.bind]. discriminate.
Qed.

End ToolingFields.
Section PointRobust.
Import Py LesDoc.
Local Open Scope string_scope.
Local Open Scope list_scope.

Lemma remove_char_gone (c : ascii) (s : string) :
  mem_char c (remove_char c s) = false.
Proof.
  induction s as [| d r IH]; cbn [remove_char]; [reflexivity |].
  destruct (Ascii.eqb c d) eqn:E; [exact IH |].
  cbn [mem_char]. rewrite E, IH. reflexivity.
Qed.

Lemma remove_char_keeps_absent (c d : ascii) (s : string) :
  mem_char c s = false -> mem_char c (remove_char d s) = false.
Proof.
  induction s as [| e r IH]; cbn [remove_char mem_char]; [reflexivity |].
  intros H. apply orb_false_iff in H. destruct H as [He Hr].
  destruct (Ascii.eqb d e); [apply IH; exact Hr |].
  cbn [mem_char]. rewrite He, (IH Hr). reflexivity.
Qed.

Lemma remove_pair_keeps_absent (c a b : ascii) (s : string) :
  mem_char c s = false -> mem_char c (remove_pair a b s) = false.
Proof.
  assert (G : forall n s, (String.length s <= n)%nat ->
              mem_char c s = false ->
              mem_char c (remove_pair a b s) = false).
  { induction n as [| n IH]; intros [| e [| f r]] Hlen H;
      cbn [remove_pair mem_char String.length] in *;
      try reflexivity; try exact H; try lia.
    apply orb_false_iff in H. destruct H as [He H].
    destruct (Ascii.eqb e a && Ascii.eqb f b).
    - apply IH; [lia |]. apply orb_false_iff in H. apply H.
    - cbn [mem_char]. rewrite He. cbn [orb].
      apply (IH (String f r)); [cbn [String.length]; lia | exact H]. }
  apply (G (String.length s)). lia.
Qed.

Lemma clean_deletes (s : string) (c : ascii) :
  mem_char c deleted_chars = true -> has_char c (Point.clean s) = false.
Proof.
  unfold deleted_chars, has_char. cbn [mem_char]. intros H.
  repeat (apply orb_true_iff in H;
          destruct H as [H | H];
          [apply Ascii.eqb_eq in H; subst c; unfold Point.clean;
           repeat first [ apply remove_char_gone
                        | apply remove_char_keeps_absent
                        | apply remove_pair_keeps_absent ] |]).
  discriminate H.
Qed.

Lemma split_head_chars (sep c : ascii) (s : string) :
  mem_char c s = false ->
  mem_char c (match split sep s with h :: _ => h | [] => "" end) = false.
Proof.
  induction s as [| d r IH]; cbn [split mem_char]; [reflexivity |].
  intros H. apply orb_false_iff in H. destruct H as [Hd Hr].
  destruct (Ascii.eqb d sep); [reflexivity |].
  specialize (IH Hr).
  destruct (split sep r) as [| h t]; cbn [mem_char]; rewrite Hd;
    [reflexivity | exact IH].
Qed.

(** X17.  Decoding a point.  [Point.__init__] raises nothing but
    [ValueError], and only for a LOCAL tooling hole whose text after
    [I] passes [isdigit()] and is refused by [int()] (a superscript
    digit, or more than 4300 digits): that [int()] call is not
    guarded.  It raises on every such text; a regular point, a GLOBAL
    tooling hole and a point without text never raise.  The cleaned
    text it decodes from, and so the [content] of every point built
    from a text, holds none of the characters [[ ] * / ~], blank and
    comma, which are deleted one by one.  The two-character marks
    [&M] and [&S] are deleted before the blanks and commas are, so a
    mark split by one of those is put together by the cleaning and
    stays: [& M] is cleaned to [&M]. *)
Theorem point_decoding_robust :
  (forall content count_of_layer apertures net style e,
      Point.init content count_of_layer apertures net style = Raise e ->
      e = ValueError
      /\ style = Some PointStyle.LOCAL
      /\ exists c s,
           content = Some c
           /\ tooling_image_text c = Some s /\ int_reads s = false)
  /\ (forall c count_of_layer apertures net s,
         c <> "" ->
         tooling_image_text c = Some s -> int_reads s = false ->
         Point.init (Some c) count_of_layer apertures net
                    (Some PointStyle.LOCAL)
         = Raise ValueError)
  /\ (forall content count_of_layer apertures net style,
         style <> Some PointStyle.LOCAL ->
         exists p,
           Point.init content count_of_layer apertures net style = Ok p)
  /\ (forall s c,
         mem_char c deleted_chars = true ->
         has_char c (Point.clean s) = false)
  /\ (forall content count_of_layer apertures net style p c,
         Point.init (Some content) count_of_layer apertures net style = Ok p ->
         content <> "" ->
         mem_char c deleted_chars = true ->
         has_char c (Point.content p) = false)
  /\ Point.clean "& M" = "&M".
Proof.
  assert (Hraise : forall content count_of_layer apertures net style e,
             Point.init content count_of_layer apertures net style = Raise e ->
             e = ValueError
             /\ style = Some PointStyle.LOCAL
             /\ exists c s,
                  content = Some c
                  /\ tooling_image_text c = Some s /\ int_reads s = false).
  { intros content count apertures net style e. unfold Point.init.
    destruct content as [[| c r] |]; try discriminate.
    destruct style as [[| |] |]; try discriminate.
    - destruct (tooling_hole_result
                  (Point.fresh (Some (String c r)) count net
                               (Some PointStyle.GLOBAL))
                  (String c r) apertures PointStyle.GLOBAL)
        as [(p & -> & _) | (_ & Hg & _)]; [discriminate |].
      contradiction Hg. reflexivity.
    - destruct (tooling_hole_result
                  (Point.fresh (Some (String c r)) count net
                               (Some PointStyle.LOCAL))
                  (String c r) apertures PointStyle.LOCAL)
        as [(p & -> & _) | (-> & _ & s & Hs & Hbad)]; [discriminate |].
      intros H. injection H as <-.
      split; [reflexivity |]. split; [reflexivity |].
      exists (String c r), s. auto. }
  split; [exact Hraise |].
  split; [| split; [| split; [exact clean_deletes | split; [| reflexivity]]]].
  - intros c count apertures net s Hne Hs Hbad. unfold Point.init.
    destruct c as [| ch r]; [contradiction Hne; reflexivity |].
    destruct (tooling_hole_result
                (Point.fresh (Some (String ch r)) count net
                             (Some PointStyle.LOCAL))
                (String ch r) apertures PointStyle.LOCAL)
      as [(p & _ & [Hg | Hok]) | (-> & _)]; [discriminate Hg | | reflexivity].
    rewrite Hs, Hbad in Hok. discriminate Hok.
  - intros content count apertures net style Hst.
    destruct (Point.init content count apertures net style) as [p | e] eqn:E;
      [exists p; reflexivity |].
    destruct (Hraise _ _ _ _ _ _ E) as (_ & Hl & _). contradiction (Hst Hl).
  - intros content count apertures net style p c Hinit Hne Hc.
    pose proof (clean_deletes content c Hc) as Hclean.
    unfold has_char in *.
    assert (Htool : forall self st p',
               Point._init_tooling_hole self content apertures st = Ok p' ->
               mem_char c (Point.content p') = false).
    { intros self st p' H.
      destruct (tooling_hole_more self content apertures st p' H)
        as (Hcontent & _).
      rewrite Hcontent.
      apply split_head_chars. exact Hclean. }
    assert (Hreg : forall self,
               mem_char c
                 (Point.content
                    (Point._init_regular_point self content count apertures
                                               net)) = false).
    { intros self. unfold Point._init_regular_point.
      destruct net as [[pos n] |];
        destruct (has_char "X" (Point.clean content)
                  && has_char "Y" (Point.clean content));
        try (destruct (Point.decode_a_section _ _ _ _ _) as [[lm ap] ty]);
        exact Hclean. }
    unfold Point.init in Hinit.
    destruct content as [| ch r]; [contradiction Hne; reflexivity |].
    destruct style as [[| |] |].
    + inversion Hinit; subst. apply Hreg.
    + eapply Htool. exact Hinit.
    + eapply Htool. exact Hinit.
    + inversion Hinit; subst. apply Hreg.
Qed.

Lemma point_decoding_robust_witness :
  Point.init (Some (String "F" (String "I" (String "178" "")))) 1 [] None
             (Some PointStyle.LOCAL)
  = Raise ValueError.
Proof.
  apply (proj1 (proj2 point_decoding_robust))
    with (s := String "178" ""); [discriminate | reflexivity | reflexivity].
Defined.

End PointRobust.
(* ------------------------------------------------------------------ *)
(** * The loop of [load_file]: further properties *)

Section LoopEffect.
Import Py LesProps LesDoc LesLoop.
Local Open Scope string_scope.
Local Open Scope list_scope.

Lemma regular_init (content : string) (count : Z)
    (apertures : list Aperture.t) (net : option (nat * Net.t)) :
  content <> "" ->
  Point.init (Some content) count apertures net None
  = Ok (Point._init_regular_point
          (Point.fresh (Some content) count net None)
          content count apertures net).
Proof.
  intros Hne. unfold Point.init.
  destruct content; [contradiction Hne; reflexivity | reflexivity].
Qed.

(** Every line the loop gets through has one of the effects. *)
Lemma load_line_effect (st st' : Les.state) (i : nat) (raw : string) :
  Les.load_line st i raw = Ok st' -> effect st i (strip raw) st'.
Proof.
  unfold Les.load_line.
  destruct (Les.classify (strip raw)) eqn:Hk; intros H.
  - inversion H; subst. apply eff_none. rewrite Hk. simpl; auto.
  - unfold Les.on_test_name in H.
    destruct (split ":" (strip raw)) as [| ? [| v ?]];
      inversion H; subst;
      try (apply eff_none; rewrite Hk; simpl; auto).
    apply eff_test. exact Hk.
  - unfold Les.on_layer_count in H.
    apply bind_ok in H. destruct H as (n & Hn & H).
    inversion H; subst; clear H.
    pose proof (@eff_layers st i (strip raw) n Hk Hn) as E.
    cbn [Les.images Les.set_count_of_layer] in E |- *.
    destruct (List.length (Les.images (Les.self st)) <? 2)%nat; exact E.
  - unfold Les.on_unit in H.
    destruct (split ":" (strip raw)) as [| ? [| p1 [| p2 ?]]];
      inversion H; subst;
      try (apply eff_none; rewrite Hk; simpl; auto).
    apply eff_unit. exact Hk.
  - unfold Les.on_outline in H.
    destruct (split1 "Y" _) as [| xs [| ys [| ? ?]]]; try discriminate H.
    destruct (endswith_char "," (strip raw)) eqn:Hc.
    + destruct (Les.current_outline_segment st ++ _) eqn:Hseg;
        inversion H; subst; rewrite <- Hseg;
        apply eff_outline_open; assumption.
    + destruct (Les.current_outline_segment st ++ _) eqn:Hseg.
      * apply app_eq_nil in Hseg. destruct Hseg as [_ Hx]. discriminate Hx.
      * inversion H; subst. rewrite <- Hseg.
        apply eff_outline_close; assumption.
  - unfold Les.on_tooling in H.
    apply bind_ok in H. destruct H as (p & Hp & H).
    inversion H; subst; clear H.
    apply eff_tooling; [exact Hk | exact Hp].
  - unfold Les.on_aperture in H.
    apply bind_ok in H. destruct H as (ap & Hap & H).
    inversion H; subst. apply eff_aperture; assumption.
  - unfold Les.on_step in H.
    apply bind_ok in H. destruct H as (s & Hs & H).
    inversion H; subst. apply eff_step; assumption.
  - unfold Les.on_net in H.
    apply bind_ok in H. destruct H as (n & Hn & H).
    inversion H; subst. apply eff_net; assumption.
  - unfold Les.on_point in H.
    pose proof (point_pattern_nonempty _ (classify_regular _ Hk)) as Hne.
    rewrite (regular_init _ _ _ _ Hne) in H. cbn [Py.bind] in H.
    apply bind_ok in H. destruct H as (l & Hl & H).
    inversion H; subst; clear H.
    pose proof (@eff_point st i (strip raw) Hk) as E.
    unfold point_of, nets_after, images_after in E.
    set (pt := Les.scale_point _ _) in *.
    set (imgs := Les.grow_images (Les.images (Les.self st)) (Point.image pt))
      in *.
    assert (El : l = Les.set_images
                       (Les.set_nets
                          (Les.set_points (Les.self st)
                             (Les.points (Les.self st) ++ [pt]))
                          (match last_indexed (Les.nets (Les.self st)) with
                           | Some (pos, n) =>
                               Les.update (Les.nets (Les.self st)) pos
                                 (Net.add_point
                                    (List.length (Les.points (Les.self st))) n)
                           | None => Les.nets (Les.self st)
                           end))
                       (match Les.position imgs (Point.image pt) with
                        | Some k =>
                            match nth_error imgs k with
                            | Some (Some vi) =>
                                Les.update imgs k
                                  (Some (ViewImage.set_size pt vi))
                            | _ => imgs
                            end
                        | None => imgs
                        end)).
    { destruct (last_indexed (Les.nets (Les.self st))) as [[pos n] |];
        cbn [Les.set_points Les.set_nets Les.set_images Les.images
             Les.points Les.nets] in Hl |- *; fold imgs in Hl.
      - destruct (Point.image pt <? Z.of_nat (List.length imgs))%Z eqn:Hlt.
        + destruct (Les.position imgs (Point.image pt)) as [k |];
            [| discriminate Hl].
          destruct (nth_error imgs k) as [[vi |] |];
            inversion Hl; subst; reflexivity.
        + inversion Hl; subst.
          assert (Hp : Les.position imgs (Point.image pt) = None).
          { unfold Les.position. apply Z.ltb_ge in Hlt.
            destruct (Z.ltb_spec (Point.image pt) 0); [lia |].
            destruct (Z.ltb_spec (Point.image pt)
                                 (Z.of_nat (List.length imgs))); [lia |].
            rewrite andb_false_r. reflexivity. }
          rewrite Hp. reflexivity.
      - destruct (Point.image pt <? Z.of_nat (List.length imgs))%Z eqn:Hlt.
        + destruct (Les.position imgs (Point.image pt)) as [k |];
            [| discriminate Hl].
          destruct (nth_error imgs k) as [[vi |] |];
            inversion Hl; subst; reflexivity.
        + inversion Hl; subst.
          assert (Hp : Les.position imgs (Point.image pt) = None).
          { unfold Les.position. apply Z.ltb_ge in Hlt.
            destruct (Z.ltb_spec (Point.image pt) 0); [lia |].
            destruct (Z.ltb_spec (Point.image pt)
                                 (Z.of_nat (List.length imgs))); [lia |].
            rewrite andb_false_r. reflexivity. }
          rewrite Hp. reflexivity. }
    rewrite El. exact E.
  - inversion H; subst. apply eff_none. rewrite Hk. simpl; auto.
Qed.

(** An invariant of the loop holds after any lines. *)
Lemma load_lines_invariant (I : list string -> Les.state -> Prop)
    (Hstep : forall pre st raw st',
        I pre st ->
        effect st (List.length pre) (strip raw) st' ->
        I (pre ++ [raw]) st') :
  forall (lines pre : list string) (st st' : Les.state),
    I pre st ->
    Les.load_lines st (List.length pre) lines = Ok st' ->
    I (pre ++ lines) st'.
Proof.
  induction lines as [| raw rest IH]; intros pre st st' HI H;
    cbn [Les.load_lines] in H.
  - inversion H; subst. rewrite app_nil_r. exact HI.
  - apply bind_ok in H. destruct H as (st1 & H1 & H).
    replace (pre ++ raw :: rest) with ((pre ++ [raw]) ++ rest)
      by (rewrite <- app_assoc; reflexivity).
    apply (IH (pre ++ [raw]) st1 st').
    + apply (Hstep pre st raw st1 HI). apply load_line_effect. exact H1.
    + rewrite length_app. cbn [List.length].
      rewrite Nat.add_1_r. exact H.
Qed.

End LoopEffect.
Section LoopCounts.
Import Py LesProps LesDoc LesLoop.
Local Open Scope string_scope.
Local Open Scope list_scope.

Lemma count_kind_snoc (k : Les.line_kind) (pre : list string) (raw : string) :
  count_kind k (pre ++ [raw])
  = (count_kind k pre + (if kind_eqb (kind_of raw) k then 1 else 0))%nat.
Proof.
  unfold count_kind. rewrite filter_app, length_app. cbn [filter].
  destruct (kind_eqb (kind_of raw) k); reflexivity.
Qed.

Lemma nets_after_length (nets : list Net.t) (ref : nat) :
  List.length (nets_after nets ref) = List.length nets.
Proof.
  unfold nets_after. destruct (last_indexed nets) as [[pos n] |];
    [apply update_length | reflexivity].
Qed.

(** What the loop keeps true of the sizes of the document. *)
Lemma loop_counts (content lines : list string) (st : Les.state) :
  Les.load_lines (start content) 0 lines = Ok st ->
  List.length (Les.points (Les.self st))
  = (count_kind Les.Tooling lines + count_kind Les.RegularPoint lines)%nat
  /\ List.length (Les.nets (Les.self st)) = count_kind Les.NetHeader lines
  /\ List.length (Les.apertures (Les.self st))
     = count_kind Les.ApertureDef lines
  /\ List.length (Les.steps (Les.self st)) = count_kind Les.StepDef lines
  /\ (List.length (List.concat (Les.outline_points (Les.self st)))
      + List.length (Les.current_outline_segment st))%nat
     = count_kind Les.Outline lines
  /\ Forall (fun seg => seg <> []) (Les.outline_points (Les.self st))
  /\ Les.content (Les.self st) = content.
Proof.
  intros H.
  apply (load_lines_invariant
           (fun pre st =>
              List.length (Les.points (Les.self st))
              = (count_kind Les.Tooling pre
                 + count_kind Les.RegularPoint pre)%nat
              /\ List.length (Les.nets (Les.self st))
                 = count_kind Les.NetHeader pre
              /\ List.length (Les.apertures (Les.self st))
                 = count_kind Les.ApertureDef pre
              /\ List.length (Les.steps (Les.self st))
                 = count_kind Les.StepDef pre
              /\ (List.length (List.concat (Les.outline_points (Les.self st)))
                  + List.length (Les.current_outline_segment st))%nat
                 = count_kind Les.Outline pre
              /\ Forall (fun seg => seg <> [])
                        (Les.outline_points (Les.self st))
              /\ Les.content (Les.self st) = content))
    with (pre := []) (st := start content) (lines := lines);
    [| cbn; repeat split; constructor | exact H].
  clear. intros pre st raw st' (Hp & Hn & Ha & Hs & Ho & Hne & Hc) Heff.
  rewrite !count_kind_snoc. unfold kind_of.
  destruct Heff as [Hin | v Hk | n Hk Hn' | u sc Hk | xy Hk Hcomma
                   | xy Hk Hcomma | p Hk Hp' | ap Hk Hap | s Hk Hs'
                   | net Hk Hnet | Hk].
  - cbn [In] in Hin.
    destruct Hin as [E | [E | [E | [E | []]]]]; rewrite <- E;
      cbn [kind_eqb]; rewrite !Nat.add_0_r; auto 10.
  - rewrite Hk. cbn. rewrite !Nat.add_0_r. auto 10.
  - rewrite Hk.
    destruct (List.length (Les.images (Les.self st)) <? 2)%nat;
      cbn; rewrite !Nat.add_0_r; auto 10.
  - rewrite Hk. cbn. rewrite !Nat.add_0_r. auto 10.
  - rewrite Hk. cbn. rewrite !Nat.add_0_r, length_app. cbn [List.length].
    repeat split; auto; lia.
  - rewrite Hk. cbn. rewrite !Nat.add_0_r, concat_app, !length_app.
    cbn [List.concat List.length]. rewrite app_nil_r, length_app.
    cbn [List.length].
    repeat split; auto; try lia.
    apply Forall_app. split; [exact Hne |].
    constructor; [| constructor].
    intros E. apply app_eq_nil in E. destruct E as [_ E]. discriminate E.
  - rewrite Hk. cbn. rewrite !Nat.add_0_r, length_app. cbn [List.length].
    repeat split; auto; lia.
  - rewrite Hk. cbn. rewrite !Nat.add_0_r, length_app. cbn [List.length].
    repeat split; auto; lia.
  - rewrite Hk. cbn. rewrite !Nat.add_0_r, length_app. cbn [List.length].
    repeat split; auto; lia.
  - rewrite Hk. cbn. rewrite !Nat.add_0_r, length_app. cbn [List.length].
    repeat split; auto; lia.
  - rewrite Hk. cbn. rewrite !Nat.add_0_r, length_app, nets_after_length.
    cbn [List.length].
    repeat split; auto; lia.
Qed.

Lemma name_points_length (pts : list Point.t) :
  forall st pts',
    PanelImage.name_points st pts = Ok pts' ->
    List.length pts' = List.length pts.
Proof.
  induction pts as [| p rest IH]; cbn [PanelImage.name_points];
    intros st pts' H.
  - inversion H; subst. reflexivity.
  - apply bind_ok in H. destruct H as ([st1 p1] & _ & H).
    apply bind_ok in H. destruct H as (rest' & Hr & H).
    inversion H; subst. cbn [List.length]. rewrite (IH _ _ Hr). reflexivity.
Qed.

(** X18.  [Les.load_file] on a fresh document builds one object for
    every line of its kind: as many points as the file has tooling
    lines and regular point lines, as many nets as net headers, as many
    apertures as aperture lines, as many steps as STEP lines; every
    outline line gives one outline point, and no outline segment is
    empty.  The kind of a line is the first of the tests of the loop
    the stripped line passes; [content] keeps the lines without their
    final newline. *)
Theorem load_file_builds_one_per_line (file_lines : list string)
    (l : Les.t) :
  Les.load_file Les.empty file_lines = Ok l ->
  let content := map (rstrip_chars (String "010" "")) file_lines in
  Les.content l = content
  /\ List.length (Les.points l)
     = (count_kind Les.Tooling content
        + count_kind Les.RegularPoint content)%nat
  /\ List.length (Les.nets l) = count_kind Les.NetHeader content
  /\ List.length (Les.apertures l) = count_kind Les.ApertureDef content
  /\ List.length (Les.steps l) = count_kind Les.StepDef content
  /\ List.length (List.concat (Les.outline_points l))
     = count_kind Les.Outline content
  /\ Forall (fun seg => seg <> []) (Les.outline_points l).
Proof.
  intros H content. unfold Les.load_file in H. fold content in H.
  apply bind_ok in H. destruct H as (st & Hst & Hfin).
  destruct (loop_counts content content st Hst)
    as (Hp & Hn & Ha & Hs & Ho & Hne & Hc).
  unfold Les.finish in Hfin.
  destruct (Les.current_outline_segment st) as [| xy seg] eqn:Hseg.
  - inversion Hfin; subst. cbn [List.length] in Ho.
    rewrite Nat.add_0_r in Ho. auto 10.
  - apply bind_ok in Hfin. destruct Hfin as (pts & Hpts & Hfin).
    inversion Hfin; subst; clear Hfin.
    cbn [Les.set_points Les.set_outline_points Les.points Les.nets
         Les.apertures Les.steps Les.outline_points Les.content] in *.
    apply name_points_length in Hpts.
    split; [exact Hc |]. split; [rewrite Hpts; exact Hp |].
    split; [exact Hn |]. split; [exact Ha |]. split; [exact Hs |].
    split.
    + rewrite concat_app, length_app. cbn [List.concat]. rewrite app_nil_r.
      exact Ho.
    + apply Forall_app. split; [exact Hne |].
      constructor; [discriminate | constructor].
Qed.

Lemma load_file_builds_one_per_line_witness :
  exists l,
    Les.load_file Les.empty ["F,X1Y1"; "K,X0Y0,"] = Ok l
    /\ List.length (Les.points l) = 1%nat.
Proof.
  destruct (Les.load_file Les.empty ["F,X1Y1"; "K,X0Y0,"]) as [l | e] eqn:E;
    [| vm_compute in E; discriminate E].
  exists l. split; [reflexivity |].
  destruct (load_file_builds_one_per_line _ l E) as (_ & H & _).
  rewrite H. vm_compute. reflexivity.
Defined.

End LoopCounts.
Section ToolingStyle.
Import Py LesProps LesDoc LesLoop.
Local Open Scope string_scope.
Local Open Scope list_scope.

Lemma load_lines_app (pre post : list string) :
  forall (st st' : Les.state) (i : nat),
    Les.load_lines st i (pre ++ post) = Ok st' ->
    exists st1,
      Les.load_lines st i pre = Ok st1
      /\ Les.load_lines st1 (i + List.length pre) post = Ok st'.
Proof.
  induction pre as [| raw rest IH]; intros st st' i H.
  - exists st. split; [reflexivity |].
    cbn [List.length app] in *. rewrite Nat.add_0_r. exact H.
  - cbn [app Les.load_lines] in H.
    apply bind_ok in H. destruct H as (st0 & H0 & H).
    destruct (IH _ _ _ H) as (st1 & H1 & H2).
    exists st1. split.
    + cbn [Les.load_lines]. rewrite H0. exact H1.
    + cbn [List.length]. replace (i + S (List.length rest))%nat
        with (S i + List.length rest)%nat by lia. exact H2.
Qed.

Lemma load_lines_points_prefix (lines : list string) :
  forall (st st' : Les.state) (i : nat),
    Les.load_lines st i lines = Ok st' ->
    exists more,
      Les.points (Les.self st') = Les.points (Les.self st) ++ more.
Proof.
  induction lines as [| raw rest IH]; intros st st' i H;
    cbn [Les.load_lines] in H.
  - inversion H; subst. exists []. rewrite app_nil_r. reflexivity.
  - apply bind_ok in H. destruct H as (st1 & H1 & H).
    destruct (IH _ _ _ H) as (more & E). rewrite E.
    destruct (load_line_points st st1 i raw H1) as [E1 | (p & _ & E1)];
      rewrite E1.
    + exists more. reflexivity.
    + exists (p :: more). rewrite <- app_assoc. reflexivity.
Qed.

Lemma has_step_snoc (pre : list string) (raw : string) :
  has_step (pre ++ [raw])
  = has_step pre || kind_eqb (kind_of raw) Les.StepDef.
Proof.
  unfold has_step. rewrite existsb_app. cbn [existsb].
  rewrite orb_false_r. reflexivity.
Qed.

(** The loop remembers the last STEP line: its index, below the index
    of the line at hand. *)
Lemma loop_step_index (content lines : list string) (st : Les.state) :
  Les.load_lines (start content) 0 lines = Ok st ->
  if has_step lines
  then exists k, Les.index_of_step st = Some k /\ (k < List.length lines)%nat
  else Les.index_of_step st = None.
Proof.
  intros H.
  apply (load_lines_invariant
           (fun pre st =>
              if has_step pre
              then exists k, Les.index_of_step st = Some k
                             /\ (k < List.length pre)%nat
              else Les.index_of_step st = None))
    with (pre := []) (st := start content) (lines := lines);
    [| reflexivity | exact H].
  clear. intros pre st raw st' HI Heff.
  rewrite has_step_snoc, length_app. cbn [List.length]. unfold kind_of.
  assert (Hkeep : Les.classify (strip raw) <> Les.StepDef ->
                  Les.index_of_step st' = Les.index_of_step st ->
                  if has_step pre
                     || kind_eqb (Les.classify (strip raw)) Les.StepDef
                  then exists k, Les.index_of_step st' = Some k
                                 /\ (k < List.length pre + 1)%nat
                  else Les.index_of_step st' = None).
  { intros Hk E. rewrite E.
    replace (kind_eqb (Les.classify (strip raw)) Les.StepDef) with false
      by (destruct (Les.classify (strip raw)); try reflexivity;
          contradiction Hk; reflexivity).
    rewrite orb_false_r. destruct (has_step pre); [| exact HI].
    destruct HI as (k & Hk' & Hlt). exists k. split; [exact Hk' | lia]. }
  destruct Heff as [Hin | v Hk | n Hk Hn' | u sc Hk | xy Hk Hcomma
                   | xy Hk Hcomma | p Hk Hp' | ap Hk Hap | s Hk Hs'
                   | net Hk Hnet | Hk];
    try (apply Hkeep; [rewrite Hk; discriminate | reflexivity]).
  - apply Hkeep; [| reflexivity]. cbn [In] in Hin.
    destruct Hin as [E | [E | [E | [E | []]]]]; rewrite <- E; discriminate.
  - rewrite Hk. cbn [kind_eqb]. rewrite orb_true_r.
    exists (List.length pre). split; [reflexivity | lia].
Qed.

(** X19.  The style of a tooling hole is decided by the STEP lines
    before it.  At any place of a file the loop gets through, a
    tooling line gives the point at the position that counts the
    tooling and regular point lines before it; the point is GLOBAL,
    with image 0, when no STEP line comes before the line, and LOCAL,
    with an image that is a natural number, when one does.  Either way
    it is no test point, is disabled, sits on layer 1 and has a net of
    its own. *)
Theorem tooling_style_by_step (content pre post : list string)
    (raw : string) (st : Les.state) :
  Les.load_lines (start content) 0 (pre ++ raw :: post) = Ok st ->
  kind_of raw = Les.Tooling ->
  exists p,
    nth_error (Les.points (Les.self st))
              (count_kind Les.Tooling pre + count_kind Les.RegularPoint pre)
    = Some p
    /\ Point.style p
       = (if has_step pre then PointStyle.LOCAL else PointStyle.GLOBAL)
    /\ (has_step pre = false -> Point.image p = 0%Z)
    /\ (0 <= Point.image p)%Z
    /\ Point.is_test p = false
    /\ Point.is_enable p = false
    /\ Point.layer p = 1%Z
    /\ Point.net p = Point.OwnNet.
Proof.
  intros H Hk.
  apply load_lines_app in H. destruct H as (st1 & Hpre & H).
  cbn [Nat.add Les.load_lines] in H.
  apply bind_ok in H. destruct H as (st2 & Hline & Hpost).
  destruct (loop_counts content pre st1 Hpre) as (Hcount & _).
  pose proof (loop_step_index content pre st1 Hpre) as Hidx.
  destruct (load_lines_points_prefix _ _ _ _ Hpost) as (more & Emore).
  apply load_line_effect in Hline.
  unfold kind_of in Hk.
  destruct Hline as [Hin | v Hk' | n Hk' Hn' | u sc Hk' | xy Hk' Hcomma
                    | xy Hk' Hcomma | p Hk' Hp | ap Hk' Hap | s Hk' Hs'
                    | net Hk' Hnet | Hk'];
    try (rewrite Hk in Hk'; discriminate Hk').
  { cbn [In] in Hin. rewrite Hk in Hin.
    destruct Hin as [E | [E | [E | [E | []]]]]; discriminate E. }
  set (q := Les.scale_point (Les.scale (Les.self st1)) p) in *.
  exists q.
  split.
  { rewrite Emore. cbn [Les.with_self Les.self Les.set_points Les.points].
    rewrite <- Hcount, <- app_assoc.
    rewrite nth_error_app2 by lia. rewrite Nat.sub_diag. reflexivity. }
  assert (Hstyle : style_at st1 (List.length pre)
                   = if has_step pre then PointStyle.LOCAL
                     else PointStyle.GLOBAL).
  { unfold style_at. destruct (has_step pre).
    - destruct Hidx as (k & Ek & Hlt). rewrite Ek.
      destruct (Nat.ltb_spec (List.length pre) k); [lia | reflexivity].
    - rewrite Hidx. reflexivity. }
  cbn [Nat.add] in Hp. rewrite Hstyle in Hp.
  assert (Hne : strip raw <> "").
  { apply classify_nonempty. rewrite Hk. discriminate. }
  unfold Point.init in Hp.
  destruct (strip raw) as [| c r] eqn:Hline; [contradiction Hne; reflexivity |].
  rewrite <- Hline in *.
  destruct (has_step pre) eqn:Hhs.
  - destruct (tooling_hole_fields
                (Point.fresh (Some (strip raw)) 1 None
                             (Some PointStyle.LOCAL))
                (strip raw) (Les.apertures (Les.self st1)) PointStyle.LOCAL
                p Hp)
      as (He & Hl & Hs & _).
    destruct (tooling_hole_more
                (Point.fresh (Some (strip raw)) 1 None
                             (Some PointStyle.LOCAL))
                (strip raw) (Les.apertures (Les.self st1)) PointStyle.LOCAL
                p Hp)
      as (_ & Ht & Hnet & Hi & _).
    unfold q, Les.scale_point, Point.set_xy.
    cbn [Point.style Point.image Point.is_test Point.is_enable Point.layer
         Point.net].
    split; [exact Hs |]. split; [intros E; discriminate E |].
    split; [exact Hi |]. split; [exact Ht |]. split; [exact He |].
    split; [exact Hl | exact Hnet].
  - destruct (tooling_hole_fields
                (Point.fresh (Some (strip raw)) 1 None
                             (Some PointStyle.GLOBAL))
                (strip raw) (Les.apertures (Les.self st1)) PointStyle.GLOBAL
                p Hp)
      as (He & Hl & Hs & _).
    destruct (tooling_hole_more
                (Point.fresh (Some (strip raw)) 1 None
                             (Some PointStyle.GLOBAL))
                (strip raw) (Les.apertures (Les.self st1)) PointStyle.GLOBAL
                p Hp)
      as (_ & Ht & Hnet & _ & Hi).
    specialize (Hi eq_refl).
    unfold q, Les.scale_point, Point.set_xy.
    cbn [Point.style Point.image Point.is_test Point.is_enable Point.layer
         Point.net].
    split; [exact Hs |]. split; [intros _; exact Hi |].
    split; [rewrite Hi; lia |]. split; [exact Ht |]. split; [exact He |].
    split; [exact Hl | exact Hnet].
Qed.

Lemma tooling_style_by_step_witness :
  exists st p,
    Les.load_lines (start []) 0
                   (["STEP:2::0,0:10,0"] ++ "F,X1Y1I7" :: ["F,X2Y2"])
    = Ok st
    /\ nth_error (Les.points (Les.self st)) 0 = Some p
    /\ Point.style p = PointStyle.LOCAL.
Proof.
  destruct (Les.load_lines (start []) 0
              (["STEP:2::0,0:10,0"] ++ "F,X1Y1I7" :: ["F,X2Y2"]))
    as [st | e] eqn:E; [| vm_compute in E; discriminate E].
  assert (Hk : kind_of "F,X1Y1I7" = Les.Tooling) by reflexivity.
  destruct (tooling_style_by_step [] ["STEP:2::0,0:10,0"] ["F,X2Y2"]
              "F,X1Y1I7" st E Hk)
    as (p & Hp & Hs & _).
  exists st, p. split; [reflexivity |]. split; [exact Hp | exact Hs].
Defined.

End ToolingStyle.
Section LoopImages.
Import Py LesProps LesDoc LesLoop.
Local Open Scope string_scope.
Local Open Scope list_scope.

Lemma nth_error_update_same {A : Type} (xs : list A) (k : nat) (a : A) :
  (k < List.length xs)%nat -> nth_error (Les.update xs k a) k = Some a.
Proof.
  revert k. induction xs as [| h r IH]; intros [| k] Hk; simpl in *;
    try lia; [reflexivity |].
  apply IH. lia.
Qed.

Lemma nth_error_update_other {A : Type} (xs : list A) (k j : nat) (a : A) :
  j <> k -> nth_error (Les.update xs k a) j = nth_error xs j.
Proof.
  revert k j. induction xs as [| h r IH]; intros [| k] [| j] Hjk; simpl;
    try reflexivity; try contradiction.
  apply IH. lia.
Qed.

Lemma Forall_update {A : Type} (P : A -> Prop) (xs : list A) (k : nat)
    (a : A) :
  Forall P xs -> P a -> Forall P (Les.update xs k a).
Proof.
  intros Hxs Ha. revert k.
  induction Hxs as [| h r Hh Hr IH]; intros [| k]; simpl;
    constructor; auto.
Qed.

Lemma last_indexed_in {A : Type} (xs : list A) (pos : nat) (a : A) :
  last_indexed xs = Some (pos, a) -> In a xs.
Proof.
  unfold last_indexed. intros H.
  destruct (rev xs) as [| b r] eqn:E; [discriminate H |].
  inversion H; subst. apply in_rev. rewrite E. left. reflexivity.
Qed.

Lemma grow_images_spec (imgs : list (option ViewImage.t)) (n : Z) :
  (0 <= n)%Z ->
  (n < Z.of_nat (List.length (Les.grow_images imgs n)))%Z
  /\ (forall k, (k < List.length imgs)%nat ->
        nth_error (Les.grow_images imgs n) k = nth_error imgs k)
  /\ (forall k, (List.length imgs <= k < List.length (Les.grow_images imgs n))%nat ->
        nth_error (Les.grow_images imgs n) k = Some (Some ViewImage.default)).
Proof.
  intros Hn. unfold Les.grow_images.
  set (m := Z.to_nat (n - (Z.of_nat (List.length imgs) - 1))).
  split; [| split].
  - rewrite length_app, repeat_length. unfold m. lia.
  - intros k Hk. apply nth_error_app1. exact Hk.
  - intros k Hk. rewrite length_app, repeat_length in Hk.
    rewrite nth_error_app2 by lia.
    apply nth_error_repeat. lia.
Qed.

Lemma images_ok_grow (imgs : list (option ViewImage.t)) (n : Z) :
  (0 <= n)%Z -> images_ok imgs -> images_ok (Les.grow_images imgs n).
Proof.
  intros Hn (Hlen & H0 & Hk).
  destruct (grow_images_spec imgs n Hn) as (_ & Hold & Hnew).
  pose proof (grow_images_length imgs n) as Hle.
  split; [lia |]. split.
  - rewrite Hold by lia. exact H0.
  - intros k Hkr.
    destruct (Nat.lt_ge_cases k (List.length imgs)) as [Hlt | Hge].
    + rewrite Hold by exact Hlt. apply Hk. lia.
    + exists ViewImage.default. apply Hnew. lia.
Qed.

Lemma boxed_grow (imgs : list (option ViewImage.t)) (n : Z) (p : Point.t) :
  (0 <= n)%Z -> boxed imgs p -> boxed (Les.grow_images imgs n) p.
Proof.
  intros Hn Hb Hs. destruct (Hb Hs) as (Hr & Hbox).
  destruct (grow_images_spec imgs n Hn) as (_ & Hold & _).
  pose proof (grow_images_length imgs n) as Hle.
  split; [lia |]. intros H1. destruct (Hbox H1) as (vi & Hvi & Hin).
  exists vi. split; [| exact Hin]. rewrite Hold by lia. exact Hvi.
Qed.

Lemma images_after_spec (imgs : list (option ViewImage.t)) (pt : Point.t) :
  (0 <= Point.image pt)%Z ->
  images_ok imgs ->
  images_ok (images_after imgs pt)
  /\ (forall p, boxed imgs p -> boxed (images_after imgs pt) p)
  /\ boxed (images_after imgs pt) pt.
Proof.
  intros Hn Hok. unfold images_after.
  set (g := Les.grow_images imgs (Point.image pt)).
  pose proof (images_ok_grow imgs _ Hn Hok) as Hg. fold g in Hg.
  destruct (grow_images_spec imgs _ Hn) as (Hlt & _ & _). fold g in Hlt.
  assert (Hgb : forall p, boxed imgs p -> boxed g p).
  { intros p. apply boxed_grow. exact Hn. }
  assert (Hpos : Les.position g (Point.image pt)
                 = Some (Z.to_nat (Point.image pt))).
  { unfold Les.position.
    destruct (Z.ltb_spec (Point.image pt) 0); [lia |].
    destruct (Z.leb_spec 0 (Point.image pt)); [| lia].
    destruct (Z.ltb_spec (Point.image pt) (Z.of_nat (List.length g)));
      [reflexivity | lia]. }
  rewrite Hpos. set (k := Z.to_nat (Point.image pt)).
  assert (Hk : (k < List.length g)%nat) by (unfold k; lia).
  destruct Hg as (Hlen & H0 & Hsome).
  destruct k as [| k'] eqn:Ek.
  - (* image 0: no view image there *)
    rewrite H0.
    split; [split; [exact Hlen | split; [exact H0 | exact Hsome]] |].
    split; [exact Hgb |].
    intros _. split; [lia |]. intros H1. unfold k in Ek. lia.
  - destruct (Hsome (S k')) as (vi & Hvi); [lia |].
    rewrite Hvi.
    set (vi' := ViewImage.set_size pt vi).
    destruct (set_size_box pt vi) as (Hini & Hin & Hmono).
    split; [| split].
    + split; [rewrite update_length; exact Hlen |].
      split.
      * rewrite nth_error_update_other by discriminate. exact H0.
      * intros j Hj. rewrite update_length in Hj.
        destruct (Nat.eq_dec j (S k')) as [-> | Hne].
        -- exists vi'. apply nth_error_update_same. exact Hk.
        -- rewrite nth_error_update_other by exact Hne. apply Hsome. exact Hj.
    + intros p Hb Hs. destruct (Hgb p Hb Hs) as (Hr & Hbox).
      split; [rewrite update_length; exact Hr |].
      intros H1. destruct (Hbox H1) as (v & Hv & Hvi0 & Hvin).
      destruct (Nat.eq_dec (Z.to_nat (Point.image p)) (S k')) as [E | Hne].
      * exists vi'. rewrite E.
        split; [apply nth_error_update_same; exact Hk |].
        rewrite E, Hvi in Hv. injection Hv as <-.
        split; [exact Hini |]. apply Hmono; assumption.
      * exists v. rewrite nth_error_update_other by exact Hne.
        split; [exact Hv |]. split; assumption.
    + intros _. split; [rewrite update_length; lia |].
      intros _. exists vi'. fold k. rewrite Ek.
      split; [apply nth_error_update_same; exact Hk |].
      split; [exact Hini | exact Hin].
Qed.

Lemma regular_point_image (self : Point.t) (content : string) (count : Z)
    (apertures : list Aperture.t) (net : option (nat * Net.t)) :
  Point.image (Point._init_regular_point self content count apertures net)
  = match net with
    | Some (_, n) => Net.image n
    | None => 1%Z
    end.
Proof.
  unfold Point._init_regular_point.
  destruct net as [[pos n] |];
    destruct (has_char "X" (Point.clean content)
              && has_char "Y" (Point.clean content));
    try (destruct (Point.decode_a_section _ _ _ _ _) as [[lm ap] ty]);
    reflexivity.
Qed.

(** What the loop keeps true of [images], of the nets and of the
    regular points. *)
Lemma loop_images (content lines : list string) (st : Les.state) :
  Les.load_lines (start content) 0 lines = Ok st ->
  images_ok (Les.images (Les.self st))
  /\ Forall (fun n => (0 <= Net.image n)%Z) (Les.nets (Les.self st))
  /\ Forall (boxed (Les.images (Les.self st))) (Les.points (Les.self st)).
Proof.
  intros H.
  apply (load_lines_invariant
           (fun _ st =>
              images_ok (Les.images (Les.self st))
              /\ Forall (fun n => (0 <= Net.image n)%Z)
                        (Les.nets (Les.self st))
              /\ Forall (boxed (Les.images (Les.self st)))
                        (Les.points (Les.self st))))
    with (pre := []) (st := start content) (lines := lines);
    [| | exact H].
  2:{ unfold start, Les.empty.
      cbn [Les.self Les.set_content Les.images Les.nets Les.points].
      split; [| split; constructor].
      unfold images_ok. cbn [List.length].
      split; [lia |]. split; [reflexivity |].
      intros k Hk. assert (k = 1%nat) as -> by lia.
      eexists. reflexivity. }
  clear. intros pre st raw st' (Hok & Hnets & Hpts) Heff.
  destruct Heff as [Hin | v Hk | n Hk Hn' | u sc Hk | xy Hk Hcomma
                   | xy Hk Hcomma | p Hk Hp' | ap Hk Hap | s Hk Hs'
                   | net Hk Hnet | Hk];
    try (split; [exact Hok | split; [exact Hnets | exact Hpts]]).
  - (* layer count: the images are long enough already *)
    destruct Hok as (Hlen & Hrest).
    destruct (Nat.ltb_spec (List.length (Les.images (Les.self st))) 2);
      [lia |].
    split; [split; [exact Hlen | exact Hrest] |].
    split; [exact Hnets | exact Hpts].
  - (* tooling: the new point is no regular point *)
    split; [exact Hok |]. split; [exact Hnets |].
    cbn [Les.with_self Les.self Les.set_points Les.points Les.images].
    apply Forall_app. split; [exact Hpts |].
    constructor; [| constructor].
    intros Hs. exfalso.
    assert (Hne : strip raw <> "").
    { apply classify_nonempty. rewrite Hk. discriminate. }
    unfold Point.init in Hp'.
    destruct (strip raw) as [| c r] eqn:Hline;
      [contradiction Hne; reflexivity |].
    rewrite <- Hline in *.
    assert (Hst : Point.style p = style_at st (List.length pre)).
    { unfold style_at in *.
      destruct (Les.index_of_step st) as [k |];
        [destruct (List.length pre <? k)%nat |];
        match type of Hp' with
        | Point._init_tooling_hole ?self ?c ?aps ?sty = _ =>
            destruct (tooling_hole_fields self c aps sty p Hp')
              as (_ & _ & Hsty & _);
            exact Hsty
        end. }
    unfold Les.scale_point, Point.set_xy in Hs. cbn [Point.style] in Hs.
    rewrite Hst in Hs. unfold style_at in Hs.
    destruct (Les.index_of_step st) as [k |];
      [destruct (List.length pre <? k)%nat |]; discriminate Hs.
  - (* net header *)
    destruct (net_init_fields (Some (strip raw)) net Hnet) as (_ & Himg & _).
    cbn [Les.with_self Les.self Les.set_images Les.set_nets Les.images
         Les.nets Les.points].
    split; [apply images_ok_grow; assumption |].
    split; [apply Forall_app; split; [exact Hnets |];
            constructor; [exact Himg | constructor] |].
    apply Forall_impl with (2 := Hpts).
    intros p. apply boxed_grow. exact Himg.
  - (* regular point *)
    cbn [Les.with_self Les.self Les.set_images Les.set_nets Les.set_points
         Les.images Les.nets Les.points].
    set (pt := point_of st (strip raw)).
    assert (Himg : (0 <= Point.image pt)%Z).
    { unfold pt, point_of, Les.scale_point, Point.set_xy.
      cbn [Point.image]. rewrite regular_point_image.
      destruct (last_indexed (Les.nets (Les.self st))) as [[pos n] |] eqn:El;
        [| lia].
      apply last_indexed_in in El.
      rewrite Forall_forall in Hnets. apply Hnets. exact El. }
    destruct (images_after_spec (Les.images (Les.self st)) pt Himg Hok)
      as (Hok' & Hold & Hnew).
    split; [exact Hok' |]. split.
    + unfold nets_after.
      destruct (last_indexed (Les.nets (Les.self st))) as [[pos n] |] eqn:El;
        [| exact Hnets].
      apply Forall_update; [exact Hnets |].
      apply last_indexed_in in El. rewrite Forall_forall in Hnets.
      cbn [Net.add_point Net.image]. apply Hnets. exact El.
    + apply Forall_app. split.
      * apply Forall_impl with (2 := Hpts). exact Hold.
      * constructor; [exact Hnew | constructor].
Qed.

(** X20.  The images of a document follow its nets and regular points.
    After any lines the loop of [load_file] gets through: [images] has
    at least the entries 0 and 1, entry 0 is [None] and every other
    entry is a view image; the image of every net is a natural number;
    and every regular point has its image among the entries and, when
    that image is not 0, lies in the box of its view image, which is
    no longer initial. *)
Theorem images_hold_regular_points (content lines : list string)
    (st : Les.state) :
  Les.load_lines (start content) 0 lines = Ok st ->
  images_ok (Les.images (Les.self st))
  /\ (forall n, In n (Les.nets (Les.self st)) -> (0 <= Net.image n)%Z)
  /\ forall p,
       In p (Les.points (Les.self st)) ->
       Point.style p = PointStyle.NORMAL ->
       (0 <= Point.image p
        < Z.of_nat (List.length (Les.images (Les.self st))))%Z
       /\ ((1 <= Point.image p)%Z ->
           exists vi,
             nth_error (Les.images (Les.self st))
                       (Z.to_nat (Point.image p)) = Some (Some vi)
             /\ ViewImage.initial vi = false
             /\ in_box vi (Point.x p) (Point.y p)).
Proof.
  intros H. destruct (loop_images content lines st H) as (Hok & Hnets & Hpts).
  split; [exact Hok |]. split.
  - rewrite Forall_forall in Hnets. exact Hnets.
  - intros p Hp Hs. rewrite Forall_forall in Hpts. exact (Hpts p Hp Hs).
Qed.

Lemma images_hold_regular_points_witness :
  exists st,
    Les.load_lines (start []) 0 ["@1C2"; "I1X5Y7AS1"] = Ok st
    /\ images_ok (Les.images (Les.self st)).
Proof.
  destruct (Les.load_lines (start []) 0 ["@1C2"; "I1X5Y7AS1"])
    as [st | e] eqn:E; [| vm_compute in E; discriminate E].
  exists st. split; [reflexivity |].
  exact (proj1 (images_hold_regular_points [] _ st E)).
Defined.

End LoopImages.
Section RegexSound.
Import Py RegexSem.
Local Open Scope string_scope.

Lemma string_app_nil_r (s : string) : s ++ "" = s.
Proof.
  induction s as [| c s IH]; [reflexivity |].
  cbn [append]. rewrite IH. reflexivity.
Qed.

Lemma string_app_assoc (a b c : string) : (a ++ b) ++ c = a ++ (b ++ c).
Proof.
  induction a as [| x a IH]; [reflexivity |].
  cbn [append]. rewrite IH. reflexivity.
Qed.

Lemma nullable_sound (r : regex) : nullable r = true -> matches r "".
Proof.
  induction r as [| | p | r1 IH1 r2 IH2 | r1 IH1 r2 IH2 | r IH];
    cbn [nullable]; intros H; try discriminate H.
  - constructor.
  - apply andb_prop in H. destruct H as (H1 & H2).
    change "" with ("" ++ ""). constructor; auto.
  - apply orb_prop in H. destruct H as [H | H].
    + apply m_alt_l. auto.
    + apply m_alt_r. auto.
  - constructor.
Qed.

Lemma matches_void (s : string) : ~ matches Void s.
Proof. intros H. inversion H. Qed.

Lemma cat_sound (r1 r2 : regex) (s : string) :
  matches (cat r1 r2) s -> matches (Cat r1 r2) s.
Proof.
  assert (E : forall r, matches r s -> matches (Cat Eps r) s).
  { intros r H. change s with ("" ++ s). constructor; [constructor | exact H]. }
  destruct r1; destruct r2; cbn [cat]; intros H;
    try (exfalso; exact (matches_void _ H));
    try exact H; try (apply E; exact H).
Qed.

Lemma alt_sound (r1 r2 : regex) (s : string) :
  matches (alt r1 r2) s -> matches (Alt r1 r2) s.
Proof.
  destruct r1; destruct r2; cbn [alt]; intros H;
    try (exfalso; exact (matches_void _ H));
    try exact H;
    try (apply m_alt_l; exact H);
    try (apply m_alt_r; exact H).
Qed.

Lemma matches_cat_inv (r1 r2 : regex) (s : string) :
  matches (Cat r1 r2) s ->
  exists s1 s2, s = s1 ++ s2 /\ matches r1 s1 /\ matches r2 s2.
Proof.
  intros H. inversion H; subst. eauto.
Qed.

Lemma matches_alt_inv (r1 r2 : regex) (s : string) :
  matches (Alt r1 r2) s -> matches r1 s \/ matches r2 s.
Proof.
  intros H. inversion H; subst; auto.
Qed.

Lemma deriv_sound (r : regex) :
  forall c s, matches (deriv c r) s -> matches r (String c s).
Proof.
  induction r as [| | p | r1 IH1 r2 IH2 | r1 IH1 r2 IH2 | r IH];
    intros c s H; cbn [deriv] in H.
  - exfalso. exact (matches_void _ H).
  - exfalso. exact (matches_void _ H).
  - destruct (p c) eqn:Hp; [| exfalso; exact (matches_void _ H)].
    inversion H; subst. constructor. exact Hp.
  - assert (L : matches (cat (deriv c r1) r2) s ->
                matches (Cat r1 r2) (String c s)).
    { intros H1. apply cat_sound in H1.
      apply matches_cat_inv in H1. destruct H1 as (s1 & s2 & -> & Ha & Hb).
      change (String c (s1 ++ s2)) with (String c s1 ++ s2).
      constructor; auto. }
    destruct (nullable r1) eqn:Hn; [| auto].
    apply alt_sound in H. apply matches_alt_inv in H.
    destruct H as [H | H]; [auto |].
    change (String c s) with ("" ++ String c s).
    constructor; [apply nullable_sound; exact Hn | auto].
  - apply alt_sound in H. apply matches_alt_inv in H.
    destruct H as [H | H]; [apply m_alt_l | apply m_alt_r]; auto.
  - apply cat_sound in H. apply matches_cat_inv in H.
    destruct H as (s1 & s2 & -> & Ha & Hb).
    change (String c (s1 ++ s2)) with (String c s1 ++ s2).
    constructor; auto.
Qed.

(** The derivative matcher accepts only what the pattern denotes. *)
Lemma re_exact_sound (s : string) :
  forall r, re_exact r s = true -> matches r s.
Proof.
  induction s as [| c s IH]; intros r H; cbn [re_exact] in H.
  - apply nullable_sound. exact H.
  - apply deriv_sound. apply IH. exact H.
Qed.

Lemma re_full_sound (r : regex) (s : string) :
  re_full r s = true ->
  exists s1 s2, s = s1 ++ s2 /\ matches r s1 /\ (s2 = String "010" "" \/ s2 = "").
Proof.
  unfold re_full, opt, lit. intros H. apply re_exact_sound in H.
  apply matches_cat_inv in H. destruct H as (s1 & s2 & -> & H1 & H2).
  exists s1, s2. split; [reflexivity |]. split; [exact H1 |].
  apply matches_alt_inv in H2. destruct H2 as [H2 | H2]; inversion H2; subst.
  - left. match goal with
          | E : Ascii.eqb _ _ = true |- _ => apply Ascii.eqb_eq in E; subst
          end. reflexivity.
  - right. reflexivity.
Qed.

(** What the pieces of the patterns denote. *)
Lemma matches_lit (c : ascii) (s : string) :
  matches (lit c) s -> s = String c "".
Proof.
  unfold lit. intros H. inversion H; subst.
  match goal with
  | E : Ascii.eqb _ _ = true |- _ => apply Ascii.eqb_eq in E; subst
  end. reflexivity.
Qed.

Lemma matches_lits (t s : string) : matches (lits t) s -> s = t.
Proof.
  revert s. induction t as [| c t IH]; intros s H; cbn [lits] in H.
  - inversion H. reflexivity.
  - apply matches_cat_inv in H. destruct H as (s1 & s2 & -> & H1 & H2).
    apply matches_lit in H1. subst s1. rewrite (IH _ H2). reflexivity.
Qed.

Lemma matches_opt_lit (c : ascii) (s : string) :
  matches (opt (lit c)) s -> s = String c "" \/ s = "".
Proof.
  unfold opt. intros H. apply matches_alt_inv in H. destruct H as [H | H].
  - left. apply matches_lit. exact H.
  - right. inversion H. reflexivity.
Qed.

(** Every character of [s] satisfies [p]. *)
Lemma matches_star_chr (p : ascii -> bool) (s : string) :
  matches (Star (Chr p)) s ->
  lstrip_by (fun c => negb (p c)) s = s /\ lstrip_by p s = "".
Proof.
  intros H. remember (Star (Chr p)) as r eqn:Er.
  induction H; try discriminate Er.
  - split; reflexivity.
  - injection Er as ->. specialize (IHmatches2 eq_refl).
    destruct IHmatches2 as (Ha & Hb).
    inversion H; subst. cbn [append lstrip_by].
    match goal with E : p _ = true |- _ => rewrite E end.
    cbn [negb]. split; [reflexivity | exact Hb].
Qed.

Lemma lstrip_all (p : ascii -> bool) (s t : string) :
  lstrip_by p s = "" -> lstrip_by p (s ++ t) = lstrip_by p t.
Proof.
  induction s as [| c s IH]; cbn [lstrip_by append]; [reflexivity |].
  destruct (p c); [exact IH | discriminate].
Qed.

Lemma matches_star_digit (s : string) :
  matches (Star digit) s -> all_digits s = true.
Proof.
  unfold digit. intros H. apply matches_star_chr in H. destruct H as (_ & H).
  induction s as [| c s IH]; [reflexivity |].
  cbn [lstrip_by all_digits] in *.
  destruct (is_digit c); [auto | discriminate H].
Qed.

Lemma matches_plus_digit (s : string) :
  matches (plus digit) s ->
  exists c t, s = String c t /\ is_digit c = true /\ all_digits t = true.
Proof.
  unfold plus. intros H. apply matches_cat_inv in H.
  destruct H as (s1 & s2 & -> & H1 & H2).
  unfold digit in H1. inversion H1; subst.
  eexists _, s2. split; [reflexivity |]. split; [assumption |].
  apply matches_star_digit. exact H2.
Qed.

End RegexSound.

Section SliceFacts.
Import Py.
Local Open Scope string_scope.

Lemma substring_full (s : string) : substring 0 (String.length s) s = s.
Proof.
  induction s as [| c s IH]; [reflexivity |].
  cbn [String.length substring]. rewrite IH. reflexivity.
Qed.

Lemma substring_app_prefix (a b : string) :
  substring 0 (String.length a) (a ++ b) = a.
Proof.
  induction a as [| c a IH]; cbn [String.length append substring].
  - destruct b; reflexivity.
  - rewrite IH. reflexivity.
Qed.

Lemma substring_app_skip (a b : string) (k n : nat) :
  substring (String.length a + k) n (a ++ b) = substring k n b.
Proof.
  induction a as [| c a IH]; cbn [String.length append substring Nat.add];
    [reflexivity | exact IH].
Qed.

Lemma length_app_string (a b : string) :
  String.length (a ++ b) = (String.length a + String.length b)%nat.
Proof.
  induction a as [| c a IH]; cbn [String.length append Nat.add];
    [reflexivity | rewrite IH; reflexivity].
Qed.

Lemma mem_char_app (c : ascii) (a b : string) :
  mem_char c (a ++ b) = mem_char c a || mem_char c b.
Proof.
  induction a as [| d a IH]; cbn [mem_char append orb]; [reflexivity |].
  rewrite IH, orb_assoc. reflexivity.
Qed.

Lemma find_from_absent (c : ascii) (s : string) (pos : nat) :
  mem_char c s = false -> find_from c s 0 pos = (-1)%Z.
Proof.
  revert pos. induction s as [| d s IH]; intros pos; cbn [mem_char find_from];
    [reflexivity |].
  intros H. apply orb_false_iff in H. destruct H as (Hd & Hs).
  rewrite Hd, andb_false_r. apply IH. exact Hs.
Qed.

Lemma find_from_first (c : ascii) (a b : string) (pos : nat) :
  mem_char c a = false ->
  find_from c (a ++ String c b) 0 pos = Z.of_nat (pos + String.length a).
Proof.
  revert pos. induction a as [| d a IH]; intros pos;
    cbn [mem_char find_from append String.length].
  - intros _. rewrite Ascii.eqb_refl. cbn [Nat.leb andb].
    rewrite Nat.add_0_r. reflexivity.
  - intros H. apply orb_false_iff in H. destruct H as (Hd & Ha).
    rewrite Hd, andb_false_r, (IH (S pos) Ha). f_equal. lia.
Qed.

(** [s.split(sep, 1)] cuts at the first separator... *)
Lemma split1_at (c : ascii) (a b : string) :
  mem_char c a = false -> split1 c (a ++ String c b) = [a; b].
Proof.
  intros Ha. unfold split1, find. change (Z.to_nat 0) with 0%nat.
  rewrite (find_from_first c a b 0 Ha). cbn [Nat.add].
  destruct (Z.ltb_spec (Z.of_nat (String.length a)) 0); [lia |].
  unfold slice_from, slice, clamp_index, len.
  rewrite length_app_string. cbn [String.length].
  repeat match goal with
         | |- context [(?x <? 0)%Z] => destruct (Z.ltb_spec x 0); [lia |]
         end.
  rewrite !Z.max_r by lia.
  rewrite (Z.min_r _ (Z.of_nat (String.length a))) by lia.
  rewrite (Z.min_r _ 0) by lia.
  rewrite (Z.min_r _ (Z.of_nat (String.length a) + 1)) by lia.
  rewrite Z.min_id.
  cbn [Z.to_nat]. rewrite Z.sub_0_r, Nat2Z.id.
  rewrite substring_app_prefix.
  replace (Z.to_nat (Z.of_nat (String.length a) + 1))
    with (String.length a + 1)%nat by lia.
  rewrite substring_app_skip.
  replace (Z.to_nat (Z.of_nat (String.length a + S (String.length b))
                     - (Z.of_nat (String.length a) + 1)))
    with (String.length b) by lia.
  cbn [substring Nat.add]. rewrite substring_full. reflexivity.
Qed.

(** ... and leaves a text without one whole. *)
Lemma split1_none (c : ascii) (s : string) :
  mem_char c s = false -> split1 c s = [s].
Proof.
  intros H. unfold split1, find. change (Z.to_nat 0) with 0%nat.
  rewrite (find_from_absent c s 0 H). reflexivity.
Qed.

Lemma mem_char_first (c : ascii) (s : string) :
  mem_char c s = true ->
  exists u v, s = u ++ String c v /\ mem_char c u = false.
Proof.
  induction s as [| d s IH]; cbn [mem_char]; [discriminate |].
  destruct (Ascii.eqb_spec c d) as [-> | Hne]; cbn [orb].
  - intros _. exists "", s. split; reflexivity.
  - intros H. destruct (IH H) as (u & v & -> & Hu).
    exists (String d u), v. split; [reflexivity |].
    cbn [mem_char]. rewrite Hu, orb_false_r.
    apply Ascii.eqb_neq. exact Hne.
Qed.

Lemma slice_from_1 (c : ascii) (s : string) : slice_from (String c s) 1 = s.
Proof.
  change (String c s) with (String c "" ++ s).
  unfold slice_from, slice, clamp_index, len.
  rewrite length_app_string. cbn [String.length].
  repeat match goal with
         | |- context [(?x <? 0)%Z] => destruct (Z.ltb_spec x 0); [lia |]
         end.
  rewrite !Z.max_r by lia. rewrite Z.min_id, Z.min_r by lia.
  change (Z.to_nat 1) with (String.length (String c "") + 0)%nat.
  rewrite substring_app_skip.
  replace (Z.to_nat (Z.of_nat (1 + String.length s) - 1))
    with (String.length s) by lia.
  apply substring_full.
Qed.

Lemma slice_from_2 (c d : ascii) (s : string) :
  slice_from (String c (String d s)) 2 = s.
Proof.
  change (String c (String d s)) with (String c (String d "") ++ s).
  unfold slice_from, slice, clamp_index, len.
  rewrite length_app_string. cbn [String.length].
  repeat match goal with
         | |- context [(?x <? 0)%Z] => destruct (Z.ltb_spec x 0); [lia |]
         end.
  rewrite !Z.max_r by lia. rewrite Z.min_id, Z.min_r by lia.
  change (Z.to_nat 2) with (String.length (String c (String d "")) + 0)%nat.
  rewrite substring_app_skip.
  replace (Z.to_nat (Z.of_nat (2 + String.length s) - 2))
    with (String.length s) by lia.
  apply substring_full.
Qed.

Lemma list_ascii_app (a b : string) :
  list_ascii_of_string (a ++ b)
  = (list_ascii_of_string a ++ list_ascii_of_string b)%list.
Proof.
  induction a as [| c a IH]; cbn [append list_ascii_of_string app];
    [reflexivity | rewrite IH; reflexivity].
Qed.

Lemma string_of_list_app (l1 l2 : list ascii) :
  string_of_list_ascii (l1 ++ l2)%list
  = string_of_list_ascii l1 ++ string_of_list_ascii l2.
Proof.
  induction l1 as [| c l1 IH]; cbn [append string_of_list_ascii app];
    [reflexivity | rewrite IH; reflexivity].
Qed.

Lemma rev_string_app (a b : string) :
  rev_string (a ++ b) = rev_string b ++ rev_string a.
Proof.
  unfold rev_string. rewrite list_ascii_app, rev_app_distr.
  apply string_of_list_app.
Qed.

Lemma rev_string_cons (c : ascii) (s : string) :
  rev_string (String c s) = rev_string s ++ String c "".
Proof.
  change (String c s) with (String c "" ++ s). apply rev_string_app.
Qed.

Lemma lstrip_keeps (p : ascii -> bool) (c : ascii) (u v : string) :
  p c = false ->
  exists u', lstrip_by p (u ++ String c v) = u' ++ String c v.
Proof.
  intros Hc. induction u as [| d u IH]; cbn [append lstrip_by].
  - rewrite Hc. exists "". reflexivity.
  - destruct (p d); [exact IH | exists (String d u); reflexivity].
Qed.

(** [rstrip] stops at the last character it may not delete. *)
Lemma rstrip_keeps (p : ascii -> bool) (c : ascii) (a b : string) :
  p c = false ->
  exists b', rstrip_by p (a ++ String c b) = a ++ String c b'.
Proof.
  intros Hc. unfold rstrip_by.
  rewrite rev_string_app, rev_string_cons, string_app_assoc.
  cbn [append].
  destruct (lstrip_keeps p c (rev_string b) (rev_string a) Hc) as (u & ->).
  exists (rev_string u).
  rewrite rev_string_app, rev_string_cons, rev_string_involutive.
  rewrite string_app_assoc. reflexivity.
Qed.

End SliceFacts.
Section LoopErrors.
Import Py LesProps LesDoc LesLoop PanelImage.
Local Open Scope string_scope.
Local Open Scope list_scope.

Lemma float_raises_value_error (s : string) (e : exn) :
  float_of_string s = Raise e -> e = ValueError.
Proof.
  unfold float_of_string.
  destruct (split_sign _) as [neg body].
  match goal with
  | |- match ?p with Some _ => _ | None => _ end = _ -> _ =>
      destruct p
  end; intros H; inversion H; reflexivity.
Qed.

Lemma bind_raise {A B : Type} (m : result A) (k : A -> result B) (e : exn) :
  Py.bind m k = Raise e ->
  m = Raise e \/ exists a, m = Ok a /\ k a = Raise e.
Proof.
  destruct m as [a | e']; cbn [Py.bind]; intros H.
  - right. exists a. split; [reflexivity | exact H].
  - left. inversion H. reflexivity.
Qed.

Ltac value_error H :=
  repeat match type of H with
         | Py.bind _ _ = Raise _ =>
             apply bind_raise in H;
             destruct H as [H | (? & _ & H)]
         | float_of_string _ = Raise _ =>
             exact (float_raises_value_error _ _ H)
         | int_of_string _ = Raise _ =>
             exact (int_raises_value_error _ _ H)
         | Ok _ = Raise _ => discriminate H
         end.

(** An aperture line raises nothing but [ValueError]. *)
Lemma aperture_raises_value_error (content : option string) (e : exn) :
  Aperture.init content = Raise e -> e = ValueError.
Proof.
  unfold Aperture.init, Aperture.part, Py.index.
  destruct content as [[| c r] |]; try discriminate.
  set (content := String c r).
  pose proof (split_nonempty ":" content) as Hne.
  destruct (split ":" content) as [| p0 rest]; [contradiction |].
  cbn [nth_error Py.bind List.length].
  intros H. apply bind_raise in H.
  destruct H as [H | (idx & _ & H)].
  { destruct (1 <? len p0)%Z; [| discriminate H].
    exact (int_raises_value_error _ _ H). }
  cbn [Aperture.mode Aperture.set_index Aperture.set_mode] in H.
  destruct (try_except (Aperture.mode_of_name (slice content 0 1)) Aperture.T).
  - destruct rest as [| p1 rest]; cbn [Nat.ltb Nat.leb List.length nth_error
      Py.bind] in H; [discriminate H |].
    value_error H.
  - destruct rest as [| p1 [| p2 [| p3 rest]]];
      cbn [Nat.ltb Nat.leb List.length nth_error Py.bind] in H;
      try discriminate H; value_error H.
  - destruct rest as [| p1 [| p2 rest]];
      cbn [Nat.ltb Nat.leb List.length nth_error Py.bind] in H;
      try discriminate H; value_error H.
  - discriminate H.
  - discriminate H.
Qed.

(** A STEP line raises nothing but [ValueError]. *)
Lemma step_raises_value_error (content : string) (e : exn) :
  LesStep.init content = Raise e -> e = ValueError.
Proof.
  unfold LesStep.init, LesStep.pair_of.
  destruct (split ":" content) as [| ? [| p1 [| p2 [| p3 [| p4 rest]]]]];
    try discriminate.
  intros H.
  apply bind_raise in H. destruct H as [H | (off & _ & H)].
  { destruct (split "," p3) as [| s0 [| s1 ?]]; try discriminate H.
    value_error H. }
  apply bind_raise in H. destruct H as [H | (dist & _ & H)].
  { destruct (split "," p4) as [| s0 [| s1 ?]]; try discriminate H.
    value_error H. }
  discriminate H.
Qed.

(** The pass that names the images never raises. *)
Lemma finish_total (st : Les.state) : exists l, Les.finish st = Ok l.
Proof.
  unfold Les.finish.
  destruct (Les.current_outline_segment st) as [| v seg];
    [eexists; reflexivity |].
  cbn [Les.steps Les.points Les.set_outline_points].
  unfold assign_panel_image_names.
  destruct (name_points_spec (Les.points (Les.self st))
              (mk_state (record_steps (Les.steps (Les.self st)) 1 [])
                        (name_all (record_steps (Les.steps (Les.self st)) 1 []))
                        1)
              (map LesStep.image (Les.steps (Les.self st))))
    as (named & Hnamed & _).
  { destruct (record_steps_spec (Les.steps (Les.self st)) 1 []) as (Hne & Hmem).
    { intros k ps H. discriminate H. }
    split; [| split; [| split]]; cbn [image_usage next_image_id].
    - intros m. rewrite Hmem. unfold dict_mem. simpl. intuition discriminate.
    - lia.
    - intros m Hm. lia.
    - exact Hne. }
  rewrite Hnamed. cbn [Py.bind]. eexists. reflexivity.
Qed.

(** A regular point line never raises once the images are sound. *)
Lemma on_point_total (st : Les.state) (line : string) :
  Les.classify line = Les.RegularPoint ->
  images_ok (Les.images (Les.self st)) ->
  Forall (fun n => (0 <= Net.image n)%Z) (Les.nets (Les.self st)) ->
  exists st', Les.on_point st line = Ok st'.
Proof.
  intros Hk Hok Hnets. unfold Les.on_point.
  pose proof (point_pattern_nonempty _ (classify_regular _ Hk)) as Hne.
  rewrite (regular_init _ _ _ _ Hne). cbn [Py.bind].
  set (pt := Les.scale_point _ _).
  assert (Himg : (0 <= Point.image pt)%Z).
  { unfold pt, Les.scale_point, Point.set_xy.
    cbn [Point.image]. rewrite regular_point_image.
    destruct (last_indexed (Les.nets (Les.self st))) as [[pos n] |] eqn:El;
      [| lia].
    apply last_indexed_in in El.
    rewrite Forall_forall in Hnets. apply Hnets. exact El. }
  match goal with
  | |- context [Les.grow_images ?i ?n] => set (g := Les.grow_images i n)
  end.
  assert (Hg : g = Les.grow_images (Les.images (Les.self st)) (Point.image pt)).
  { unfold g. destruct (last_indexed (Les.nets (Les.self st))) as [[pos n] |];
      reflexivity. }
  destruct (grow_images_spec (Les.images (Les.self st)) _ Himg)
    as (Hlt & _ & _). rewrite <- Hg in Hlt.
  assert (Hpos : Les.position g (Point.image pt)
                 = Some (Z.to_nat (Point.image pt))).
  { unfold Les.position.
    destruct (Z.ltb_spec (Point.image pt) 0); [lia |].
    destruct (Z.leb_spec 0 (Point.image pt)); [| lia].
    destruct (Z.ltb_spec (Point.image pt) (Z.of_nat (List.length g)));
      [reflexivity | lia]. }
  destruct (last_indexed (Les.nets (Les.self st))) as [[pos n] |];
    cbn [Les.set_points Les.set_nets Les.set_images Les.images
         Les.points Les.nets];
    fold g;
    (destruct (Z.ltb_spec (Point.image pt) (Z.of_nat (List.length g)));
     [| lia]);
    rewrite Hpos;
    destruct (nth_error g (Z.to_nat (Point.image pt))) as [[vi |] |];
    cbn [Py.bind]; eexists; reflexivity.
Qed.

Lemma classify_layer (line : string) :
  Les.classify line = Les.LayerCount -> Les.layer_pattern line = true.
Proof.
  unfold Les.classify. destruct line as [| c r]; [discriminate |].
  destruct (contains "#ATFH" _); [discriminate |].
  destruct (Les.layer_pattern _); [reflexivity |].
  repeat match goal with
         | |- context [if ?b then _ else _] =>
             destruct b eqn:?; try discriminate
         end.
Qed.

Lemma classify_outline (line : string) :
  Les.classify line = Les.Outline -> Les.outline_pattern line = true.
Proof.
  unfold Les.classify. destruct line as [| c r]; [discriminate |].
  destruct (contains "#ATFH" _); [discriminate |].
  destruct (Les.layer_pattern _); [discriminate |].
  destruct (startswith "UNIT" _); [discriminate |].
  destruct (Les.outline_pattern _); [reflexivity |].
  repeat match goal with
         | |- context [if ?b then _ else _] =>
             destruct b eqn:?; try discriminate
         end.
Qed.

Lemma decimal_prefix_all (s : string) : all_digits (decimal_prefix s) = true.
Proof.
  induction s as [| c r IH]; cbn [decimal_prefix]; [reflexivity |].
  destruct (is_digit c) eqn:Hc; [| reflexivity].
  cbn [all_digits]. rewrite Hc, IH. reflexivity.
Qed.

(** Group 1 of a layer line is a run of decimal digits. *)
Lemma layer_line_digits (line : string) :
  Les.layer_pattern line = true ->
  all_digits (Les.layer_group1 line) = true
  /\ Les.layer_group1 line <> "".
Proof.
  unfold Les.layer_pattern. intros H.
  apply re_full_sound in H. destruct H as (s1 & s2 & -> & H & _).
  cbn [seq] in H.
  apply matches_cat_inv in H. destruct H as (a & r1 & -> & Ha & H).
  apply matches_cat_inv in H. destruct H as (b & r2 & -> & Hb & H).
  apply matches_cat_inv in H. destruct H as (c & r3 & -> & Hc & _).
  apply matches_lit in Ha. subst a.
  apply matches_star_chr in Hb. destruct Hb as (_ & Hb).
  apply matches_plus_digit in Hc. destruct Hc as (d & t & -> & Hd & Ht).
  unfold Les.layer_group1. cbn [append]. rewrite slice_from_1.
  rewrite string_app_assoc, (lstrip_all _ _ _ Hb).
  cbn [append lstrip_by]. rewrite (digit_not_blank d Hd).
  cbn [decimal_prefix]. rewrite Hd. split; [| discriminate].
  cbn [all_digits]. rewrite Hd, decimal_prefix_all. reflexivity.
Qed.

(** A layer line raises exactly when its number has more than 4300
    digits. *)
Lemma layer_line_count (line : string) :
  Les.layer_pattern line = true ->
  ((Z.of_nat (String.length (Les.layer_group1 line)) <= int_max_str_digits)%Z ->
   exists n, int_of_string (Les.layer_group1 line) = Ok n /\ (0 <= n)%Z)
  /\ ((int_max_str_digits < Z.of_nat (String.length (Les.layer_group1 line)))%Z ->
      int_of_string (Les.layer_group1 line) = Raise ValueError).
Proof.
  intros H. destruct (layer_line_digits line H) as (Hd & Hne).
  split; intros Hlen.
  - apply int_of_decimal; assumption.
  - apply int_of_long; assumption.
Qed.

(** The text of an outline line always splits at its [Y]. *)
Lemma outline_line_parts (line : string) :
  Les.outline_pattern line = true ->
  exists xs ys,
    split1 "Y" match split1 "T" (rstrip_chars "," (slice_from line 2)) with
               | h :: _ => h
               | [] => ""
               end = [xs; ys].
Proof.
  unfold Les.outline_pattern. intros H.
  apply re_full_sound in H. destruct H as (s1 & s2 & -> & H & _).
  cbn [seq] in H.
  apply matches_cat_inv in H. destruct H as (k & r1 & -> & Hk & H).
  apply matches_cat_inv in H. destruct H as (sg & r2 & -> & Hsg & H).
  apply matches_cat_inv in H. destruct H as (d1 & r3 & -> & Hd1 & H).
  apply matches_cat_inv in H. destruct H as (y & rest & -> & Hy & _).
  apply matches_lits in Hk. subst k.
  apply matches_lit in Hy. subst y.
  apply matches_plus_digit in Hd1. destruct Hd1 as (d & t & -> & Hd & Ht).
  set (pre := String "X" (sg ++ String d t)).
  assert (Hpre : forall c, is_digit c = false -> c <> "X"%char ->
                   c <> "-"%char -> mem_char c pre = false).
  { intros c Hc HX Hm. unfold pre. cbn [mem_char].
    rewrite mem_char_app.
    assert (Hdt : mem_char c (String d t) = false).
    { apply all_digits_no_char; [exact Hc |].
      cbn [all_digits]. rewrite Hd, Ht. reflexivity. }
    rewrite Hdt, orb_false_r.
    apply matches_opt_lit in Hsg. destruct Hsg as [-> | ->]; cbn [mem_char].
    - apply orb_false_iff. split; [| apply orb_false_iff; split];
        try reflexivity; apply Ascii.eqb_neq; assumption.
    - rewrite orb_false_r. apply Ascii.eqb_neq. assumption. }
  assert (E : (slice_from (("K,X" ++ sg ++ String d t ++ String "Y" "" ++ rest)
                           ++ s2) 2
               = pre ++ String "Y" (rest ++ s2))%string).
  { cbn [append]. rewrite slice_from_2. unfold pre. cbn [append].
    rewrite !string_app_assoc. cbn [append].
    rewrite !string_app_assoc. reflexivity. }
  rewrite E. clear E. unfold rstrip_chars.
  destruct (rstrip_keeps (fun c => mem_char c ",") "Y" pre (rest ++ s2)
              eq_refl) as (b' & ->).
  assert (HY : mem_char "Y" pre = false)
    by (apply Hpre; [reflexivity | discriminate | discriminate]).
  assert (HT : mem_char "T" pre = false)
    by (apply Hpre; [reflexivity | discriminate | discriminate]).
  destruct (mem_char "T" b') eqn:Hb.
  - destruct (mem_char_first "T" b' Hb) as (u & v & -> & Hu).
    replace (pre ++ String "Y" (u ++ String "T" v))%string
      with ((pre ++ String "Y" u) ++ String "T" v)%string
      by (rewrite string_app_assoc; reflexivity).
    rewrite (split1_at "T").
    + exists pre, u. apply split1_at. exact HY.
    + rewrite mem_char_app, HT. cbn [mem_char orb]. exact Hu.
  - rewrite (split1_none "T").
    + exists pre, b'. apply split1_at. exact HY.
    + rewrite mem_char_app, HT. cbn [mem_char orb]. exact Hb.
Qed.

Lemma load_lines_after (a b : list string) :
  forall s i s1,
    Les.load_lines s i a = Ok s1 ->
    Les.load_lines s i (a ++ b) = Les.load_lines s1 (i + List.length a) b.
Proof.
  induction a as [| x a IHa]; intros s i s1 Ha;
    cbn [Les.load_lines app List.length] in *.
  - inversion Ha; subst. rewrite Nat.add_0_r. reflexivity.
  - apply bind_ok in Ha. destruct Ha as (s2 & Hs2 & Ha).
    rewrite Hs2. cbn [Py.bind].
    rewrite (IHa s2 (S i) s1 Ha).
    f_equal. lia.
Qed.

(** The state of the loop tells whether a STEP line has come. *)
Lemma step_seen (content pre : list string) (st : Les.state) :
  Les.load_lines (start content) 0 pre = Ok st ->
  (has_step pre = true <-> Les.index_of_step st <> None)
  /\ style_at st (List.length pre)
     = if has_step pre then PointStyle.LOCAL else PointStyle.GLOBAL.
Proof.
  intros H. pose proof (loop_step_index content pre st H) as Hidx.
  unfold style_at. destruct (has_step pre).
  - destruct Hidx as (k & Ek & Hlt). rewrite Ek. split.
    + split; [discriminate | reflexivity].
    + destruct (Nat.ltb_spec (List.length pre) k); [lia | reflexivity].
  - rewrite Hidx. split; [| reflexivity].
    split; [discriminate | intros E; contradiction E; reflexivity].
Qed.

(** X21.  What [Les.load_file] can raise, and where.  At any place of
    a file the loop gets through, a line raises exactly when it is a
    bad line, and then it raises [ValueError]: a layer line whose
    number has more than 4300 digits, an aperture line on which
    [Aperture.__init__] raises, a STEP line on which
    [LesStep.__init__] raises, a net header with a number [int()]
    refuses behind [isdigit()] (a superscript digit, more than 4300
    digits), or a tooling line after a STEP line with such an image
    text.  Blank lines, test names, unit and outline lines, tooling
    lines before every STEP line, regular points and unrecognised
    lines never raise, and neither does the naming pass after the
    loop: [load_file] on a fresh document raises only [ValueError],
    and only when the file has a bad line. *)
Theorem load_file_raises_value_error :
  (forall content pre raw st e,
      Les.load_lines (start content) 0 pre = Ok st ->
      Les.load_line st (List.length pre) raw = Raise e ->
      e = ValueError /\ bad_line (has_step pre) raw)
  /\ (forall content pre raw st,
         Les.load_lines (start content) 0 pre = Ok st ->
         bad_line (has_step pre) raw ->
         Les.load_line st (List.length pre) raw = Raise ValueError)
  /\ (forall file_lines e,
         Les.load_file Les.empty file_lines = Raise e ->
         e = ValueError
         /\ exists raw after_step,
              In raw file_lines
              /\ bad_line after_step (rstrip_chars (String "010" "") raw)).
Proof.
  assert (Hline : forall content pre raw st e,
             Les.load_lines (start content) 0 pre = Ok st ->
             Les.load_line st (List.length pre) raw = Raise e ->
             e = ValueError /\ bad_line (has_step pre) raw).
  { intros content pre raw st e Hpre H.
    destruct (loop_images content pre st Hpre) as (Hok & Hnets & _).
    destruct (step_seen content pre st Hpre) as (Hseen & _).
    unfold Les.load_line in H. unfold bad_line, kind_of.
    destruct (Les.classify (strip raw)) eqn:Hk.
    - discriminate H.
    - unfold Les.on_test_name in H.
      destruct (split ":" (strip raw)) as [| ? [| ? ?]]; discriminate H.
    - unfold Les.on_layer_count in H.
      apply bind_raise in H. destruct H as [H | (n & _ & H)];
        [| discriminate H].
      pose proof (int_raises_value_error _ _ H) as ->.
      split; [reflexivity |]. left. split; [reflexivity |].
      destruct (layer_line_count _ (classify_layer _ Hk)) as (Hyes & _).
      destruct (Z.le_gt_cases
                  (Z.of_nat (String.length (Les.layer_group1 (strip raw))))
                  int_max_str_digits) as [Hle | Hgt]; [| exact Hgt].
      destruct (Hyes Hle) as (n & Hn & _). rewrite Hn in H. discriminate H.
    - unfold Les.on_unit in H.
      destruct (split ":" (strip raw)) as [| ? [| ? [| ? ?]]]; discriminate H.
    - unfold Les.on_outline in H.
      destruct (outline_line_parts _ (classify_outline _ Hk))
        as (xs & ys & Hxy).
      rewrite Hxy in H.
      destruct (endswith_char "," (strip raw));
        destruct (Les.current_outline_segment st ++ _); discriminate H.
    - assert (Hne : strip raw <> "").
      { apply classify_nonempty. rewrite Hk. discriminate. }
      destruct (on_tooling_result st (List.length pre) (strip raw) Hne)
        as [(p & Hp) | (Hr & Hi & Hbad)].
      + rewrite Hp in H. discriminate H.
      + rewrite Hr in H. injection H as <-.
        split; [reflexivity |]. do 4 right.
        split; [reflexivity |]. split; [apply Hseen; exact Hi | exact Hbad].
    - unfold Les.on_aperture in H.
      apply bind_raise in H. destruct H as [H | (ap & _ & H)];
        [| discriminate H].
      pose proof (aperture_raises_value_error _ _ H) as ->.
      split; [reflexivity |]. right. left.
      split; [reflexivity | exact H].
    - unfold Les.on_step in H.
      apply bind_raise in H. destruct H as [H | (s & _ & H)];
        [| discriminate H].
      pose proof (step_raises_value_error _ _ H) as ->.
      split; [reflexivity |]. right. right. left.
      split; [reflexivity | exact H].
    - unfold Les.on_net in H.
      apply bind_raise in H. destruct H as [H | (n & _ & H)];
        [| discriminate H].
      pose proof (net_raises_value_error _ _ H) as ->.
      split; [reflexivity |]. do 3 right. left.
      split; [reflexivity |].
      assert (Hne : strip raw <> "").
      { apply classify_nonempty. rewrite Hk. discriminate. }
      destruct (net_init_result (strip raw) Hne) as (Hyes & _).
      destruct (net_reads (strip raw)); [| reflexivity].
      destruct (Hyes eq_refl) as (n & Hn). rewrite Hn in H. discriminate H.
    - destruct (on_point_total st (strip raw) Hk Hok Hnets) as (st' & Hst').
      rewrite Hst' in H. discriminate H.
    - discriminate H. }
  split; [exact Hline |]. split.
  - intros content pre raw st Hpre Hbad.
    destruct (step_seen content pre st Hpre) as (Hseen & _).
    unfold Les.load_line. unfold bad_line, kind_of in Hbad.
    destruct Hbad as [(Hk & Hlen) | [(Hk & Hr) | [(Hk & Hr) | [(Hk & Hr)
                     | (Hk & Hafter & s & Hs & Hbad)]]]]; rewrite Hk.
    + unfold Les.on_layer_count.
      destruct (layer_line_count _ (classify_layer _ Hk)) as (_ & Hno).
      rewrite (Hno Hlen). reflexivity.
    + unfold Les.on_aperture. rewrite Hr. reflexivity.
    + unfold Les.on_step. rewrite Hr. reflexivity.
    + unfold Les.on_net.
      assert (Hne : strip raw <> "").
      { apply classify_nonempty. rewrite Hk. discriminate. }
      destruct (net_init_result (strip raw) Hne) as (_ & Hno).
      rewrite (Hno Hr). reflexivity.
    + assert (Hne : strip raw <> "").
      { apply classify_nonempty. rewrite Hk. discriminate. }
      destruct (on_tooling_result st (List.length pre) (strip raw) Hne)
        as [(p & Hp) | (Hraise & _)]; [| exact Hraise].
      exfalso. unfold Les.on_tooling in Hp.
      apply bind_ok in Hp. destruct Hp as (p0 & Hp0 & _).
      change (match Les.index_of_step st with
              | Some k => if (List.length pre <? k)%nat
                          then PointStyle.GLOBAL else PointStyle.LOCAL
              | None => PointStyle.GLOBAL
              end) with (style_at st (List.length pre)) in Hp0.
      rewrite (proj2 (step_seen content pre st Hpre)), Hafter in Hp0.
      unfold Point.init in Hp0.
      destruct (strip raw) as [| c r] eqn:El;
        [contradiction Hne; reflexivity |].
      rewrite <- El in *.
      destruct (tooling_hole_result
                  (Point.fresh (Some (strip raw)) 1 None
                               (Some PointStyle.LOCAL))
                  (strip raw) (Les.apertures (Les.self st))
                  PointStyle.LOCAL)
        as [(p1 & _ & [Hg | Hok]) | (Hr & _)].
      * discriminate Hg.
      * rewrite Hs, Hbad in Hok. discriminate Hok.
      * rewrite Hr in Hp0. discriminate Hp0.
  - intros file_lines e H. unfold Les.load_file in H.
    set (content := map (rstrip_chars (String "010" "")) file_lines) in *.
    change (Les.mk_state (Les.set_content Les.empty content) None [])
      with (start content) in H.
    apply bind_raise in H. destruct H as [H | (st & _ & H)].
    + assert (G : forall lines pre st0,
                 Les.load_lines (start content) 0 pre = Ok st0 ->
                 Les.load_lines st0 (List.length pre) lines = Raise e ->
                 e = ValueError
                 /\ exists raw b, In raw lines /\ bad_line b raw).
      { induction lines as [| raw rest IH]; intros pre st0 Hpre Hr;
          cbn [Les.load_lines] in Hr; [discriminate Hr |].
        apply bind_raise in Hr. destruct Hr as [Hr | (st1 & H1 & Hr)].
        - destruct (Hline content pre raw st0 e Hpre Hr) as (He & Hb).
          split; [exact He |]. exists raw, (has_step pre).
          split; [left; reflexivity | exact Hb].
        - destruct (IH (pre ++ [raw]) st1) as (He & raw' & b & Hin & Hb).
          + rewrite (load_lines_after pre [raw] _ 0%nat st0 Hpre).
            cbn [Les.load_lines Nat.add]. rewrite H1. reflexivity.
          + rewrite length_app. cbn [List.length]. rewrite Nat.add_1_r.
            exact Hr.
          + split; [exact He |]. exists raw', b.
            split; [right; exact Hin | exact Hb]. }
      destruct (G content [] (start content) eq_refl H)
        as (He & raw & b & Hin & Hb).
      split; [exact He |].
      unfold content in Hin. apply in_map_iff in Hin.
      destruct Hin as (raw0 & <- & Hin0). exists raw0, b. split; assumption.
    + destruct (finish_total st) as (l & Hl). rewrite Hl in H. discriminate H.
Qed.

Lemma load_file_raises_value_error_witness :
  Les.load_file Les.empty
    ["L 4"; "K,X1Y2,T3,"; "STEP:2::0,0:10,0";
     String "F" (String "," (String "X" (String "1" (String "Y"
       (String "1" (String "I" (String "178" "")))))))]
  = Raise ValueError.
Proof.
  destruct (Les.load_file Les.empty
              ["L 4"; "K,X1Y2,T3,"; "STEP:2::0,0:10,0";
               String "F" (String "," (String "X" (String "1" (String "Y"
                 (String "1" (String "I" (String "178" "")))))))])
    as [l | e] eqn:E; [vm_compute in E; discriminate E |].
  rewrite (proj1 (proj2 (proj2 load_file_raises_value_error) _ e E)).
  reflexivity.
Defined.

End LoopErrors.
Section RegexComplete.
Import Py RegexSem.
Local Open Scope string_scope.

Lemma nullable_complete (r : regex) : matches r "" -> nullable r = true.
Proof.
  intros H. remember "" as s eqn:Es.
  induction H; cbn [nullable]; try reflexivity; try discriminate Es.
  - destruct s1; [| discriminate Es]. cbn [append] in Es. subst s2.
    rewrite IHmatches1, IHmatches2; reflexivity.
  - rewrite IHmatches; [reflexivity | exact Es].
  - rewrite IHmatches; [apply orb_true_r | exact Es].
Qed.

Lemma cat_complete (r1 r2 : regex) (s : string) :
  matches (Cat r1 r2) s -> matches (cat r1 r2) s.
Proof.
  intros H. apply matches_cat_inv in H. destruct H as (s1 & s2 & -> & H1 & H2).
  destruct r1;
    try (exfalso; exact (matches_void _ H1));
    destruct r2;
    try (exfalso; exact (matches_void _ H2));
    cbn [cat];
    try (constructor; assumption);
    inversion H1; subst; exact H2.
Qed.

Lemma alt_complete (r1 r2 : regex) (s : string) :
  matches (Alt r1 r2) s -> matches (alt r1 r2) s.
Proof.
  intros H. apply matches_alt_inv in H.
  destruct H as [H | H].
  - destruct r1; try (exfalso; exact (matches_void _ H));
      destruct r2; cbn [alt]; try exact H; apply m_alt_l; exact H.
  - destruct r2; try (exfalso; exact (matches_void _ H));
      destruct r1; cbn [alt]; try exact H; apply m_alt_r; exact H.
Qed.

Lemma star_cons_inv (r : regex) (c : ascii) (s : string) :
  matches (Star r) (String c s) ->
  exists s1 s2,
    s = s1 ++ s2 /\ matches r (String c s1) /\ matches (Star r) s2.
Proof.
  intros H. remember (Star r) as R eqn:ER. remember (String c s) as S eqn:ES.
  induction H; try discriminate ER; try discriminate ES.
  injection ER as ->.
  destruct s1 as [| c' s1'].
  - cbn [append] in ES. apply IHmatches2; [reflexivity | exact ES].
  - cbn [append] in ES. injection ES as -> <-.
    exists s1', s2. split; [reflexivity |]. split; assumption.
Qed.

Lemma deriv_complete (r : regex) :
  forall c s, matches r (String c s) -> matches (deriv c r) s.
Proof.
  induction r as [| | p | r1 IH1 r2 IH2 | r1 IH1 r2 IH2 | r IH];
    intros c s H; cbn [deriv].
  - inversion H.
  - inversion H.
  - inversion H; subst.
    match goal with E : p c = true |- _ => rewrite E end. constructor.
  - apply matches_cat_inv in H. destruct H as (s1 & s2 & E & H1 & H2).
    destruct s1 as [| c' s1'].
    + cbn [append] in E. subst s2.
      rewrite (nullable_complete _ H1).
      apply alt_complete. apply m_alt_r. apply IH2. exact H2.
    + cbn [append] in E. injection E as <- ->.
      assert (L : matches (cat (deriv c r1) r2) (s1' ++ s2)).
      { apply cat_complete. constructor; [apply IH1; exact H1 | exact H2]. }
      destruct (nullable r1); [| exact L].
      apply alt_complete. apply m_alt_l. exact L.
  - apply alt_complete. apply matches_alt_inv in H.
    destruct H as [H | H]; [apply m_alt_l | apply m_alt_r]; auto.
  - apply star_cons_inv in H. destruct H as (s1 & s2 & -> & H1 & H2).
    apply cat_complete. constructor; [apply IH; exact H1 | exact H2].
Qed.

(** The derivative matcher accepts everything the pattern denotes. *)
Lemma re_exact_complete (s : string) :
  forall r, matches r s -> re_exact r s = true.
Proof.
  induction s as [| c s IH]; intros r H; cbn [re_exact].
  - apply nullable_complete. exact H.
  - apply IH. apply deriv_complete. exact H.
Qed.

Lemma re_full_complete (r : regex) (s : string) :
  matches r s -> re_full r s = true.
Proof.
  intros H. unfold re_full. apply re_exact_complete.
  rewrite <- (string_app_nil_r s).
  constructor; [exact H |]. unfold opt. apply m_alt_r. constructor.
Qed.

Lemma matches_lits_refl (t : string) : matches (lits t) t.
Proof.
  induction t as [| c t IH]; cbn [lits]; [constructor |].
  change (String c t) with (String c "" ++ t).
  constructor; [| exact IH]. unfold lit. constructor. apply Ascii.eqb_refl.
Qed.

Lemma matches_lit_refl (c : ascii) : matches (lit c) (String c "").
Proof. unfold lit. constructor. apply Ascii.eqb_refl. Qed.

Lemma matches_digits (s : string) :
  all_digits s = true -> matches (Star digit) s.
Proof.
  induction s as [| c s IH]; cbn [all_digits]; intros H; [constructor |].
  apply andb_prop in H. destruct H as (Hc & Hs).
  change (String c s) with (String c "" ++ s).
  constructor; [| exact (IH Hs)]. unfold digit. constructor. exact Hc.
Qed.

Lemma matches_decimal (s : string) :
  LesLoop.decimal s = true -> matches (plus digit) s.
Proof.
  destruct s as [| c s]; [discriminate |].
  unfold LesLoop.decimal. cbn [all_digits]. intros H.
  apply andb_prop in H. destruct H as (Hc & Hs).
  unfold plus. change (String c s) with (String c "" ++ s).
  constructor; [| exact (matches_digits _ Hs)].
  unfold digit. constructor. exact Hc.
Qed.

End RegexComplete.
Section StripFacts.
Import Py.
Local Open Scope string_scope.

Lemma rev_string_nil (s : string) : rev_string s = "" -> s = "".
Proof.
  intros H. rewrite <- (rev_string_involutive s), H. reflexivity.
Qed.

Lemma lstrip_app_nonempty (p : ascii -> bool) (u v : string) :
  lstrip_by p u <> "" -> lstrip_by p (u ++ v) = lstrip_by p u ++ v.
Proof.
  induction u as [| c u IH]; cbn [lstrip_by append]; intros H.
  - contradiction H. reflexivity.
  - destruct (p c); [exact (IH H) | reflexivity].
Qed.

(** [rstrip] works on the end of a text only. *)
Lemma rstrip_app_nonempty (p : ascii -> bool) (a b : string) :
  rstrip_by p b <> "" -> rstrip_by p (a ++ b) = a ++ rstrip_by p b.
Proof.
  unfold rstrip_by. intros H.
  rewrite rev_string_app, lstrip_app_nonempty.
  - rewrite rev_string_app, rev_string_involutive. reflexivity.
  - intros E. apply H. rewrite E. reflexivity.
Qed.

Lemma rstrip_app_empty (p : ascii -> bool) (a b : string) :
  rstrip_by p b = "" -> rstrip_by p (a ++ b) = rstrip_by p a.
Proof.
  unfold rstrip_by. intros H. apply rev_string_nil in H.
  rewrite rev_string_app, (lstrip_all _ _ _ H). reflexivity.
Qed.

Lemma lstrip_head (p : ascii -> bool) (s : string) :
  Forall (fun c => p c = false) (list_ascii_of_string s) ->
  lstrip_by p s = s.
Proof.
  destruct s as [| c s]; [reflexivity |].
  cbn [list_ascii_of_string lstrip_by]. intros H. inversion H; subst.
  match goal with E : p c = false |- _ => rewrite E end. reflexivity.
Qed.

Lemma rstrip_clean (p : ascii -> bool) (s : string) :
  Forall (fun c => p c = false) (list_ascii_of_string s) ->
  rstrip_by p s = s.
Proof.
  intros H. unfold rstrip_by. rewrite lstrip_head.
  - apply rev_string_involutive.
  - unfold rev_string. rewrite list_ascii_of_string_of_list_ascii.
    apply Forall_rev. exact H.
Qed.

Lemma strip_by_clean (p : ascii -> bool) (s : string) :
  Forall (fun c => p c = false) (list_ascii_of_string s) ->
  strip_by p s = s.
Proof.
  intros H. unfold strip_by. rewrite (lstrip_head p s H).
  apply rstrip_clean. exact H.
Qed.

Lemma endswith_app (c : ascii) (a b : string) :
  b <> "" -> endswith_char c (a ++ b) = endswith_char c b.
Proof.
  intros Hb. unfold endswith_char. rewrite rev_string_app.
  destruct (rev_string b) as [| d r] eqn:E.
  - apply rev_string_nil in E. contradiction.
  - reflexivity.
Qed.

Lemma endswith_clean (c : ascii) (s : string) :
  mem_char c s = false -> endswith_char c s = false.
Proof.
  intros H. unfold endswith_char.
  destruct (rev_string s) as [| d r] eqn:E; [reflexivity |].
  destruct (Ascii.eqb_spec c d) as [-> | _]; [| reflexivity].
  assert (M : mem_char d (rev_string (rev_string s)) = true).
  { rewrite E, rev_string_cons, mem_char_app. cbn [mem_char].
    rewrite Ascii.eqb_refl. apply orb_true_r. }
  rewrite rev_string_involutive in M. congruence.
Qed.

(** Texts whose characters all fail [p]. *)
Lemma clean_app (p : ascii -> bool) (a b : string) :
  Forall (fun c => p c = false) (list_ascii_of_string a) ->
  Forall (fun c => p c = false) (list_ascii_of_string b) ->
  Forall (fun c => p c = false) (list_ascii_of_string (a ++ b)).
Proof.
  intros Ha Hb. rewrite list_ascii_app. apply Forall_app. split; assumption.
Qed.

Lemma clean_digits (p : ascii -> bool) (s : string) :
  (forall c, is_digit c = true -> p c = false) ->
  all_digits s = true ->
  Forall (fun c => p c = false) (list_ascii_of_string s).
Proof.
  intros Hp H. apply all_digits_list in H.
  apply Forall_impl with (2 := H). exact Hp.
Qed.

Lemma clean_mem (c : ascii) (s : string) :
  Forall (fun d => Ascii.eqb c d = false) (list_ascii_of_string s) ->
  mem_char c s = false.
Proof.
  induction s as [| d s IH]; cbn [list_ascii_of_string mem_char];
    [reflexivity |].
  intros H. inversion H; subst.
  match goal with E : Ascii.eqb c d = false |- _ => rewrite E end.
  cbn [orb]. apply IH. assumption.
Qed.

End StripFacts.

Section NumeralFacts.
Import Py LesLoop.
Local Open Scope string_scope.

Lemma decimal_all (s : string) : decimal s = true -> all_digits s = true.
Proof. destruct s; [discriminate | intros H; exact H]. Qed.

Lemma signed_numeral_cases (s : string) :
  signed_numeral s = true ->
  exists ds, decimal ds = true /\ (s = ds \/ s = String "-" ds).
Proof.
  unfold signed_numeral. intros H.
  destruct s as [| c r]; [discriminate H |].
  destruct (Ascii.eqb_spec c "-") as [-> | Hc].
  - exists r. split; [exact H | right; reflexivity].
  - exists (String c r). split; [| left; reflexivity].
    destruct c as [[] [] [] [] [] [] [] []]; try exact H;
      contradiction Hc; reflexivity.
Qed.

(** The characters of a numeral are digits and the sign. *)
Lemma signed_numeral_clean (p : ascii -> bool) (s : string) :
  (forall c, is_digit c = true -> p c = false) ->
  p "-"%char = false ->
  signed_numeral s = true ->
  Forall (fun c => p c = false) (list_ascii_of_string s).
Proof.
  intros Hp Hm H.
  destruct (signed_numeral_cases s H) as (ds & Hd & [-> | ->]).
  - apply clean_digits; [exact Hp | apply decimal_all; exact Hd].
  - cbn [list_ascii_of_string]. constructor; [exact Hm |].
    apply clean_digits; [exact Hp | apply decimal_all; exact Hd].
Qed.

Lemma find_exp_clean (s : string) :
  Forall (fun c => Ascii.eqb c "e" || Ascii.eqb c "E" = false)
         (list_ascii_of_string s) ->
  forall pos, find_exp s pos = None.
Proof.
  induction s as [| c s IH]; cbn [list_ascii_of_string find_exp];
    intros H pos; [reflexivity |].
  inversion H; subst.
  match goal with E : _ || _ = false |- _ => rewrite E end.
  apply IH. assumption.
Qed.

Lemma digit_run_value (s : string) :
  decimal s = true ->
  exists v, digit_run s = Some (v, String.length s).
Proof.
  intros H.
  destruct (digit_run_count s (decimal_all s H)) as (v & Hv & _).
  - intros E. subst s. discriminate H.
  - exists v. exact Hv.
Qed.

Lemma digits_acc_stop (s : string) (c : ascii) (r : string) :
  all_digits s = true -> is_digit c = false -> c <> "_"%char ->
  forall acc n b, digits_acc (s ++ String c r) acc n b = None.
Proof.
  intros Hs Hc Hu.
  induction s as [| d s IH]; cbn [append digits_acc]; intros acc n b.
  - rewrite Hc. apply Ascii.eqb_neq in Hu. rewrite Hu. reflexivity.
  - cbn [all_digits] in Hs. apply andb_true_iff in Hs.
    destruct Hs as [Hd Hs']. rewrite Hd. apply IH. exact Hs'.
Qed.

Lemma digit_facts (c : ascii) :
  is_digit c = true ->
  is_num_space c = false
  /\ Ascii.eqb c "e" || Ascii.eqb c "E" = false
  /\ Ascii.eqb "." c = false
  /\ Ascii.eqb "," c = false
  /\ Ascii.eqb "T" c = false
  /\ Ascii.eqb "Y" c = false
  /\ Ascii.eqb "X" c = false
  /\ Ascii.eqb "#" c = false.
Proof.
  intros H.
  destruct c as [[] [] [] [] [] [] [] []]; vm_compute in H;
    try discriminate H; vm_compute; repeat split.
Qed.

(** [float] reads a signed numeral as an integer, the one [int]
    reads when the numeral is short enough for [int]. *)
Lemma float_of_numeral (s : string) :
  signed_numeral s = true ->
  exists a,
    float_of_string s = Ok (inject_Z a)
    /\ ((Z.of_nat (String.length s) <= int_max_str_digits)%Z ->
        int_of_string s = Ok a).
Proof.
  intros H.
  assert (Hstrip : strip_by is_num_space s = s).
  { apply strip_by_clean. apply signed_numeral_clean;
      [intros c Hc; apply digit_facts; exact Hc | reflexivity | exact H]. }
  destruct (signed_numeral_cases s H) as (ds & Hd & Hs).
  destruct (digit_run_value ds Hd) as (v & Hv).
  pose proof (decimal_all _ Hd) as Hall.
  assert (Hsign : split_sign s = (false, ds) \/ split_sign s = (true, ds)).
  { destruct Hs as [-> | ->]; [left | right; reflexivity].
    apply digits_not_sign. exact Hall. }
  assert (Hlen : (String.length ds <= String.length s)%nat).
  { destruct Hs as [-> | ->]; cbn [String.length]; lia. }
  assert (Hexp : find_exp ds 0 = None).
  { apply find_exp_clean. apply clean_digits with (p := fun c =>
      Ascii.eqb c "e" || Ascii.eqb c "E"); [| exact Hall].
    intros c Hc. apply digit_facts. exact Hc. }
  assert (Hman : mantissa ds = Some (v, 0%nat)).
  { unfold mantissa, find. change (Z.to_nat 0) with 0%nat.
    rewrite find_from_absent.
    - cbn [Z.ltb Z.compare]. rewrite Hv. reflexivity.
    - apply all_digits_no_char; [reflexivity | exact Hall]. }
  unfold int_of_string, float_of_string. rewrite Hstrip.
  destruct Hsign as [-> | ->]; rewrite Hv, Hexp, Hman;
    unfold scale10; cbn [Z.of_nat Z.opp Z.leb Z.compare Z.pow Z.pow_pos
                         Pos.iter Z.mul Pos.mul];
    rewrite Z.mul_1_r; eexists; (split; [reflexivity |]);
    intros Hl;
    (destruct (Z.ltb_spec int_max_str_digits (Z.of_nat (String.length ds)));
     [lia | reflexivity]).
Qed.

(** A comma after the numeral makes [float] raise. *)
Lemma float_of_numeral_comma (s : string) :
  signed_numeral s = true ->
  float_of_string (s ++ ",") = Raise ValueError.
Proof.
  intros H.
  assert (Hstrip : strip_by is_num_space (s ++ ",") = s ++ ",").
  { apply strip_by_clean. apply clean_app.
    - apply signed_numeral_clean;
        [intros c Hc; apply digit_facts; exact Hc | reflexivity | exact H].
    - repeat constructor. }
  destruct (signed_numeral_cases s H) as (ds & Hd & Hs).
  pose proof (decimal_all _ Hd) as Hall.
  assert (Hsign : split_sign (s ++ ",") = (false, ds ++ ",")
                  \/ split_sign (s ++ ",") = (true, ds ++ ",")).
  { destruct Hs as [-> | ->]; [left | right; reflexivity].
    destruct ds as [| c r]; [discriminate Hd |].
    cbn [append]. apply digit_not_sign. unfold decimal in Hd.
    cbn [all_digits] in Hd. apply andb_true_iff in Hd. tauto. }
  assert (Hexp : find_exp (ds ++ ",") 0 = None).
  { apply find_exp_clean. apply clean_app.
    - apply clean_digits with (p := fun c =>
        Ascii.eqb c "e" || Ascii.eqb c "E"); [| exact Hall].
      intros c Hc. apply digit_facts. exact Hc.
    - repeat constructor. }
  assert (Hman : mantissa (ds ++ ",") = None).
  { unfold mantissa, find. change (Z.to_nat 0) with 0%nat.
    rewrite find_from_absent.
    - cbn [Z.ltb Z.compare]. unfold digit_run.
      rewrite digits_acc_stop; [reflexivity | exact Hall | reflexivity |
                                discriminate].
    - rewrite mem_char_app, (all_digits_no_char "." ds eq_refl Hall).
      reflexivity. }
  unfold float_of_string. rewrite Hstrip.
  destruct Hsign as [-> | ->]; rewrite Hexp, Hman; reflexivity.
Qed.

End NumeralFacts.
Section OutlineDecoding.
Import Py LesLoop RegexSem.
Local Open Scope string_scope.

Lemma matches_numeral_then (r : regex) (s rest : string) :
  signed_numeral s = true -> matches r rest ->
  matches (Cat (opt (lit "-")) (Cat (plus digit) r)) (s ++ rest).
Proof.
  intros H Hr. destruct (signed_numeral_cases s H) as (ds & Hd & [-> | ->]).
  - refine (@m_cat _ _ "" (ds ++ rest) (@m_alt_r _ _ _ m_eps) _).
    constructor; [apply matches_decimal; exact Hd | exact Hr].
  - refine (@m_cat _ _ (String "-" "") (ds ++ rest)
              (@m_alt_l _ _ _ (matches_lit_refl _)) _).
    constructor; [apply matches_decimal; exact Hd | exact Hr].
Qed.

Lemma matches_comma_then (r : regex) (c : bool) (rest : string) :
  matches r rest ->
  matches (Cat (opt (lit ",")) r) ((if c then "," else "") ++ rest).
Proof.
  intros Hr. constructor; [| exact Hr].
  destruct c; [apply m_alt_l; apply matches_lit_refl | apply m_alt_r; constructor].
Qed.

Lemma matches_aperture_then (r : regex) (t : option string) (rest : string) :
  (forall ds, t = Some ds -> decimal ds = true) ->
  matches r rest ->
  matches (Cat (opt (Cat (lit "T") (plus digit))) r)
          (match t with Some ds => "T" ++ ds | None => "" end ++ rest).
Proof.
  intros Ht Hr. constructor; [| exact Hr].
  destruct t as [ds |]; [apply m_alt_l | apply m_alt_r; constructor].
  refine (@m_cat _ _ (String "T" "") ds (matches_lit_refl _) _).
  apply matches_decimal. apply Ht. reflexivity.
Qed.

(** The lines of the shape are the lines of the outline pattern. *)
Lemma outline_line_matches (sx sy : string) (c1 : bool) (t : option string)
    (c2 : bool) :
  signed_numeral sx = true -> signed_numeral sy = true ->
  (forall ds, t = Some ds -> decimal ds = true) ->
  Les.outline_pattern (outline_line sx sy c1 t c2) = true.
Proof.
  intros Hx Hy Ht. unfold Les.outline_pattern, outline_line.
  apply re_full_complete. cbn [seq].
  refine (@m_cat _ _ "K,X" _ (matches_lits_refl _) _).
  apply matches_numeral_then; [exact Hx |].
  refine (@m_cat _ _ (String "Y" "") _ (matches_lit_refl _) _).
  apply matches_numeral_then; [exact Hy |].
  apply matches_comma_then. apply matches_aperture_then; [exact Ht |].
  rewrite <- (string_app_nil_r (if c2 then "," else "")).
  apply matches_comma_then. constructor.
Qed.

Lemma outline_line_clean (p : ascii -> bool) (sx sy : string) (c1 : bool)
    (t : option string) (c2 : bool) :
  (forall c, is_digit c = true -> p c = false) ->
  p "-"%char = false -> p "K"%char = false -> p ","%char = false ->
  p "X"%char = false -> p "Y"%char = false -> p "T"%char = false ->
  signed_numeral sx = true -> signed_numeral sy = true ->
  (forall ds, t = Some ds -> decimal ds = true) ->
  Forall (fun c => p c = false)
         (list_ascii_of_string (outline_line sx sy c1 t c2)).
Proof.
  intros Hd Hm HK Hc HX HY HT Hx Hy Ht. unfold outline_line.
  apply clean_app; [repeat constructor; assumption |].
  apply clean_app; [apply signed_numeral_clean; assumption |].
  apply clean_app; [repeat constructor; assumption |].
  apply clean_app; [apply signed_numeral_clean; assumption |].
  apply clean_app; [destruct c1; repeat constructor; assumption |].
  apply clean_app; [| destruct c2; repeat constructor; assumption].
  destruct t as [ds |]; [| constructor].
  apply clean_app; [repeat constructor; assumption |].
  apply clean_digits; [exact Hd |]. apply decimal_all. apply Ht. reflexivity.
Qed.

Lemma contains_absent (c : ascii) (sub s : string) :
  mem_char c s = false -> contains (String c sub) s = false.
Proof.
  induction s as [| d s IH]; cbn [mem_char contains String.prefix];
    [reflexivity |].
  intros H. apply orb_false_iff in H. destruct H as (Hd & Hs).
  rewrite (IH Hs), orb_false_r.
  destruct (ascii_dec c d) as [-> | _]; [| reflexivity].
  rewrite Ascii.eqb_refl in Hd. discriminate Hd.
Qed.

Lemma outline_line_kind (sx sy : string) (c1 : bool) (t : option string)
    (c2 : bool) :
  signed_numeral sx = true -> signed_numeral sy = true ->
  (forall ds, t = Some ds -> decimal ds = true) ->
  strip (outline_line sx sy c1 t c2) = outline_line sx sy c1 t c2
  /\ Les.classify (outline_line sx sy c1 t c2) = Les.Outline.
Proof.
  intros Hx Hy Ht. split.
  - apply strip_by_clean. apply outline_line_clean; try assumption;
      try reflexivity.
    intros c Hc. apply digit_not_blank. exact Hc.
  - pose proof (outline_line_matches sx sy c1 t c2 Hx Hy Ht) as Hm.
    assert (Hh : contains "#ATFH" (outline_line sx sy c1 t c2) = false).
    { apply contains_absent. apply clean_mem.
      apply outline_line_clean with (p := Ascii.eqb "#"); try assumption;
        try reflexivity.
      intros c Hc. apply digit_facts. exact Hc. }
    assert (Hl : Les.layer_pattern (outline_line sx sy c1 t c2) = false).
    { destruct (Les.layer_pattern _) eqn:E; [| reflexivity].
      unfold Les.layer_pattern in E. apply re_full_sound in E.
      destruct E as (s1 & s2 & E & M & _). cbn [seq] in M.
      apply matches_cat_inv in M. destruct M as (a & r & -> & Ma & _).
      apply matches_lit in Ma. subst a.
      unfold outline_line in E. discriminate E. }
    unfold Les.classify. rewrite Hh, Hl, Hm.
    unfold outline_line. reflexivity.
Qed.

(** What [on_outline] cuts out of a line of the shape. *)
Lemma outline_line_split (sx sy : string) (c1 : bool) (t : option string)
    (c2 : bool) :
  signed_numeral sx = true -> signed_numeral sy = true ->
  (forall ds, t = Some ds -> decimal ds = true) ->
  endswith_char "," (outline_line sx sy c1 t c2)
  = c2 || (c1 && negb (is_some t))
  /\ split1 "Y"
       match split1 "T" (rstrip_chars ","
                           (slice_from (outline_line sx sy c1 t c2) 2)) with
       | h :: _ => h
       | [] => ""
       end
     = [String "X" sx; sy ++ (if c1 && is_some t then "," else "")].
Proof.
  intros Hx Hy Ht.
  set (body := String "X" (sx ++ String "Y" sy)).
  set (suffix := (if c1 then "," else "")
                 ++ match t with Some ds => "T" ++ ds | None => "" end
                 ++ (if c2 then "," else "")).
  assert (Hline : outline_line sx sy c1 t c2
                  = String "K" (String "," (body ++ suffix))).
  { unfold outline_line, body, suffix. cbn [append].
    rewrite !string_app_assoc. reflexivity. }
  assert (Hnum : forall c s, signed_numeral s = true ->
                   is_digit c = false -> c <> "-"%char ->
                   mem_char c s = false).
  { intros c s Hs Hc Hm. apply clean_mem.
    apply signed_numeral_clean with (p := Ascii.eqb c); [| | exact Hs].
    - intros d Hd. destruct (Ascii.eqb_spec c d) as [-> | _];
        [congruence | reflexivity].
    - apply Ascii.eqb_neq. exact Hm. }
  assert (Hbody : forall c, is_digit c = false -> c <> "-"%char ->
                    c <> "X"%char -> c <> "Y"%char ->
                    mem_char c body = false).
  { intros c Hc Hm HX HY. unfold body. cbn [mem_char].
    rewrite mem_char_app. cbn [mem_char].
    rewrite (Hnum c sx Hx Hc Hm), (Hnum c sy Hy Hc Hm).
    apply Ascii.eqb_neq in HX. apply Ascii.eqb_neq in HY.
    rewrite HX, HY. reflexivity. }
  assert (HbT : mem_char "T" body = false)
    by (apply Hbody; [reflexivity | discriminate ..]).
  assert (Hbc : mem_char "," body = false)
    by (apply Hbody; [reflexivity | discriminate ..]).
  assert (HxY : mem_char "Y" (String "X" sx) = false).
  { cbn [mem_char]. rewrite (Hnum "Y"%char sx Hx eq_refl); [reflexivity |].
    discriminate. }
  assert (Hbne : body <> "") by (unfold body; discriminate).
  assert (Hrb : rstrip_chars "," body = body).
  { unfold rstrip_chars. apply rstrip_clean.
    unfold body. cbn [list_ascii_of_string]. constructor; [reflexivity |].
    rewrite list_ascii_app. apply Forall_app. split.
    - apply signed_numeral_clean with (p := fun c => mem_char c ",");
        [| reflexivity | exact Hx].
      intros c Hc. cbn [mem_char]. rewrite orb_false_r.
      destruct (Ascii.eqb_spec c ",") as [-> | _];
        [discriminate Hc | reflexivity].
    - cbn [list_ascii_of_string]. constructor; [reflexivity |].
      apply signed_numeral_clean with (p := fun c => mem_char c ",");
        [| reflexivity | exact Hy].
      intros c Hc. cbn [mem_char]. rewrite orb_false_r.
      destruct (Ascii.eqb_spec c ",") as [-> | _];
        [discriminate Hc | reflexivity]. }
  assert (Hsplit : forall tail,
             split1 "Y" (body ++ tail) = [String "X" sx; sy ++ tail]).
  { intros tail.
    replace (body ++ tail) with (String "X" sx ++ String "Y" (sy ++ tail)).
    - apply split1_at. exact HxY.
    - unfold body. cbn [append]. rewrite string_app_assoc. reflexivity. }
  rewrite Hline, slice_from_2.
  destruct t as [ds |]; cbn [is_some negb andb].
  - (* a T with its digits *)
    pose proof (Ht ds eq_refl) as Hd.
    pose proof (decimal_all _ Hd) as Hall.
    assert (Hdne : ds <> "") by (destruct ds; [discriminate Hd | discriminate]).
    assert (Hdc : mem_char "," ds = false)
      by (apply all_digits_no_char; [reflexivity | exact Hall]).
    assert (Hrd : forall c : bool,
               rstrip_chars "," (ds ++ (if c then "," else ""))
                            = ds).
    { intros c. unfold rstrip_chars. rewrite rstrip_app_empty.
      - apply rstrip_clean.
        apply clean_digits with (p := fun c => mem_char c ",");
          [| exact Hall].
        intros d Hdg. cbn [mem_char]. rewrite orb_false_r.
        destruct (Ascii.eqb_spec d ",") as [-> | _];
          [discriminate Hdg | reflexivity].
      - destruct c; reflexivity. }
    split.
    + rewrite andb_false_r, orb_false_r.
      replace (String "K" (String "," (body ++ suffix)))
        with ((String "K" (String "," (body ++ (if c1 then "," else "")
                                       ++ String "T" "")))
              ++ (ds ++ (if c2 then "," else ""))).
      * destruct c2.
        -- rewrite endswith_app by (destruct ds; discriminate).
           rewrite endswith_app by discriminate. reflexivity.
        -- rewrite string_app_nil_r, endswith_app by exact Hdne.
           apply endswith_clean. exact Hdc.
      * unfold suffix. cbn [append]. rewrite !string_app_assoc.
        cbn [append]. reflexivity.
    + rewrite andb_true_r.
      replace (body ++ suffix)
        with ((body ++ (if c1 then "," else "") ++ String "T" "")
              ++ (ds ++ (if c2 then "," else ""))).
      * unfold rstrip_chars. rewrite rstrip_app_nonempty.
        -- fold (rstrip_chars "," (ds ++ (if c2 then "," else ""))).
           rewrite Hrd.
           replace ((body ++ (if c1 then "," else "") ++ String "T" "") ++ ds)
             with ((body ++ (if c1 then "," else "")) ++ String "T" ds).
           ++ rewrite (split1_at "T").
              ** apply Hsplit.
              ** rewrite mem_char_app, HbT. destruct c1; reflexivity.
           ++ rewrite !string_app_assoc. cbn [append]. reflexivity.
        -- fold (rstrip_chars "," (ds ++ (if c2 then "," else ""))).
           rewrite Hrd. exact Hdne.
      * unfold suffix. cbn [append]. rewrite !string_app_assoc.
        cbn [append]. reflexivity.
  - (* no T *)
    rewrite andb_true_r, andb_false_r.
    assert (Hs0 : rstrip_chars "," suffix = "")
      by (unfold suffix; destruct c1, c2; reflexivity).
    split.
    + assert (H1 : forall sfx, sfx <> "" ->
                endswith_char "," (String "K" (String "," (body ++ sfx)))
                = endswith_char "," sfx).
      { intros sfx Hne.
        change (String "K" (String "," (body ++ sfx)))
          with (String "K" (String "," body) ++ sfx).
        apply endswith_app. exact Hne. }
      destruct c1, c2; unfold suffix; cbn [orb].
      * rewrite H1 by discriminate. reflexivity.
      * rewrite H1 by discriminate. reflexivity.
      * rewrite H1 by discriminate. reflexivity.
      * change ("" ++ "" ++ "") with "". rewrite string_app_nil_r.
        change (String "K" (String "," body))
          with (String "K" (String "," "") ++ body).
        rewrite endswith_app by exact Hbne.
        apply endswith_clean. exact Hbc.
    + unfold rstrip_chars. rewrite rstrip_app_empty by exact Hs0.
      fold (rstrip_chars "," body). rewrite Hrb.
      rewrite (split1_none "T") by exact HbT.
      rewrite <- (string_app_nil_r body) at 1.
      rewrite Hsplit. reflexivity.
Qed.

(** X22.  What an outline line gives.  For a line
    [K,X<x>Y<y>] with signed numerals [x] and [y], an optional comma,
    an optional [T<digits>] and an optional final comma (the lines of
    the outline pattern), the loop of [load_file] never raises and
    appends one point to the current segment: [(x * scale, y * scale)],
    where [float] reads [x] and [y] as integers, the ones [int] reads
    from them when they are short enough for [int]; except that a
    comma between [y] and [T] makes [float] fail and the point
    [(0, 0)].  The segment goes on when the line ends in a comma and
    is closed into [outline_points] when it does not. *)
Theorem outline_line_decodes (st : Les.state) (i : nat) (sx sy : string)
    (c1 : bool) (t : option string) (c2 : bool) :
  signed_numeral sx = true -> signed_numeral sy = true ->
  (forall ds, t = Some ds -> decimal ds = true) ->
  exists a b,
    float_of_string sx = Ok (inject_Z a)
    /\ float_of_string sy = Ok (inject_Z b)
    /\ ((Z.of_nat (String.length sx) <= int_max_str_digits)%Z ->
        int_of_string sx = Ok a)
    /\ ((Z.of_nat (String.length sy) <= int_max_str_digits)%Z ->
        int_of_string sy = Ok b)
    /\ Les.load_line st i (outline_line sx sy c1 t c2)
       = let sc := Les.scale (Les.self st) in
         let xy := if c1 && is_some t then (0, 0)
                   else (inject_Z a * sc, inject_Z b * sc) in
         let seg := (Les.current_outline_segment st ++ [xy])%list in
         Ok (if c2 || (c1 && negb (is_some t))
             then Les.mk_state (Les.self st) (Les.index_of_step st) seg
             else Les.mk_state
                    (Les.set_outline_points (Les.self st)
                       (Les.outline_points (Les.self st) ++ [seg])%list)
                    (Les.index_of_step st) []).
Proof.
  intros Hx Hy Ht.
  destruct (float_of_numeral sx Hx) as (a & Fa & Ha).
  destruct (float_of_numeral sy Hy) as (b & Fb & Hb).
  exists a, b. split; [exact Fa |]. split; [exact Fb |].
  split; [exact Ha |]. split; [exact Hb |].
  destruct (outline_line_kind sx sy c1 t c2 Hx Hy Ht) as (Hs & Hk).
  destruct (outline_line_split sx sy c1 t c2 Hx Hy Ht) as (He & Hsp).
  unfold Les.load_line. rewrite Hs, Hk. unfold Les.on_outline.
  rewrite He, Hsp.
  change (remove_char "X" (String "X" sx)) with (remove_char "X" sx).
  rewrite remove_char_absent.
  2:{ apply clean_mem.
      apply signed_numeral_clean with (p := Ascii.eqb "X"); [| reflexivity |
                                                              exact Hx].
      intros c Hc. apply digit_facts. exact Hc. }
  rewrite Fa. cbn [Py.bind]. cbv zeta.
  assert (Hseg : forall xy,
             (Les.current_outline_segment st ++ [xy])%list <> []).
  { intros xy E. apply app_eq_nil in E. destruct E as (_ & E).
    discriminate E. }
  destruct (c1 && is_some t) eqn:Ec.
  - rewrite (float_of_numeral_comma sy Hy). cbn [Py.bind try_except].
    destruct (c2 || c1 && negb (is_some t));
      destruct (Les.current_outline_segment st ++ [(0, 0)])%list eqn:E;
      try reflexivity.
    exfalso. exact (Hseg _ E).
  - rewrite string_app_nil_r, Fb. cbn [Py.bind try_except].
    destruct (c2 || c1 && negb (is_some t));
      destruct (Les.current_outline_segment st ++ _)%list eqn:E;
      try reflexivity.
    exfalso. exact (Hseg _ E).
Qed.

Lemma outline_line_decodes_witness :
  Les.load_line (start []) 0 "K,X-12Y7,T3"
  = Ok (Les.mk_state
          (Les.set_outline_points Les.empty [[(0, 0)]]) None []).
Proof.
  destruct (outline_line_decodes (start []) 0 "-12" "7" true (Some "3") false
              eq_refl eq_refl) as (a & b & _ & _ & _ & _ & H).
  - intros ds E. injection E as <-. reflexivity.
  - exact H.
Defined.

End OutlineDecoding.
Section LayerVisibility.
Import Py PanelImage XmlDrawing ViewerCanvas LesView.
Local Open Scope string_scope.
Local Open Scope list_scope.
Local Open Scope Z_scope.

Lemma dict_get_set (d : list (Z * bool)) (k l : Z) (v : bool) :
  dict_get Z.eqb (dict_set Z.eqb d k v) l
  = if l =? k then Some v else dict_get Z.eqb d l.
Proof.
  induction d as [| [k' v'] d IH]; cbn [dict_set dict_get].
  - reflexivity.
  - destruct (Z.eqb_spec k k') as [-> | Hk]; cbn [dict_get].
    + destruct (Z.eqb_spec l k'); reflexivity.
    + rewrite IH. destruct (Z.eqb_spec l k') as [-> | Hl]; [| reflexivity].
      destruct (Z.eqb_spec k' k) as [E | _]; [| reflexivity].
      contradiction Hk. symmetry. exact E.
Qed.

Lemma mark_layers_get (pts : list Point.t) :
  forall d l,
    dict_get Z.eqb (mark_layers pts d) l
    = if existsb (fun p => l =? Point.layer p) pts then Some true
      else dict_get Z.eqb d l.
Proof.
  unfold mark_layers.
  induction pts as [| p pts IH]; intros d l; cbn [fold_left existsb].
  - reflexivity.
  - rewrite IH, dict_get_set.
    destruct (l =? Point.layer p); cbn [orb];
      destruct (existsb _ pts); reflexivity.
Qed.

Lemma set_keys_get (f : Z -> bool) (ks : list Z) :
  forall d l,
    (forall k, In k ks -> dict_get Z.eqb d k <> None) ->
    dict_get Z.eqb
      (fold_left (fun d k => dict_set Z.eqb d k (f k)) ks d) l
    = if existsb (Z.eqb l) ks then Some (f l) else dict_get Z.eqb d l.
Proof.
  induction ks as [| k ks IH]; intros d l Hin; cbn [fold_left existsb].
  - reflexivity.
  - rewrite IH.
    + rewrite dict_get_set.
      destruct (Z.eqb_spec l k) as [-> | _]; cbn [orb];
        destruct (existsb _ ks); reflexivity.
    + intros k' Hk'. rewrite dict_get_set.
      destruct (k' =? k); [discriminate |].
      apply Hin. right. exact Hk'.
Qed.

Lemma dict_get_keys (d : list (Z * bool)) (l : Z) :
  existsb (Z.eqb l) (map fst d)
  = match dict_get Z.eqb d l with Some _ => true | None => false end.
Proof.
  induction d as [| [k v] d IH]; cbn [map existsb dict_get fst];
    [reflexivity |].
  destruct (l =? k); [reflexivity | exact IH].
Qed.

(** Every key gets the value the rule gives it; no key is added. *)
Lemma set_each_get (f : Z -> bool) (d : list (Z * bool)) (l : Z) :
  dict_get Z.eqb (set_each f d) l
  = match dict_get Z.eqb d l with
    | Some _ => Some (f l)
    | None => None
    end.
Proof.
  unfold set_each. rewrite set_keys_get.
  - rewrite dict_get_keys. destruct (dict_get Z.eqb d l); reflexivity.
  - intros k Hk E.
    assert (H : existsb (Z.eqb k) (map fst d) = true).
    { apply existsb_exists. exists k. split; [exact Hk | apply Z.eqb_refl]. }
    rewrite dict_get_keys, E in H. discriminate H.
Qed.

Lemma fold_max_spec (t : list Z) :
  forall h,
    h <= fold_left Z.max t h
    /\ (forall z, In z t -> z <= fold_left Z.max t h)
    /\ (fold_left Z.max t h = h \/ In (fold_left Z.max t h) t).
Proof.
  induction t as [| a t IH]; intros h; cbn [fold_left In].
  - split; [lia |]. split; [intros z [] | left; reflexivity].
  - destruct (IH (Z.max h a)) as (H1 & H2 & H3).
    split; [lia |]. split.
    + intros z [<- | Hz]; [lia | exact (H2 z Hz)].
    + destruct H3 as [H3 | H3]; [| right; right; exact H3].
      rewrite H3. destruct (Z.max_spec h a) as [(_ & ->) | (_ & ->)];
        [right; left; reflexivity | left; reflexivity].
Qed.

(** [max_layer] is the largest layer of the points, and at least 1. *)
Lemma max_layer_spec (pts : list Point.t) :
  1 <= max_layer pts
  /\ (forall p, In p pts -> Point.layer p <= max_layer pts)
  /\ (max_layer pts = 1 \/ exists p, In p pts /\ Point.layer p = max_layer pts).
Proof.
  unfold max_layer.
  destruct (map Point.layer pts ++ [1]) as [| h t] eqn:E.
  - destruct (map Point.layer pts); discriminate E.
  - destruct (fold_max_spec t h) as (H1 & H2 & H3).
    assert (Hall : forall z, In z (map Point.layer pts ++ [1]) ->
                     z <= fold_left Z.max t h).
    { intros z Hz. rewrite E in Hz. destruct Hz as [<- | Hz];
        [exact H1 | exact (H2 z Hz)]. }
    assert (Hin : In (fold_left Z.max t h) (map Point.layer pts ++ [1])).
    { rewrite E. destruct H3 as [-> | H3]; [left; reflexivity | right; exact H3]. }
    split; [apply Hall; apply in_or_app; right; left; reflexivity |].
    split.
    + intros p Hp. apply Hall. apply in_or_app. left.
      apply in_map. exact Hp.
    + apply in_app_or in Hin. destruct Hin as [Hin | [Hin | []]].
      * right. apply in_map_iff in Hin. destruct Hin as (p & Hp & Hi).
        exists p. split; assumption.
      * left. symmetry. exact Hin.
Qed.

Lemma auto_zoom_keeps (c : t) :
  les_data (auto_zoom c) = les_data c
  /\ show_layers (auto_zoom c) = show_layers c
  /\ layer_mode (auto_zoom c) = layer_mode c.
Proof.
  unfold auto_zoom. destruct (les_data c) as [ld |] eqn:E;
    [| repeat split; assumption].
  destruct (fit_points c ld) as [| p ps]; [repeat split; assumption |].
  cbv zeta. destruct (Req_dec_T _ 0); [repeat split; assumption |].
  destruct (Req_dec_T _ 0); [repeat split; assumption |].
  cbn [with_xml les_data show_layers layer_mode]. repeat split; assumption.
Qed.

(** X23.  Which layers are shown after a LES file is loaded.
    [ViewerCanvasCore.load_file] returns [False] and leaves the canvas
    as it was when the parser raises.  Otherwise it returns [True],
    the canvas holds the document, and a layer is shown exactly when
    some point lies on it and the layer mode admits it: layer 1 in
    mode [top], the bottom layer in mode [bottom], one of the two in
    any other mode.  The bottom layer is [count_of_layer] when that is
    not 0, else the largest layer of a point, and at least 1.  So a
    layer without points is never shown, and the points of the inner
    layers are hidden in every mode. *)
Theorem load_file_layer_visibility (c : t) (file_lines : list string) :
  (forall e, Les.load_file Les.empty file_lines = Raise e ->
             load_file c file_lines = (c, false))
  /\ (forall ld,
         Les.load_file Les.empty file_lines = Ok ld ->
         let c' := fst (load_file c file_lines) in
         snd (load_file c file_lines) = true
         /\ les_data c' = Some ld
         /\ (forall layer,
                shown c' layer
                = existsb (fun p => layer =? Point.layer p) (Les.points ld)
                  && (if String.eqb (layer_mode c) "top" then layer =? 1
                      else if String.eqb (layer_mode c) "bottom"
                           then layer =? bottom_layer ld
                           else (layer =? 1) || (layer =? bottom_layer ld)))
         /\ 1 <= max_layer (Les.points ld)
         /\ (forall p, In p (Les.points ld) ->
                       Point.layer p <= max_layer (Les.points ld))
         /\ (Les.count_of_layer ld <> 0 ->
             bottom_layer ld = Les.count_of_layer ld)
         /\ (Les.count_of_layer ld = 0 ->
             bottom_layer ld = max_layer (Les.points ld))).
Proof.
  split.
  - intros e H. unfold load_file. rewrite H. reflexivity.
  - intros ld H c'. subst c'. unfold load_file. rewrite H.
    cbn [fst snd].
    match goal with
    | |- context [auto_zoom ?x] => set (c1 := x)
    end.
    destruct (auto_zoom_keeps c1) as (Hld & Hsl & _).
    destruct (max_layer_spec (Les.points ld)) as (M1 & M2 & _).
    split; [reflexivity |]. split.
    { rewrite Hld. reflexivity. }
    split.
    { intros layer. unfold shown. rewrite Hsl. unfold c1.
      unfold init_layer_visibility.
      cbn [set_show_layers set_les_data les_data show_layers layer_mode].
      rewrite set_each_get, mark_layers_get. cbn [dict_get].
      destruct (existsb _ (Les.points ld)); cbn [andb]; [| reflexivity].
      destruct (String.eqb (layer_mode c) "top"); [reflexivity |].
      destruct (String.eqb (layer_mode c) "bottom"); reflexivity. }
    split; [exact M1 |]. split; [exact M2 |].
    unfold bottom_layer. split.
    + intros Hc. destruct (Z.eqb_spec (Les.count_of_layer ld) 0);
        [contradiction | reflexivity].
    + intros Hc. rewrite Hc. reflexivity.
Qed.

Lemma load_file_layer_visibility_witness :
  snd (load_file ViewerCanvas.init ["L 4"; "@1C2"; "I1X5Y7AS1"]) = true.
Proof.
  destruct (Les.load_file Les.empty ["L 4"; "@1C2"; "I1X5Y7AS1"])
    as [ld | e] eqn:E; [| vm_compute in E; discriminate E].
  exact (proj1 (proj2 (load_file_layer_visibility ViewerCanvas.init _) ld E)).
Defined.

End LayerVisibility.
Section AutoZoom.
Import Py PanelImage XmlDrawing ViewerCanvas LesView ViewProps.
Local Open Scope list_scope.
Local Open Scope R_scope.

Lemma fold_Rmin_spec (t : list R) :
  forall h,
    fold_left Rmin t h <= h
    /\ (forall z, In z t -> fold_left Rmin t h <= z)
    /\ (fold_left Rmin t h = h \/ In (fold_left Rmin t h) t).
Proof.
  induction t as [| a t IH]; intros h; cbn [fold_left In].
  - split; [lra |]. split; [intros z [] | left; reflexivity].
  - destruct (IH (Rmin h a)) as (H1 & H2 & H3).
    pose proof (Rmin_l h a). pose proof (Rmin_r h a).
    split; [lra |]. split.
    + intros z [<- | Hz]; [lra | exact (H2 z Hz)].
    + destruct H3 as [H3 | H3]; [| right; right; exact H3].
      rewrite H3. unfold Rmin. destruct (Rle_dec h a);
        [left; reflexivity | right; left; reflexivity].
Qed.

Lemma fold_Rmax_spec (t : list R) :
  forall h,
    h <= fold_left Rmax t h
    /\ (forall z, In z t -> z <= fold_left Rmax t h)
    /\ (fold_left Rmax t h = h \/ In (fold_left Rmax t h) t).
Proof.
  induction t as [| a t IH]; intros h; cbn [fold_left In].
  - split; [lra |]. split; [intros z [] | left; reflexivity].
  - destruct (IH (Rmax h a)) as (H1 & H2 & H3).
    pose proof (Rmax_l h a). pose proof (Rmax_r h a).
    split; [lra |]. split.
    + intros z [<- | Hz]; [lra | exact (H2 z Hz)].
    + destruct H3 as [H3 | H3]; [| right; right; exact H3].
      rewrite H3. unfold Rmax. destruct (Rle_dec h a);
        [right; left; reflexivity | left; reflexivity].
Qed.

(** The smallest and the largest of the values [f s], [s] in a list
    that is not empty. *)
Lemma extent_spec {A : Type} (f : A -> R) (p : A) (ps : list A) :
  let lo := fold_left Rmin (map f ps) (f p) in
  let hi := fold_left Rmax (map f ps) (f p) in
  (forall s, In s (p :: ps) -> lo <= f s <= hi)
  /\ (exists s, In s (p :: ps) /\ f s = lo)
  /\ (exists s, In s (p :: ps) /\ f s = hi).
Proof.
  intros lo hi.
  destruct (fold_Rmin_spec (map f ps) (f p)) as (L1 & L2 & L3).
  destruct (fold_Rmax_spec (map f ps) (f p)) as (U1 & U2 & U3).
  fold lo in L1, L2, L3. fold hi in U1, U2, U3.
  split; [| split].
  - intros s [<- | Hs]; [lra |].
    split; [apply L2 | apply U2]; apply in_map; exact Hs.
  - destruct L3 as [L3 | L3].
    + exists p. split; [left; reflexivity | symmetry; exact L3].
    + apply in_map_iff in L3. destruct L3 as (s & Hs & Hin).
      exists s. split; [right; exact Hin | exact Hs].
  - destruct U3 as [U3 | U3].
    + exists p. split; [left; reflexivity | symmetry; exact U3].
    + apply in_map_iff in U3. destruct U3 as (s & Hs & Hin).
      exists s. split; [right; exact Hin | exact Hs].
Qed.

(** X24.  [auto_zoom] brings everything it fits onto the screen.  On a
    widget more than 100 pixels wide and with more than 100 pixels
    under the toolbars, when the fitted points (the visible points,
    their step copies when steps are shown, the outline when it is
    shown or nothing else is there) do not all share one x nor all one
    y, the new zoom is positive and every fitted point is drawn inside
    the widget, at least 50 pixels from its border and from the
    toolbars.  Without a document, without fitted points, or when they
    all lie on one vertical or one horizontal line, the view is left as
    it is. *)
Theorem auto_zoom_on_screen (c : t) :
  (forall ld,
      les_data c = Some ld ->
      (100 < _w c)%Z -> (100 + top_y c < _h c)%Z ->
      (exists p q, In p (fit_points c ld) /\ In q (fit_points c ld)
                   /\ fst p <> fst q) ->
      (exists p q, In p (fit_points c ld) /\ In q (fit_points c ld)
                   /\ snd p <> snd q) ->
      0 < zoom_level (xml (auto_zoom c))
      /\ forall s, In s (fit_points c ld) ->
           on_screen (auto_zoom c) 50
             (world_to_screen (xml (auto_zoom c)) (fst s) (snd s)))
  /\ (les_data c = None -> auto_zoom c = c)
  /\ (forall ld,
         les_data c = Some ld ->
         (forall p q, In p (fit_points c ld) -> In q (fit_points c ld) ->
                      fst p = fst q)
         \/ (forall p q, In p (fit_points c ld) -> In q (fit_points c ld) ->
                         snd p = snd q) ->
         auto_zoom c = c).
Proof.
  split; [| split].
  - intros ld Hld Hw Hh (px & qx & Hpx & Hqx & Hdx) (py & qy & Hpy & Hqy & Hdy).
    unfold auto_zoom. rewrite Hld.
    destruct (fit_points c ld) as [| p ps] eqn:E; [destruct Hpx |].
    destruct (extent_spec fst p ps) as (Xin & _ & _).
    destruct (extent_spec snd p ps) as (Yin & _ & _).
    cbv zeta in Xin, Yin. cbv zeta.
    set (min_x := fold_left Rmin (map fst ps) (fst p)) in *.
    set (max_x := fold_left Rmax (map fst ps) (fst p)) in *.
    set (min_y := fold_left Rmin (map snd ps) (snd p)) in *.
    set (max_y := fold_left Rmax (map snd ps) (snd p)) in *.
    assert (Hbw : 0 < max_x - min_x).
    { pose proof (Xin px Hpx). pose proof (Xin qx Hqx).
      destruct (Rtotal_order (fst px) (fst qx)) as [? | [? | ?]]; lra. }
    assert (Hbh : 0 < max_y - min_y).
    { pose proof (Yin py Hpy). pose proof (Yin qy Hqy).
      destruct (Rtotal_order (snd py) (snd qy)) as [? | [? | ?]]; lra. }
    destruct (Req_dec_T (max_x - min_x) 0) as [H | _]; [lra |].
    destruct (Req_dec_T (max_y - min_y) 0) as [H | _]; [lra |].
    set (aw := IZR (_w c - 100)).
    set (ah := IZR (_h c - 100 - (toolbar_height c + xml_toolbar_height c))).
    assert (Haw : 0 < aw) by (apply IZR_lt; lia).
    assert (Hah : 0 < ah) by (apply IZR_lt; unfold top_y in Hh; lia).
    destruct (fit_zoom_facts aw ah (max_x - min_x) (max_y - min_y))
      as (Hz & Hzw & Hzh & _); try assumption.
    set (z0 := Rmin (aw / (max_x - min_x)) (ah / (max_y - min_y))) in *.
    assert (Eaw : aw = IZR (_w c) - 100).
    { unfold aw. rewrite minus_IZR. reflexivity. }
    assert (Eah : ah = IZR (_h c) - 100 - IZR (top_y c)).
    { unfold ah, top_y. rewrite !minus_IZR. reflexivity. }
    cbn [xml with_xml set_pan set_zoom zoom_level pan_offset].
    split; [lra |].
    intros s Hs. unfold on_screen, world_to_screen.
    cbn [xml with_xml set_pan set_zoom zoom_level pan_offset fst snd
         _w _h].
    change (top_y (with_xml _ c)) with (top_y c).
    rewrite !minus_IZR, plus_IZR.
    destruct (Xin s Hs) as (Hx1 & Hx2). destruct (Yin s Hs) as (Hy1 & Hy2).
    assert (Hxc : - ((max_x - min_x) * z0) / 2
                  <= (fst s - (min_x + max_x) / 2) * z0
                  <= (max_x - min_x) * z0 / 2) by (split; nra).
    assert (Hyc : - ((max_y - min_y) * z0) / 2
                  <= (snd s - (min_y + max_y) / 2) * z0
                  <= (max_y - min_y) * z0 / 2) by (split; nra).
    split; split; lra.
  - intros Hld. unfold auto_zoom. rewrite Hld. reflexivity.
  - intros ld Hld Hsame. unfold auto_zoom. rewrite Hld.
    destruct (fit_points c ld) as [| p ps] eqn:E; [reflexivity |].
    destruct (extent_spec fst p ps) as (_ & (lx & Hlx & Elx) & (ux & Hux & Eux)).
    destruct (extent_spec snd p ps) as (_ & (ly & Hly & Ely) & (uy & Huy & Euy)).
    cbv zeta in Elx, Eux, Ely, Euy. cbv zeta.
    destruct (Req_dec_T _ 0) as [_ | Hbw]; [reflexivity |].
    destruct (Req_dec_T _ 0) as [_ | Hbh]; [reflexivity |].
    exfalso. destruct Hsame as [Hsame | Hsame].
    + apply Hbw. rewrite <- Elx, <- Eux, (Hsame ux lx Hux Hlx). lra.
    + apply Hbh. rewrite <- Ely, <- Euy, (Hsame uy ly Huy Hly). lra.
Qed.

Lemma auto_zoom_on_screen_witness :
  0 < zoom_level (xml (auto_zoom ViewSamples.outline_canvas)).
Proof.
  assert (Hw : (100 < _w ViewSamples.outline_canvas)%Z) by (simpl; lia).
  assert (Hh : (100 + top_y ViewSamples.outline_canvas
                < _h ViewSamples.outline_canvas)%Z)
    by (unfold top_y; simpl; lia).
  assert (E : fit_points ViewSamples.outline_canvas ViewSamples.outline_doc
              = [q2 (0%Q, 0%Q); q2 (10%Q, 5%Q)]) by reflexivity.
  assert (N : forall a : Z, (0 < a)%Z -> Q2R 0 <> Q2R (inject_Z a)).
  { intros a Ha H. unfold Q2R in H. cbn [Qnum Qden inject_Z] in H.
    assert (H0 : IZR a = 0) by lra.
    apply eq_IZR in H0. lia. }
  refine (proj1 (proj1 (auto_zoom_on_screen ViewSamples.outline_canvas)
                   ViewSamples.outline_doc eq_refl Hw Hh _ _)).
  - exists (q2 (0%Q, 0%Q)), (q2 (10%Q, 5%Q)). rewrite E.
    split; [left; reflexivity |]. split; [right; left; reflexivity |].
    exact (N 10%Z eq_refl).
  - exists (q2 (0%Q, 0%Q)), (q2 (10%Q, 5%Q)). rewrite E.
    split; [left; reflexivity |]. split; [right; left; reflexivity |].
    exact (N 5%Z eq_refl).
Defined.

End AutoZoom.
Section LeftClick.
Import Py PanelImage XmlDrawing ViewerCanvas LesView ViewProps.
Local Open Scope list_scope.
Local Open Scope R_scope.

Lemma hypot_nonneg (a b : R) : 0 <= hypot a b.
Proof. unfold hypot. apply sqrt_pos. Qed.

Lemma nth_error_snoc_old {A : Type} (pre : list A) (p : A) (j : nat) (q : A) :
  nth_error (pre ++ [p]) j = Some q -> (j < List.length pre)%nat ->
  nth_error pre j = Some q.
Proof.
  intros H Hj. rewrite nth_error_app1 in H by exact Hj. exact H.
Qed.

Lemma nth_error_snoc_new {A : Type} (pre : list A) (p : A) :
  nth_error (pre ++ [p]) (List.length pre) = Some p.
Proof.
  rewrite nth_error_app2 by lia. rewrite Nat.sub_diag. reflexivity.
Qed.

(** The loop keeps the nearest shown point inside the radius. *)
Lemma hit_loop_spec (c : t) (w : R * R) (rest : list Point.t) :
  forall pre mind hit,
    hit_ok c w pre hit ->
    mind = match hit with
           | Some k => option_map (click_dist w) (nth_error pre k)
           | None => None
           end ->
    hit_ok c w (pre ++ rest)
           (hit_loop c (fst w) (snd w) rest (List.length pre) mind hit).
Proof.
  induction rest as [| p rest IH]; intros pre mind hit Hok Hm;
    cbn [hit_loop].
  - rewrite app_nil_r. exact Hok.
  - replace (pre ++ p :: rest) with ((pre ++ [p]) ++ rest)
      by (rewrite <- app_assoc; reflexivity).
    replace (S (List.length pre)) with (List.length (pre ++ [p]))
      by (rewrite length_app; cbn [List.length]; lia).
    fold (click_dist w p).
    assert (Keep : (shown c (Point.layer p) = true ->
                    match hit with
                    | None => ~ click_dist w p < 5 / zoom_level (xml c)
                    | Some k =>
                        forall p0, nth_error pre k = Some p0 ->
                                   click_dist w p0 <= click_dist w p
                    end) ->
                   hit_ok c w (pre ++ [p]) hit
                   /\ mind = match hit with
                             | Some k =>
                                 option_map (click_dist w)
                                            (nth_error (pre ++ [p]) k)
                             | None => None
                             end).
    { intros Hp. destruct hit as [k |]; cbn [hit_ok] in *.
      - destruct Hok as (p0 & Hk & Hs & Hd & Hall & Hbefore).
        assert (Hlt : (k < List.length pre)%nat).
        { apply nth_error_Some. rewrite Hk. discriminate. }
        split.
        + exists p0. rewrite nth_error_app1 by exact Hlt.
          split; [exact Hk |]. split; [exact Hs |]. split; [exact Hd |].
          split.
          * intros q Hq Hsq. apply in_app_or in Hq.
            destruct Hq as [Hq | [<- | []]]; [exact (Hall q Hq Hsq) |].
            exact (Hp Hsq p0 Hk).
          * intros j q Hj Hq Hsq. apply (Hbefore j q Hj); [| exact Hsq].
            apply nth_error_snoc_old with (p := p); [exact Hq | lia].
        + rewrite nth_error_app1 by exact Hlt. exact Hm.
      - split; [| exact Hm].
        intros q Hq Hsq. apply in_app_or in Hq.
        destruct Hq as [Hq | [<- | []]]; [exact (Hok q Hq Hsq) |].
        exact (Hp Hsq). }
    assert (Take : shown c (Point.layer p) = true ->
                   click_dist w p < 5 / zoom_level (xml c) ->
                   match hit with
                   | None => True
                   | Some k =>
                       forall p0, nth_error pre k = Some p0 ->
                                  click_dist w p < click_dist w p0
                   end ->
                   hit_ok c w (pre ++ [p]) (Some (List.length pre))).
    { intros Hs Hd Hnear. cbn [hit_ok]. exists p.
      split; [apply nth_error_snoc_new |]. split; [exact Hs |].
      split; [exact Hd |].
      assert (Old : forall q, In q pre -> shown c (Point.layer q) = true ->
                              click_dist w p < click_dist w q).
      { intros q Hq Hsq. destruct hit as [k |]; cbn [hit_ok] in Hok.
        - destruct Hok as (p0 & Hk & _ & _ & Hall & _).
          pose proof (Hall q Hq Hsq). pose proof (Hnear p0 Hk). lra.
        - pose proof (Hok q Hq Hsq). lra. }
      split.
      - intros q Hq Hsq. apply in_app_or in Hq.
        destruct Hq as [Hq | [<- | []]]; [| lra].
        pose proof (Old q Hq Hsq). lra.
      - intros j q Hj Hq Hsq. apply Old; [| exact Hsq].
        apply nth_error_In with (n := j).
        apply nth_error_snoc_old with (p := p); [exact Hq | exact Hj]. }
    destruct (shown c (Point.layer p)) eqn:Hs; cbn [negb].
    + destruct (Rlt_dec (click_dist w p) (5 / zoom_level (xml c)))
        as [Hd | Hd].
      * destruct mind as [m |].
        -- destruct hit as [k |]; [| discriminate Hm].
           pose proof Hok as Hok'. cbn [hit_ok] in Hok'.
           destruct Hok' as (p0 & Hk & _).
           rewrite Hk in Hm. cbn [option_map] in Hm. injection Hm as ->.
           destruct (Rlt_dec (click_dist w p) (click_dist w p0)) as [Hn | Hn].
           ++ apply IH.
              ** apply Take; [reflexivity | exact Hd |].
                 intros p1 Hp1. rewrite Hk in Hp1. injection Hp1 as <-.
                 exact Hn.
              ** rewrite nth_error_snoc_new. reflexivity.
           ++ destruct Keep as (K1 & K2).
              { intros _ p1 Hp1. rewrite Hk in Hp1. injection Hp1 as <-.
                lra. }
              apply IH; [exact K1 |].
              rewrite K2. reflexivity.
        -- destruct hit as [k |].
           { pose proof Hok as Hok'. cbn [hit_ok] in Hok'.
             destruct Hok' as (p0 & Hk & _).
             rewrite Hk in Hm. discriminate Hm. }
           apply IH.
           ++ apply Take; [reflexivity | exact Hd | exact I].
           ++ rewrite nth_error_snoc_new. reflexivity.
      * destruct Keep as (K1 & K2).
        { intros _. destruct hit as [k |]; [| exact Hd].
          intros p0 Hk. cbn [hit_ok] in Hok.
          destruct Hok as (p1 & Hk1 & _ & Hd1 & _).
          rewrite Hk in Hk1. injection Hk1 as <-. lra. }
        apply IH; [exact K1 | exact K2].
    + destruct Keep as (K1 & K2); [intros H; discriminate H |].
      apply IH; [exact K1 | exact K2].
Qed.

(** X25.  What a left click selects.  Without a document the click
    changes nothing.  With one, a zero zoom makes [screen_to_world]
    raise [ZeroDivisionError]; otherwise the canvas only gets a new
    [selected_point]: the first of the nearest shown points, when that
    one is nearer to the clicked world point than [5 / zoom_level],
    and nothing when no shown point is that near.  A point on a hidden
    layer is never selected, and with a negative zoom nothing is. *)
Theorem left_click_selects_nearest (c : t) (mx my : R) :
  (les_data c = None -> left_click c mx my = PyView.Done c)
  /\ (forall ld,
         les_data c = Some ld ->
         (zoom_level (xml c) = 0 ->
          left_click c mx my = PyView.Fail PyView.ZeroDivisionError)
         /\ (zoom_level (xml c) <> 0 ->
             exists w hit,
               screen_to_world (xml c) mx my = PyView.Done w
               /\ left_click c mx my
                  = PyView.Done (set_selected_point hit c)
               /\ hit_ok c w (Les.points ld) hit
               /\ (zoom_level (xml c) < 0 -> hit = None))).
Proof.
  split.
  - intros H. unfold left_click. rewrite H. reflexivity.
  - intros ld Hld. split.
    + intros Hz. unfold left_click, screen_to_world, PyView.div.
      rewrite Hld, Hz.
      destruct (Req_dec_T 0 0) as [_ | H]; [reflexivity |].
      contradiction H. reflexivity.
    + intros Hz.
      pose proof (screen_to_world_done (xml c) mx my Hz) as Hw.
      set (w := ((mx - fst (pan_offset (xml c))) / zoom_level (xml c),
                 (my - snd (pan_offset (xml c))) / zoom_level (xml c)))
        in Hw.
      exists w.
      exists (hit_loop c (fst w) (snd w) (Les.points ld) 0 None None).
      split; [exact Hw |]. split.
      { unfold left_click. rewrite Hld, Hw. reflexivity. }
      pose proof (hit_loop_spec c w (Les.points ld) [] None None) as Hspec.
      cbn [app List.length] in Hspec.
      assert (Hok : hit_ok c w (Les.points ld)
                      (hit_loop c (fst w) (snd w) (Les.points ld) 0 None None)).
      { apply Hspec; [| reflexivity]. cbn [hit_ok]. intros q []. }
      split; [exact Hok |].
      intros Hneg.
      destruct (hit_loop c (fst w) (snd w) (Les.points ld) 0 None None)
        as [k |]; [| reflexivity].
      cbn [hit_ok] in Hok. destruct Hok as (p & _ & _ & Hd & _).
      exfalso.
      pose proof (hypot_nonneg (Q2R (Point.x p) - fst w)
                               (Q2R (Point.y p) - snd w)) as Hn.
      unfold click_dist in Hd.
      assert (H5 : 5 / zoom_level (xml c) < 0).
      { unfold Rdiv. apply Rmult_pos_neg; [lra |].
        apply Rinv_lt_0_compat. exact Hneg. }
      lra.
Qed.

Lemma left_click_selects_nearest_witness :
  exists w hit,
    screen_to_world (xml ViewSamples.point_canvas) 3 4 = PyView.Done w
    /\ left_click ViewSamples.point_canvas 3 4
       = PyView.Done (set_selected_point hit ViewSamples.point_canvas)
    /\ hit_ok ViewSamples.point_canvas w
              [Samples.sample_point 1 2] hit
    /\ (zoom_level (xml ViewSamples.point_canvas) < 0 -> hit = None).
Proof.
  apply (proj2 (proj2 (left_click_selects_nearest
                         ViewSamples.point_canvas 3 4)
                  ViewSamples.point_doc eq_refl)).
  simpl. lra.
Defined.

End LeftClick.
Section AngleOverride.
Import Py Geometry Angles XmlDrawing ViewerCanvas LesView.
Local Open Scope string_scope.
Local Open Scope R_scope.

Lemma cosd_fmod (a : R) : cosd (fmod360 a) = cosd a.
Proof. apply cosd_congr. apply fmod360_congr. Qed.

Lemma sind_fmod (a : R) : sind (fmod360 a) = sind a.
Proof. apply sind_congr. apply fmod360_congr. Qed.

Lemma radians_plus (a b : R) : radians (a + b) = radians a + radians b.
Proof. unfold radians. field. Qed.

Lemma radians_minus (a b : R) : radians (a - b) = radians a - radians b.
Proof. unfold radians. field. Qed.

Lemma radians_90 : radians 90 = PI / 2.
Proof. unfold radians. field. Qed.

Lemma radians_180 : radians 180 = PI.
Proof. unfold radians. field. Qed.

Lemma radians_360 : radians 360 = 2 * PI.
Proof. unfold radians. field. Qed.

Lemma quarter_turn (a : R) :
  cosd (a + 90) = - sind a /\ sind (a + 90) = cosd a.
Proof.
  unfold cosd, sind. rewrite radians_plus, radians_90.
  split.
  - rewrite cos_plus, cos_PI2, sin_PI2. ring.
  - rewrite sin_plus, cos_PI2, sin_PI2. ring.
Qed.

Lemma mirror_x (a : R) :
  cosd (360 - a) = cosd a /\ sind (360 - a) = - sind a.
Proof.
  unfold cosd, sind. rewrite radians_minus, radians_360.
  split.
  - rewrite cos_minus, cos_2PI, sin_2PI. ring.
  - rewrite sin_minus, cos_2PI, sin_2PI. ring.
Qed.

Lemma mirror_y (a : R) :
  cosd (180 - a) = - cosd a /\ sind (180 - a) = sind a.
Proof.
  unfold cosd, sind. rewrite radians_minus, radians_180.
  split.
  - rewrite cos_minus, cos_PI, sin_PI. ring.
  - rewrite sin_minus, cos_PI, sin_PI. ring.
Qed.

Lemma angle_op_axis (a : R) (op : ascii) :
  marker_op (cosd a, - sind a) op
  = (cosd (angle_op a op), - sind (angle_op a op)).
Proof.
  unfold marker_op, angle_op.
  destruct (Ascii.eqb op "D").
  { rewrite cosd_fmod, sind_fmod.
    destruct (quarter_turn a) as (-> & ->). f_equal; ring. }
  destruct (Ascii.eqb op "X").
  { rewrite cosd_fmod, sind_fmod.
    destruct (mirror_x a) as (-> & ->). f_equal; ring. }
  destruct (Ascii.eqb op "Y").
  { rewrite cosd_fmod, sind_fmod.
    destruct (mirror_y a) as (-> & ->). f_equal; ring. }
  reflexivity.
Qed.

Lemma angle_ops_axis (ops : string) :
  forall a,
    marker_ops (cosd a, - sind a) ops
    = (cosd (angle_ops a ops), - sind (angle_ops a ops)).
Proof.
  induction ops as [| op ops IH]; intros a; cbn [marker_ops angle_ops].
  - reflexivity.
  - rewrite angle_op_axis. apply IH.
Qed.

Lemma angle_ops_range (ops : string) :
  forall a, 0 <= a < 360 -> 0 <= angle_ops a ops < 360.
Proof.
  induction ops as [| op ops IH]; intros a Ha; cbn [angle_ops].
  - exact Ha.
  - apply IH. unfold angle_op.
    destruct (Ascii.eqb op "D"); [apply fmod360_range |].
    destruct (Ascii.eqb op "X"); [apply fmod360_range |].
    destruct (Ascii.eqb op "Y"); [apply fmod360_range | exact Ha].
Qed.

(** The step transform of the parser moves a point as the marker loop
    of the drawing code does. *)
Lemma apply_ops_marker (point : Point.t) (ops : string) :
  forall x y l,
    q2 (fst (LesStep.apply_ops point ops (x, y, l)))
    = marker_ops (q2 (x, y)) ops.
Proof.
  induction ops as [| op ops IH]; intros x y l;
    cbn [LesStep.apply_ops marker_ops].
  - reflexivity.
  - unfold LesStep.apply_op, marker_op, q2 at 2. cbn [fst snd].
    destruct (Ascii.eqb op "D").
    { rewrite IH. unfold q2. cbn [fst snd]. rewrite Qreals.Q2R_opp. reflexivity. }
    destruct (Ascii.eqb op "X").
    { rewrite IH. unfold q2. cbn [fst snd]. rewrite Qreals.Q2R_opp. reflexivity. }
    destruct (Ascii.eqb op "Y").
    { rewrite IH. unfold q2. cbn [fst snd]. rewrite Qreals.Q2R_opp. reflexivity. }
    rewrite IH. reflexivity.
Qed.

(** X26.  The angle override of a stepped rectangle follows the step.
    [_apply_ops_to_angle] returns an angle in [0, 360).  The
    operations of a step, applied as [draw_stepped_data] and
    [LesStep.apply_transformation] apply them to coordinates, take the
    direction [(cos a, -sin a)] of the angle [a] to the direction of
    the returned angle; and the coordinates [apply_transformation]
    gives a point are those of the same operations on the point,
    moved by the offset and the distance of the step instance. *)
Theorem angle_override_follows_step (a : R) (ops : string) :
  0 <= _apply_ops_to_angle a ops < 360
  /\ marker_ops (cosd a, - sind a) ops
     = (cosd (_apply_ops_to_angle a ops), - sind (_apply_ops_to_angle a ops))
  /\ forall (st : LesStep.t) (p : Point.t) (i : Z),
       LesStep.operations st = ops ->
       let '(x, y, _) := LesStep.apply_transformation st p i in
       let m := marker_ops (q2 (Point.x p, Point.y p)) ops in
       Q2R x = fst m + Q2R (LesStep.offset_x st
                            + inject_Z i * LesStep.distance_x st)
       /\ Q2R y = snd m + Q2R (LesStep.offset_y st
                               + inject_Z i * LesStep.distance_y st).
Proof.
  split; [| split].
  - unfold _apply_ops_to_angle. apply angle_ops_range. apply fmod360_range.
  - unfold _apply_ops_to_angle.
    rewrite <- angle_ops_axis, cosd_fmod, sind_fmod. reflexivity.
  - intros st p i Hops. unfold LesStep.apply_transformation.
    pose proof (apply_ops_marker p ops (Point.x p) (Point.y p)
                  (Point.layer p)) as H.
    rewrite Hops.
    destruct (LesStep.apply_ops p ops (Point.x p, Point.y p, Point.layer p))
      as [[x y] l].
    cbn [fst] in H. cbv zeta. rewrite <- H. unfold q2. cbn [fst snd].
    rewrite !Qreals.Q2R_plus. split; reflexivity.
Qed.

Lemma angle_override_follows_step_witness :
  0 <= _apply_ops_to_angle 30 "DX" < 360.
Proof.
  exact (proj1 (angle_override_follows_step 30 "DX")).
Defined.

End AngleOverride.
